(* ===== verification/_CoqProject ===== *)
-Q . S2P
Prelude.v
GoLib.v
Json.v
JsonFuel.v
Api.v
DeepCopy.v
Kube.v
KubeRef.v
Names.v
Ring.v
Cell.v
Workload.v
Status.v
RingPublish.v
Drain.v
Reconciler.v
Passes.v
Stages.v
Footprint.v
Converge.v
Gaps.v
Interrupt.v
Teardown.v
Recover.v
Setup.v
Manager.v
Sha1.v
HashRing.v
Client.v
System.v
Contract.v
Rely.v
Interleave.v
Concurrent.v
RingRely.v
Store.v
StoreRef.v
Http.v
Url.v
Server.v
Cli.v
CliRun.v
Scenario.v
ClientScenario.v
ServerScenario.v
CliScenario.v
SystemScenario.v
ConcurrentScenario.v
