(* ===== verification/Prelude.v ===== *)
(** * distributed-cache-operator: a verification development

    The repository is a Kubernetes operator for caches sharded by client-side
    consistent hashing. Four programs play together without calling each other:
    - the operator (internal/controller, started by cmd/manager) turns a
      DistributedCache object into a Service, a StatefulSet, a ring ConfigMap and,
      on request, an isolated cell (Namespace, ResourceQuota, NetworkPolicy); it
      drains pods before a scale-down or a deletion lets them go;
    - the client library (internal/cacheclient) polls the ring ConfigMap and maps
      keys to pods;
    - tiny-cache (internal/cache, cmd/tiny-cache) is the cache server in each pod;
    - cache-cli (cmd/cache-cli) looks a key up and sends one HTTP request.

    ** How the code is modelled

    Pure functions are Rocq functions. Code that talks to the API server is a
    program of the free monad [prog] (file Kube): a tree whose nodes are the calls
    (Get, List, Update, Status().Update, Delete, CreateOrUpdate with its mutate
    function, Eventf, time.Now) and whose branches are the answers. [runs p t a]
    says that under the calls and answers of trace [t] the program returns [a];
    nothing restricts the answers, so a theorem over all runs holds for every API
    server, every stale cache and every interleaving with other controllers.
    [guarded] and [safe] are its reasoning rules. Errors are values
    ([goerror + A]); [ebind] is Go's early return, [wrapf] is fmt.Errorf with %w.
    Go integers are [Z] with explicit wrap-around ([wrap32], [wrap64]) wherever the
    code computes; maps are [gmap], nil maps and empty maps being the same to every
    read the code makes and every write being preceded by a nil guard.

    Code outside the repository enters as interfaces: [KubeLib] and [QuantityLib]
    (pure helpers of controller-runtime and apimachinery), [EventLib] (how
    controller-runtime's builder turns events into requests), [DeepLib] (deep
    copies of the embedded library types), [LRU] (hashicorp's expirable LRU), each
    a class with the documented behaviour as laws, and [NetIP] (which bracketed hosts
    are IP literals); [refKube], [refEvents], [RefDeep.lib], [refLRU] and [noLiterals]
    implement them, so that the laws can be met and
    concrete runs evaluated. sort.Slice is the class [SliceSort]: any permutation
    sorted by the comparison, ties left open, since it is not stable. Of the Go
    standard library the development models what the code uses: strconv, strings,
    time arithmetic, sort.Search, encoding/json for the ring (the whole JSON
    grammar, case-folded field names, slice reuse), crypto/sha1, net/http's mux and
    path cleaning, the path of a URL and whether net/url parses it.

    Three views of the API server are used. Theorems over [runs] leave it arbitrary.
    Theorems over [run] evaluate a program against the in-memory server of KubeRef,
    which accepts every write unless [writes_fail] says otherwise: that a pass
    succeeds, that a second pass changes nothing, that a pass cut short and run again
    leaves no trace, and the system of file System, in which a pass is one atomic
    step. Theorems over [move] (file Concurrent) take the pass apart: its calls reach
    that server one by one, each may fail before or after it took effect, the operator
    may crash between any two, and in between others act. They are proved in a
    rely-guarantee logic for programs ([rg], file Rely), used twice: for the drains
    (Interleave) and for the ring ConfigMap (RingRely). CreateOrUpdate is one call
    there: a write of somebody else between its read and its write makes the server
    refuse the latter with a conflict, which is one of the failures. What becomes of
    the clients' part of the drain contract when a ring write fails is a finding of
    its own ([shrinks_before_ring_is_published]).

    ** Files

    - Prelude: integers, automation ([dco] hints, [go_int]), strings, lists.
    - GoLib: strconv, strings, errors, time, sort. Json: the ring payload, JsonFuel:
      that the parser's fuel never decides a result. Sha1: SHA-1 with the standard's
      test vectors. Http: requests, mux, paths. Url: the parser of net/url, as far as
      whether it fails.
    - Api: the types of api/v1alpha1 and the Kubernetes objects' fields in use.
      DeepCopy: zz_generated.deepcopy.go over a heap of addresses.
    - Kube: [KubeLib], programs, runs, their rules. KubeRef: a reference
      implementation and a small in-memory API server.
    - Names, Ring (ring.go), Cell, Workload, Status, RingPublish, Drain,
      Reconciler: distributedcache_controller.go stage by stage, composed in
      [Reconcile] as the source composes them. Passes: properties of whole passes.
    - Stages, Converge: each stage, and then a whole pass, on the cooperative server:
      what it returns, what it leaves, what it does not touch. Teardown: the same for
      a pass over a cache that is being deleted. Gaps: what a scale-down does not undo
      and does not wait for. Footprint: whose objects a pass
      writes ([hsafe], the rules for programs whose answers are honest). Interrupt,
      Recover: passes cut short ([runFor]) and run again, over the equivalences
      [eqc] and [eqr] of clusters and results.
    - Setup: SetupWithManager and the rbac markers. Manager: cmd/manager, group
      registration.
    - HashRing, Client: client.go.
    - System: operator, StatefulSet controller, kubelets, users, clients and the
      clock as one transition relation, and its invariant. Contract: the drain
      contract and the completion of scale-downs and deletions.
    - Rely: the rely-guarantee logic. Interleave: the stages of a pass in it, with the
      invariant that uncovered pods are drained and the guarantee that only drained
      pods are let go. Concurrent: the operator among other writers as a transition
      relation ([World], [move]), of which the histories of System are special cases.
      RingRely: the ring ConfigMap in the same world.
    - Store, StoreRef, Server: store.go, handlers.go, server.go. Cli, CliRun:
      cmd/cache-cli and cmd/tiny-cache.
    - Scenario, ClientScenario, ServerScenario, CliScenario, SystemScenario,
      ConcurrentScenario: concrete runs, the theorems applied to them, and the runs behind the findings;
      README.md's sample lookups are recomputed through SHA-1.

    ** What is shown

    System: in every reachable state, no client that polled within the grace period
    less a second routes to a pod the StatefulSet may remove ([drain_contract]); when
    a deletion lets go of the pods, the ring is empty, every pod is drained and the
    same holds of all of them ([deletion_contract]); draining pods are out of the
    published ring; two passes a grace period apart complete a scale-down once the
    finalizer is on, and a deletion that no other finalizer holds back.
    Operator among other writers, with failing calls and crashes: a pod the
    StatefulSet does not cover has been drained ([uncovered_pods_always_drained]); at
    the call that takes the finalizer off or terminates the cell all pods have been
    ([lets_go_only_of_drained_pods]); while nobody else writes the ring, its versions
    stay monotone and identify the members ([ring_versions_survive_interleaving]), and
    each poll of a client leaves it with the ring published at that moment
    ([clients_follow_through_failures]).
    Operator, for all runs: the StatefulSet shrinks only after every doomed pod was
    seen drained for the grace period, unless the StatefulSet it shrinks is not the
    one it had read; the finalizer goes only after every pod is drained and the cell
    is gone; children are written only under the finalizer; pods are written only to
    start a drain; every live pass ends in the failure of a stage, reported under that
    stage's reason, in a failed status update, or the status of the ring it published
    with the right requeue; no call needs a permission the markers do not grant; what
    a pass writes is the cache's own. Drains last the grace period (to the second) and
    complete.
    Operator, on a cooperative server, once the finalizer is on: a pass succeeds with
    a characterised result, and repeating it at once changes nothing; a pass that is
    interrupted at any call and run again at once ends like one that was not; a pass
    over one cache leaves the objects of every other as they are; owned children wake
    their cache, cells are polled.
    Ring: the members are the servable pods in ordinal order, independent of listing
    order and sort; the payload round-trips; versions are monotone and identify the
    members along any history of publications. Mutate functions are idempotent and
    respect immutable fields; quota and termination-grace arithmetic is exact within
    bounds. Status conditions are characterised.
    Client: buildRing's arrays are sorted and paired; routing is the clockwise owner
    on the 2^32 circle; unless virtual nodes collide, clients agree and only the keys
    of leaving members move; lookups never index out of range; polling follows the
    operator.
    tiny-cache: a read returns the last accepted write or nothing; puts on every
    branch; capacity; the answers of /readyz and /healthz around the shutdown; routing
    of keys.
    Commands: a put and a get through cache-cli round-trip through a running server; a
    request goes only to the key's owner, and the program panics exactly when a put or
    a delete cannot parse its URL; the wait for a ring ends; the manager starts only
    when everything before it worked, and its servers follow the flags.
    Deep copies: equal to the original and independent of it, which is what lets the
    rest of the development treat API objects as values.
    Findings: aborted scale-downs strand pods and a failing ring write does not stop a
    scale-down (both as general laws, file Gaps), a doomed pod that comes back during
    the pass is given up undrained, an unreadable annotation blocks a deletion, a
    corrupt payload can stay, a recreated ring can be ignored, cells of equal name
    collide, the command line misses caches in cells, cuts keys at a question mark and
    panics on a key such as 100%, nothing watches the ring.

    ** Fuel and bounds

    [parse_value] takes fuel; [json_fuel s] is twice the length plus two, and
    [json_fuel_enough] shows that more fuel never changes a result. [Search_loop]
    takes [n] turns for an interval of length [n] that shrinks at each turn
    ([sort_Search_spec]). [blocks] of SHA-1 folds over the exact number of blocks.
    [waitLoop] of cache-cli takes fuel, and any above a hundred is enough
    ([cli_wait_terminates]). Every other recursion is structural. [Run] of the client
    takes the number of ticks before its context ends; the theorems hold for all of
    them. Histories of the system are shorter than 2^63 steps, so that the ring
    version does not overflow.

    ** Not modelled

    Parsing of command lines, logging, the controller-runtime manager and its work
    queue, TLS and the HTTP transport (libraries the sources only call). Resource
    versions are not fields of the objects: a conflict is one of the errors an update
    may return.

    The system ends where the operator lets go: the garbage collector and the
    namespace controller, which then remove children and cells, are Kubernetes'.

    In Concurrent the others keep to [env]: they do not write StatefulSets, do not
    change tenant and grace period of the cache (nor does the user of System), and do
    not bring back a pod that the pass under way is giving up; the last is needed, as
    the finding shows. Reads of a pass come from the server, not from a stale cache
    of it, and an error that says an object is absent is true. That clients
    are gone from a pod before it is given up is shown in System only: with failing
    ring writes it does not hold (the finding). *)

From stdpp Require Export sorting pretty numbers strings.
From stdpp Require Export base list gmap.
From Stdlib Require Ascii.
Export (notations) Stdlib.Strings.Ascii.

#[export] Set Warnings "-clear-no-such-hyp".

(** ** Machine integers

    A Go integer of width [w] is a [Z] in its range; arithmetic that can leave
    the range is followed by the explicit wrap-around below. *)

Declare Scope go_scope.
Delimit Scope go_scope with go.

Definition wrap (w z : Z) : Z :=
  ((z + 2 ^ (w - 1)) mod 2 ^ w - 2 ^ (w - 1))%Z.

Definition int_ok (w z : Z) : Prop := (- 2 ^ (w - 1) <= z < 2 ^ (w - 1))%Z.

Abbreviation wrap32 := (wrap 32).
Abbreviation wrap64 := (wrap 64).
Abbreviation int32_ok := (int_ok 32).
Abbreviation int64_ok := (int_ok 64).

Abbreviation MaxInt32 := 2147483647%Z.
Abbreviation MaxInt64 := 9223372036854775807%Z.
Abbreviation MinInt64 := (-9223372036854775808)%Z.

#[global] Instance int_ok_dec w z : Decision (int_ok w z).
Proof. unfold int_ok. apply _. Defined.

Lemma wrap_id w z : (0 < w)%Z → int_ok w z → wrap w z = z.
Proof.
  unfold wrap, int_ok. intros Hw Hz.
  assert (2 ^ w = 2 * 2 ^ (w - 1))%Z as Hp.
  { rewrite <- Z.pow_succ_r by lia. f_equal. lia. }
  rewrite Z.mod_small; lia.
Qed.

Lemma wrap_ok w z : (0 < w)%Z → int_ok w (wrap w z).
Proof.
  unfold wrap, int_ok. intros Hw.
  assert (2 ^ w = 2 * 2 ^ (w - 1))%Z as Hp.
  { rewrite <- Z.pow_succ_r by lia. f_equal. lia. }
  pose proof (Z.mod_pos_bound (z + 2 ^ (w - 1)) (2 ^ w)). lia.
Qed.

Lemma wrap32_id z : int32_ok z → wrap32 z = z.
Proof. by apply wrap_id. Qed.

Lemma wrap64_id z : int64_ok z → wrap64 z = z.
Proof. by apply wrap_id. Qed.

(** ** Automation

    [dco] collects the lemmas that close the routine side conditions; the
    tactic [go_int] unfolds the integer ranges and calls [lia]. *)

Create HintDb dco.
Create Rewrite HintDb dco.
#[export] Hint Resolve wrap32_id wrap64_id : dco.
#[export] Hint Extern 1 (_ ∈ _) => set_solver : dco.

Ltac go_int :=
  unfold int_ok in *;
  change (2 ^ (32 - 1))%Z with 2147483648%Z in *;
  change (2 ^ (64 - 1))%Z with 9223372036854775808%Z in *;
  lia.

(** Case analysis on the innermost scrutinee of the goal or of a hypothesis. *)
Ltac case_goal :=
  match goal with
  | |- context [match ?x with _ => _ end] =>
      lazymatch x with context [match _ with _ => _ end] => fail | _ => destruct x eqn:? end
  end.

(** ** Strings *)

Lemma string_app_nil_r (s : string) : s +:+ "" = s.
Proof. induction s as [|c s IH]; [done|]. change (String c (s +:+ "") = String c s). by rewrite IH. Qed.

Lemma string_app_cons c (s1 s2 : string) : String c s1 +:+ s2 = String c (s1 +:+ s2).
Proof. done. Qed.

Lemma string_app_nil_l (s : string) : "" +:+ s = s.
Proof. done. Qed.

Lemma string_app_assoc (s1 s2 s3 : string) : s1 +:+ (s2 +:+ s3) = (s1 +:+ s2) +:+ s3.
Proof. induction s1 as [|c s1 IH]; [done|]. by rewrite !string_app_cons, IH. Qed.

Lemma string_length_app (s1 s2 : string) :
  String.length (s1 +:+ s2) = (String.length s1 + String.length s2)%nat.
Proof. induction s1 as [|c s1 IH]; [done|]. rewrite string_app_cons. simpl. by rewrite IH. Qed.

Lemma string_app_inj_r (s s1 s2 : string) : s1 +:+ s = s2 +:+ s → s1 = s2.
Proof.
  revert s2. induction s1 as [|c1 s1 IH]; intros [|c2 s2] H; [done| | |].
  - apply (f_equal String.length) in H. rewrite !string_length_app in H. simpl in H. lia.
  - apply (f_equal String.length) in H. rewrite !string_length_app in H. simpl in H. lia.
  - rewrite !string_app_cons in H. injection H as -> H. by rewrite (IH s2).
Qed.

#[export] Hint Rewrite string_app_cons string_app_nil_l string_app_nil_r string_length_app : dco.

(** Characters of a string satisfy [P]. *)
Fixpoint str_forall (P : Ascii.ascii → bool) (s : string) : bool :=
  match s with
  | EmptyString => true
  | String c s => P c && str_forall P s
  end.

Lemma str_forall_app P s1 s2 :
  str_forall P (s1 +:+ s2) = str_forall P s1 && str_forall P s2.
Proof.
  induction s1 as [|c s1 IH]; [done|].
  rewrite string_app_cons. simpl. by rewrite IH, andb_assoc.
Qed.

Lemma str_forall_impl (P Q : Ascii.ascii → bool) s :
  (∀ c, P c = true → Q c = true) → str_forall P s = true → str_forall Q s = true.
Proof.
  intros HPQ. induction s as [|c s IH]; [done|]. simpl.
  intros [Hc Hs]%andb_true_iff. by rewrite HPQ, IH.
Qed.

(** ** Lists *)

Lemma StronglySorted_filter {A} (R : relation A) (P : A → Prop) `{∀ x, Decision (P x)} l :
  StronglySorted R l → StronglySorted R (filter P l).
Proof.
  induction 1 as [|x l _ IH Hx]; [constructor|].
  rewrite filter_cons. case_decide; [|done].
  constructor; [done|]. apply Forall_forall. intros y [_ Hy]%list_elem_of_filter.
  by eapply Forall_forall in Hx.
Qed.

Lemma StronglySorted_lookup {A} (R : relation A) l i j x y :
  StronglySorted R l → l !! i = Some x → l !! j = Some y → i < j → R x y.
Proof.
  intros Hs. revert i j. induction Hs as [|z l _ IH Hz]; intros i j; [done|].
  destruct i as [|i], j as [|j]; simpl; intros Hi Hj Hij; [lia| |lia|].
  - simplify_eq. eapply Forall_forall in Hz; [done|]. by eapply list_elem_of_lookup_2.
  - apply (IH i j); [done..|lia].
Qed.
