(* ===== verification/GoLib.v ===== *)
(** * The parts of Go's standard library the operator uses

    [strconv] (FormatInt, ParseInt, Atoi), [strings] (LastIndex, HasPrefix,
    TrimPrefix, Contains), [time] (Unix, Sub, Duration.String for whole
    seconds), [sort] (Slice as an interface with its documented contract,
    Search as the library's loop) and [error] values with wrapping. *)

From S2P Require Import Prelude.

Local Open Scope Z_scope.

(** ** strconv *)

Definition digit_val (c : Ascii.ascii) : option Z :=
  let n := Z.of_N (Ascii.N_of_ascii c) in
  if (48 <=? n) && (n <=? 57) then Some (n - 48) else None.

Fixpoint parse_digits (s : string) (acc : Z) : option Z :=
  match s with
  | EmptyString => Some acc
  | String c s => match digit_val c with
                  | Some d => parse_digits s (acc * 10 + d)
                  | None => None
                  end
  end.

(** The unsigned part: at least one decimal digit and nothing else. *)
Definition parse_udec (s : string) : option Z :=
  match s with EmptyString => None | _ => parse_digits s 0 end.

(** [strconv.ParseInt(s, 10, 64)]; [None] is a non-nil error. *)
Definition ParseInt (s : string) : option Z :=
  match s with
  | EmptyString => None
  | String "-"%char r => v ← parse_udec r; if v <=? 2 ^ 63 then Some (- v) else None
  | String "+"%char r => v ← parse_udec r; if v <? 2 ^ 63 then Some v else None
  | _ => v ← parse_udec s; if v <? 2 ^ 63 then Some v else None
  end.

(** [strconv.Atoi] on a 64-bit platform. *)
Definition Atoi (s : string) : option Z := ParseInt s.

(** [strconv.FormatInt(n, 10)], also [fmt]'s [%d]. *)
Definition FormatInt (n : Z) : string := pretty n.

Definition is_digit (c : Ascii.ascii) : bool :=
  match digit_val c with Some _ => true | None => false end.

Lemma digit_val_pretty x : (x < 10)%N → digit_val (pretty_N_char x) = Some (Z.of_N x).
Proof.
  intros Hx. assert (x ∈ [0;1;2;3;4;5;6;7;8;9]%N) as Hin.
  { assert (x = 0 ∨ x = 1 ∨ x = 2 ∨ x = 3 ∨ x = 4 ∨ x = 5 ∨ x = 6 ∨ x = 7 ∨ x = 8 ∨ x = 9)%N
      as H by lia. repeat (destruct H as [->|H]; [set_solver|]). subst. set_solver. }
  repeat (apply elem_of_cons in Hin as [->|Hin]; [reflexivity|]). by apply not_elem_of_nil in Hin.
Qed.

(** Digits written by [pretty_N_go] in front of [s] read back as [x]. *)
Lemma parse_digits_pretty_go x s acc :
  parse_digits (pretty_N_go x s) acc
  = parse_digits s (acc * 10 ^ (Z.of_nat (String.length (pretty_N_go x "")))
                    + Z.of_N x).
Proof.
  revert s acc. induction (N.lt_wf_0 x) as [x _ IH]. intros s acc.
  destruct (decide (x = 0)%N) as [->|Hx].
  { rewrite !pretty_N_go_0. cbn [String.length Z.of_nat]. f_equal. lia. }
  rewrite (pretty_N_go_step x s), (pretty_N_go_step x "") by lia.
  assert (x `div` 10 < x)%N as Hlt by (apply N.div_lt; lia).
  assert (∀ y s, String.length (pretty_N_go y s)
                 = (String.length (pretty_N_go y "") + String.length s)%nat) as Hlen.
  { clear. intros y. induction (N.lt_wf_0 y) as [y _ IH]. intros s.
    destruct (decide (y = 0)%N) as [->|Hy]; [by rewrite !pretty_N_go_0|].
    assert (y `div` 10 < y)%N as Hlt by (apply N.div_lt; lia).
    rewrite (pretty_N_go_step y s), (pretty_N_go_step y "") by lia.
    rewrite (IH _ Hlt (String _ s)), (IH _ Hlt (String _ "")).
    simpl. lia. }
  rewrite IH by done. rewrite (Hlen _ (String _ "")). simpl.
  rewrite digit_val_pretty by (apply N.mod_lt; lia). f_equal.
  rewrite Nat2Z.inj_add, Z.pow_add_r by lia. change (10 ^ Z.of_nat 1) with 10.
  pose proof (f_equal Z.of_N (N.div_mod x 10 ltac:(lia))) as Hdm.
  rewrite N2Z.inj_add, N2Z.inj_mul in Hdm. lia.
Qed.

Lemma parse_udec_pretty (p : positive) : parse_udec (pretty_N_go (Npos p) "") = Some (Zpos p).
Proof.
  assert (pretty_N_go (Npos p) "" ≠ "") as Hne.
  { intros H. pose proof (parse_digits_pretty_go (Npos p) "" 0) as Hp.
    rewrite H in Hp. simpl in Hp. simplify_eq. }
  pose proof (parse_digits_pretty_go (Npos p) "" 0) as Hp. simpl in Hp.
  unfold parse_udec. by destruct (pretty_N_go _ _).
Qed.

Lemma parse_digits_head_digit c s acc v :
  parse_digits (String c s) acc = Some v → is_digit c = true.
Proof. unfold is_digit. simpl. by destruct (digit_val c). Qed.

Lemma ParseInt_digit c s :
  is_digit c = true →
  ParseInt (String c s) = v ← parse_udec (String c s); if v <? 2 ^ 63 then Some v else None.
Proof. destruct c as [[][][][][][][][]]; try discriminate; reflexivity. Qed.

(** Printing then parsing an [int64] in base ten gives it back. *)
Lemma ParseInt_FormatInt n : int64_ok n → ParseInt (FormatInt n) = Some n.
Proof.
  unfold FormatInt. intros Hn. destruct n as [|p|p]; [done| |].
  - change (pretty (Zpos p)) with (pretty_N_go (Npos p) "").
    pose proof (parse_udec_pretty p) as Hp.
    destruct (pretty_N_go (N.pos p) "") as [|c s] eqn:E; [done|].
    rewrite ParseInt_digit by (eapply parse_digits_head_digit; exact Hp).
    rewrite Hp. simpl. case_match eqn:Hlt; [done|]. go_int.
  - change (pretty (Zneg p)) with ("-" +:+ pretty_N_go (Npos p) "").
    rewrite string_app_cons, string_app_nil_l. simpl. rewrite parse_udec_pretty. simpl.
    case_match eqn:Hlt; [done|]. go_int.
Qed.

Lemma parse_digits_nonneg s acc v : 0 <= acc → parse_digits s acc = Some v → 0 <= v.
Proof.
  revert acc. induction s as [|c s IH]; simpl; intros acc Hacc; [by intros [= <-]|].
  destruct (digit_val c) as [d|] eqn:Hd; [|done]. apply IH.
  unfold digit_val in Hd. case_match; simplify_eq. lia.
Qed.

Lemma parse_udec_nonneg s v : parse_udec s = Some v → 0 <= v.
Proof. destruct s; [done|]. by apply parse_digits_nonneg. Qed.

(** What [ParseInt] accepts fits the type. *)
Lemma ParseInt_ok s n : ParseInt s = Some n → int64_ok n.
Proof.
  assert (∀ r n, parse_udec r ≫= (λ v, if v <? 2 ^ 63 then Some v else None) = Some n → int64_ok n)
    as Hu.
  { intros r m H. destruct (parse_udec r) as [v|] eqn:Hv; [|done]. simpl in H.
    apply parse_udec_nonneg in Hv. case_match; simplify_eq. go_int. }
  destruct s as [|c s]; [done|]. unfold ParseInt.
  destruct (decide (c = "-"%char)) as [->|Hm].
  { destruct (parse_udec s) as [v|] eqn:Hv; [|done]. simpl.
    apply parse_udec_nonneg in Hv. case_match; intros [= <-]. go_int. }
  destruct (decide (c = "+"%char)) as [->|Hp]; [by apply Hu|].
  intros H. apply (Hu (String c s)). rewrite <- H.
  destruct c as [[][][][][][][][]]; done.
Qed.

Lemma FormatInt_inj : Inj (=) (=) FormatInt.
Proof. unfold FormatInt. apply _. Qed.
#[export] Existing Instance FormatInt_inj.

(** The digits [pretty] writes: all digits, the first one not zero. *)
Lemma pretty_N_go_digits x s :
  (0 < x)%N → ∃ c t, pretty_N_go x s = String c (t +:+ s) ∧ is_digit c = true ∧
    c ≠ "0"%char ∧ str_forall is_digit t = true.
Proof.
  revert s. induction (N.lt_wf_0 x) as [x _ IH]. intros s Hx.
  rewrite pretty_N_go_step by done.
  assert (∀ y, (y < 10)%N → is_digit (pretty_N_char y) = true) as Hdig.
  { intros y Hy. unfold is_digit. by rewrite digit_val_pretty. }
  assert (x `mod` 10 < 10)%N as Hm by (apply N.mod_lt; lia).
  destruct (decide (x `div` 10 = 0)%N) as [Hz|Hz].
  - rewrite Hz, pretty_N_go_0. exists (pretty_N_char (x `mod` 10)), "".
    split_and!; [done|by apply Hdig| |done]. change "0"%char with (pretty_N_char 0).
    intros Heq. apply pretty_N_char_inj in Heq; [|done|done].
    pose proof (N.div_mod x 10 ltac:(lia)). lia.
  - assert (x `div` 10 < x)%N as Hlt by (apply N.div_lt; lia).
    destruct (IH (x `div` 10)%N Hlt
                 (String (pretty_N_char (x `mod` 10)) s)) as (c & t & -> & Hc & Hc0 & Ht); [by apply N.neq_0_lt_0|].
    exists c, (t +:+ String (pretty_N_char (x `mod` 10)) "").
    split_and!; [by rewrite <- string_app_assoc|done|done|].
    rewrite str_forall_app, Ht. simpl. by rewrite Hdig.
Qed.

(** ** strings (byte strings) *)

Abbreviation len := String.length.

(** [strings.LastIndex(s, "<c>")] for a one-byte separator. *)
Fixpoint LastIndex (s : string) (c : Ascii.ascii) : Z :=
  match s with
  | EmptyString => -1
  | String x r => let i := LastIndex r c in
                  if 0 <=? i then i + 1
                  else if bool_decide (x = c) then 0 else -1
  end.

(** [s[n:]] *)
Fixpoint slice_from (s : string) (n : nat) : string :=
  match n, s with
  | O, _ => s
  | S n, String _ r => slice_from r n
  | S _, EmptyString => ""
  end.

Fixpoint HasPrefix (s p : string) : bool :=
  match p, s with
  | EmptyString, _ => true
  | String a p, String b s => bool_decide (a = b) && HasPrefix s p
  | String _ _, EmptyString => false
  end.

Definition TrimPrefix (s p : string) : string :=
  if HasPrefix s p then slice_from s (len p) else s.

(** [strings.Contains(s, "<c>")] for a one-byte substring. *)
Definition ContainsByte (s : string) (c : Ascii.ascii) : bool :=
  0 <=? LastIndex s c.

Lemma slice_from_app (p s : string) : slice_from (p +:+ s) (len p) = s.
Proof. induction p as [|c p IH]; [by destruct s|]. rewrite string_app_cons. done. Qed.

Lemma HasPrefix_app (p s : string) : HasPrefix (p +:+ s) p = true.
Proof.
  induction p as [|c p IH]; [by destruct s|]. rewrite string_app_cons. simpl.
  by rewrite bool_decide_true.
Qed.

Lemma HasPrefix_iff (s p : string) : HasPrefix s p = true ↔ ∃ r, s = p +:+ r.
Proof.
  split.
  - revert s. induction p as [|c p IH]; intros s; [by exists s|].
    destruct s as [|c' s]; [done|]. simpl. intros [?%bool_decide_eq_true Hp]%andb_true_iff.
    subst. destruct (IH _ Hp) as [r ->]. exists r. done.
  - intros [r ->]. apply HasPrefix_app.
Qed.

Lemma TrimPrefix_app (p s : string) : TrimPrefix (p +:+ s) p = s.
Proof. unfold TrimPrefix. by rewrite HasPrefix_app, slice_from_app. Qed.

Definition no_byte (c : Ascii.ascii) (s : string) : bool :=
  str_forall (λ x, negb (bool_decide (x = c))) s.

Lemma LastIndex_bound s c : -1 <= LastIndex s c < Z.of_nat (len s).
Proof. induction s as [|x s IH]; simpl; [lia|]. repeat case_match; lia. Qed.

Lemma LastIndex_absent s c : no_byte c s = true ↔ LastIndex s c = -1.
Proof.
  unfold no_byte. induction s as [|x s IH]; simpl; [done|].
  pose proof (LastIndex_bound s c). rewrite andb_true_iff, IH.
  case_bool_decide; simpl; case_match; split; intuition (lia || done).
Qed.

Lemma ContainsByte_false s c : ContainsByte s c = false ↔ no_byte c s = true.
Proof.
  rewrite LastIndex_absent. unfold ContainsByte. pose proof (LastIndex_bound s c). lia.
Qed.

(** The last separator of [p ++ c ++ s] is the one between [p] and [s] when [s]
    has none. *)
Lemma LastIndex_app p c s :
  no_byte c s = true → LastIndex (p +:+ String c s) c = Z.of_nat (len p).
Proof.
  intros Hs. apply LastIndex_absent in Hs. induction p as [|x p IH].
  - rewrite string_app_nil_l. simpl. rewrite Hs. simpl. by rewrite bool_decide_true.
  - rewrite string_app_cons. simpl. rewrite IH.
    case_match; lia.
Qed.

(** Conversely the string splits at its last separator. *)
Lemma LastIndex_split s c i :
  LastIndex s c = Z.of_nat i →
  ∃ p, len p = i ∧ s = p +:+ String c (slice_from s (S i)) ∧
       no_byte c (slice_from s (S i)) = true.
Proof.
  revert i. induction s as [|x s IH]; intros i; simpl; [lia|].
  pose proof (LastIndex_bound s c). case_match.
  - intros Hi. destruct (IH (pred i)) as (p & Hlen & Hs & Hn); [lia|].
    destruct i as [|i]; [lia|]. simpl in *. exists (String x p).
    split; [simpl; lia|]. split; [|done]. rewrite string_app_cons. by f_equal.
  - case_bool_decide; [|lia]. intros Hi. assert (i = 0)%nat as -> by lia. subst.
    exists "". split; [done|]. replace (slice_from s 0) with s by (by destruct s).
    split; [done|]. apply LastIndex_absent. lia.
Qed.

Lemma FormatInt_digits n : 0 <= n → str_forall is_digit (FormatInt n) = true.
Proof.
  intros Hn. destruct n as [|p|p]; [done| |lia].
  destruct (pretty_N_go_digits (Npos p) "" ltac:(lia)) as (c & t & Hp & Hc & _ & Ht).
  change (FormatInt (Zpos p)) with (pretty_N_go (Npos p) ""). rewrite Hp, string_app_nil_r.
  simpl. by rewrite Hc, Ht.
Qed.

Lemma FormatInt_no_dash n : 0 <= n → no_byte "-"%char (FormatInt n) = true.
Proof.
  intros Hn. apply (str_forall_impl is_digit); [|by apply FormatInt_digits].
  by intros [[][][][][][][][]].
Qed.

Lemma FormatInt_nonempty n : FormatInt n ≠ "".
Proof.
  destruct n as [|p|p]; [done| |done].
  destruct (pretty_N_go_digits (Npos p) "" ltac:(lia)) as (c & t & Hp & _).
  change (FormatInt (Zpos p)) with (pretty_N_go (Npos p) ""). by rewrite Hp.
Qed.

(** ** Errors

    [ApiError] is an error returned by the Kubernetes client, with the
    classification [apierrors.IsNotFound] looks at; [Wrapf] is
    [fmt.Errorf("<ctx>: %w", err)], which keeps the classification. *)

Inductive goerror : Type :=
  | ApiError (notFound : bool) (msg : string)
  | Wrapf (ctx : string) (e : goerror).

Fixpoint Error (e : goerror) : string :=
  match e with
  | ApiError _ msg => msg
  | Wrapf ctx e => ctx +:+ ": " +:+ Error e
  end.

Fixpoint IsNotFound (e : goerror) : bool :=
  match e with
  | ApiError nf _ => nf
  | Wrapf _ e => IsNotFound e
  end.

#[global] Instance goerror_eq_dec : EqDecision goerror.
Proof. solve_decision. Defined.

(** ** time

    A [time.Time] is its internal seconds (since year 1) and nanoseconds;
    durations are [int64] nanoseconds. *)

Definition Second : Z := 1000000000.
Definition unixToInternal : Z := 62135596800.

Record Time := mkTime { t_sec : Z; t_nsec : Z }.

(** [time.Unix(sec, 0)] *)
Definition time_Unix (sec : Z) : Time := mkTime (wrap64 (sec + unixToInternal)) 0.

(** [t.Unix()] *)
Definition t_Unix (t : Time) : Z := wrap64 (t_sec t - unixToInternal).

Definition clamp64 (z : Z) : Z := Z.max MinInt64 (Z.min MaxInt64 z).

(** [t.Sub(u)]: the exact difference, saturated to the range of a duration. *)
Definition t_Sub (t u : Time) : Z :=
  clamp64 ((t_sec t - t_sec u) * Second + (t_nsec t - t_nsec u)).

(** A wall-clock reading between 1970 and the year 2^32 or so. *)
Definition sane_time (t : Time) : Prop :=
  unixToInternal <= t_sec t < unixToInternal + 2 ^ 40 ∧ 0 <= t_nsec t < Second.

Lemma t_Unix_sane t : sane_time t → t_Unix t = t_sec t - unixToInternal ∧ 0 <= t_Unix t < 2 ^ 40.
Proof.
  unfold sane_time, t_Unix, unixToInternal. intros [? _]. rewrite wrap64_id; [lia|]. go_int.
Qed.

(** A time stamp taken at [t] and read back at a later [u] is at most the true
    elapsed time plus the dropped fraction of a second. *)
Lemma t_Sub_Unix t u :
  sane_time t → sane_time u →
  t_Sub u (time_Unix (t_Unix t)) =
    clamp64 ((t_sec u - t_sec t) * Second + t_nsec u).
Proof.
  intros Ht Hu. pose proof (t_Unix_sane t Ht) as [Heq Hb].
  unfold t_Sub, time_Unix. simpl. rewrite Heq.
  rewrite wrap64_id by (destruct Ht; unfold unixToInternal in *; go_int).
  f_equal. lia.
Qed.

(** [Duration.String] of a whole number of seconds. *)
Definition DurationSeconds_String (secs : Z) : string :=
  if bool_decide (secs = 0) then "0s" else
  let a := Z.abs secs in
  let h := a / 3600 in let m := (a / 60) mod 60 in let s := a mod 60 in
  (if secs <? 0 then "-" else "") +:+
  (if 0 <? h then FormatInt h +:+ "h" else "") +:+
  (if 0 <? a / 60 then FormatInt m +:+ "m" else "") +:+
  FormatInt s +:+ "s".

(** ** sort

    [sort.Slice] promises a permutation sorted by [less]; it is not stable, so
    the order of equal elements is left open. Every client theorem is proved
    for an arbitrary implementation of the contract. *)

Record strict_weak {A} (less : A → A → bool) : Prop := {
  sw_irrefl : ∀ x, less x x = false;
  sw_trans : ∀ x y z, less x y = true → less y z = true → less x z = true;
  sw_incomp : ∀ x y z, less x z = true → less x y = true ∨ less y z = true
}.

Class SliceSort := {
  sort_Slice : ∀ {A : Type}, (A → A → bool) → list A → list A;
  sort_Slice_perm : ∀ {A} (less : A → A → bool) l, sort_Slice less l ≡ₚ l;
  sort_Slice_sorted : ∀ {A} (less : A → A → bool) l, strict_weak less →
    StronglySorted (λ x y, less y x = false) (sort_Slice less l)
}.

Lemma strict_weak_key {A} (key : A → Z) : strict_weak (λ x y, key x <? key y).
Proof. split; intros; lia. Qed.

Lemma sort_Slice_key `{SliceSort} {A} (key : A → Z) l :
  StronglySorted (λ x y, key x <= key y) (sort_Slice (λ x y, key x <? key y) l).
Proof.
  pose proof (sort_Slice_sorted _ l (strict_weak_key key)) as Hs.
  induction Hs as [|x l' _ IH Hx]; constructor; [done|].
  eapply Forall_impl; [exact Hx|]. simpl. intros y Hy. lia.
Qed.

(** Merge sort fulfils the contract. *)
Definition less_le {A} (less : A → A → bool) : relation A := λ x y, less y x = false.

#[global] Instance less_le_dec {A} (less : A → A → bool) x y : Decision (less_le less x y).
Proof. unfold less_le. apply _. Defined.

Lemma less_le_trans {A} (less : A → A → bool) : strict_weak less → Transitive (less_le less).
Proof.
  intros Hsw x y z. unfold less_le. intros Hxy Hyz. destruct (less z x) eqn:E; [|done].
  destruct (sw_incomp _ Hsw z y x E); congruence.
Qed.

Lemma less_le_total {A} (less : A → A → bool) : strict_weak less → Total (less_le less).
Proof.
  intros Hsw x y. unfold less_le. destruct (less y x) eqn:E; [right|by left].
  destruct (less x y) eqn:E'; [|done].
  pose proof (sw_trans _ Hsw _ _ _ E E'). by rewrite (sw_irrefl _ Hsw) in *.
Qed.

#[refine] Definition merge_SliceSort : SliceSort := {|
  sort_Slice A less := merge_sort (less_le less)
|}.
Proof.
  - intros. apply merge_sort_Permutation.
  - intros A less l Hsw.
    pose proof (less_le_trans less Hsw). pose proof (less_le_total less Hsw).
    apply (StronglySorted_merge_sort (less_le less)).
Defined.

(** [sort.Search]: the library's binary search loop. The interval shrinks at
    every turn, so [n] turns are enough. *)
Fixpoint Search_loop (fuel : nat) (f : Z → bool) (i j : Z) : Z :=
  match fuel with
  | O => i
  | S fuel => if i <? j then
                let h := Z.shiftr (i + j) 1 in
                if f h then Search_loop fuel f i h else Search_loop fuel f (h + 1) j
              else i
  end.

Definition sort_Search (n : Z) (f : Z → bool) : Z := Search_loop (Z.to_nat n) f 0 n.

Lemma Search_loop_spec fuel f n i j :
  0 <= i <= j → j <= n → j - i <= Z.of_nat fuel →
  (∀ a b, 0 <= a <= b → b < n → f a = true → f b = true) →
  (∀ a, 0 <= a < i → f a = false) → (∀ b, j <= b < n → f b = true) →
  let r := Search_loop fuel f i j in
  i <= r <= j ∧ (∀ a, 0 <= a < r → f a = false) ∧ (∀ b, r <= b < n → f b = true).
Proof.
  revert i j. induction fuel as [|fuel IH]; intros i j Hij Hjn Hfuel Hmono Hlo Hhi; simpl.
  { split_and!; [lia|lia| |]; [|intros; apply Hhi; lia]. intros; apply Hlo; lia. }
  destruct (i <? j) eqn:E.
  - rewrite Z.shiftr_div_pow2 by lia. change (2 ^ 1) with 2.
    assert (i <= (i + j) / 2 < j) as Hh.
    { split; [apply Z.div_le_lower_bound; lia|apply Z.div_lt_upper_bound; lia]. }
    set (h := (i + j) / 2) in *. destruct (f h) eqn:Ef.
    + destruct (IH i h) as (? & ? & ?); [lia|lia|lia|done|done| |split_and!; [lia..|done|done]].
      intros b Hb. by apply (Hmono h b); [lia|lia|].
    + destruct (IH (h + 1) j) as (? & ? & ?); [lia|lia|lia|done| |done|split_and!; [lia..|done|done]].
      intros a Ha. destruct (f a) eqn:Ea; [|done].
      by rewrite (Hmono a h) in Ef by (lia || done).
  - assert (i = j) as -> by lia. split_and!; [lia|lia|done|done].
Qed.

(** For a predicate that stays true once it is true, [sort.Search] returns the
    least index where it holds, or [n]. *)
Lemma sort_Search_spec n f :
  0 <= n → (∀ a b, 0 <= a <= b → b < n → f a = true → f b = true) →
  0 <= sort_Search n f <= n ∧ (∀ a, 0 <= a < sort_Search n f → f a = false) ∧
  (∀ b, sort_Search n f <= b < n → f b = true).
Proof. intros Hn Hm. apply (Search_loop_spec _ f n 0 n); [lia|lia|lia|done|lia|lia]. Qed.
