(* ===== verification/Json.v ===== *)
(** * encoding/json, as far as the ring payload needs it

    [MarshalRing] is [json.Marshal] of the two-field ring struct;
    [UnmarshalRing] is [json.Unmarshal] into it: the full JSON grammar
    (whitespace, nesting limit, numbers, escapes with surrogate pairs), the
    case-folding match of field names, unknown fields skipped, [null] as a
    no-op, repeated keys and the reuse of the slice's backing array, and type
    errors. Byte strings are taken as they are outside the ASCII range: the API
    server stores ConfigMap data as valid UTF-8, for which Go does the same. *)

From S2P Require Import Prelude GoLib.

Local Open Scope Z_scope.

Definition dq : Ascii.ascii := "034"%char.
Definition bs : Ascii.ascii := "092"%char.

Definition code (c : Ascii.ascii) : Z := Z.of_N (Ascii.N_of_ascii c).
Definition chr (z : Z) : Ascii.ascii := Ascii.ascii_of_N (Z.to_N z).
Definition ch1 (c : Ascii.ascii) : string := String c "".

(** ** Encoding *)

Definition hex_digit (n : Z) : Ascii.ascii := if n <? 10 then chr (48 + n) else chr (87 + n).

(** One byte of a string literal, HTML escaping on (as [json.Marshal]). *)
Definition escape_char (c : Ascii.ascii) : string :=
  let n := code c in
  if bool_decide (n = 34) || bool_decide (n = 92) then String bs (ch1 c)
  else if bool_decide (n = 8) then String bs "b"
  else if bool_decide (n = 12) then String bs "f"
  else if bool_decide (n = 10) then String bs "n"
  else if bool_decide (n = 13) then String bs "r"
  else if bool_decide (n = 9) then String bs "t"
  else if (n <? 32) || bool_decide (n = 60) || bool_decide (n = 62) || bool_decide (n = 38) then
    String bs ("u00" +:+ String (hex_digit (n / 16)) (ch1 (hex_digit (n mod 16))))
  else ch1 c.

Fixpoint escape (s : string) : string :=
  match s with
  | EmptyString => ""
  | String c s => escape_char c +:+ escape s
  end.

Definition quote (s : string) : string := String dq (escape s +:+ ch1 dq).

Fixpoint join (sep : string) (l : list string) : string :=
  match l with
  | [] => ""
  | [x] => x
  | x :: l => x +:+ sep +:+ join sep l
  end.

(** [json.Marshal(Ring{Version: v, Members: ms})], [ms] non-nil. *)
Definition MarshalRing (v : Z) (ms : list string) : string :=
  "{" +:+ quote "version" +:+ ":" +:+ FormatInt v +:+ "," +:+
  quote "members" +:+ ":[" +:+ join "," (quote <$> ms) +:+ "]}".

(** ** Syntax *)

#[warnings="-register-all"]
Inductive json : Type :=
  | JNull
  | JBool (b : bool)
  | JNum (lit : string)
  | JStr (s : string)
  | JArr (l : list json)
  | JObj (l : list (string * json)).

Definition is_ws (c : Ascii.ascii) : bool :=
  let n := code c in
  bool_decide (n = 32) || bool_decide (n = 9) || bool_decide (n = 10) || bool_decide (n = 13).

Fixpoint skip_ws (s : string) : string :=
  match s with
  | String c r => if is_ws c then skip_ws r else s
  | EmptyString => ""
  end.

Definition hex_val (c : Ascii.ascii) : option Z :=
  let n := code c in
  if (48 <=? n) && (n <=? 57) then Some (n - 48)
  else if (97 <=? n) && (n <=? 102) then Some (n - 87)
  else if (65 <=? n) && (n <=? 70) then Some (n - 55)
  else None.

Definition hex4 (a b c d : Ascii.ascii) : option Z :=
  match hex_val a, hex_val b, hex_val c, hex_val d with
  | Some a, Some b, Some c, Some d => Some (((a * 16 + b) * 16 + c) * 16 + d)
  | _, _, _, _ => None
  end.

(** [utf8.EncodeRune] *)
Definition utf8 (r : Z) : string :=
  if r <? 128 then ch1 (chr r)
  else if r <? 2048 then String (chr (192 + r / 64)) (ch1 (chr (128 + r mod 64)))
  else if r <? 65536 then
    String (chr (224 + r / 4096)) (String (chr (128 + (r / 64) mod 64)) (ch1 (chr (128 + r mod 64))))
  else String (chr (240 + r / 262144)) (String (chr (128 + (r / 4096) mod 64))
         (String (chr (128 + (r / 64) mod 64)) (ch1 (chr (128 + r mod 64))))).

Definition is_surrogate (r : Z) : bool := (55296 <=? r) && (r <? 57344).

(** [utf16.DecodeRune] of two halves, if they form a pair. *)
Definition decode_pair (r1 r2 : Z) : option Z :=
  if (55296 <=? r1) && (r1 <? 56320) && (56320 <=? r2) && (r2 <? 57344)
  then Some ((r1 - 55296) * 1024 + (r2 - 56320) + 65536) else None.

Definition ReplacementChar : Z := 65533.

Definition simple_escape (c : Ascii.ascii) : option Ascii.ascii :=
  let n := code c in
  if bool_decide (n = 34) || bool_decide (n = 92) || bool_decide (n = 47) then Some c
  else if bool_decide (n = 98) then Some (chr 8)
  else if bool_decide (n = 102) then Some (chr 12)
  else if bool_decide (n = 110) then Some (chr 10)
  else if bool_decide (n = 114) then Some (chr 13)
  else if bool_decide (n = 116) then Some (chr 9)
  else None.

Definition push (p : string) (o : option (string * string)) : option (string * string) :=
  match o with Some (s, r) => Some (p +:+ s, r) | None => None end.

(** The rest of a string literal after its opening quote: the decoded string
    and what follows the closing quote. *)
Fixpoint parse_string (s : string) : option (string * string) :=
  match s with
  | EmptyString => None
  | String c r =>
      if bool_decide (c = dq) then Some ("", r)
      else if bool_decide (c = bs) then
        match r with
        | String "u"%char (String a (String b (String c (String d r1)))) =>
            match hex4 a b c d with
            | None => None
            | Some u =>
                if is_surrogate u then
                  match r1 with
                  | String b0 (String "u"%char (String e (String f (String g (String h r2))))) =>
                      match (if bool_decide (b0 = bs) then hex4 e f g h else None) with
                      | Some u2 => match decode_pair u u2 with
                                   | Some p => push (utf8 p) (parse_string r2)
                                   | None => push (utf8 ReplacementChar) (parse_string r1)
                                   end
                      | None => push (utf8 ReplacementChar) (parse_string r1)
                      end
                  | _ => push (utf8 ReplacementChar) (parse_string r1)
                  end
                else push (utf8 u) (parse_string r1)
            end
        | String e r1 => match simple_escape e with
                         | Some x => push (ch1 x) (parse_string r1)
                         | None => None
                         end
        | EmptyString => None
        end
      else if code c <? 32 then None
      else push (ch1 c) (parse_string r)
  end.

Fixpoint span_digits (s : string) : string * string :=
  match s with
  | String c r => if is_digit c then let '(d, r') := span_digits r in (String c d, r') else ("", s)
  | EmptyString => ("", "")
  end.

(** [("" | "." digits+)] *)
Definition lex_frac (s : string) : option (string * string) :=
  match s with
  | String "."%char r => let '(d, r') := span_digits r in
      if bool_decide (d = "") then None else Some ("." +:+ d, r')
  | _ => Some ("", s)
  end.

Definition lex_exp (s : string) : option (string * string) :=
  match s with
  | String c r =>
      if bool_decide (c = "e"%char) || bool_decide (c = "E"%char) then
        let '(sg, r1) := match r with
                         | String "+"%char r1 => ("+", r1)
                         | String "-"%char r1 => ("-", r1)
                         | _ => ("", r)
                         end in
        let '(d, r2) := span_digits r1 in
        if bool_decide (d = "") then None else Some (String c (sg +:+ d), r2)
      else Some ("", s)
  | EmptyString => Some ("", "")
  end.

Definition lex_int (s : string) : option (string * string) :=
  match s with
  | String "0"%char r => Some ("0", r)
  | _ => let '(d, r) := span_digits s in if bool_decide (d = "") then None else Some (d, r)
  end.

Definition lex_number (s : string) : option (string * string) :=
  let '(sg, s1) := match s with String "-"%char r => ("-", r) | _ => ("", s) end in
  '(i, s2) ← lex_int s1; '(f, s3) ← lex_frac s2; '(e, s4) ← lex_exp s3;
  Some (sg +:+ i +:+ f +:+ e, s4).

(** Go's scanner gives up beyond this nesting. *)
Definition maxNestingDepth : Z := 10000.

(** The rest after the given byte, if the string starts with it. *)
Definition expect (c : Ascii.ascii) (s : string) : option string :=
  match s with
  | String x r => if bool_decide (x = c) then Some r else None
  | EmptyString => None
  end.

(** Recursive descent; every turn consumes input, see [parse_json] for the
    fuel. *)
Fixpoint parse_value (fuel : nat) (depth : Z) (s : string) : option (json * string) :=
  match fuel with
  | O => None
  | S fuel =>
      match skip_ws s with
      | EmptyString => None
      | String c r =>
          if bool_decide (c = dq) then
            match parse_string r with Some (t, r) => Some (JStr t, r) | None => None end
          else if bool_decide (c = "{"%char) then
            if maxNestingDepth <? depth + 1 then None else
            match expect "}"%char (skip_ws r) with
            | Some r => Some (JObj [], r)
            | None => match parse_members fuel (depth + 1) (skip_ws r) with
                      | Some (l, r) => Some (JObj l, r) | None => None end
            end
          else if bool_decide (c = "["%char) then
            if maxNestingDepth <? depth + 1 then None else
            match expect "]"%char (skip_ws r) with
            | Some r => Some (JArr [], r)
            | None => match parse_elems fuel (depth + 1) (skip_ws r) with
                      | Some (l, r) => Some (JArr l, r) | None => None end
            end
          else if HasPrefix (String c r) "null" then Some (JNull, slice_from (String c r) 4)
          else if HasPrefix (String c r) "true" then Some (JBool true, slice_from (String c r) 4)
          else if HasPrefix (String c r) "false" then Some (JBool false, slice_from (String c r) 5)
          else match lex_number (String c r) with
               | Some (l, r) => Some (JNum l, r) | None => None end
      end
  end
with parse_elems (fuel : nat) (depth : Z) (s : string) : option (list json * string) :=
  match fuel with
  | O => None
  | S fuel =>
      match parse_value fuel depth s with
      | None => None
      | Some (v, r) =>
          match expect ","%char (skip_ws r) with
          | Some r => match parse_elems fuel depth r with
                      | Some (vs, r) => Some (v :: vs, r) | None => None end
          | None => match expect "]"%char (skip_ws r) with
                    | Some r => Some ([v], r) | None => None end
          end
      end
  end
with parse_members (fuel : nat) (depth : Z) (s : string) : option (list (string * json) * string) :=
  match fuel with
  | O => None
  | S fuel =>
      match expect dq (skip_ws s) with
      | None => None
      | Some r =>
          match parse_string r with
          | None => None
          | Some (k, r) =>
              match expect ":"%char (skip_ws r) with
              | None => None
              | Some r =>
                  match parse_value fuel depth r with
                  | None => None
                  | Some (v, r) =>
                      match expect ","%char (skip_ws r) with
                      | Some r => match parse_members fuel depth r with
                                  | Some (l, r) => Some ((k, v) :: l, r) | None => None end
                      | None => match expect "}"%char (skip_ws r) with
                                | Some r => Some ([(k, v)], r) | None => None end
                      end
                  end
              end
          end
      end
  end.

(** Between two decrements of the fuel that consume no byte there is one that
    consumes a byte, so twice the length is enough. *)
Definition json_fuel (s : string) : nat := 2 * len s + 2.

Definition parse_json (s : string) : option json :=
  match parse_value (json_fuel s) 0 s with
  | Some (j, r) => if bool_decide (skip_ws r = "") then Some j else None
  | None => None
  end.

(** ** Decoding into the ring struct *)

(** Folding of field names: ASCII letters to upper case, and the one
    non-ASCII rune (U+017F) that folds to a letter of our names. *)
Fixpoint foldName (s : string) : string :=
  match s with
  | EmptyString => ""
  | String c r =>
      match r with
      | String c2 r2 =>
          if bool_decide (code c = 197) && bool_decide (code c2 = 191)
          then String "S"%char (foldName r2)
          else String (if (97 <=? code c) && (code c <=? 122) then chr (code c - 32) else c) (foldName r)
      | EmptyString =>
          String (if (97 <=? code c) && (code c <=? 122) then chr (code c - 32) else c) ""
      end
  end.

(** A slice being decoded: its elements and what its backing array still holds
    beyond them. *)
Definition slice_buf : Type := list string * list string.

Fixpoint decode_elems (old : list string) (js : list json) : option (list string) :=
  match js with
  | [] => Some []
  | j :: js =>
      let o := default "" (head old) in
      x ← (match j with JStr s => Some s | JNull => Some o | _ => None end);
      xs ← decode_elems (tail old) js; Some (x :: xs)
  end.

Definition decode_slice (b : slice_buf) (j : json) : option slice_buf :=
  match j with
  | JNull | JArr [] => Some ([], [])
  | JArr js => let old := b.1 ++ b.2 in
               xs ← decode_elems old js; Some (xs, drop (length js) old)
  | _ => None
  end.

Definition decode_int64 (v : Z) (j : json) : option Z :=
  match j with
  | JNull => Some v
  | JNum lit => ParseInt lit
  | _ => None
  end.

Fixpoint decode_fields (v : Z) (b : slice_buf) (l : list (string * json)) : option (Z * slice_buf) :=
  match l with
  | [] => Some (v, b)
  | (k, j) :: l =>
      if bool_decide (foldName k = foldName "version") then
        v ← decode_int64 v j; decode_fields v b l
      else if bool_decide (foldName k = foldName "members") then
        b ← decode_slice b j; decode_fields v b l
      else decode_fields v b l
  end.

(** [json.Unmarshal([]byte(s), &r)] on a zero ring; [None] is a non-nil error. *)
Definition UnmarshalRing (s : string) : option (Z * list string) :=
  j ← parse_json s;
  match j with
  | JNull => Some (0, [])
  | JObj l => '(v, b) ← decode_fields 0 ([], []) l; Some (v, b.1)
  | _ => None
  end.

Example marshal_ex : MarshalRing 7 ["orders-cache-0"; "orders-cache-1"] =
  "{" +:+ quote "version" +:+ ":7," +:+ quote "members" +:+ ":[" +:+ quote "orders-cache-0"
  +:+ "," +:+ quote "orders-cache-1" +:+ "]}".
Proof. reflexivity. Qed.

Example unmarshal_ex :
  UnmarshalRing (MarshalRing (-12) ["a"; "b<>&"; ch1 dq; ch1 bs; ch1 (chr 10); ch1 (chr 1)]) =
  Some (-12, ["a"; "b<>&"; ch1 dq; ch1 bs; ch1 (chr 10); ch1 (chr 1)]).
Proof. vm_compute. reflexivity. Qed.

(** ** Round trip *)

Definition is_ascii (c : Ascii.ascii) : bool := code c <? 128.
Definition ascii_string (s : string) : bool := str_forall is_ascii s.

Lemma FormatInt_ascii n : 0 <= n → ascii_string (FormatInt n) = true.
Proof.
  intros Hn. apply (str_forall_impl is_digit); [|by apply FormatInt_digits].
  by intros [[][][][][][][][]].
Qed.

Lemma parse_string_escape_char c r :
  is_ascii c = true →
  parse_string (escape_char c +:+ r) = push (ch1 c) (parse_string r).
Proof. destruct c as [[][][][][][][][]]; vm_compute is_ascii; try discriminate; reflexivity. Qed.

Lemma parse_string_escape s r :
  ascii_string s = true → parse_string (escape s +:+ String dq r) = Some (s, r).
Proof.
  unfold ascii_string. induction s as [|c s IH]; simpl; [done|].
  intros [Hc Hs]%andb_true_iff.
  rewrite <- string_app_assoc, parse_string_escape_char, IH by done. done.
Qed.

Lemma quote_app s r : quote s +:+ r = String dq (escape s +:+ String dq r).
Proof. unfold quote. rewrite string_app_cons, <- string_app_assoc. done. Qed.

(** A string literal is one value, followed by the rest of the input. *)
Lemma parse_value_quote fuel d s r :
  ascii_string s = true →
  parse_value (S fuel) d (quote s +:+ r) = Some (JStr s, r).
Proof.
  intros Hs. rewrite quote_app. cbn [parse_value skip_ws]. simpl.
  by rewrite parse_string_escape.
Qed.

(** What may follow a number without being taken for a part of it. *)
Definition ends_number (s : string) : bool :=
  match s with
  | EmptyString => true
  | String c _ => negb (is_digit c) && negb (bool_decide (c = "."%char)) &&
                  negb (bool_decide (c = "e"%char)) && negb (bool_decide (c = "E"%char))
  end.

Lemma span_digits_app d r :
  str_forall is_digit d = true → ends_number r = true → span_digits (d +:+ r) = (d, r).
Proof.
  intros Hd Hr. induction d as [|c d IH].
  - rewrite string_app_nil_l. destruct r as [|c r]; [done|]. simpl in *.
    by destruct (is_digit c).
  - rewrite string_app_cons. simpl in *. apply andb_true_iff in Hd as [-> Hd]. by rewrite IH.
Qed.

Lemma lex_frac_end r : ends_number r = true → lex_frac r = Some ("", r).
Proof. by destruct r as [|[[][][][][][][][]] r]. Qed.

Lemma lex_exp_end r : ends_number r = true → lex_exp r = Some ("", r).
Proof. by destruct r as [|[[][][][][][][][]] r]. Qed.

Lemma lex_int_pretty p r :
  ends_number r = true →
  lex_int (pretty_N_go (Npos p) "" +:+ r) = Some (pretty_N_go (Npos p) "", r).
Proof.
  intros Hr. destruct (pretty_N_go_digits (Npos p) "" ltac:(lia)) as (c & t & -> & Hc & Hc0 & Ht).
  rewrite string_app_nil_r.
  assert (span_digits (String c t +:+ r) = (String c t, r)) as Hsp.
  { apply span_digits_app; [|done]. simpl. by rewrite Hc, Ht. }
  rewrite string_app_cons in Hsp |- *.
  destruct c as [[][][][][][][][]]; try discriminate; try done;
    unfold lex_int; rewrite Hsp; done.
Qed.

Lemma lex_number_nonneg n r :
  0 <= n → ends_number r = true →
  lex_int (FormatInt n +:+ r) = Some (FormatInt n, r) ∧
  lex_number (FormatInt n +:+ r) = Some (FormatInt n, r) ∧
  ∃ c t, FormatInt n = String c t ∧ is_digit c = true.
Proof.
  intros Hn Hr.
  assert (lex_int (FormatInt n +:+ r) = Some (FormatInt n, r) ∧
          ∃ c t, FormatInt n = String c t ∧ is_digit c = true) as [Hi (c & t & Hc & Hd)].
  { destruct n as [|p|p]; [|split; [by apply lex_int_pretty|]|lia].
    - split; [by destruct r as [|[[][][][][][][][]] r]|]. by eexists _, _.
    - destruct (pretty_N_go_digits (Npos p) "" ltac:(lia)) as (c & t & Hp & Hc & _).
      exists c, (t +:+ ""). by split. }
  split_and!; [done| |by eauto]. rewrite Hc in Hi |- *. rewrite string_app_cons in Hi |- *.
  unfold lex_number.
  replace (match String c (t +:+ r) with String "-"%char r0 => ("-", r0)
           | _ => ("", String c (t +:+ r)) end) with ("", String c (t +:+ r))
    by (by destruct c as [[][][][][][][][]]).
  rewrite Hi. simpl. rewrite lex_frac_end by done. simpl. rewrite lex_exp_end by done. simpl.
  by rewrite !string_app_nil_r.
Qed.

Lemma lex_number_FormatInt n r :
  ends_number r = true →
  lex_number (FormatInt n +:+ r) = Some (FormatInt n, r) ∧
  ∃ c t, FormatInt n = String c t ∧ (is_digit c = true ∨ c = "-"%char).
Proof.
  intros Hr. destruct (decide (0 <= n)) as [Hn|Hn].
  { destruct (lex_number_nonneg n r Hn Hr) as (_ & ? & c & t & ? & ?). split; [done|]. eauto 10. }
  destruct n as [|p|p]; [lia|lia|].
  destruct (lex_number_nonneg (Zpos p) r ltac:(lia) Hr) as (Hi & _).
  change (FormatInt (Zneg p)) with (String "-"%char (FormatInt (Zpos p))).
  split; [|by eauto]. rewrite string_app_cons. cbn [lex_number]. rewrite Hi. simpl.
  rewrite lex_frac_end by done. simpl. rewrite lex_exp_end by done. simpl.
  by rewrite !string_app_nil_r.
Qed.

Lemma parse_value_FormatInt fuel d n r :
  ends_number r = true → parse_value (S fuel) d (FormatInt n +:+ r) = Some (JNum (FormatInt n), r).
Proof.
  intros Hr. destruct (lex_number_FormatInt n r Hr) as (Hl & c & t & Hc & Hd).
  rewrite Hc in Hl |- *. rewrite string_app_cons in Hl |- *. cbn [parse_value].
  assert (is_ws c = false ∧ c ≠ dq ∧ c ≠ "{"%char ∧ c ≠ "["%char ∧ c ≠ "n"%char ∧
          c ≠ "t"%char ∧ c ≠ "f"%char) as (Hw & ? & ? & ? & ? & ? & ?).
  { clear -Hd. destruct Hd as [Hd| ->]; [|done].
    destruct c as [[][][][][][][][]]; try discriminate; done. }
  cbn [skip_ws]. rewrite Hw.
  rewrite !(bool_decide_false (c = _)) by done.
  cbn [HasPrefix]. rewrite !(bool_decide_false (_ = c)) by congruence. cbn [andb].
  by rewrite Hl.
Qed.

Lemma parse_elems_comma fuel d s v r vs r' :
  parse_value fuel d s = Some (v, String ","%char r) →
  parse_elems fuel d r = Some (vs, r') → parse_elems (S fuel) d s = Some (v :: vs, r').
Proof. intros Hv He. simpl. rewrite Hv. simpl. by rewrite He. Qed.

Lemma parse_elems_end fuel d s v r :
  parse_value fuel d s = Some (v, String "]"%char r) → parse_elems (S fuel) d s = Some ([v], r).
Proof. intros Hv. simpl. by rewrite Hv. Qed.

(** Array elements: with one unit of fuel per element and one more, the strings
    come back in order. *)
Lemma parse_elems_quotes fuel d x xs r :
  Forall (λ s, ascii_string s = true) (x :: xs) → (length xs + 2 <= fuel)%nat →
  parse_elems fuel d (join "," (quote <$> (x :: xs)) +:+ "]" +:+ r) = Some (JStr <$> (x :: xs), r).
Proof.
  revert fuel x. induction xs as [|y ys IH]; intros fuel x Hall Hf;
    inversion Hall as [|? ? Hx Hxs]; subst; destruct fuel as [|[|fuel]]; simpl in Hf; try lia.
  - by apply parse_elems_end, parse_value_quote.
  - change (join "," (quote <$> (x :: y :: ys)))
      with (quote x +:+ "," +:+ join "," (quote <$> (y :: ys))).
    rewrite <- !string_app_assoc. eapply parse_elems_comma.
    + by apply parse_value_quote.
    + apply (IH (S fuel)); [done|lia].
Qed.

Lemma decode_elems_JStr old xs : decode_elems old (JStr <$> xs) = Some xs.
Proof. revert old. induction xs as [|x xs IH]; intros old; simpl; [done|]. by rewrite IH. Qed.

Lemma join_length sep l : (length l <= 1 + len (join sep (quote <$> l)))%nat.
Proof.
  induction l as [|x [|y l] IH]; [simpl; lia|simpl; lia|].
  change (join sep (quote <$> (x :: y :: l)))
    with (quote x +:+ sep +:+ join sep (quote <$> (y :: l))).
  rewrite !string_length_app. unfold quote at 1.
  simpl in IH |- *. rewrite string_length_app. simpl. lia.
Qed.

Lemma parse_members_comma fuel d k s v r l r' :
  ascii_string k = true →
  parse_value fuel d s = Some (v, String ","%char r) →
  parse_members fuel d r = Some (l, r') →
  parse_members (S fuel) d (quote k +:+ ":" +:+ s) = Some ((k, v) :: l, r').
Proof.
  intros Hk Hv Hl. rewrite quote_app. simpl. rewrite parse_string_escape by done.
  rewrite string_app_cons, string_app_nil_l. simpl. rewrite Hv. simpl. by rewrite Hl.
Qed.

Lemma parse_members_end fuel d k s v r :
  ascii_string k = true →
  parse_value fuel d s = Some (v, String "}"%char r) →
  parse_members (S fuel) d (quote k +:+ ":" +:+ s) = Some ([(k, v)], r).
Proof.
  intros Hk Hv. rewrite quote_app. simpl. rewrite parse_string_escape by done.
  rewrite string_app_cons, string_app_nil_l. simpl. by rewrite Hv.
Qed.

Lemma parse_value_array fuel d xs r :
  Forall (λ s, ascii_string s = true) xs → (length xs + 2 <= fuel)%nat → d + 1 <= maxNestingDepth →
  parse_value (S fuel) d ("[" +:+ join "," (quote <$> xs) +:+ "]" +:+ r) = Some (JArr (JStr <$> xs), r).
Proof.
  intros Hall Hf Hd. rewrite string_app_cons, string_app_nil_l.
  cbn [parse_value skip_ws]. simpl bool_decide. cbn [is_ws].
  replace (maxNestingDepth <? d + 1) with false by lia.
  destruct xs as [|x xs]; [done|].
  assert (∃ t, join "," (quote <$> (x :: xs)) +:+ "]" +:+ r = String dq t) as [t Ht].
  { destruct xs as [|y ys]; [eexists; apply quote_app|].
    change (join "," (quote <$> (x :: y :: ys)))
      with (quote x +:+ "," +:+ join "," (quote <$> (y :: ys))).
    rewrite <- !string_app_assoc, quote_app. eauto. }
  pose proof (parse_elems_quotes fuel (d + 1) x xs r Hall ltac:(simpl in Hf; lia)) as He.
  rewrite Ht in He |- *. unfold dq in *. simpl. by rewrite He.
Qed.

Lemma parse_value_object fuel d t l r :
  d + 1 <= maxNestingDepth → parse_members fuel (d + 1) (String dq t) = Some (l, r) →
  parse_value (S fuel) d ("{" +:+ String dq t) = Some (JObj l, r).
Proof.
  intros Hd Hm. unfold dq in *. rewrite string_app_cons, string_app_nil_l. simpl.
  replace (maxNestingDepth <? d + 1) with false by lia. by rewrite Hm.
Qed.

(** The payload the operator writes decodes to the ring it encodes: for every
    [int64] version and every list of ASCII names. *)
Lemma Unmarshal_Marshal v ms :
  int64_ok v → Forall (λ s, ascii_string s = true) ms →
  UnmarshalRing (MarshalRing v ms) = Some (v, ms).
Proof.
  intros Hv Hms. unfold UnmarshalRing, parse_json.
  assert (∀ fuel, (length ms + 6 <= fuel)%nat → parse_value fuel 0 (MarshalRing v ms) =
    Some (JObj [("version", JNum (FormatInt v)); ("members", JArr (JStr <$> ms))], "")) as Hp.
  { intros fuel Hf. destruct fuel as [|[|[|[|fuel]]]]; [lia..|].
    unfold MarshalRing. rewrite quote_app. apply parse_value_object; [done|].
    rewrite <- quote_app. eapply parse_members_comma; [done|by apply parse_value_FormatInt|].
    apply parse_members_end with (s := "[" +:+ join "," (quote <$> ms) +:+ "]" +:+ "}"); [done|].
    apply parse_value_array; [done|lia|done]. }
  rewrite Hp.
  - simpl. rewrite ParseInt_FormatInt by done. simpl.
    destruct ms as [|m ms]; [done|]. simpl. by rewrite decode_elems_JStr.
  - unfold json_fuel. pose proof (join_length "," ms). unfold MarshalRing.
    rewrite !string_length_app. simpl (len (quote _)). simpl. lia.
Qed.

Lemma decode_fields_ok l v b v' b' :
  int64_ok v → decode_fields v b l = Some (v', b') → int64_ok v'.
Proof.
  revert v b. induction l as [|[k j] l IH]; simpl; intros v b Hv H; [by simplify_eq|].
  case_bool_decide; [|case_bool_decide].
  - destruct (decode_int64 v j) as [v1|] eqn:E; [|done]. simpl in H. eapply IH, H.
    destruct j; simplify_eq/=; [done|]. by eapply ParseInt_ok.
  - destruct (decode_slice b j) as [b1|]; [|done]. by eapply IH.
  - by eapply IH.
Qed.

(** A decoded version is an [int64]. *)
Lemma UnmarshalRing_ok s v ms : UnmarshalRing s = Some (v, ms) → int64_ok v.
Proof.
  unfold UnmarshalRing. destruct (parse_json s) as [[]|]; simpl; try done.
  - intros [= <- <-]. go_int.
  - destruct (decode_fields _ _ _) as [[v' b']|] eqn:E; [|done]. simpl. intros [= <- <-].
    eapply decode_fields_ok, E. go_int.
Qed.
