(* ===== verification/JsonFuel.v ===== *)
(** The JSON decoder of [Json] always has enough fuel: every parser hands back
    strictly less than it was given ([parsers_consume]), so the fuel
    [json_fuel] computes from the length of the input is never exhausted, and a
    [None] of [parse_json] is a syntax error of the input, never a limit of the
    model. *)
From S2P Require Import Prelude GoLib Json.
Local Open Scope Z_scope.

(** ** Lengths left by the lexers *)

Lemma skip_ws_len s : (len (skip_ws s) <= len s)%nat.
Proof. induction s as [|c s IH]; simpl; [lia|]. destruct (is_ws c); simpl; lia. Qed.

Lemma push_Some p o t r : push p o = Some (t, r) → ∃ t', o = Some (t', r).
Proof. destruct o as [[t' r']|]; simpl; [|done]. intros [= <- <-]. eauto. Qed.

Lemma parse_string_len s t r : parse_string s = Some (t, r) → (len r < len s)%nat.
Proof.
  remember (len s) as n eqn:Hn. revert s t r Hn.
  induction (lt_wf n) as [n _ IH]. intros s t r -> H.
  destruct s as [|c s]; [done|]. cbn [parse_string] in H.
  assert (∀ s' t' p, (len s' < S (len s))%nat → push p (parse_string s') = Some (t', r) → (len r < S (len s))%nat) as IH'.
  { intros s' t' p Hlt [t'' Hp]%push_Some. specialize (IH (len s') Hlt s' t'' r eq_refl Hp). lia. }
  cbn [len].
  destruct (bool_decide (c = dq)); [simplify_eq; lia|].
  destruct (bool_decide (c = bs)).
  - repeat case_match; try done; (eapply IH'; [|exact H]); simpl; lia.
  - destruct (code c <? 32); [done|]. eapply IH'; [|exact H]. lia.
Qed.

Lemma span_digits_len s : (len (span_digits s).1 + len (span_digits s).2 = len s)%nat.
Proof.
  induction s as [|c s IH]; [done|]. simpl. destruct (is_digit c); [|done].
  destruct (span_digits s) as [d r]. simpl in *. lia.
Qed.

Lemma span_digits_eq s d r : span_digits s = (d, r) → (len d + len r = len s)%nat.
Proof. intros H. pose proof (span_digits_len s) as Hl. by rewrite H in Hl. Qed.

Lemma nonempty_len s : s ≠ "" → (0 < len s)%nat.
Proof. destruct s; simpl; [done|lia]. Qed.

(** What is left after a token, by case analysis on the lexer. *)
Ltac lex_cases :=
  repeat case_match; simplify_eq;
  repeat match goal with
  | E : span_digits _ = _ |- _ => apply span_digits_eq in E
  | E : bool_decide (_ = "") = false |- _ => apply bool_decide_eq_false, nonempty_len in E
  | E : (_, _) = (_, _) |- _ => injection E as <- <-
  end; cbn [String.length] in *; lia.

Lemma lex_int_len s i r : lex_int s = Some (i, r) → (len r < len s)%nat.
Proof. unfold lex_int. intros H. lex_cases. Qed.

Lemma lex_frac_len s f r : lex_frac s = Some (f, r) → (len r <= len s)%nat.
Proof. unfold lex_frac. intros H. lex_cases. Qed.

Lemma lex_exp_len s e r : lex_exp s = Some (e, r) → (len r <= len s)%nat.
Proof. unfold lex_exp. intros H. lex_cases. Qed.

Lemma lex_number_len s l r : lex_number s = Some (l, r) → (len r < len s)%nat.
Proof.
  unfold lex_number. intros H.
  assert (∃ sg s1, match s with String "-"%char r => ("-", r) | _ => ("", s) end = (sg, s1) ∧ (len s1 <= len s)%nat)
    as (sg & s1 & E & Hs).
  { repeat case_match; eexists _, _; (split; [done|simpl; lia]). }
  rewrite E in H. destruct (lex_int s1) as [[i s2]|] eqn:E1; [|done]. simpl in H.
  destruct (lex_frac s2) as [[f s3]|] eqn:E2; [|done]. simpl in H.
  destruct (lex_exp s3) as [[e s4]|] eqn:E3; [|done]. simplify_eq/=.
  apply lex_int_len in E1. apply lex_frac_len in E2. apply lex_exp_len in E3. lia.
Qed.

Lemma slice_from_len s n : (len (slice_from s n) = len s - n)%nat.
Proof. revert s. induction n as [|n IH]; intros [|c s]; simpl; auto. Qed.

(** ** The three parsers consume input *)

Definition consumes {A} (p : string → option (A * string)) : Prop :=
  ∀ s a r, p s = Some (a, r) → (len r < len s)%nat.

Lemma expect_len c s r : expect c s = Some r → len s = S (len r).
Proof. destruct s; simpl; [done|]. by case_bool_decide; intros; simplify_eq. Qed.

Lemma expect_ws_len c s r : expect c (skip_ws s) = Some r → (len r < len s)%nat.
Proof. intros H%expect_len. pose proof (skip_ws_len s). lia. Qed.

(** Opens the calls of a parser one by one and turns each success into the
    length it leaves. *)
Ltac parser_step H :=
  match type of H with
  | context [match ?x with _ => _ end] =>
      lazymatch x with context [match _ with _ => _ end] => fail | _ => idtac end;
      let E := fresh "E" in destruct x as [[? ?]|] eqn:E || destruct x as [?|] eqn:E || destruct x eqn:E;
      simplify_eq/=
  end.

Ltac parser_lens :=
  repeat match goal with
  | E : parse_string _ = Some _ |- _ => apply parse_string_len in E
  | E : lex_number _ = Some _ |- _ => apply lex_number_len in E
  | E : expect _ (skip_ws _) = Some _ |- _ => apply expect_ws_len in E
  end.

Lemma parsers_consume fuel :
  (∀ d, consumes (parse_value fuel d)) ∧ (∀ d, consumes (parse_elems fuel d)) ∧
  (∀ d, consumes (parse_members fuel d)).
Proof.
  induction fuel as [|fuel (IHv & IHe & IHm)]; [done|].
  assert (∀ s t : string, (len (slice_from s (len t)) <= len s)%nat) as Hsl.
  { intros s t. rewrite slice_from_len. lia. }
  split_and!; intros d s a r H; cbn [parse_value parse_elems parse_members] in H.
  - pose proof (skip_ws_len s) as Hs. destruct (skip_ws s) as [|c s1]; [done|]. cbn [String.length] in Hs.
    pose proof (skip_ws_len s1).
    destruct (bool_decide (c = dq)); [parser_step H; parser_lens; lia|].
    destruct (bool_decide (c = "{"%char)).
    { destruct (_ <? _); [done|]. destruct (expect _ _) eqn:E; [simplify_eq; parser_lens; lia|].
      parser_step H. apply IHm in E0. lia. }
    destruct (bool_decide (c = "["%char)).
    { destruct (_ <? _); [done|]. destruct (expect _ _) eqn:E; [simplify_eq; parser_lens; lia|].
      parser_step H. apply IHe in E0. lia. }
    destruct (HasPrefix _ "null"); [injection H as <- <-; cbn [slice_from]; pose proof (Hsl s1 "nul"); simpl in *; lia|].
    destruct (HasPrefix _ "true"); [injection H as <- <-; cbn [slice_from]; pose proof (Hsl s1 "nul"); simpl in *; lia|].
    destruct (HasPrefix _ "false"); [injection H as <- <-; cbn [slice_from]; pose proof (Hsl s1 "null"); simpl in *; lia|].
    destruct (lex_number _) as [[l r']|] eqn:E; simplify_eq. apply lex_number_len in E. cbn [String.length] in E. lia.
  - destruct (parse_value fuel d s) as [[v r1]|] eqn:Ev; [|done]. apply IHv in Ev.
    destruct (expect "," _) eqn:Ec; [|parser_step H; parser_lens; lia].
    parser_step H. apply IHe in E. parser_lens. lia.
  - destruct (expect dq _) eqn:Eq; [|done]. destruct (parse_string _) as [[k r1]|] eqn:Es; [|done].
    destruct (expect ":" _) eqn:E1; [|done].
    destruct (parse_value fuel d _) as [[v r2]|] eqn:Ev; [|done]. apply IHv in Ev.
    destruct (expect "," _) eqn:Ec; [|parser_step H; parser_lens; lia].
    parser_step H. apply IHm in E. parser_lens. lia.
Qed.

Lemma parse_value_len fuel d s v r : parse_value fuel d s = Some (v, r) → (len r < len s)%nat.
Proof. apply parsers_consume. Qed.

(** Any two amounts of fuel that cover the input give the same result. *)
Lemma parsers_fuel_irrelevant f : ∀ g d s,
  ((2 * len s + 1 <= f → 2 * len s + 1 <= g → parse_value f d s = parse_value g d s) ∧
   (2 * len s + 2 <= f → 2 * len s + 2 <= g → parse_elems f d s = parse_elems g d s) ∧
   (2 * len s + 2 <= f → 2 * len s + 2 <= g → parse_members f d s = parse_members g d s))%nat.
Proof.
  induction f as [|f IH]; intros g d s; [split_and!; lia|].
  destruct g as [|g]; [split_and!; lia|].
  split_and!; intros Hf Hg; cbn [parse_value parse_elems parse_members].
  - pose proof (skip_ws_len s) as Hs. destruct (skip_ws s) as [|c s1]; [done|]. cbn [String.length] in Hs.
    pose proof (skip_ws_len s1). destruct (IH g (d + 1) (skip_ws s1)) as (_ & He & Hm). by rewrite He, Hm by lia.
  - destruct (IH g d s) as (Hv & _). rewrite Hv by lia. destruct (parse_value g d s) as [[v r]|] eqn:Ev; [|done].
    apply parse_value_len in Ev. destruct (expect "," _) as [r1|] eqn:Ec; [|done].
    apply expect_ws_len in Ec. destruct (IH g d r1) as (_ & He & _). by rewrite He by lia.
  - destruct (expect dq _) as [r0|] eqn:Eq; [|done]. destruct (parse_string _) as [[k r1]|] eqn:Es; [|done].
    destruct (expect ":" _) as [r2|] eqn:E1; [|done]. parser_lens.
    destruct (IH g d r2) as (Hv & _). rewrite Hv by lia. destruct (parse_value g d r2) as [[v r3]|] eqn:Ev; [|done].
    apply parse_value_len in Ev. destruct (expect "," _) as [r4|] eqn:Ec; [|done].
    apply expect_ws_len in Ec. destruct (IH g d r4) as (_ & _ & Hm). by rewrite Hm by lia.
Qed.

(** The fuel [parse_json] is given never runs out: more fuel changes nothing,
    at any depth. *)
Lemma json_fuel_enough fuel d s :
  (json_fuel s <= fuel)%nat → parse_value fuel d s = parse_value (json_fuel s) d s.
Proof. unfold json_fuel. intros H. apply parsers_fuel_irrelevant; lia. Qed.
