(* ===== verification/Api.v ===== *)
(** * The API objects

    The CRD types of api/v1alpha1/distributedcache_types.go and the fields of
    the Kubernetes objects that the operator reads or writes. A Go map is a
    [gmap]: a nil map and an empty one are the same value, which is what
    reading and [len] see, and every write of the operator is preceded by a nil
    guard. Fields no line of the operator touches (TypeMeta, resourceVersion,
    transition times) are left out; [resource.Quantity] is a library type and
    stays abstract. *)

From S2P Require Import Prelude GoLib.

(** [k8s.io/apimachinery/pkg/api/resource]: a quantity is known through its
    [int64] value; [Set] replaces the value. *)
Class QuantityLib := {
  Quantity : Type;
  Quantity_eq_dec :: EqDecision Quantity;
  q_Value : Quantity → Z;
  q_Set : Quantity → Z → Quantity;
  q_New : Z → Quantity;
  q_String : Quantity → string;
  q_Value_ok : ∀ q, int64_ok (q_Value q);
  q_Value_Set : ∀ q v, int64_ok v → q_Value (q_Set q v) = v;
  q_Value_New : ∀ v, int64_ok v → q_Value (q_New v) = v
}.

(** ** Object metadata *)

(** The API group of the DistributedCache. *)
Definition groupName : string := "cache.sk1.services.com".

(** [or_Group] is the group part of apiVersion. *)
Record OwnerReference := mkOwnerReference {
  or_Group : string; or_Kind : string; or_Name : string; or_UID : string; or_Controller : bool
}.

Record ObjectMeta := mkObjectMeta {
  om_Name : string;
  om_Namespace : string;
  om_UID : string;
  om_Labels : gmap string string;
  om_Annotations : gmap string string;
  om_Finalizers : list string;
  om_OwnerReferences : list OwnerReference;
  om_DeletionTimestamp : option Time;
  om_CreationTimestamp : option Time;
  om_Generation : Z
}.

(** [metav1.ObjectMeta{Name: name, Namespace: ns}] *)
Definition newMeta (name ns : string) : ObjectMeta :=
  mkObjectMeta name ns "" ∅ ∅ [] [] None None 0.

Definition om_set_Labels (f : gmap string string → gmap string string) (m : ObjectMeta) :=
  mkObjectMeta (om_Name m) (om_Namespace m) (om_UID m) (f (om_Labels m)) (om_Annotations m)
    (om_Finalizers m) (om_OwnerReferences m) (om_DeletionTimestamp m) (om_CreationTimestamp m)
    (om_Generation m).

Definition om_set_Annotations (f : gmap string string → gmap string string) (m : ObjectMeta) :=
  mkObjectMeta (om_Name m) (om_Namespace m) (om_UID m) (om_Labels m) (f (om_Annotations m))
    (om_Finalizers m) (om_OwnerReferences m) (om_DeletionTimestamp m) (om_CreationTimestamp m)
    (om_Generation m).

Definition om_set_Finalizers (l : list string) (m : ObjectMeta) :=
  mkObjectMeta (om_Name m) (om_Namespace m) (om_UID m) (om_Labels m) (om_Annotations m)
    l (om_OwnerReferences m) (om_DeletionTimestamp m) (om_CreationTimestamp m) (om_Generation m).

Record NamespacedName := mkNN { nn_Namespace : string; nn_Name : string }.

#[global] Instance OwnerReference_eq_dec : EqDecision OwnerReference.
Proof. solve_decision. Defined.
#[global] Instance Time_eq_dec : EqDecision Time.
Proof. solve_decision. Defined.
#[global] Instance ObjectMeta_eq_dec : EqDecision ObjectMeta.
Proof. solve_decision. Defined.
#[global] Instance NamespacedName_eq_dec : EqDecision NamespacedName.
Proof. solve_decision. Defined.

Section Objects.
Context `{QL : QuantityLib}.

(** ** The DistributedCache custom resource *)

Record DrainSpec := mkDrainSpec { GracePeriodSeconds : Z }.
Record TenantSpec := mkTenantSpec { Isolate : bool }.

Record DistributedCacheSpec := mkSpec {
  Replicas : option Z;
  Image : string;
  MemoryPerPod : Quantity;
  Drain : DrainSpec;
  Tenant : option TenantSpec
}.

Record Condition := mkCondition {
  c_Type : string;
  c_Status : string;
  c_ObservedGeneration : Z;
  c_Reason : string;
  c_Message : string
}.

Record RingStatus := mkRingStatus {
  rs_Version : Z; rs_Members : list string; rs_ConfigMapName : string
}.

Record DistributedCacheStatus := mkStatus {
  Conditions : list Condition;
  ObservedGeneration : Z;
  ReadyReplicas : Z;
  StatusRing : RingStatus
}.

Record DistributedCache := mkCache {
  dc_meta : ObjectMeta;
  Spec : DistributedCacheSpec;
  Status : DistributedCacheStatus
}.

Definition dc_Name (c : DistributedCache) : string := om_Name (dc_meta c).
Definition dc_Namespace (c : DistributedCache) : string := om_Namespace (dc_meta c).
Definition dc_Generation (c : DistributedCache) : Z := om_Generation (dc_meta c).

Definition set_Conditions (l : list Condition) (c : DistributedCache) : DistributedCache :=
  mkCache (dc_meta c) (Spec c)
    (mkStatus l (ObservedGeneration (Status c)) (ReadyReplicas (Status c)) (StatusRing (Status c))).

Definition set_dc_Finalizers (l : list string) (c : DistributedCache) : DistributedCache :=
  mkCache (om_set_Finalizers l (dc_meta c)) (Spec c) (Status c).

(** ** Objects the operator owns or observes *)

Record PodCondition := mkPodCondition { pc_Type : string; pc_Status : string }.

Record Pod := mkPod {
  pod_meta : ObjectMeta; Phase : string; pod_Conditions : list PodCondition
}.

Definition pod_Name (p : Pod) : string := om_Name (pod_meta p).
Definition pod_Annotations (p : Pod) : gmap string string := om_Annotations (pod_meta p).

(** [p.Annotations[k] = v] *)
Definition pod_annotate (k v : string) (p : Pod) : Pod :=
  mkPod (om_set_Annotations <[k := v]> (pod_meta p)) (Phase p) (pod_Conditions p).

Record Namespace_ := mkNamespace { ns_meta : ObjectMeta }.

Record ResourceQuota := mkResourceQuota { rq_meta : ObjectMeta; Hard : gmap string Quantity }.

Record NetworkPolicyPeer := mkPeer {
  peer_PodSelector : option (gmap string string);
  peer_NamespaceSelector : option (gmap string string)
}.

Record NetworkPolicySpec := mkNetworkPolicySpec {
  np_PodSelector : gmap string string;
  np_PolicyTypes : list string;
  np_Ingress : list (list NetworkPolicyPeer)
}.

Record NetworkPolicy := mkNetworkPolicy { np_meta : ObjectMeta; np_Spec : NetworkPolicySpec }.

Record ServicePort := mkServicePort {
  sp_Name : string; sp_Port : Z; sp_TargetPort : Z; sp_Protocol : string
}.

Record ServiceSpec := mkServiceSpec {
  ClusterIP : string;
  svc_Selector : gmap string string;
  svc_Ports : list ServicePort;
  PublishNotReadyAddresses : bool
}.

Record Service := mkService { svc_meta : ObjectMeta; svc_Spec : ServiceSpec }.

Record ContainerPort := mkContainerPort { cp_Name : string; cp_Port : Z; cp_Protocol : string }.

Record Probe := mkProbe {
  pr_Path : string; pr_Port : Z; PeriodSeconds : Z; TimeoutSeconds : Z; FailureThreshold : Z
}.

Record Container := mkContainer {
  ct_Name : string;
  ct_Image : string;
  ct_Ports : list ContainerPort;
  ct_Requests : gmap string Quantity;
  ct_Limits : gmap string Quantity;
  ReadinessProbe : option Probe;
  LivenessProbe : option Probe
}.

Record StatefulSetSpec := mkStatefulSetSpec {
  sts_Replicas : option Z;
  ServiceName : string;
  sts_Selector : option (gmap string string);
  PodManagementPolicy : string;
  tmpl_Labels : gmap string string;
  TerminationGracePeriodSeconds : option Z;
  Containers : list Container
}.

Record StatefulSet := mkStatefulSet { sts_meta : ObjectMeta; sts_Spec : StatefulSetSpec }.

Record ConfigMap := mkConfigMap { cm_meta : ObjectMeta; Data : gmap string string }.

#[global] Instance Condition_eq_dec : EqDecision Condition.
Proof. solve_decision. Defined.
#[global] Instance DrainSpec_eq_dec : EqDecision DrainSpec.
Proof. solve_decision. Defined.
#[global] Instance TenantSpec_eq_dec : EqDecision TenantSpec.
Proof. solve_decision. Defined.
#[global] Instance Spec_eq_dec : EqDecision DistributedCacheSpec.
Proof. solve_decision. Defined.
#[global] Instance RingStatus_eq_dec : EqDecision RingStatus.
Proof. solve_decision. Defined.
#[global] Instance Status_eq_dec : EqDecision DistributedCacheStatus.
Proof. solve_decision. Defined.
#[global] Instance DistributedCache_eq_dec : EqDecision DistributedCache.
Proof. solve_decision. Defined.
#[global] Instance PodCondition_eq_dec : EqDecision PodCondition.
Proof. solve_decision. Defined.
#[global] Instance Pod_eq_dec : EqDecision Pod.
Proof. solve_decision. Defined.
#[global] Instance Namespace_eq_dec : EqDecision Namespace_.
Proof. solve_decision. Defined.
#[global] Instance ResourceQuota_eq_dec : EqDecision ResourceQuota.
Proof. solve_decision. Defined.
#[global] Instance Peer_eq_dec : EqDecision NetworkPolicyPeer.
Proof. solve_decision. Defined.
#[global] Instance NetworkPolicySpec_eq_dec : EqDecision NetworkPolicySpec.
Proof. solve_decision. Defined.
#[global] Instance NetworkPolicy_eq_dec : EqDecision NetworkPolicy.
Proof. solve_decision. Defined.
#[global] Instance ServicePort_eq_dec : EqDecision ServicePort.
Proof. solve_decision. Defined.
#[global] Instance ServiceSpec_eq_dec : EqDecision ServiceSpec.
Proof. solve_decision. Defined.
#[global] Instance Service_eq_dec : EqDecision Service.
Proof. solve_decision. Defined.
#[global] Instance ContainerPort_eq_dec : EqDecision ContainerPort.
Proof. solve_decision. Defined.
#[global] Instance Probe_eq_dec : EqDecision Probe.
Proof. solve_decision. Defined.
#[global] Instance Container_eq_dec : EqDecision Container.
Proof. solve_decision. Defined.
#[global] Instance StatefulSetSpec_eq_dec : EqDecision StatefulSetSpec.
Proof. solve_decision. Defined.
#[global] Instance StatefulSet_eq_dec : EqDecision StatefulSet.
Proof. solve_decision. Defined.
#[global] Instance ConfigMap_eq_dec : EqDecision ConfigMap.
Proof. solve_decision. Defined.

(** ** Kinds, for the client's typed operations *)

Inductive Kind :=
  | KDistributedCache | KPod | KNamespace | KResourceQuota | KNetworkPolicy
  | KService | KStatefulSet | KConfigMap.

#[global] Instance Kind_eq_dec : EqDecision Kind.
Proof. solve_decision. Defined.

Definition obj (k : Kind) : Type :=
  match k with
  | KDistributedCache => DistributedCache
  | KPod => Pod
  | KNamespace => Namespace_
  | KResourceQuota => ResourceQuota
  | KNetworkPolicy => NetworkPolicy
  | KService => Service
  | KStatefulSet => StatefulSet
  | KConfigMap => ConfigMap
  end.

#[global] Instance obj_eq_dec k : EqDecision (obj k).
Proof. destruct k; apply _. Defined.

Definition obj_meta (k : Kind) : obj k → ObjectMeta :=
  match k with
  | KDistributedCache => dc_meta
  | KPod => pod_meta
  | KNamespace => ns_meta
  | KResourceQuota => rq_meta
  | KNetworkPolicy => np_meta
  | KService => svc_meta
  | KStatefulSet => sts_meta
  | KConfigMap => cm_meta
  end.

End Objects.

