(* ===== verification/DeepCopy.v ===== *)
(** * The generated deep copies

    api/v1alpha1/zz_generated.deepcopy.go over a heap. A pointer or a slice of a
    Go struct is an address (nil is [None]), [new] and [make] allocate, and
    following an address that holds nothing of the right type is a panic, the
    [None] of a step's result. Structs are values: [x.DeepCopyInto(out)] is a step
    from the value of [x] to the value written to [out].

    The deep copies of the embedded library types (ObjectMeta, ListMeta,
    Condition, Quantity) are those libraries' code: [DeepLib] states their
    contract, that the copy looks the same and lives at new addresses. The
    theorems carry that contract up to the repository's own types. *)

From stdpp Require Import gmap.
From S2P Require Import Prelude GoLib Api.

Local Open Scope Z_scope.

Abbreviation loc := positive.
Abbreviation ptr := (option positive).

(** The library structs, and what the addresses inside them hold. *)
Class DeepTypes := {
  goMeta : Type;
  goListMeta : Type;
  goCondition : Type;
  goQuantity : Type;
  libCell : Type
}.

Section Structs.
Context `{DT : DeepTypes}.

(** ** The structs as Go lays them out *)

Record goSpec := mkGoSpec {
  gs_Replicas : ptr; gs_Image : string; gs_MemoryPerPod : goQuantity; gs_Drain : DrainSpec; gs_Tenant : ptr
}.

Record goRing := mkGoRing { gr_Version : Z; gr_Members : ptr; gr_ConfigMapName : string }.

Record goStatus := mkGoStatus {
  gt_Conditions : ptr; gt_ObservedGeneration : Z; gt_ReadyReplicas : Z; gt_Ring : goRing
}.

(** [TypeMeta] is a pair of strings. *)
Record goCache := mkGoCache {
  gc_TypeMeta : string * string; gc_ObjectMeta : goMeta; gc_Spec : goSpec; gc_Status : goStatus
}.

Record goCacheList := mkGoCacheList {
  gl_TypeMeta : string * string; gl_ListMeta : goListMeta; gl_Items : ptr
}.

(** What an address can hold. *)
Inductive cell :=
  | CInt32 (n : Z)
  | CTenant (t : TenantSpec)
  | CDrain (d : DrainSpec)
  | CSpec (s : goSpec)
  | CRing (r : goRing)
  | CStatus (s : goStatus)
  | CCache (c : goCache)
  | CCacheList (l : goCacheList)
  | CConditions (l : list goCondition)
  | CStrings (l : list string)
  | CCaches (l : list goCache)
  | CLib (c : libCell).

End Structs.

Abbreviation heap := (gmap loc cell).

Section Steps.
Context `{DT : DeepTypes}.

(** ** Steps over the heap *)

Definition M (A : Type) : Type := heap → option (A * heap).

Definition ret {A} (a : A) : M A := λ h, Some (a, h).
Definition bind {A B} (m : M A) (f : A → M B) : M B :=
  λ h, match m h with Some (a, h) => f a h | None => None end.

Definition alloc (c : cell) : M loc := λ h, let l := fresh (dom h) in Some (l, <[l := c]> h).
Definition load {T} (prj : cell → option T) (l : loc) : M T :=
  λ h, c ← h !! l; t ← prj c; Some (t, h).

Fixpoint mapSteps {A B} (f : A → M B) (l : list A) : M (list B) :=
  match l with
  | [] => ret []
  | x :: l => bind (f x) (λ y, bind (mapSteps f l) (λ ys, ret (y :: ys)))
  end.

(** Which cells hold a [T]. *)
Class Boxed (T : Type) := {
  box : T → cell;
  unbox : cell → option T;
  unbox_box : ∀ t, unbox (box t) = Some t
}.

(** [if in == nil { return nil }; out := new(T); in.DeepCopyInto(out); return out],
    and the same with [make] for a slice. *)
Definition copyPtr {T} `{!Boxed T} (f : T → M T) (p : ptr) : M ptr :=
  match p with
  | None => ret None
  | Some l => bind (load unbox l) (λ t, bind (f t) (λ t', bind (alloc (box t')) (λ l', ret (Some l'))))
  end.

(** ** Views: what a reader of the value can see *)

(** [seen h a] is everything reachable from [a], [None] when an address dangles;
    [reach h a] are the addresses it goes through. *)
Class Viewed (A : Type) := {
  view : Type;
  seen : heap → A → option view;
  reach : heap → A → gset loc;
  seen_reach : ∀ h a v, seen h a = Some v → reach h a ⊆ dom h;
  seen_local : ∀ h h' a v, seen h a = Some v →
    (∀ l, l ∈ reach h a → h' !! l = h !! l) → seen h' a = Some v ∧ reach h' a = reach h a
}.

(** A step that copies: it does not panic, writes no address that was in use,
    and its result looks the same and goes through new addresses only. *)
Definition copies {A} `{!Viewed A} (f : A → M A) : Prop :=
  ∀ h a v, seen h a = Some v →
  ∃ a' h', f a h = Some (a', h') ∧ h ⊆ h' ∧ seen h' a' = Some v ∧ reach h' a' ## dom h.

End Steps.

#[export] Hint Mode Viewed - + : typeclass_instances.
#[global] Arguments view {DT} A {_}.

(** ** Views of values, pointers and slices *)

Section Views.
Context `{DT : DeepTypes}.

(** A type without references. *)
Program Definition plain (A : Type) : Viewed A :=
  {| view := A; seen := λ _ a, Some a; reach := λ _ _, ∅ |}.
Solve All Obligations with (simpl; intros; first [done | set_solver]).

#[export] Instance int32_viewed : Viewed Z := plain Z.
#[export] Instance string_viewed : Viewed string := plain string.
#[export] Instance tenant_viewed : Viewed TenantSpec := plain TenantSpec.
#[export] Instance drain_viewed : Viewed DrainSpec := plain DrainSpec.

Definition seenPtr {T} `{!Boxed T, !Viewed T} (h : heap) (p : ptr) : option (option (view T)) :=
  match p with
  | None => Some None
  | Some l => c ← h !! l; t ← unbox c; v ← seen h t; Some (Some v)
  end.

Definition reachPtr {T} `{!Boxed T, !Viewed T} (h : heap) (p : ptr) : gset loc :=
  match p with
  | None => ∅
  | Some l => {[l]} ∪ match h !! l ≫= unbox with Some t => reach h t | None => ∅ end
  end.

Lemma seenPtr_Some {T} `{!Boxed T, !Viewed T} h l v :
  seenPtr (T := T) h (Some l) = Some v ↔
  ∃ c t w, h !! l = Some c ∧ unbox c = Some t ∧ seen h t = Some w ∧ v = Some w.
Proof.
  simpl. destruct (h !! l) as [c|]; simpl; [|naive_solver].
  destruct (unbox c) as [t|] eqn:E; simpl; [|naive_solver].
  destruct (seen h t) eqn:E'; simpl; naive_solver.
Qed.

(** The addresses in use that a pointer goes through, and that they decide what
    is seen: pointers to [T] inherit both laws from [T]. *)
Lemma reachPtr_dom {T} `{!Boxed T, !Viewed T} h p v :
  seenPtr (T := T) h p = Some v → reachPtr (T := T) h p ⊆ dom h.
Proof.
  destruct p as [l|]; [|set_solver].
  intros (c & t & w & Hl & Ht & Hw & ->)%seenPtr_Some. simpl. rewrite Hl. simpl. rewrite Ht.
  apply seen_reach in Hw. apply elem_of_dom_2 in Hl. set_solver.
Qed.

Lemma seenPtr_local {T} `{!Boxed T, !Viewed T} h h' p v :
  seenPtr (T := T) h p = Some v → (∀ l, l ∈ reachPtr (T := T) h p → h' !! l = h !! l) →
  seenPtr (T := T) h' p = Some v ∧ reachPtr (T := T) h' p = reachPtr (T := T) h p.
Proof.
  destruct p as [l|]; [|done].
  intros (c & t & w & Hl & Ht & Hw & ->)%seenPtr_Some. simpl. rewrite Hl. simpl. rewrite Ht. intros Hsame.
  rewrite (Hsame l), Hl by set_solver. simpl. rewrite Ht. simpl.
  destruct (seen_local h h' t w Hw) as [-> ->]; [set_solver|done].
Qed.

(** The list inside a slice. *)
Fixpoint seenList {A} `{!Viewed A} (h : heap) (l : list A) : option (list (view A)) :=
  match l with
  | [] => Some []
  | a :: l => v ← seen h a; vs ← seenList h l; Some (v :: vs)
  end.

Fixpoint reachList {A} `{!Viewed A} (h : heap) (l : list A) : gset loc :=
  match l with [] => ∅ | a :: l => reach h a ∪ reachList h l end.

Lemma seenList_cons {A} `{!Viewed A} h (a : A) l v :
  seenList h (a :: l) = Some v ↔ ∃ w ws, seen h a = Some w ∧ seenList h l = Some ws ∧ v = w :: ws.
Proof.
  simpl. destruct (seen h a); simpl; [|naive_solver]. destruct (seenList h l); simpl; naive_solver.
Qed.

#[export] Program Instance list_viewed {A} `{!Viewed A} : Viewed (list A) :=
  {| view := list (view A); seen := seenList; reach := reachList |}.
Next Obligation.
  intros A HA h l; induction l as [|a l IH]; intros v; [intros _; apply empty_subseteq|].
  intros (w & ws & Ha & Hl & ->)%seenList_cons. apply seen_reach in Ha. apply IH in Hl.
  simpl. set_solver.
Qed.
Next Obligation.
  intros A HA h h' l; induction l as [|a l IH]; intros v; [done|].
  intros (w & ws & Ha & Hl & ->)%seenList_cons. simpl. intros Hsame.
  destruct (seen_local h h' a w Ha) as [-> ->]; [set_solver|].
  destruct (IH ws Hl) as [-> ->]; [set_solver|done].
Qed.

(** A struct is seen field by field: as the tuple of its fields, where a field that
    points to a [T] is a [ref T]. *)
#[export] Program Instance pair_viewed {A B} `{!Viewed A, !Viewed B} : Viewed (A * B) := {|
  view := view A * view B;
  seen h x := v ← seen h x.1; w ← seen h x.2; Some (v, w);
  reach h x := reach h x.1 ∪ reach h x.2
|}.
Next Obligation.
  intros A B VA VB h [a b] v; simpl. destruct (seen h a) eqn:Ha, (seen h b) eqn:Hb; simpl; try done.
  intros _. apply seen_reach in Ha, Hb. set_solver.
Qed.
Next Obligation.
  intros A B VA VB h h' [a b] v; simpl. destruct (seen h a) eqn:Ha, (seen h b) eqn:Hb; simpl; try done.
  intros <- Hsame. destruct (seen_local h h' _ _ Ha) as [-> ->]; [set_solver|].
  destruct (seen_local h h' _ _ Hb) as [-> ->]; [set_solver|done].
Qed.

Record ref (T : Type) := mkRef { addr : ptr }.
Arguments mkRef T addr : clear implicits.
Arguments addr {T}.

#[export] Program Instance ref_viewed {T} `{!Boxed T, !Viewed T} : Viewed (ref T) := {|
  view := option (view T);
  seen h r := seenPtr (T := T) h (addr r);
  reach h r := reachPtr (T := T) h (addr r)
|}.
Next Obligation. intros T HB HV h r v. apply reachPtr_dom. Qed.
Next Obligation. intros T HB HV h h' r v. apply seenPtr_local. Qed.

Program Definition via {A B} (fields : A → B) `{!Viewed B} : Viewed A := {|
  view := view B; seen h x := seen h (fields x); reach h x := reach h (fields x)
|}.
Next Obligation. intros A B f VB h x v. apply seen_reach. Qed.
Next Obligation. intros A B f VB h h' x v. apply seen_local. Qed.

#[export] Instance int32_boxed : Boxed Z :=
  {| box := CInt32; unbox := λ c, match c with CInt32 n => Some n | _ => None end;
     unbox_box := λ _, eq_refl |}.
#[export] Instance tenant_boxed : Boxed TenantSpec :=
  {| box := CTenant; unbox := λ c, match c with CTenant n => Some n | _ => None end;
     unbox_box := λ _, eq_refl |}.
#[export] Instance drain_boxed : Boxed DrainSpec :=
  {| box := CDrain; unbox := λ c, match c with CDrain n => Some n | _ => None end;
     unbox_box := λ _, eq_refl |}.
#[export] Instance spec_boxed : Boxed goSpec :=
  {| box := CSpec; unbox := λ c, match c with CSpec n => Some n | _ => None end;
     unbox_box := λ _, eq_refl |}.
#[export] Instance ring_boxed : Boxed goRing :=
  {| box := CRing; unbox := λ c, match c with CRing n => Some n | _ => None end;
     unbox_box := λ _, eq_refl |}.
#[export] Instance status_boxed : Boxed goStatus :=
  {| box := CStatus; unbox := λ c, match c with CStatus n => Some n | _ => None end;
     unbox_box := λ _, eq_refl |}.
#[export] Instance cache_boxed : Boxed goCache :=
  {| box := CCache; unbox := λ c, match c with CCache n => Some n | _ => None end;
     unbox_box := λ _, eq_refl |}.
#[export] Instance cacheList_boxed : Boxed goCacheList :=
  {| box := CCacheList; unbox := λ c, match c with CCacheList n => Some n | _ => None end;
     unbox_box := λ _, eq_refl |}.
#[export] Instance conditions_boxed : Boxed (list goCondition) :=
  {| box := CConditions; unbox := λ c, match c with CConditions n => Some n | _ => None end;
     unbox_box := λ _, eq_refl |}.
#[export] Instance strings_boxed : Boxed (list string) :=
  {| box := CStrings; unbox := λ c, match c with CStrings n => Some n | _ => None end;
     unbox_box := λ _, eq_refl |}.
#[export] Instance caches_boxed : Boxed (list goCache) :=
  {| box := CCaches; unbox := λ c, match c with CCaches n => Some n | _ => None end;
     unbox_box := λ _, eq_refl |}.

(** ** Copying steps compose *)

Lemma seen_mono {A} `{!Viewed A} h h' (a : A) v :
  h ⊆ h' → seen h a = Some v → seen h' a = Some v ∧ reach h' a = reach h a.
Proof.
  intros Hsub Hs. apply (seen_local h); [done|]. intros l Hl.
  apply (seen_reach h a v Hs), elem_of_dom in Hl as [c Hc]. rewrite Hc. by eapply lookup_weaken.
Qed.

Lemma copies_ret {A} : @copies _ A (plain A) ret.
Proof. intros h a v Hs. exists a, h. split_and!; [done..|set_solver]. Qed.

Lemma copyPtr_copies {T} `{!Boxed T, !Viewed T} (f : T → M T) h p v :
  copies f → seenPtr (T := T) h p = Some v →
  ∃ p' h', copyPtr f p h = Some (p', h') ∧ h ⊆ h' ∧ seenPtr (T := T) h' p' = Some v ∧
    reachPtr (T := T) h' p' ## dom h ∧ (p = None ↔ p' = None).
Proof.
  intros Hf. destruct p as [l|]; [|intros [= <-]; exists None, h; set_solver].
  intros (c & t & w & Hl & Ht & Hw & ->)%seenPtr_Some.
  destruct (Hf h t w Hw) as (t' & h1 & Hrun & Hsub & Hw' & Hfresh).
  pose proof (is_fresh (dom h1)) as Hnew. set (l' := fresh (dom h1)) in *.
  assert (h1 ⊆ <[l' := box t']> h1) as Hsub' by (apply insert_subseteq, not_elem_of_dom; done).
  destruct (seen_mono _ _ _ _ Hsub' Hw') as [Hs Hr].
  exists (Some l'), (<[l' := box t']> h1). split_and!; [|by etransitivity|..].
  - unfold copyPtr, bind, load. rewrite Hl. simpl. rewrite Ht. simpl. by rewrite Hrun.
  - apply seenPtr_Some. exists (box t'), t', w.
    by rewrite lookup_insert_eq, unbox_box.
  - simpl. rewrite lookup_insert_eq. simpl. rewrite unbox_box, Hr.
    apply subseteq_dom in Hsub. set_solver.
  - done.
Qed.

Lemma mapSteps_copies {A} `{!Viewed A} (f : A → M A) : copies f → copies (mapSteps f).
Proof.
  intros Hf h l. revert h; induction l as [|a l IH]; intros h v.
  { intros [= <-]. exists [], h. split_and!; [done..|]. simpl. set_solver. }
  intros (w & ws & Ha & Hl & ->)%seenList_cons.
  destruct (Hf h a w Ha) as (a' & h1 & Hrun & Hsub & Ha' & Hfresh).
  destruct (seen_mono (Viewed0 := list_viewed) h h1 l ws Hsub Hl) as [Hl1 _].
  destruct (IH h1 ws Hl1) as (l' & h2 & Hrun2 & Hsub2 & Hl2 & Hfresh2).
  destruct (seen_mono _ _ _ _ Hsub2 Ha') as [Ha2 Hr].
  exists (a' :: l'), h2. split_and!; [| by etransitivity | |].
  - simpl. unfold bind. by rewrite Hrun, Hrun2.
  - apply seenList_cons. eauto.
  - simpl in *. rewrite Hr. apply subseteq_dom in Hsub. set_solver.
Qed.

Lemma copies_plain_list {A} : @copies _ (list A) (list_viewed (Viewed0 := plain A)) ret.
Proof.
  intros h l v Hs. exists l, h. split_and!; [done..|]. change (reach h l) with (reachList (Viewed0 := plain A) h l).
  assert (reachList (Viewed0 := plain A) h l = ∅) as ->; [|set_solver].
  clear. induction l as [|a l IH]; [done|]. simpl. rewrite IH. set_solver.
Qed.

Definition copyRef {T} `{!Boxed T} (f : T → M T) (r : ref T) : M (ref T) :=
  bind (copyPtr f (addr r)) (λ p, ret (mkRef T p)).

Definition copyPair {A B} (f : A → M A) (g : B → M B) (x : A * B) : M (A * B) :=
  bind (f x.1) (λ a, bind (g x.2) (λ b, ret (a, b))).

Lemma copyRef_copies {T} `{!Boxed T, !Viewed T} (f : T → M T) : copies f → copies (copyRef f).
Proof.
  intros Hf h [p] v Hs.
  destruct (copyPtr_copies f h p v Hf Hs) as (p' & h' & Hrun & ? & ? & ? & _).
  exists (mkRef T p'), h'. unfold copyRef, bind; simpl. by rewrite Hrun.
Qed.

Lemma copyPair_copies {A B} `{!Viewed A, !Viewed B} (f : A → M A) (g : B → M B) :
  copies f → copies g → copies (copyPair f g).
Proof.
  intros Hf Hg h [a b] v; simpl.
  destruct (seen h a) as [va|] eqn:Ha, (seen h b) as [vb|] eqn:Hb; simpl; try done. intros [= <-].
  destruct (Hf h a va Ha) as (a' & h1 & Hrun & Hsub & Ha' & Hfresh).
  destruct (seen_mono _ _ _ _ Hsub Hb) as [Hb1 _].
  destruct (Hg h1 b vb Hb1) as (b' & h2 & Hrun2 & Hsub2 & Hb2 & Hfresh2).
  destruct (seen_mono _ _ _ _ Hsub2 Ha') as [Ha2 Hr].
  exists (a', b'), h2. split_and!; [|by etransitivity|by simpl; rewrite Ha2, Hb2|].
  - unfold copyPair, bind; simpl. by rewrite Hrun, Hrun2.
  - simpl. rewrite Hr. apply subseteq_dom in Hsub. set_solver.
Qed.

(** A struct's copy is the copy of its fields. *)
Lemma copies_via {A B} (fields : A → B) `{!Viewed B} (f : A → M A) (g : B → M B) :
  copies g →
  (∀ x h, g (fields x) h = match f x h with Some (y, h') => Some (fields y, h') | None => None end) →
  @copies _ A (via fields) f.
Proof.
  intros Hg Hfg h x v Hs. destruct (Hg h (fields x) v Hs) as (y & h' & Hrun & Hsub & Hy & Hfresh).
  rewrite Hfg in Hrun. destruct (f x h) as [[z h'']|] eqn:Hf; simplify_eq. by exists z, h'.
Qed.

End Views.

(** The contract of the library types' own deep copies. *)
Class DeepLib (DT : DeepTypes) := {
  meta_viewed :: Viewed goMeta;
  listMeta_viewed :: Viewed goListMeta;
  condition_viewed :: Viewed goCondition;
  quantity_viewed :: Viewed goQuantity;
  ObjectMeta_DeepCopyInto : goMeta → M goMeta;
  ListMeta_DeepCopyInto : goListMeta → M goListMeta;
  Condition_DeepCopyInto : goCondition → M goCondition;
  Quantity_DeepCopy : goQuantity → M goQuantity;
  ObjectMeta_copies : copies ObjectMeta_DeepCopyInto;
  ListMeta_copies : copies ListMeta_DeepCopyInto;
  Condition_copies : copies Condition_DeepCopyInto;
  Quantity_copies : copies Quantity_DeepCopy
}.

(** A struct whose copy is the copy [g] of its fields: both parts by their shape. *)
Ltac same_fields f :=
  intros x h; unfold f, copyPair, copyRef, bind, ret; simpl;
  repeat (case_match; simplify_eq/=; try done); try by rewrite <- surjective_pairing.

Ltac copy_fields fields f g :=
  apply (copies_via fields f g);
  [ repeat first
      [ apply copyPair_copies | apply copyRef_copies | apply mapSteps_copies
      | apply ObjectMeta_copies | apply ListMeta_copies | apply Condition_copies | apply Quantity_copies
      | assumption | apply copies_plain_list | apply copies_ret ]
  | same_fields f ].

Section Generated.
Context {DT : DeepTypes} {DL : DeepLib DT}.

(** ** zz_generated.deepcopy.go *)

Definition DrainSpec_DeepCopyInto (x : DrainSpec) : M DrainSpec := ret x.
Definition TenantSpec_DeepCopyInto (x : TenantSpec) : M TenantSpec := ret x.

Definition Spec_DeepCopyInto (x : goSpec) : M goSpec :=
  bind (copyPtr (T := Z) ret (gs_Replicas x)) (λ replicas,
  bind (Quantity_DeepCopy (gs_MemoryPerPod x)) (λ memory,
  bind (copyPtr (T := TenantSpec) ret (gs_Tenant x)) (λ tenant,
  ret (mkGoSpec replicas (gs_Image x) memory (gs_Drain x) tenant)))).

Definition RingStatus_DeepCopyInto (x : goRing) : M goRing :=
  bind (copyPtr (T := list string) ret (gr_Members x)) (λ members,
  ret (mkGoRing (gr_Version x) members (gr_ConfigMapName x))).

Definition Status_DeepCopyInto (x : goStatus) : M goStatus :=
  bind (copyPtr (mapSteps Condition_DeepCopyInto) (gt_Conditions x)) (λ conditions,
  bind (RingStatus_DeepCopyInto (gt_Ring x)) (λ ring,
  ret (mkGoStatus conditions (gt_ObservedGeneration x) (gt_ReadyReplicas x) ring))).

Definition Cache_DeepCopyInto (x : goCache) : M goCache :=
  bind (ObjectMeta_DeepCopyInto (gc_ObjectMeta x)) (λ meta,
  bind (Spec_DeepCopyInto (gc_Spec x)) (λ spec,
  bind (Status_DeepCopyInto (gc_Status x)) (λ status,
  ret (mkGoCache (gc_TypeMeta x) meta spec status)))).

Definition CacheList_DeepCopyInto (x : goCacheList) : M goCacheList :=
  bind (ListMeta_DeepCopyInto (gl_ListMeta x)) (λ meta,
  bind (copyPtr (mapSteps Cache_DeepCopyInto) (gl_Items x)) (λ items,
  ret (mkGoCacheList (gl_TypeMeta x) meta items))).

Definition DrainSpec_DeepCopy : ptr → M ptr := copyPtr DrainSpec_DeepCopyInto.
Definition TenantSpec_DeepCopy : ptr → M ptr := copyPtr TenantSpec_DeepCopyInto.
Definition Spec_DeepCopy : ptr → M ptr := copyPtr Spec_DeepCopyInto.
Definition RingStatus_DeepCopy : ptr → M ptr := copyPtr RingStatus_DeepCopyInto.
Definition Status_DeepCopy : ptr → M ptr := copyPtr Status_DeepCopyInto.
Definition Cache_DeepCopy : ptr → M ptr := copyPtr Cache_DeepCopyInto.
Definition CacheList_DeepCopy : ptr → M ptr := copyPtr CacheList_DeepCopyInto.

(** [runtime.Object]: the nil interface, or a pointer with its dynamic type. *)
Inductive Object := NilObject | CacheObject (p : ptr) | CacheListObject (p : ptr).

Definition Cache_DeepCopyObject (p : ptr) : M Object :=
  bind (Cache_DeepCopy p) (λ c,
  ret (if decide (c = None) then NilObject else CacheObject c)).

Definition CacheList_DeepCopyObject (p : ptr) : M Object :=
  bind (CacheList_DeepCopy p) (λ c,
  ret (if decide (c = None) then NilObject else CacheListObject c)).

(** ** What is seen of the generated structs *)

Definition specFields (x : goSpec) :=
  (mkRef Z (gs_Replicas x), (gs_MemoryPerPod x, (mkRef TenantSpec (gs_Tenant x), (gs_Image x, gs_Drain x)))).
Definition ringFields (x : goRing) :=
  (mkRef (list string) (gr_Members x), (gr_Version x, gr_ConfigMapName x)).

#[export] Instance spec_viewed : Viewed goSpec := via specFields.
#[export] Instance ring_viewed : Viewed goRing := via ringFields.

Definition statusFields (x : goStatus) :=
  (mkRef (list goCondition) (gt_Conditions x), (gt_Ring x, (gt_ObservedGeneration x, gt_ReadyReplicas x))).

#[export] Instance status_viewed : Viewed goStatus := via statusFields.

Definition cacheFields (x : goCache) := (gc_ObjectMeta x, (gc_Spec x, (gc_Status x, gc_TypeMeta x))).

#[export] Instance cache_viewed : Viewed goCache := via cacheFields.

Definition listFields (x : goCacheList) :=
  (gl_ListMeta x, (mkRef (list goCache) (gl_Items x), gl_TypeMeta x)).

#[export] Instance cacheList_viewed : Viewed goCacheList := via listFields.

(** ** The generated functions copy *)

Lemma Spec_copies : copies Spec_DeepCopyInto.
Proof.
  copy_fields specFields Spec_DeepCopyInto
    (copyPair (copyRef (T := Z) ret) (copyPair Quantity_DeepCopy
      (copyPair (copyRef (T := TenantSpec) ret) (copyPair (A := string) (B := DrainSpec) ret ret)))).
Qed.

Lemma RingStatus_copies : copies RingStatus_DeepCopyInto.
Proof.
  copy_fields ringFields RingStatus_DeepCopyInto
    (copyPair (copyRef (T := list string) ret) (copyPair (A := Z) (B := string) ret ret)).
Qed.

Lemma Status_copies : copies Status_DeepCopyInto.
Proof.
  pose proof RingStatus_copies.
  copy_fields statusFields Status_DeepCopyInto
    (copyPair (copyRef (mapSteps Condition_DeepCopyInto))
      (copyPair RingStatus_DeepCopyInto (copyPair (A := Z) (B := Z) ret ret))).
Qed.

Lemma Cache_copies : copies Cache_DeepCopyInto.
Proof.
  pose proof Spec_copies. pose proof Status_copies.
  copy_fields cacheFields Cache_DeepCopyInto
    (copyPair ObjectMeta_DeepCopyInto (copyPair Spec_DeepCopyInto
      (copyPair Status_DeepCopyInto (copyPair (A := string) (B := string) ret ret)))).
Qed.

Lemma CacheList_copies : copies CacheList_DeepCopyInto.
Proof.
  pose proof Cache_copies.
  copy_fields listFields CacheList_DeepCopyInto
    (copyPair ListMeta_DeepCopyInto (copyPair (copyRef (mapSteps Cache_DeepCopyInto))
      (copyPair (A := string) (B := string) ret ret))).
Qed.

(** A [DeepCopy] method on [*T]: nil goes to nil; else the copy shows what the
    original shows, and a write through either of them is not seen through the
    other. *)
Definition independent (T : Type) `{!Boxed T, !Viewed T} (step : ptr → M ptr) : Prop :=
  ∀ h p v, seen h (mkRef T p) = Some v →
  ∃ p' h', step p h = Some (p', h') ∧ (p = None ↔ p' = None) ∧
    seen h' (mkRef T p) = Some v ∧ seen h' (mkRef T p') = Some v ∧
    (∀ l c, l ∈ reach h' (mkRef T p') → seen (<[l := c]> h') (mkRef T p) = Some v) ∧
    (∀ l c, l ∈ reach h (mkRef T p) → seen (<[l := c]> h') (mkRef T p') = Some v).

Lemma seen_write {A} `{!Viewed A} h (a : A) v l c :
  seen h a = Some v → l ∉ reach h a → seen (<[l := c]> h) a = Some v.
Proof.
  intros Hs Hl. apply (seen_local h (<[l := c]> h) a v Hs). intros k Hk.
  apply lookup_insert_ne. by intros ->.
Qed.

Lemma copies_independent {T} `{!Boxed T, !Viewed T} (f : T → M T) :
  copies f → independent T (copyPtr f).
Proof.
  intros Hf h p v Hs.
  destruct (copyPtr_copies f h p v Hf Hs) as (p' & h' & Hrun & Hsub & Hs' & Hfresh & Hnil).
  destruct (seen_mono h h' (mkRef T p) v Hsub Hs) as [Hold Hreach].
  pose proof (seen_reach h (mkRef T p) v Hs) as Hdom. simpl in *.
  exists p', h'. split_and!; [done..| |]; intros l c Hl.
  - apply (seen_write (Viewed0 := ref_viewed) h' (mkRef T p) v l c Hold). simpl. rewrite Hreach. set_solver.
  - apply (seen_write (Viewed0 := ref_viewed) h' (mkRef T p') v l c Hs'). simpl. set_solver.
Qed.

(** C33: every generated DeepCopy method returns nil for nil, and otherwise, from
    any heap in which the object's pointers are valid, it does not panic and
    returns a copy that shows exactly what the original shows, nil-ness of its
    pointers and slices included, while no write to memory reachable from the
    copy is visible through the original, nor the other way round. *)
Theorem deep_copies_are_independent :
  independent goCache Cache_DeepCopy ∧ independent goCacheList CacheList_DeepCopy ∧
  independent goSpec Spec_DeepCopy ∧ independent goStatus Status_DeepCopy ∧
  independent goRing RingStatus_DeepCopy ∧
  independent DrainSpec DrainSpec_DeepCopy ∧ independent TenantSpec TenantSpec_DeepCopy.
Proof.
  split_and!; apply copies_independent;
    auto using Cache_copies, CacheList_copies, Spec_copies, Status_copies, RingStatus_copies;
    apply copies_ret.
Qed.

(** The interface of a copied nil pointer is the nil interface, never an interface
    that holds a nil pointer; of any other it holds the copy. *)
Lemma DeepCopyObject_nil h p v :
  seen h (mkRef goCache p) = Some v →
  ∃ o h', Cache_DeepCopyObject p h = Some (o, h') ∧
    match p with
    | None => o = NilObject
    | Some _ => ∃ l, o = CacheObject (Some l) ∧ seen h' (mkRef goCache (Some l)) = Some v
    end.
Proof.
  intros Hs.
  destruct (copyPtr_copies _ h p v Cache_copies Hs) as (p' & h' & Hrun & _ & Hs' & _ & Hnil).
  unfold Cache_DeepCopyObject, Cache_DeepCopy, bind. rewrite Hrun. eexists _, h'. split; [done|].
  destruct p as [l|]; [|by rewrite (proj1 Hnil eq_refl)].
  destruct p' as [l'|]; [by exists l'|]. by pose proof (proj2 Hnil eq_refl).
Qed.

End Generated.

(** ** A library that meets the contract: metadata with a shared map of labels *)

Module RefDeep.

#[export] Instance types : DeepTypes :=
  {| goMeta := string * ptr; goListMeta := string; goCondition := string;
     goQuantity := Z; libCell := list (string * string) |}.

#[export] Instance labels_boxed : Boxed (list (string * string)) :=
  {| box := CLib; unbox := λ c, match c with CLib m => Some m | _ => None end;
     unbox_box := λ _, eq_refl |}.

Definition metaFields (m : goMeta) : string * ref (list (string * string)) := (m.1, mkRef _ m.2).
Definition copyMeta (m : goMeta) : M goMeta :=
  bind (copyPtr (T := list (string * string)) ret m.2) (λ p, ret (m.1, p)).

#[export] Instance labels_viewed : Viewed (list (string * string)) := plain (list (string * string)).

Lemma copyMeta_copies : @copies _ goMeta (via metaFields) copyMeta.
Proof.
  copy_fields metaFields copyMeta (copyPair (A := string) ret (copyRef (T := list (string * string)) ret)).
Qed.

#[export] Instance lib : DeepLib types :=
  {| meta_viewed := via metaFields; listMeta_viewed := plain string; condition_viewed := plain string;
     quantity_viewed := plain Z;
     ObjectMeta_DeepCopyInto := copyMeta; ListMeta_DeepCopyInto := ret; Condition_DeepCopyInto := ret;
     Quantity_DeepCopy := ret;
     ObjectMeta_copies := copyMeta_copies; ListMeta_copies := copies_ret; Condition_copies := copies_ret;
     Quantity_copies := copies_ret |}.

(** A cache at address 1 with labels, three replicas, a tenant and two ring
    members. *)
Definition object : goCache :=
  mkGoCache ("DistributedCache", "v1alpha1")%string ("demo"%string, Some 2%positive)
    (mkGoSpec (Some 3%positive) "img" 64 (mkDrainSpec 30) (Some 4%positive))
    (mkGoStatus None 1 3 (mkGoRing 2 (Some 5%positive) "demo-ring")).

Definition memory : heap :=
  list_to_map [(1%positive, CCache object); (2%positive, CLib [("app", "cache")%string]);
    (3%positive, CInt32 3); (4%positive, CTenant (mkTenantSpec true));
    (5%positive, CStrings ["demo-0"; "demo-1"]%string)].

(** The copy of the members is at a new address, and clearing it leaves the
    original's members alone. *)
Example copy_runs :
  ∃ l h' m, Cache_DeepCopy (Some 1%positive) memory = Some (Some l, h') ∧
    h' !! l = Some (CCache m) ∧ gr_Members (gt_Ring (gc_Status m)) ≠ Some 5%positive ∧
    gr_Members (gt_Ring (gc_Status m)) ≫= (λ k, h' !! k) = Some (CStrings ["demo-0"; "demo-1"]%string).
Proof. eexists _, _, _. split; [vm_compute; reflexivity|]. split; [vm_compute; reflexivity|].
  split; [vm_compute; discriminate|vm_compute; reflexivity]. Qed.

(** The theorem at this library and this memory: emptying any memory of the copy
    still shows the original its two members. *)
Lemma deep_copies_are_independent_witness :
  ∃ p' h' v, Cache_DeepCopy (Some 1%positive) memory = Some (p', h') ∧
    seen memory (mkRef goCache (Some 1%positive)) = Some v ∧
    ∀ l, l ∈ reach h' (mkRef goCache p') →
      seen (<[l := CStrings []]> h') (mkRef goCache (Some 1%positive)) = Some v.
Proof.
  destruct (seen memory (mkRef goCache (Some 1%positive))) as [v|] eqn:Hv; [|vm_compute in Hv; discriminate Hv].
  destruct (proj1 deep_copies_are_independent memory (Some 1%positive) v Hv)
    as (p' & h' & Hrun & _ & _ & _ & Hwrite & _).
  exists p', h', v. split; [exact Hrun|]. split; [reflexivity|].
  intros l Hl. exact (Hwrite l _ Hl).
Defined.

End RefDeep.
