(* ===== verification/Kube.v ===== *)
(** * The Kubernetes libraries as the operator sees them

    Nothing here is code of the repository: [KubeLib] is the interface of the
    pure helpers of controller-runtime and apimachinery with their documented
    contracts, and [Op] lists the calls that leave the process (API server,
    event recorder, clock). A program of the operator is a tree [prog] of such
    calls; the environment answers each call, so a property of all runs holds
    whatever the API server, its cache and the other controllers do in
    between. *)

From S2P Require Import Prelude GoLib Api.

Definition find_cond (ty : string) (l : list Condition) : option Condition :=
  list_find (λ c, c_Type c = ty) l ≫= λ p, Some p.2.

(** ** Helpers of the libraries, with their contracts *)
Class KubeLib := {
  KL_Quantity :: QuantityLib;

  (** controllerutil *)
  AddFinalizer : list string → string → list string * bool;
  RemoveFinalizer : list string → string → list string;
  ContainsFinalizer : list string → string → bool;
  SetControllerReference : DistributedCache → ObjectMeta → goerror + ObjectMeta;

  (** meta.SetStatusCondition on the condition list *)
  SetStatusCondition : list Condition → Condition → list Condition;

  AddFinalizer_elem : ∀ l f x, x ∈ (AddFinalizer l f).1 ↔ x ∈ l ∨ x = f;
  AddFinalizer_changed : ∀ l f, (AddFinalizer l f).2 = negb (bool_decide (f ∈ l));
  AddFinalizer_same : ∀ l f, f ∈ l → (AddFinalizer l f).1 = l;
  RemoveFinalizer_elem : ∀ l f x, x ∈ RemoveFinalizer l f ↔ x ∈ l ∧ x ≠ f;
  ContainsFinalizer_spec : ∀ l f, ContainsFinalizer l f = bool_decide (f ∈ l);

  (** a controller reference to the cache is added or refreshed, nothing else
      changes, and doing it again changes nothing *)
  SetControllerReference_frame : ∀ c m m', SetControllerReference c m = inr m' →
    m' = mkObjectMeta (om_Name m) (om_Namespace m) (om_UID m) (om_Labels m) (om_Annotations m)
           (om_Finalizers m) (om_OwnerReferences m') (om_DeletionTimestamp m)
           (om_CreationTimestamp m) (om_Generation m);
  SetControllerReference_idem : ∀ c m m', SetControllerReference c m = inr m' →
    SetControllerReference c m' = inr m';
  SetControllerReference_owner : ∀ c m m', SetControllerReference c m = inr m' →
    ∃ r, r ∈ om_OwnerReferences m' ∧ or_Controller r = true ∧ or_Group r = groupName ∧
         or_Kind r = "DistributedCache" ∧ or_Name r = dc_Name c;

  (** the condition of that type becomes the new one, the others stay *)
  SetStatusCondition_same : ∀ l c, find_cond (c_Type c) (SetStatusCondition l c) = Some c;
  SetStatusCondition_other : ∀ l c ty, ty ≠ c_Type c →
    find_cond ty (SetStatusCondition l c) = find_cond ty l
}.

(** controllerutil.OperationResult is a string; this is the "nothing done" one. *)
Definition OperationResultNone : string := "unchanged".

(** ** Calls to the outside *)

Section Programs.
Context `{KL : KubeLib}.

Inductive Op : Type :=
  | OGet (k : Kind) (key : NamespacedName)
  | OListPods (ns : string) (labels : gmap string string)
  | OUpdate (k : Kind) (o : obj k)
  | OStatusUpdate (c : DistributedCache)
  | ODelete (k : Kind) (o : obj k)
  | OCreateOrUpdate (k : Kind) (o : obj k) (mutate : obj k → goerror + obj k)
  | OEvent (ty reason msg : string)
  | ONow.

(** What a call returns: the client's error or its result. [Update] and
    [Status().Update] overwrite their argument with the server's answer. *)
Definition Resp (o : Op) : Type :=
  match o with
  | OGet k _ => goerror + obj k
  | OListPods _ _ => goerror + list Pod
  | OUpdate k _ => goerror + obj k
  | OStatusUpdate _ => goerror + DistributedCache
  | ODelete _ _ => goerror + unit
  | OCreateOrUpdate k _ _ => goerror + (string * obj k)
  | OEvent _ _ _ => unit
  | ONow => Time
  end.

Inductive prog (A : Type) : Type :=
  | Ret (a : A)
  | Vis (o : Op) (k : Resp o → prog A).
#[global] Arguments Ret {A} a.
#[global] Arguments Vis {A} o k.

Fixpoint prog_bind {A B} (f : A → prog B) (p : prog A) : prog B :=
  match p with
  | Ret a => f a
  | Vis o k => Vis o (λ r, prog_bind f (k r))
  end.

#[global] Instance prog_ret : MRet prog := λ A a, Ret a.
#[global] Instance prog_mbind : MBind prog := @prog_bind.

Definition call (o : Op) : prog (Resp o) := Vis o Ret.

(** The client's methods. *)
Definition Get (k : Kind) (key : NamespacedName) : prog (goerror + obj k) := call (OGet k key).
Definition ListPods (ns : string) (labels : gmap string string) : prog (goerror + list Pod) :=
  call (OListPods ns labels).
Definition Update (k : Kind) (o : obj k) : prog (goerror + obj k) := call (OUpdate k o).
Definition StatusUpdate (c : DistributedCache) : prog (goerror + DistributedCache) :=
  call (OStatusUpdate c).
Definition Delete (k : Kind) (o : obj k) : prog (goerror + unit) := call (ODelete k o).
Definition CreateOrUpdate (k : Kind) (o : obj k) (f : obj k → goerror + obj k) :
    prog (goerror + (string * obj k)) := call (OCreateOrUpdate k o f).
Definition Now : prog Time := call ONow.

(** [r.Recorder.Eventf(cache, corev1.EventTypeNormal, reason, msg)] *)
Definition Eventf (reason msg : string) : prog unit := call (OEvent "Normal" reason msg).

(** Go's [if err != nil { return err }] and [fmt.Errorf("ctx: %w", err)]. *)
Definition ebind {A B} (p : prog (goerror + A)) (f : A → prog (goerror + B)) : prog (goerror + B) :=
  p ≫= λ r, match r with inl e => Ret (inl e) | inr a => f a end.

Definition wrapf {A} (ctx : string) (p : prog (goerror + A)) : prog (goerror + A) :=
  p ≫= λ r, Ret (match r with inl e => inl (Wrapf ctx e) | inr a => inr a end).

(** ** Runs

    An event is a call with its answer; [runs p t a]: under the answers of
    [t] the program returns [a]. *)
Definition event : Type := { o : Op & Resp o }.
Definition ev (o : Op) (r : Resp o) : event := existT o r.

Fixpoint runs {A} (p : prog A) (t : list event) (a : A) : Prop :=
  match p with
  | Ret b => t = [] ∧ a = b
  | Vis o k => ∃ r t', t = ev o r :: t' ∧ runs (k r) t' a
  end.

(** The answer of a read of kind [k]. *)
Definition readOf (k : Kind) (e : event) : option (goerror + obj k) :=
  let '(existT o r) := e in
  match o return Resp o → option (goerror + obj k) with
  | OGet k' _ => λ r, match decide (k' = k) with
                      | left E => Some (eq_rect k' (λ k, goerror + obj k)%type r k E)
                      | right _ => None
                      end
  | _ => λ _, None
  end r.

Lemma readOf_Get k key r : readOf k (ev (OGet k key) r) = Some r.
Proof.
  simpl. destruct (decide (k = k)) as [E|]; [|done].
  by rewrite (Eqdep_dec.UIP_dec (λ a b, decide (a = b)) E eq_refl).
Qed.

(** Equal traces starting with the same read had the same answer. *)
Lemma get_events_inj k key r r' t t' :
  ev (OGet k key) r :: t = ev (OGet k key) r' :: t' → r = r' ∧ t = t'.
Proof.
  intros H. split; [|by apply (f_equal tail) in H].
  apply (f_equal (λ l, head l ≫= readOf k)) in H.
  change (readOf k (ev (OGet k key) r) = readOf k (ev (OGet k key) r')) in H.
  rewrite !readOf_Get in H. congruence.
Qed.

Lemma runs_bind {A B} (p : prog A) (f : A → prog B) t b :
  runs (p ≫= f) t b ↔ ∃ t1 a t2, t = t1 ++ t2 ∧ runs p t1 a ∧ runs (f a) t2 b.
Proof.
  unfold mbind, prog_mbind. revert t. induction p as [a|o k IH]; intros t; simpl.
  - split; [intros H; by exists [], a, t|]. by intros (t1 & a' & t2 & -> & [-> ->] & H).
  - split.
    + intros (r & t' & -> & (t1 & a & t2 & -> & H1 & H2)%IH). exists (ev o r :: t1), a, t2.
      split; [done|]. split; [|done]. by exists r, t1.
    + intros (t1 & a & t2 & -> & (r & t' & -> & H1) & H2). exists r, (t' ++ t2).
      split; [done|]. apply IH. by exists t', a, t2.
Qed.

Lemma runs_ebind {A B} (p : prog (goerror + A)) (f : A → prog (goerror + B)) t b :
  runs (ebind p f) t b ↔
  (∃ e, runs p t (inl e) ∧ b = inl e) ∨
  (∃ t1 a t2, t = t1 ++ t2 ∧ runs p t1 (inr a) ∧ runs (f a) t2 b).
Proof.
  unfold ebind. rewrite runs_bind. split.
  - intros (t1 & [e|a] & t2 & -> & H1 & H2); [|by eauto 10].
    destruct H2 as [-> ->]. rewrite app_nil_r. eauto.
  - intros [(e & H & ->)|(t1 & a & t2 & -> & H1 & H2)].
    + exists t, (inl e), []. by rewrite app_nil_r.
    + by exists t1, (inr a), t2.
Qed.

Lemma runs_wrapf {A} ctx (p : prog (goerror + A)) t b :
  runs (wrapf ctx p) t b ↔
  (∃ e, runs p t (inl e) ∧ b = inl (Wrapf ctx e)) ∨ (∃ a, runs p t (inr a) ∧ b = inr a).
Proof.
  unfold wrapf. rewrite runs_bind. split.
  - intros (t1 & [e|a] & t2 & -> & H1 & [-> ->]); rewrite app_nil_r; eauto.
  - intros [(e & H & ->)|(a & H & ->)]; eexists t, _, []; by rewrite app_nil_r.
Qed.

Lemma runs_ebind_ok {A B} (p : prog (goerror + A)) (f : A → prog (goerror + B)) t b :
  runs (ebind p f) t (inr b) ↔ ∃ t1 a t2, t = t1 ++ t2 ∧ runs p t1 (inr a) ∧ runs (f a) t2 (inr b).
Proof. rewrite runs_ebind. naive_solver. Qed.

Lemma runs_wrapf_ok {A} ctx (p : prog (goerror + A)) t b :
  runs (wrapf ctx p) t (inr b) ↔ runs p t (inr b).
Proof. rewrite runs_wrapf. naive_solver. Qed.

(** A program has a run under every way of answering. *)
Fixpoint interp {W A} (h : ∀ o, W → W * Resp o) (p : prog A) (w : W) : W * list event * A :=
  match p with
  | Ret a => (w, [], a)
  | Vis o k => let '(w1, r) := h o w in
               let '(w2, t, a) := interp h (k r) w1 in (w2, ev o r :: t, a)
  end.

Lemma interp_runs {W A} (h : ∀ o, W → W * Resp o) (p : prog A) w :
  let '(_, t, a) := interp h p w in runs p t a.
Proof.
  revert w. induction p as [a|o k IH]; intros w; simpl; [done|].
  destruct (h o w) as [w1 r]. specialize (IH r w1).
  destruct (interp h (k r) w1) as [[w2 t] a]. eauto.
Qed.

Lemma runs_interp {W A} (h : ∀ o, W → W * Resp o) (p : prog A) w :
  runs p (interp h p w).1.2 (interp h p w).2.
Proof. pose proof (interp_runs h p w) as H. by destruct (interp h p w) as [[w' t] a]. Qed.

Lemma interp_bind {W A B} (h : ∀ o, W → W * Resp o) (p : prog A) (f : A → prog B) w :
  interp h (p ≫= f) w =
    let '(w1, t1, a) := interp h p w in let '(w2, t2, b) := interp h (f a) w1 in (w2, t1 ++ t2, b).
Proof.
  unfold mbind, prog_mbind. revert w. induction p as [a|o k IH]; intros w; simpl.
  - by destruct (interp h (f a) w) as [[w2 t2] b].
  - destruct (h o w) as [w1 r]. rewrite IH. destruct (interp h (k r) w1) as [[w2 t1] a].
    by destruct (interp h (f a) w2) as [[w3 t2] b].
Qed.

(** ** Calls a program can make

    [safe P p]: whatever the answers, every call [p] makes satisfies [P]. *)
Fixpoint safe {A} (P : Op → Prop) (p : prog A) : Prop :=
  match p with
  | Ret _ => True
  | Vis o k => P o ∧ ∀ r, safe P (k r)
  end.

Lemma safe_bind {A B} P (p : prog A) (f : A → prog B) :
  safe P p → (∀ a, safe P (f a)) → safe P (p ≫= f).
Proof.
  unfold mbind, prog_mbind. induction p as [a|o k IH]; simpl; [by eauto|].
  intros [Ho Hk] Hf. split; [done|]. intros r. by apply IH.
Qed.

Lemma safe_ebind {A B} P (p : prog (goerror + A)) (f : A → prog (goerror + B)) :
  safe P p → (∀ a, safe P (f a)) → safe P (ebind p f).
Proof. intros Hp Hf. apply safe_bind; [done|]. by intros [e|a]; [|apply Hf]. Qed.

Lemma safe_wrapf {A} P ctx (p : prog (goerror + A)) : safe P p → safe P (wrapf ctx p).
Proof. intros Hp. by apply safe_bind. Qed.

Lemma safe_mono {A} (P Q : Op → Prop) (p : prog A) : (∀ o, P o → Q o) → safe P p → safe Q p.
Proof.
  intros HPQ. induction p as [a|o k IH]; simpl; [done|]. intros [Ho Hk]. split; eauto.
Qed.

(** Safety transfers to the calls of every run. *)
Lemma safe_runs {A} P (p : prog A) t a :
  safe P p → runs p t a → Forall (λ e : event, P (projT1 e)) t.
Proof.
  revert t. induction p as [b|o k IH]; intros t; simpl.
  - by intros _ [-> _].
  - intros [Ho Hk] (r & t' & -> & Hr). constructor; [done|]. eauto.
Qed.

(** The shape of a call, and programs that only make calls of given shapes. *)
Inductive tag := TGet (k : Kind) | TListPods | TUpdate (k : Kind) | TStatusUpdate
  | TDelete (k : Kind) | TCreateOrUpdate (k : Kind) | TEvent | TNow.

#[global] Instance tag_eq_dec : EqDecision tag.
Proof. solve_decision. Defined.

Definition op_tag (o : Op) : tag :=
  match o with
  | OGet k _ => TGet k
  | OListPods _ _ => TListPods
  | OUpdate k _ => TUpdate k
  | OStatusUpdate _ => TStatusUpdate
  | ODelete k _ => TDelete k
  | OCreateOrUpdate k _ _ => TCreateOrUpdate k
  | OEvent _ _ _ => TEvent
  | ONow => TNow
  end.

Definition only (l : list tag) (o : Op) : Prop := bool_decide (op_tag o ∈ l) = true.

Lemma only_avoids {A} l (Q : tag → Prop) (p : prog A) :
  Forall (λ g, Q g) l → safe (only l) p → safe (λ o, Q (op_tag o)) p.
Proof.
  intros Hl. apply safe_mono. unfold only. intros o Ho%bool_decide_eq_true.
  by eapply Forall_forall in Hl.
Qed.

Lemma only_weaken {A} l l' (p : prog A) :
  Forall (λ g, g ∈ l') l → safe (only l) p → safe (only l') p.
Proof.
  intros Hl Hp. eapply safe_mono, (only_avoids l (λ g, g ∈ l') p Hl Hp).
  intros o Ho. by apply bool_decide_eq_true.
Qed.

(** ** Calls justified by what came before

    [guarded P p pre]: every call [o] that [p] makes, with the events [pre']
    (starting with [pre]) behind it, satisfies [P pre' o]. *)
Fixpoint guarded {A} (P : list event → Op → Prop) (p : prog A) (pre : list event) : Prop :=
  match p with
  | Ret _ => True
  | Vis o k => P pre o ∧ ∀ r, guarded P (k r) (pre ++ [ev o r])
  end.

Lemma guarded_bind {A B} P (p : prog A) (f : A → prog B) pre :
  guarded P p pre → (∀ t a, runs p t a → guarded P (f a) (pre ++ t)) → guarded P (p ≫= f) pre.
Proof.
  unfold mbind, prog_mbind. revert pre. induction p as [a|o k IH]; intros pre; simpl.
  - intros _ Hf. specialize (Hf [] a). rewrite app_nil_r in Hf. by apply Hf.
  - intros [Ho Hk] Hf. split; [done|]. intros r. apply IH; [done|].
    intros t a Hr. rewrite <- app_assoc. apply Hf. simpl. eauto.
Qed.

Lemma guarded_call (P : list event → Op → Prop) o pre : P pre o → guarded P (call o) pre.
Proof. by split. Qed.

Lemma runs_call o t r : runs (call o) t r ↔ t = [ev o r].
Proof. split; [by intros (r' & t' & -> & -> & ->)|]. intros ->. by exists r, []. Qed.

Lemma guarded_safe {A} (P : list event → Op → Prop) (p : prog A) pre :
  safe (λ o, ∀ pre, P pre o) p → guarded P p pre.
Proof.
  revert pre. induction p as [a|o k IH]; intros pre; simpl; [done|].
  intros [Ho Hk]. eauto.
Qed.

Lemma guarded_runs {A} P (p : prog A) pre t a t1 e t2 :
  guarded P p pre → runs p t a → t = t1 ++ e :: t2 → P (pre ++ t1) (projT1 e).
Proof.
  revert pre t t1. induction p as [b|o k IH]; intros pre t t1; simpl.
  - intros _ [-> _] Ht. by destruct t1.
  - intros [Ho Hk] (r & t' & -> & Hr) Ht. destruct t1 as [|e1 t1]; simplify_eq/=.
    + by rewrite app_nil_r.
    + change (ev o r :: t1) with ([ev o r] ++ t1). rewrite app_assoc. by eapply IH.
Qed.

Lemma guarded_mono {A} (P Q : list event → Op → Prop) (p : prog A) pre :
  (∀ pre o, P pre o → Q pre o) → guarded P p pre → guarded Q p pre.
Proof.
  intros HPQ. revert pre. induction p as [a|o k IH]; intros pre; simpl; [done|].
  intros [Ho Hk]. eauto.
Qed.

(** The events before the program started stay in view. *)
Lemma guarded_prefix {A} (P Q : list event → Op → Prop) (p : prog A) pre :
  guarded P p pre → (∀ t o, P (pre ++ t) o → Q (pre ++ t) o) → guarded Q p pre.
Proof.
  revert pre. induction p as [a|o k IH]; intros pre; simpl; [done|].
  intros [Ho Hk] HPQ. split.
  - specialize (HPQ [] o). rewrite app_nil_r in HPQ. by apply HPQ.
  - intros r. apply IH; [done|]. intros t o'. rewrite <- app_assoc. apply HPQ.
Qed.

(** A program that never makes calls of a shape is no concern of a property of
    those calls. *)
Lemma guarded_outside {A} (T : tag) (P : list event → Op → Prop) l (p : prog A) pre :
  (∀ pre o, op_tag o ≠ T → P pre o) → bool_decide (T ∉ l) = true → safe (only l) p →
  guarded P p pre.
Proof.
  intros HP Hl%bool_decide_eq_true Hp. apply guarded_safe. eapply safe_mono; [|exact Hp].
  unfold only. intros o Ho%bool_decide_eq_true pre'. apply HP. congruence.
Qed.

Lemma guarded_always {A} (P : list event → Op → Prop) (p : prog A) pre :
  (∀ t o, P (pre ++ t) o) → guarded P p pre.
Proof.
  intros H. apply guarded_prefix with (λ _ _, True); [|done].
  apply guarded_safe. clear. by induction p as [|o k IH]; simpl.
Qed.

End Programs.

#[global] Arguments runs : simpl never.
#[global] Arguments guarded : simpl never.

Declare Scope prog_scope.
Delimit Scope prog_scope with prog.

Notation "x ←? p ; q" := (ebind p (λ x, q))
  (at level 20, p at level 100, q at level 200, right associativity) : prog_scope.
Notation "p ;;? q" := (ebind p (λ _, q))
  (at level 100, q at level 200, right associativity) : prog_scope.

(** Walk through a run: split binds, read off the events of calls, return.
    Branches whose result contradicts the known one disappear. *)
Ltac run_step H :=
  lazymatch type of H with
  | runs (Ret _) _ _ => let E := fresh "E" in destruct H as [? E]; simplify_eq/=
  | runs (mret _) _ _ => let E := fresh "E" in destruct H as [? E]; simplify_eq/=
  | runs (ebind _ _) _ (inr _) =>
      let t1 := fresh "t" in let a := fresh "a" in let t2 := fresh "t" in let H1 := fresh "H" in
      apply runs_ebind_ok in H as (t1 & a & t2 & -> & H1 & H)
  | runs (wrapf _ _) _ (inr _) => apply runs_wrapf_ok in H
  | runs (ebind _ _) _ _ =>
      let e := fresh "e" in let E := fresh "E" in
      let t1 := fresh "t" in let a := fresh "a" in let t2 := fresh "t" in let H1 := fresh "H" in
      apply runs_ebind in H as [(e & H & E)|(t1 & a & t2 & -> & H1 & H)];
      [simplify_eq/=|]
  | runs (wrapf _ _) _ _ =>
      let e := fresh "e" in let a := fresh "a" in let E := fresh "E" in
      apply runs_wrapf in H as [(e & H & E)|(a & H & E)]; simplify_eq/=
  | runs (_ ≫= _) _ _ =>
      let t1 := fresh "t" in let a := fresh "a" in let t2 := fresh "t" in let H1 := fresh "H" in
      apply runs_bind in H as (t1 & a & t2 & -> & H1 & H)
  | runs (Vis _ _) _ _ =>
      let r := fresh "r" in let t1 := fresh "t" in destruct H as (r & t1 & -> & H); simpl in H
  | runs (call ?o) _ _ => apply (runs_call o) in H as ->
  end.

(** Prove [safe] of straight-line programs: split binds and calls, then case
    on what the program branches on. *)
Ltac safe_step :=
  lazymatch goal with
  | |- safe _ (ebind _ _) => apply safe_ebind; [|intros ?]
  | |- safe _ (wrapf _ _) => apply safe_wrapf
  | |- safe _ (_ ≫= _) => apply safe_bind; [|intros ?]
  | |- safe _ (call _) => split; [|done]
  | |- safe _ (mret _) => done
  | |- safe _ (Ret _) => done
  | |- safe _ (if ?b then _ else _) => destruct b eqn:?
  | |- safe _ (match ?x with _ => _ end) => destruct x eqn:?
  end.

(** Calls of the expected shapes only. *)
Ltac footprint := repeat safe_step; try done; try reflexivity.

#[export] Hint Resolve safe_bind safe_ebind safe_wrapf : dco.
