(* ===== verification/KubeRef.v ===== *)
(** * A reference implementation of the library interfaces

    [refKube] implements [KubeLib] (so its contracts can be met) and [Cluster]
    is a small in-memory API server answering the operator's calls. They are
    instances for concrete runs and witnesses; the theorems about the operator
    do not depend on them. *)

From S2P Require Import Prelude GoLib Api Kube.

Local Open Scope Z_scope.

(** ** Helpers *)

#[refine] Definition refQuantity : QuantityLib := {|
  Quantity := Z; q_Value := wrap64; q_Set _ v := v; q_New v := v; q_String := FormatInt
|}.
Proof.
  - intros q. by apply wrap_ok.
  - intros _ v Hv. by apply wrap64_id.
  - intros v Hv. by apply wrap64_id.
Defined.

Fixpoint refSetCondition (l : list Condition) (c : Condition) : list Condition :=
  match l with
  | [] => [c]
  | d :: l => if bool_decide (c_Type d = c_Type c) then c :: l else d :: refSetCondition l c
  end.

Lemma find_cond_cons ty c l :
  find_cond ty (c :: l) = if bool_decide (c_Type c = ty) then Some c else find_cond ty l.
Proof.
  unfold find_cond. cbn [list_find]. case_decide as H; [by rewrite bool_decide_true|].
  rewrite bool_decide_false by done. by destruct (list_find _ l) as [[i d]|].
Qed.

Lemma refSetCondition_same l c : find_cond (c_Type c) (refSetCondition l c) = Some c.
Proof.
  induction l as [|d l IH]; simpl; [by rewrite find_cond_cons, bool_decide_true|].
  case_bool_decide; rewrite find_cond_cons; [by rewrite bool_decide_true|].
  by rewrite bool_decide_false.
Qed.

Lemma refSetCondition_other l c ty :
  ty ≠ c_Type c → find_cond ty (refSetCondition l c) = find_cond ty l.
Proof.
  intros Hne. induction l as [|d l IH]; simpl.
  - rewrite find_cond_cons, bool_decide_false by congruence. done.
  - case_bool_decide as Hd; rewrite !find_cond_cons.
    + rewrite !bool_decide_false by congruence. done.
    + by rewrite IH.
Qed.

Definition ownerOf `{QuantityLib} (c : DistributedCache) : OwnerReference :=
  mkOwnerReference groupName "DistributedCache" (dc_Name c) (om_UID (dc_meta c)) true.

Definition om_set_Owners (l : list OwnerReference) (m : ObjectMeta) : ObjectMeta :=
  mkObjectMeta (om_Name m) (om_Namespace m) (om_UID m) (om_Labels m) (om_Annotations m)
    (om_Finalizers m) l (om_DeletionTimestamp m) (om_CreationTimestamp m) (om_Generation m).

(** Refused when another controller owns the child. *)
Definition refSetControllerReference `{QuantityLib} (c : DistributedCache) (m : ObjectMeta) :
    goerror + ObjectMeta :=
  let others := filter (λ r, or_UID r ≠ om_UID (dc_meta c)) (om_OwnerReferences m) in
  if existsb or_Controller others then inl (ApiError false "already owned by another controller")
  else inr (om_set_Owners (others ++ [ownerOf c]) m).

#[refine] Definition refKube : KubeLib := {|
  KL_Quantity := refQuantity;
  AddFinalizer l f := if bool_decide (f ∈ l) then (l, false) else (l ++ [f], true);
  RemoveFinalizer l f := filter (λ x, x ≠ f) l;
  ContainsFinalizer l f := bool_decide (f ∈ l);
  SetControllerReference := refSetControllerReference;
  SetStatusCondition := refSetCondition
|}.
Proof.
  - intros l f x. case_bool_decide; simpl; set_solver.
  - intros l f. by case_bool_decide.
  - intros l f Hin. by rewrite bool_decide_true.
  - intros l f x. rewrite list_elem_of_filter. naive_solver.
  - done.
  - intros c m m'. unfold refSetControllerReference. case_match; [done|]. by intros [= <-].
  - intros c m m'. unfold refSetControllerReference. case_match eqn:E; [done|]. intros [= <-].
    simpl. rewrite filter_app, filter_cons_False, filter_nil, app_nil_r by (simpl; naive_solver).
    rewrite list_filter_filter_l by done. by rewrite E.
  - intros c m m'. unfold refSetControllerReference. case_match; [done|]. intros [= <-].
    exists (ownerOf c). split_and!; [|done..]. simpl. set_solver.
  - apply refSetCondition_same.
  - apply refSetCondition_other.
Defined.

(** ** An in-memory API server *)

#[local] Existing Instance refKube.

Abbreviation okey := (string * string)%type.

(** [writes_fail k]: the server refuses to create or update objects of kind [k]. *)
Record Cluster := mkCluster {
  store : ∀ k : Kind, gmap okey (obj k);
  clock : Time;
  writes_fail : Kind → bool
}.

Definition key_of {k} (o : obj k) : okey :=
  (om_Namespace (obj_meta k o), om_Name (obj_meta k o)).

Definition put {k} (o : obj k) (c : Cluster) : Cluster :=
  mkCluster (λ k', match decide (k = k') with
                   | left e => <[key_of o := eq_rect k obj o k' e]> (store c k')
                   | right _ => store c k'
                   end) (clock c) (writes_fail c).

Definition remove (k : Kind) (key : okey) (c : Cluster) : Cluster :=
  mkCluster (λ k', if decide (k = k') then delete key (store c k') else store c k')
    (clock c) (writes_fail c).

Definition notFound {A} : goerror + A := inl (ApiError true "not found").
Definition refused {A} : goerror + A := inl (ApiError false "refused").

(** The server stamps the creation time of a new object. *)
Definition created (now : Time) (m : ObjectMeta) : ObjectMeta :=
  mkObjectMeta (om_Name m) (om_Namespace m) (om_UID m) (om_Labels m) (om_Annotations m)
    (om_Finalizers m) (om_OwnerReferences m) (om_DeletionTimestamp m) (Some now) (om_Generation m).

Definition deleted (now : Time) (m : ObjectMeta) : ObjectMeta :=
  mkObjectMeta (om_Name m) (om_Namespace m) (om_UID m) (om_Labels m) (om_Annotations m)
    (om_Finalizers m) (om_OwnerReferences m) (Some now) (om_CreationTimestamp m) (om_Generation m).

Definition map_meta (f : ObjectMeta → ObjectMeta) (k : Kind) : obj k → obj k :=
  match k with
  | KDistributedCache => λ o : DistributedCache, mkCache (f (dc_meta o)) (Spec o) (Status o)
  | KPod => λ o : Pod, mkPod (f (pod_meta o)) (Phase o) (pod_Conditions o)
  | KNamespace => λ o : Namespace_, mkNamespace (f (ns_meta o))
  | KResourceQuota => λ o : ResourceQuota, mkResourceQuota (f (rq_meta o)) (Hard o)
  | KNetworkPolicy => λ o : NetworkPolicy, mkNetworkPolicy (f (np_meta o)) (np_Spec o)
  | KService => λ o : Service, mkService (f (svc_meta o)) (svc_Spec o)
  | KStatefulSet => λ o : StatefulSet, mkStatefulSet (f (sts_meta o)) (sts_Spec o)
  | KConfigMap => λ o : ConfigMap, mkConfigMap (f (cm_meta o)) (Data o)
  end.

Definition server_cou (k : Kind) (o : obj k) (f : obj k → goerror + obj k) (c : Cluster) :
    Cluster * (goerror + (string * obj k)) :=
  if writes_fail c k then (c, refused) else
  match store c k !! key_of o with
  | None => match f o with
            | inl e => (c, inl e)
            | inr o' => let o' := map_meta (created (clock c)) k o' in
                        (put o' c, inr ("created", o'))
            end
  | Some o0 => match f o0 with
               | inl e => (c, inl e)
               | inr o' => if bool_decide (o' = o0) then (c, inr ("unchanged", o0))
                           else (put o' c, inr ("updated", o'))
               end
  end.

Definition server_update (k : Kind) (o : obj k) (c : Cluster) : Cluster * (goerror + obj k) :=
  if writes_fail c k then (c, refused) else
  match store c k !! key_of o with
  | None => (c, notFound)
  | Some _ =>
      let m := obj_meta k o in
      if negb (bool_decide (om_DeletionTimestamp m = None)) && bool_decide (om_Finalizers m = [])
      then (remove k (key_of o) c, inr o)
      else (put o c, inr o)
  end.

Definition server (o : Op) : Cluster → Cluster * Resp o :=
  match o return Cluster → Cluster * Resp o with
  | OGet k key => λ c, (c, match store c k !! (nn_Namespace key, nn_Name key) with
                           | Some o => inr o | None => notFound end)
  | OListPods ns sel => λ c, (c, inr (filter (λ p : Pod, om_Namespace (pod_meta p) = ns ∧
                                 sel ⊆ om_Labels (pod_meta p)) (map_to_list (store c KPod)).*2))
  | OUpdate k o => server_update k o
  | OStatusUpdate d => λ c, match store c KDistributedCache !! @key_of KDistributedCache d with
                            | None => (c, notFound)
                            | Some d0 => let d' := mkCache (dc_meta d0) (Spec d0) (Status d) in
                                         (@put KDistributedCache d' c, inr d')
                            end
  | ODelete k o => λ c, match store c k !! key_of o with
                        | None => (c, notFound)
                        | Some o0 => (put (map_meta (deleted (clock c)) k o0) c, inr tt)
                        end
  | OCreateOrUpdate k o f => server_cou k o f
  | OEvent _ _ _ => λ c, (c, tt)
  | ONow => λ c, (c, clock c)
  end.

Definition run {A} (p : prog A) (c : Cluster) : Cluster * A :=
  let '(c', _, a) := interp server p c in (c', a).

Definition emptyCluster (now : Time) : Cluster := mkCluster (λ _, ∅) now (λ _, false).
Definition at_time (now : Time) (c : Cluster) : Cluster := mkCluster (store c) now (writes_fail c).
Definition failing (f : Kind → bool) (c : Cluster) : Cluster := mkCluster (store c) (clock c) f.
