(* ===== verification/Names.v ===== *)
(** * Names, labels and namespaces of the controller package

    The constants of distributedcache_controller.go and the naming functions
    [targetNamespace], [isCrossNamespaceChild], [podLabels],
    [ringConfigMapName]. *)

From S2P Require Import Prelude GoLib Api.

Local Open Scope Z_scope.

(** Condition types and reasons. *)
Definition ConditionAvailable : string := "Available".
Definition ConditionProgressing : string := "Progressing".
Definition ConditionDegraded : string := "Degraded".
Definition ConditionTenantIsolated : string := "TenantIsolated".

Definition ReasonReconciled : string := "Reconciled".
Definition ReasonNoReadyPods : string := "NoReadyPods".
Definition ReasonInsufficientReplicas : string := "InsufficientReplicas".
Definition ReasonRingNotPublished : string := "RingNotPublished".
Definition ReasonReplicasConverging : string := "ReplicasConverging".
Definition ReasonNotRequested : string := "NotRequested".
Definition ReasonCellFailed : string := "CellReconcileFailed".
Definition ReasonServiceFailed : string := "ServiceReconcileFailed".
Definition ReasonStatefulSetFailed : string := "StatefulSetReconcileFailed".
Definition ReasonRingFailed : string := "RingReconcileFailed".

(** Recommended labels. *)
Definition labelName : string := "app.kubernetes.io/name".
Definition labelInstance : string := "app.kubernetes.io/instance".
Definition labelManagedBy : string := "app.kubernetes.io/managed-by".
Definition labelComponent : string := "app.kubernetes.io/component".
Definition appName : string := "distributed-cache".
Definition managedByValue : string := "distributed-cache-operator".

Definition cachePort : Z := 8080.

(** Cellular design constants. *)
Definition cellNamespacePrefix : string := "cache-".
Definition drainFinalizer : string := "cache.sk1.services.com/drain".
Definition drainAnnotation : string := "cache.sk1.services.com/draining-since".

Definition ringConfigMapKey : string := "ring.json".

Section Names.
Context `{QL : QuantityLib}.

(** [cache.Spec.Tenant != nil && cache.Spec.Tenant.Isolate] *)
Definition isolated (cache : DistributedCache) : bool :=
  match Tenant (Spec cache) with Some t => Isolate t | None => false end.

Definition targetNamespace (cache : DistributedCache) : string :=
  if isolated cache then cellNamespacePrefix +:+ dc_Name cache else dc_Namespace cache.

Definition isCrossNamespaceChild (cache : DistributedCache) : bool :=
  negb (bool_decide (targetNamespace cache = dc_Namespace cache)).

Definition podLabels (cache : DistributedCache) : gmap string string :=
  {[ labelName := appName; labelInstance := dc_Name cache ]}.

Definition ringConfigMapName (cache : DistributedCache) : string := dc_Name cache +:+ "-ring".

(** [int32(0)] unless [spec.replicas] is set. *)
Definition specReplicas (cache : DistributedCache) : Z := default 0 (Replicas (Spec cache)).

(** [fmt.Sprintf("%s-%d", cache.Name, i)] *)
Definition podNameOf (name : string) (i : Z) : string := name +:+ "-" +:+ FormatInt i.

End Names.

Lemma podNameOf_inj name i j : podNameOf name i = podNameOf name j → i = j.
Proof.
  unfold podNameOf. intros H. apply (inj (String.app name)) in H.
  apply (inj (String.app "-")) in H. by apply (inj FormatInt).
Qed.
