(* ===== verification/Ring.v ===== *)
(** * internal/controller/ring.go

    The published ring, its comparisons and [computeMembers], which selects and
    orders the pods clients may route to. *)

From S2P Require Import Prelude GoLib Api Names.

Local Open Scope Z_scope.

Record Ring := mkRing { Version : Z; Members : list string }.

(** [for i := range a { if a[i] != b[i] { return false } }; return true], run
    after the lengths were compared. *)
Fixpoint sameElements (a b : list string) : bool :=
  match a, b with
  | x :: a, y :: b => if bool_decide (x = y) then sameElements a b else false
  | _, _ => true
  end.

Definition MembersEqual (r other : Ring) : bool :=
  if negb (bool_decide (length (Members r) = length (Members other))) then false
  else sameElements (Members r) (Members other).

Definition Ring_Equal (r other : Ring) : bool :=
  if negb (bool_decide (Version r = Version other)) then false
  else if negb (bool_decide (length (Members r) = length (Members other))) then false
  else sameElements (Members r) (Members other).

Definition PodRunning : string := "Running".
Definition PodReady : string := "Ready".
Definition ConditionTrue : string := "True".
Definition ConditionFalse : string := "False".

Fixpoint podReadyIn (l : list PodCondition) : bool :=
  match l with
  | [] => false
  | c :: l => if bool_decide (pc_Type c = PodReady)
              then bool_decide (pc_Status c = ConditionTrue) else podReadyIn l
  end.

Definition isPodReady (p : Pod) : bool := podReadyIn (pod_Conditions p).

(** [None] is the source's [(0, false)]. *)
Definition podOrdinal (name : string) : option Z :=
  let idx := LastIndex name "-"%char in
  if bool_decide (idx = -1) || bool_decide (idx = Z.of_nat (len name) - 1) then None
  else Atoi (slice_from name (Z.to_nat (idx + 1))).

Record ordered := mkOrdered { o_name : string; o_ordinal : Z }.

(** The body of the selection loop: the entry appended for one pod, if any. *)
Definition readyEntry (p : Pod) : option ordered :=
  if negb (bool_decide (om_DeletionTimestamp (pod_meta p) = None)) then None
  else if bool_decide (is_Some (pod_Annotations p !! drainAnnotation)) then None
  else if negb (bool_decide (Phase p = PodRunning)) then None
  else if negb (isPodReady p) then None
  else ord ← podOrdinal (pod_Name p); Some (mkOrdered (pod_Name p) ord).

Section ComputeMembers.
Context `{SS : SliceSort}.

Definition computeMembers (pods : list Pod) : list string :=
  let ready := omap readyEntry pods in
  o_name <$> sort_Slice (λ a b, o_ordinal a <? o_ordinal b) ready.

End ComputeMembers.

(** ** Comparisons *)

Lemma sameElements_eq a b : length a = length b → sameElements a b = true ↔ a = b.
Proof.
  revert b. induction a as [|x a IH]; intros [|y b] Hlen; simplify_eq/=; [done|].
  case_bool_decide as Hxy; [rewrite IH by done|]; naive_solver.
Qed.

Lemma MembersEqual_eq r o : MembersEqual r o = true ↔ Members r = Members o.
Proof.
  unfold MembersEqual. case_bool_decide as Hl; simpl.
  - by apply sameElements_eq.
  - split; [done|]. congruence.
Qed.

Lemma Ring_Equal_eq r o : Ring_Equal r o = true ↔ r = o.
Proof.
  destruct r as [v1 m1], o as [v2 m2]. unfold Ring_Equal. simpl.
  case_bool_decide; simpl; [|split; congruence].
  case_bool_decide; simpl; [|split; congruence].
  rewrite sameElements_eq by done. split; congruence.
Qed.

(** ** Ordinals *)

(** The ordinal is what [Atoi] reads after the last dash. *)
Lemma podOrdinal_Some name n :
  podOrdinal name = Some n ↔
  ∃ p s, name = p +:+ String "-"%char s ∧ no_byte "-"%char s = true ∧ Atoi s = Some n.
Proof.
  unfold podOrdinal. pose proof (LastIndex_bound name "-"%char) as Hb. split.
  - case_bool_decide as H1; [done|]. case_bool_decide as H2; [done|]. simpl. intros Hn.
    destruct (LastIndex_split name "-"%char (Z.to_nat (LastIndex name "-"%char)))
      as (p & Hp & Hname & Hd); [lia|].
    exists p, (slice_from name (S (len p))). rewrite Hp. split_and!; [done|done|].
    by replace (S (Z.to_nat (LastIndex name "-"%char)))
      with (Z.to_nat (LastIndex name "-"%char + 1)) by lia.
  - intros (p & s & -> & Hd & Hn). rewrite LastIndex_app by done.
    rewrite string_length_app. simpl.
    rewrite bool_decide_false by lia. simpl.
    destruct s as [|c s]; [done|]. rewrite bool_decide_false by (simpl; lia).
    replace (Z.to_nat (Z.of_nat (len p) + 1)) with (S (len p)) by lia.
    replace (slice_from (p +:+ String "-"%char (String c s)) (S (len p))) with (String c s); [done|].
    clear. induction p as [|x p IH]; [done|]. rewrite string_app_cons. simpl. done.
Qed.

Lemma podOrdinal_podNameOf name i :
  0 <= i < 2 ^ 63 → podOrdinal (podNameOf name i) = Some i.
Proof.
  intros Hi. apply podOrdinal_Some. exists name, (FormatInt i). split_and!; [done| |].
  - apply FormatInt_no_dash. lia.
  - apply ParseInt_FormatInt. go_int.
Qed.

(** ** Membership *)

(** What makes a pod a ring member. *)
Definition servable (p : Pod) : Prop :=
  om_DeletionTimestamp (pod_meta p) = None ∧ pod_Annotations p !! drainAnnotation = None ∧
  Phase p = PodRunning ∧ isPodReady p = true ∧ is_Some (podOrdinal (pod_Name p)).

Lemma readyEntry_Some p e :
  readyEntry p = Some e ↔ servable p ∧ o_name e = pod_Name p ∧ podOrdinal (pod_Name p) = Some (o_ordinal e).
Proof.
  unfold readyEntry, servable.
  case_bool_decide as H1; simpl; [|naive_solver].
  case_bool_decide as H2; simpl; [rewrite is_Some_alt in H2; case_match; naive_solver|].
  apply eq_None_not_Some in H2.
  case_bool_decide as H3; simpl; [|naive_solver].
  destruct (isPodReady p); simpl; [|naive_solver].
  destruct (podOrdinal (pod_Name p)) as [n|] eqn:E; simpl.
  - destruct e as [nm o]. split; [intros Heq; simplify_eq/=; split_and!; eauto|].
    intros (_ & ? & ?). by simplify_eq/=.
  - split; [done|]. naive_solver.
Qed.

Section Theorems.
Context `{SS : SliceSort}.

Lemma computeMembers_perm pods : computeMembers pods ≡ₚ o_name <$> omap readyEntry pods.
Proof. unfold computeMembers. by rewrite sort_Slice_perm. Qed.

Lemma elem_of_computeMembers pods m :
  m ∈ computeMembers pods ↔ ∃ p, p ∈ pods ∧ pod_Name p = m ∧ servable p.
Proof.
  rewrite computeMembers_perm, list_elem_of_fmap. setoid_rewrite list_elem_of_omap. split.
  - intros (e & -> & p & Hp & (Hs & Hn & _)%readyEntry_Some). eauto.
  - intros (p & Hp & <- & Hs). pose proof Hs as (_ & _ & _ & _ & [n Hn]).
    exists (mkOrdered (pod_Name p) n). split; [done|]. exists p. split; [done|].
    by apply readyEntry_Some.
Qed.

Definition ordinal_le (a b : string) : Prop :=
  match podOrdinal a, podOrdinal b with Some i, Some j => i <= j | _, _ => False end.

Lemma computeMembers_sorted pods : StronglySorted ordinal_le (computeMembers pods).
Proof.
  unfold computeMembers.
  assert (Forall (λ e, podOrdinal (o_name e) = Some (o_ordinal e))
    (sort_Slice (λ a b, o_ordinal a <? o_ordinal b) (omap readyEntry pods))) as Hall.
  { rewrite sort_Slice_perm. apply Forall_forall.
    intros e (p & _ & (_ & -> & ->)%readyEntry_Some)%list_elem_of_omap. done. }
  pose proof (sort_Slice_key o_ordinal (omap readyEntry pods)) as Hs.
  induction Hs as [|e l _ IH He]; [constructor|].
  inversion Hall as [|? ? Hel Hl]; subst. simpl. constructor; [by apply IH|].
  apply Forall_fmap, Forall_forall. intros e' He'. simpl. unfold ordinal_le.
  rewrite Hel. eapply Forall_forall in Hl as ->; [|done].
  by eapply Forall_forall in He.
Qed.

Lemma computeMembers_NoDup pods : NoDup (pod_Name <$> pods) → NoDup (computeMembers pods).
Proof.
  intros Hnd. rewrite computeMembers_perm.
  induction pods as [|p pods IH]; simpl; [constructor|].
  apply NoDup_cons in Hnd as [Hp Hnd]. specialize (IH Hnd). simpl.
  destruct (readyEntry p) as [e|] eqn:E; [|done]. simpl. constructor; [|done].
  apply readyEntry_Some in E as (_ & -> & _). intros Hin. apply Hp.
  apply list_elem_of_fmap in Hin as (e' & He & (p' & Hp' & (_ & Hn & _)%readyEntry_Some)%list_elem_of_omap).
  apply list_elem_of_fmap. exists p'. split; [congruence|done].
Qed.

(** The result does not depend on the order in which the API server lists the
    pods, when no two selected pods share an ordinal. *)
Lemma computeMembers_order_irrelevant pods pods' :
  pods ≡ₚ pods' →
  (∀ p q, p ∈ pods → q ∈ pods → servable p → servable q →
     podOrdinal (pod_Name p) = podOrdinal (pod_Name q) → pod_Name p = pod_Name q) →
  computeMembers pods = computeMembers pods'.
Proof.
  intros Hp Hinj.
  apply (StronglySorted_unique_strong ordinal_le);
    [|apply computeMembers_sorted|apply computeMembers_sorted|by rewrite !computeMembers_perm, Hp].
  intros a b (p & Hpin & <- & Hps)%elem_of_computeMembers (q & Hq & <- & Hqs)%elem_of_computeMembers.
  rewrite <- Hp in Hq. unfold ordinal_le. intros H1 H2. apply Hinj; [done..|].
  destruct (podOrdinal (pod_Name p)), (podOrdinal (pod_Name q)); try done. f_equal. lia.
Qed.

End Theorems.

(** ** Claims *)

Section Claims.
Context `{SS : SliceSort}.

(** C21: for any listing of distinctly named pods, the computed members are exactly
    the names of the servable pods (not being deleted, not draining, running,
    ready, with an ordinal in the name), each once, in ordinal order. *)
Theorem computeMembers_selects_servable_pods pods :
  NoDup (pod_Name <$> pods) →
  (∀ m, m ∈ computeMembers pods ↔ ∃ p, p ∈ pods ∧ pod_Name p = m ∧ servable p) ∧
  NoDup (computeMembers pods) ∧ StronglySorted ordinal_le (computeMembers pods).
Proof.
  intros Hnd. split_and!; [apply elem_of_computeMembers|by apply computeMembers_NoDup|].
  apply computeMembers_sorted.
Qed.

(** [podOrdinal] reads back the ordinal of every pod name the StatefulSet
    controller can form, and accepts a name only when an integer that [Atoi]
    accepts follows its last dash. *)
Theorem podOrdinal_reads_ordinals name :
  (∀ base i, 0 <= i < 2 ^ 63 → name = podNameOf base i → podOrdinal name = Some i) ∧
  (∀ n, podOrdinal name = Some n ↔
     ∃ p s, name = p +:+ String "-"%char s ∧ no_byte "-"%char s = true ∧ Atoi s = Some n).
Proof.
  split; [|intros n; apply podOrdinal_Some].
  intros base i Hi ->. by apply podOrdinal_podNameOf.
Qed.

End Claims.

(** Pods of one StatefulSet have distinct ordinals. *)
Lemma statefulset_ordinals name (pods : list Pod) p q :
  (∀ p, p ∈ pods → ∃ i, 0 <= i < 2 ^ 63 ∧ pod_Name p = podNameOf name i) →
  p ∈ pods → q ∈ pods → podOrdinal (pod_Name p) = podOrdinal (pod_Name q) →
  pod_Name p = pod_Name q.
Proof.
  intros Hn (i & Hi & ->)%Hn (j & Hj & ->)%Hn. rewrite !podOrdinal_podNameOf by done. congruence.
Qed.

(** Two operators that see the pods of a StatefulSet in different listing
    orders, and whose unstable sorts break ties differently, compute the same
    member list - so a reordered listing never bumps the ring version. *)
Theorem members_independent_of_listing_order (SS1 SS2 : SliceSort) name pods pods' :
  pods ≡ₚ pods' →
  (∀ p, p ∈ pods → ∃ i, 0 <= i < 2 ^ 63 ∧ pod_Name p = podNameOf name i) →
  computeMembers (SS := SS1) pods = computeMembers (SS := SS2) pods'.
Proof.
  intros Hp Hn. rewrite (computeMembers_order_irrelevant (SS := SS1) pods pods') by
    (first [done | intros p q ????; by eapply statefulset_ordinals]).
  apply (StronglySorted_unique_strong ordinal_le);
    [|apply computeMembers_sorted|apply computeMembers_sorted|by rewrite !computeMembers_perm].
  intros a b (p & Hpin & <- & _)%elem_of_computeMembers (q & Hq & <- & _)%elem_of_computeMembers.
  rewrite <- Hp in Hpin, Hq. unfold ordinal_le. intros H1 H2.
  eapply statefulset_ordinals; [done..|].
  destruct (podOrdinal (pod_Name p)), (podOrdinal (pod_Name q)); try done. f_equal. lia.
Qed.
