(* ===== verification/Cell.v ===== *)
(** * Cellular isolation (reconcileCell and its parts)

    distributedcache_controller.go: the cell Namespace, its ResourceQuota and
    its NetworkPolicy, and the owner-reference guard every child shares. *)

From S2P Require Import Prelude GoLib Api Kube Names.

Local Open Scope Z_scope.
Local Open Scope prog_scope.

Section Cell.
Context `{KL : KubeLib}.

(** Guarded [SetControllerReference], on the child's metadata. *)
Definition setControllerReferenceIfSameNamespace (cache : DistributedCache) (child : ObjectMeta) :
    goerror + ObjectMeta :=
  if isCrossNamespaceChild cache then inr child else SetControllerReference cache child.

(** The four recommended labels every child is stamped with. *)
Definition stampLabels (cache : DistributedCache) (component : string) (l : gmap string string) :
    gmap string string :=
  <[labelComponent := component]> (<[labelManagedBy := managedByValue]>
    (<[labelInstance := dc_Name cache]> (<[labelName := appName]> l))).

(** Log and record an event unless the operation changed nothing. *)
Definition reportOp (op reason msg : string) : prog (goerror + unit) :=
  if negb (bool_decide (op = OperationResultNone)) then Eventf reason msg;; mret (inr tt)
  else mret (inr tt).

(** ** Namespace *)

Definition cellOfLabel : string := "cache.sk1.services.com/cell-of".

Definition mutateCellNamespace (cache : DistributedCache) (ns : Namespace_) : goerror + Namespace_ :=
  inr (mkNamespace (om_set_Labels (λ l,
    <[cellOfLabel := dc_Namespace cache +:+ "." +:+ dc_Name cache]> (stampLabels cache "cell" l))
    (ns_meta ns))).

Definition reconcileCellNamespace (cache : DistributedCache) : prog (goerror + unit) :=
  r ←? wrapf "CreateOrUpdate Namespace" (CreateOrUpdate KNamespace
         (mkNamespace (newMeta (targetNamespace cache) "")) (mutateCellNamespace cache));
  let '(op, ns) := (r : string * Namespace_) in
  reportOp op "CellNamespaceReconciled"
    ("Cell Namespace " +:+ om_Name (ns_meta ns) +:+ " " +:+ op).

(** ** ResourceQuota *)

(** [totalWithHeadroom]: replicas × memoryPerPod plus a quarter, in [int64]. *)
Definition quotaMemory (cache : DistributedCache) : Quantity :=
  let replicas := specReplicas cache in
  let mem := MemoryPerPod (Spec cache) in
  let totalMem := q_Set mem (wrap64 (q_Value mem * replicas)) in
  let headroom := Z.quot (q_Value totalMem) 4 in
  q_Set totalMem (wrap64 (q_Value totalMem + headroom)).

(** [podCap := replicas + 1], in [int32]. *)
Definition quotaPods (cache : DistributedCache) : Z := wrap32 (specReplicas cache + 1).

Definition resourceQuantity (n : Z) : Quantity := q_New n.

Definition mutateResourceQuota (cache : DistributedCache) (quota : ResourceQuota) :
    goerror + ResourceQuota :=
  let m := om_set_Labels (stampLabels cache "cell") (rq_meta quota) in
  let hard : gmap string Quantity :=
    {[ "pods" := resourceQuantity (quotaPods cache);
       "limits.memory" := quotaMemory cache;
       "requests.memory" := quotaMemory cache ]} in
  match setControllerReferenceIfSameNamespace cache m with
  | inl e => inl e
  | inr m => inr (mkResourceQuota m hard)
  end.

Definition reconcileResourceQuota (cache : DistributedCache) : prog (goerror + unit) :=
  r ←? wrapf "CreateOrUpdate ResourceQuota" (CreateOrUpdate KResourceQuota
         (mkResourceQuota (newMeta "cell-quota" (targetNamespace cache)) ∅)
         (mutateResourceQuota cache));
  let '(op, quota) := (r : string * ResourceQuota) in
  reportOp op "QuotaReconciled"
    ("ResourceQuota " +:+ om_Namespace (rq_meta quota) +:+ "/" +:+ om_Name (rq_meta quota) +:+ " "
     +:+ op +:+ " (memory=" +:+ q_String (quotaMemory cache) +:+ ")").

(** ** NetworkPolicy *)

Definition cellNetworkPolicySpec : NetworkPolicySpec :=
  mkNetworkPolicySpec ∅ ["Ingress"] [[mkPeer (Some ∅) None]].

Definition mutateNetworkPolicy (cache : DistributedCache) (netpol : NetworkPolicy) :
    goerror + NetworkPolicy :=
  let m := om_set_Labels (stampLabels cache "cell") (np_meta netpol) in
  match setControllerReferenceIfSameNamespace cache m with
  | inl e => inl e
  | inr m => inr (mkNetworkPolicy m cellNetworkPolicySpec)
  end.

Definition reconcileNetworkPolicy (cache : DistributedCache) : prog (goerror + unit) :=
  r ←? wrapf "CreateOrUpdate NetworkPolicy" (CreateOrUpdate KNetworkPolicy
         (mkNetworkPolicy (newMeta "cell-isolation" (targetNamespace cache))
            (mkNetworkPolicySpec ∅ [] []))
         (mutateNetworkPolicy cache));
  let '(op, netpol) := (r : string * NetworkPolicy) in
  reportOp op "NetworkPolicyReconciled"
    ("NetworkPolicy " +:+ om_Namespace (np_meta netpol) +:+ "/" +:+ om_Name (np_meta netpol)
     +:+ " " +:+ op).

(** ** The cell *)

Definition reconcileCell (cache : DistributedCache) : prog (goerror + unit) :=
  if negb (isolated cache) then mret (inr tt)
  else
    wrapf "namespace" (reconcileCellNamespace cache) ;;?
    wrapf "resourcequota" (reconcileResourceQuota cache) ;;?
    wrapf "networkpolicy" (reconcileNetworkPolicy cache) ;;?
    mret (inr tt).

(** ** Footprints *)

Lemma reportOp_only l op reason msg :
  bool_decide (TEvent ∈ l) = true → safe (only l) (reportOp op reason msg).
Proof. intros Hl. unfold reportOp, Eventf. repeat safe_step. exact Hl. Qed.

(** The calls of a run other than the recorded events. *)
Definition calls (t : list event) : list event := filter (λ e : event, op_tag (projT1 e) ≠ TEvent) t.

Lemma reportOp_events op reason msg t r :
  runs (reportOp op reason msg) t r → calls t = [].
Proof.
  unfold reportOp, Eventf. intros H. case_bool_decide as Hop; cbn [negb] in H; run_step H; [done|].
  run_step H0. by run_step H.
Qed.

(** A stage that succeeds has made its CreateOrUpdate and reported it. *)
Lemma runs_stage k o f ctx (report : string * obj k → prog (goerror + unit)) t u :
  (∀ r t', runs (report r) t' (inr u) → calls t' = []) →
  runs (ebind (wrapf ctx (CreateOrUpdate k o f)) report) t (inr u) →
  ∃ r evs, t = ev (OCreateOrUpdate k o f) (inr r) :: evs ∧ calls evs = [].
Proof.
  intros Hrep H. unfold CreateOrUpdate in H. run_step H. run_step H0. run_step H0. eauto.
Qed.

Lemma reconcileCell_only cache :
  safe (only [TCreateOrUpdate KNamespace; TCreateOrUpdate KResourceQuota;
              TCreateOrUpdate KNetworkPolicy; TEvent]) (reconcileCell cache).
Proof.
  unfold reconcileCell, reconcileCellNamespace, reconcileResourceQuota, reconcileNetworkPolicy,
    CreateOrUpdate.
  repeat (safe_step || apply reportOp_only); done.
Qed.

(** ** Metadata of the children

    Every mutate function stamps the labels and then sets the owner reference
    (or leaves it alone in a cell). *)
Definition childMeta (cache : DistributedCache) (component : string) (m : ObjectMeta) :
    goerror + ObjectMeta :=
  setControllerReferenceIfSameNamespace cache (om_set_Labels (stampLabels cache component) m).

Lemma stampLabels_lookup cache comp l k :
  stampLabels cache comp l !! k =
    if decide (k = labelComponent) then Some comp
    else if decide (k = labelManagedBy) then Some managedByValue
    else if decide (k = labelInstance) then Some (dc_Name cache)
    else if decide (k = labelName) then Some appName else l !! k.
Proof.
  unfold stampLabels. rewrite !lookup_insert.
  repeat (case_decide; subst); congruence.
Qed.

Lemma stampLabels_idem cache comp l :
  stampLabels cache comp (stampLabels cache comp l) = stampLabels cache comp l.
Proof.
  apply map_eq. intros k. rewrite !stampLabels_lookup. by repeat case_decide.
Qed.

Lemma setControllerReference_frame cache m m' :
  setControllerReferenceIfSameNamespace cache m = inr m' →
  om_Labels m' = om_Labels m ∧ om_CreationTimestamp m' = om_CreationTimestamp m ∧
  om_Name m' = om_Name m ∧ om_Namespace m' = om_Namespace m ∧
  (isCrossNamespaceChild cache = true → m' = m).
Proof.
  unfold setControllerReferenceIfSameNamespace. destruct (isCrossNamespaceChild cache).
  - by intros [= <-].
  - intros H%SetControllerReference_frame. rewrite H. done.
Qed.

Lemma om_set_Labels_same f m : f (om_Labels m) = om_Labels m → om_set_Labels f m = m.
Proof. unfold om_set_Labels. intros ->. by destruct m. Qed.

Lemma childMeta_idem cache comp m m' :
  childMeta cache comp m = inr m' → childMeta cache comp m' = inr m'.
Proof.
  unfold childMeta. intros H. pose proof (setControllerReference_frame _ _ _ H) as (Hl & _).
  rewrite om_set_Labels_same by (rewrite Hl; simpl; apply stampLabels_idem).
  unfold setControllerReferenceIfSameNamespace in *. destruct (isCrossNamespaceChild cache); [done|].
  by eapply SetControllerReference_idem.
Qed.

(** In a cell a child never gets an owner reference. *)
Lemma childMeta_cross cache comp m m' :
  childMeta cache comp m = inr m' → isCrossNamespaceChild cache = true →
  om_OwnerReferences m' = om_OwnerReferences m.
Proof.
  unfold childMeta. intros H%setControllerReference_frame Hx. destruct H as (_ & _ & _ & _ & H).
  by rewrite H.
Qed.

(** ** Claims *)

(** C24: for a quarter-rounded product that fits [int64] the memory quota is
    exactly replicas times memoryPerPod plus a quarter rounded down, hence enough
    for every requested pod, and below the largest [int32] the pod quota is one
    more than the replica count. *)
Theorem quota_covers_requested_pods cache :
  let v := q_Value (MemoryPerPod (Spec cache)) in let r := specReplicas cache in
  0 <= v → 0 <= r < MaxInt32 → v * r + v * r / 4 <= MaxInt64 →
  q_Value (quotaMemory cache) = v * r + v * r / 4 ∧ v * r <= q_Value (quotaMemory cache) ∧
  quotaPods cache = r + 1.
Proof.
  cbv zeta. unfold quotaMemory, quotaPods.
  set (v := q_Value (MemoryPerPod (Spec cache))). set (r := specReplicas cache).
  intros Hv Hr Hfit. assert (0 <= v * r) as Hp by nia.
  pose proof (Z.div_pos (v * r) 4 Hp ltac:(lia)) as Hd.
  rewrite (wrap64_id (v * r)) by go_int.
  rewrite !q_Value_Set by (first [go_int | by apply wrap_ok]).
  rewrite Z.quot_div_nonneg by lia. rewrite wrap64_id by go_int.
  rewrite wrap32_id by go_int. lia.
Qed.

(** At the largest replica count the CRD admits, the pod quota wraps around to
    a negative number: [int32] arithmetic is done before the conversion to
    [int64]. *)
Theorem quota_pods_wraps_at_max cache :
  specReplicas cache = MaxInt32 → quotaPods cache = -2147483648.
Proof. unfold quotaPods. by intros ->. Qed.

(** C39: two isolated caches of the same name in different namespaces share one
    cell - namespace, pod labels, StatefulSet and Service name, ring ConfigMap -
    and disagree on its [cell-of] label, so each one's reconcile rewrites what the
    other's wrote: the namespace never settles. *)
Theorem same_named_cells_collide c1 c2 :
  isolated c1 = true → isolated c2 = true →
  dc_Name c1 = dc_Name c2 → dc_Namespace c1 ≠ dc_Namespace c2 →
  targetNamespace c1 = targetNamespace c2 ∧ podLabels c1 = podLabels c2 ∧
  ringConfigMapName c1 = ringConfigMapName c2 ∧
  ∀ ns n1 n2, mutateCellNamespace c1 ns = inr n1 → mutateCellNamespace c2 n1 = inr n2 → n2 ≠ n1.
Proof.
  intros H1 H2 Hname Hns. unfold targetNamespace, podLabels, ringConfigMapName.
  rewrite H1, H2, Hname. split_and!; [done..|]. unfold mutateCellNamespace.
  intros ns n1 n2 [= <-] [= <-] Heq.
  apply (f_equal (λ n, om_Labels (ns_meta n) !! cellOfLabel)) in Heq. simpl in Heq.
  rewrite !lookup_insert_eq in Heq. injection Heq as Heq. rewrite Hname in Heq.
  apply Hns. symmetry. revert Heq. generalize (String "."%char (dc_Name c2)). intros suffix.
  apply string_app_inj_r.
Qed.

(** ReconcileCell does nothing unless isolation is requested; when it is, a
    successful run has created or updated the Namespace, then the ResourceQuota,
    then the NetworkPolicy, each with the mutate function of its stage, and
    nothing else but events. *)
Theorem reconcileCell_builds_cell_in_order cache t :
  runs (reconcileCell cache) t (inr tt) →
  if isolated cache then
    ∃ o1 r1 o2 r2 o3 r3, calls t =
      [ev (OCreateOrUpdate KNamespace o1 (mutateCellNamespace cache)) (inr r1);
       ev (OCreateOrUpdate KResourceQuota o2 (mutateResourceQuota cache)) (inr r2);
       ev (OCreateOrUpdate KNetworkPolicy o3 (mutateNetworkPolicy cache)) (inr r3)] ∧
      om_Name (ns_meta o1) = targetNamespace cache ∧
      om_Namespace (rq_meta o2) = targetNamespace cache ∧
      om_Namespace (np_meta o3) = targetNamespace cache
  else t = [].
Proof.
  unfold reconcileCell. destruct (isolated cache); simpl; [|by intros [-> _]].
  unfold reconcileCellNamespace, reconcileResourceQuota, reconcileNetworkPolicy. intros H.
  run_step H. run_step H0. run_step H. run_step H1. run_step H. run_step H2. run_step H.
  apply runs_stage in H0 as (r1 & evs1 & -> & E1); [|by intros [op o] t'; apply reportOp_events].
  apply runs_stage in H1 as (r2 & evs2 & -> & E2); [|by intros [op o] t'; apply reportOp_events].
  apply runs_stage in H2 as (r3 & evs3 & -> & E3); [|by intros [op o] t'; apply reportOp_events].
  eexists _, r1, _, r2, _, r3. unfold calls in *.
  rewrite app_nil_r, !filter_app, !filter_cons, !decide_True, E1, E2, E3 by done.
  by split_and!.
Qed.

End Cell.
