(* ===== verification/Workload.v ===== *)
(** * The headless Service and the StatefulSet

    [reconcileService] and [reconcileStatefulSet] of
    distributedcache_controller.go: the mutate functions handed to
    CreateOrUpdate and the calls around them. *)

From S2P Require Import Prelude GoLib Api Kube Names Cell.

Local Open Scope Z_scope.
Local Open Scope prog_scope.

Section Workload.
Context `{KL : KubeLib}.

(** ** Service *)

Definition ClusterIPNone : string := "None".

Definition cacheServicePorts : list ServicePort := [mkServicePort "http" cachePort cachePort "TCP"].

Definition mutateService (cache : DistributedCache) (svc : Service) : goerror + Service :=
  let m := om_set_Labels (stampLabels cache "cache") (svc_meta svc) in
  let spec := mkServiceSpec ClusterIPNone (podLabels cache) cacheServicePorts false in
  match setControllerReferenceIfSameNamespace cache m with
  | inl e => inl e
  | inr m => inr (mkService m spec)
  end.

Definition reconcileService (cache : DistributedCache) : prog (goerror + unit) :=
  r ←? wrapf "CreateOrUpdate Service" (CreateOrUpdate KService
         (mkService (newMeta (dc_Name cache) (targetNamespace cache)) (mkServiceSpec "" ∅ [] false))
         (mutateService cache));
  let '(op, svc) := (r : string * Service) in
  reportOp op "ServiceReconciled"
    ("Headless Service " +:+ om_Namespace (svc_meta svc) +:+ "/" +:+ om_Name (svc_meta svc)
     +:+ " " +:+ op).

(** ** StatefulSet *)

(** The replica count written: [spec.replicas], or the current count while a
    scale-down is held back. *)
Definition heldReplicas (cache : DistributedCache) (canScaleDown : bool) (current : option Z) :
    option Z :=
  let desired := Replicas (Spec cache) in
  match current, desired with
  | Some c, Some d => if negb canScaleDown && (d <? c) then Some c else Some d
  | _, _ => desired
  end.

Definition cacheContainer (cache : DistributedCache) : Container :=
  mkContainer "cache" (Image (Spec cache)) [mkContainerPort "http" cachePort "TCP"]
    {[ "memory" := MemoryPerPod (Spec cache) ]} {[ "memory" := MemoryPerPod (Spec cache) ]}
    (Some (mkProbe "/readyz" cachePort 2 1 3)) (Some (mkProbe "/healthz" cachePort 10 2 3)).

(** [int64(gracePeriodSeconds) + 10] *)
Definition terminationGrace (cache : DistributedCache) : Z :=
  wrap64 (GracePeriodSeconds (Drain (Spec cache)) + 10).

Definition ParallelPodManagement : string := "Parallel".

Definition mutateStatefulSet (cache : DistributedCache) (canScaleDown : bool) (sts : StatefulSet) :
    goerror + StatefulSet :=
  let m := om_set_Labels (stampLabels cache "cache") (sts_meta sts) in
  let s := sts_Spec sts in
  let replicas := heldReplicas cache canScaleDown (sts_Replicas s) in
  let fresh := bool_decide (om_CreationTimestamp (sts_meta sts) = None) in
  let spec := mkStatefulSetSpec replicas
    (if fresh then dc_Name cache else ServiceName s)
    (if fresh then Some (podLabels cache) else sts_Selector s)
    (if fresh then ParallelPodManagement else PodManagementPolicy s)
    (podLabels cache) (Some (terminationGrace cache)) [cacheContainer cache] in
  match setControllerReferenceIfSameNamespace cache m with
  | inl e => inl e
  | inr m => inr (mkStatefulSet m spec)
  end.

Definition newStatefulSet (cache : DistributedCache) : StatefulSet :=
  mkStatefulSet (newMeta (dc_Name cache) (targetNamespace cache))
    (mkStatefulSetSpec None "" None "" ∅ None []).

Definition reconcileStatefulSet (cache : DistributedCache) (canScaleDown : bool) :
    prog (goerror + unit) :=
  r ←? wrapf "CreateOrUpdate StatefulSet" (CreateOrUpdate KStatefulSet
         (newStatefulSet cache) (mutateStatefulSet cache canScaleDown));
  let '(op, sts) := (r : string * StatefulSet) in
  reportOp op "StatefulSetReconciled"
    ("StatefulSet " +:+ om_Namespace (sts_meta sts) +:+ "/" +:+ om_Name (sts_meta sts)
     +:+ " " +:+ op).

(** ** Footprints *)

Lemma reconcileService_only cache :
  safe (only [TCreateOrUpdate KService; TEvent]) (reconcileService cache).
Proof. unfold reconcileService, CreateOrUpdate. repeat (safe_step || apply reportOp_only); done. Qed.

Lemma reconcileStatefulSet_only cache b :
  safe (only [TCreateOrUpdate KStatefulSet; TEvent]) (reconcileStatefulSet cache b).
Proof.
  unfold reconcileStatefulSet, CreateOrUpdate. repeat (safe_step || apply reportOp_only); done.
Qed.

(** ** Idempotence of the mutate functions *)

Lemma heldReplicas_idem cache b cur :
  heldReplicas cache b (heldReplicas cache b cur) = heldReplicas cache b cur.
Proof.
  unfold heldReplicas. destruct cur as [c|], (Replicas (Spec cache)) as [d|]; try done.
  - destruct b, (d <? c) eqn:E; simpl; rewrite ?E, ?Z.ltb_irrefl; done.
  - by rewrite Z.ltb_irrefl, andb_false_r.
Qed.

(** The part shared by the mutate functions: new metadata, fixed content. *)
Lemma mutate_idem {A} cache comp (meta : A → ObjectMeta) (mk : ObjectMeta → A) o o' :
  (∀ m, meta (mk m) = m) →
  match childMeta cache comp (meta o) with inl e => inl e | inr m => inr (mk m) end = inr o' →
  match childMeta cache comp (meta o') with inl e => inl e | inr m => inr (mk m) end = inr o'.
Proof.
  intros Hmk. destruct (childMeta cache comp (meta o)) as [e|m] eqn:E; [done|]. intros [= <-].
  rewrite Hmk, (childMeta_idem _ _ _ _ E). done.
Qed.

Lemma mutateService_idem cache o o' :
  mutateService cache o = inr o' → mutateService cache o' = inr o'.
Proof. by apply (mutate_idem cache "cache" svc_meta (λ m, mkService m _)). Qed.

Lemma mutateResourceQuota_idem cache o o' :
  mutateResourceQuota cache o = inr o' → mutateResourceQuota cache o' = inr o'.
Proof. by apply (mutate_idem cache "cell" rq_meta (λ m, mkResourceQuota m _)). Qed.

Lemma mutateNetworkPolicy_idem cache o o' :
  mutateNetworkPolicy cache o = inr o' → mutateNetworkPolicy cache o' = inr o'.
Proof. by apply (mutate_idem cache "cell" np_meta (λ m, mkNetworkPolicy m _)). Qed.

Lemma mutateCellNamespace_idem cache o o' :
  mutateCellNamespace cache o = inr o' → mutateCellNamespace cache o' = inr o'.
Proof.
  unfold mutateCellNamespace. intros [= <-]. f_equal. f_equal. simpl.
  apply om_set_Labels_same. simpl. apply map_eq. intros k.
  destruct (decide (k = cellOfLabel)) as [->|Hk].
  - by rewrite !lookup_insert_eq.
  - rewrite !lookup_insert_ne, !stampLabels_lookup, lookup_insert_ne, stampLabels_lookup by done.
    by repeat case_decide.
Qed.

Lemma mutateStatefulSet_meta cache b o o' :
  mutateStatefulSet cache b o = inr o' → childMeta cache "cache" (sts_meta o) = inr (sts_meta o').
Proof. unfold mutateStatefulSet, childMeta. intros H. case_match; by simplify_eq/=. Qed.

Lemma mutateStatefulSet_idem cache b o o' :
  mutateStatefulSet cache b o = inr o' → mutateStatefulSet cache b o' = inr o'.
Proof.
  intros H. pose proof (mutateStatefulSet_meta _ _ _ _ H) as Hm.
  pose proof (childMeta_idem _ _ _ _ Hm) as Hi. unfold mutateStatefulSet, childMeta in *.
  rewrite Hi. rewrite Hm in H. simplify_eq/=. destruct o' as [m' s']. simplify_eq/=.
  apply setControllerReference_frame in Hm as (_ & -> & _). simpl.
  rewrite heldReplicas_idem. by case_bool_decide.
Qed.

(** ** Claims *)

(** Every mutate function is idempotent: applied to its own result it changes
    nothing, so a pass over objects the operator already wrote issues no further
    update and records no event. *)
Theorem mutations_are_idempotent cache b :
  (∀ o o', mutateCellNamespace cache o = inr o' → mutateCellNamespace cache o' = inr o') ∧
  (∀ o o', mutateResourceQuota cache o = inr o' → mutateResourceQuota cache o' = inr o') ∧
  (∀ o o', mutateNetworkPolicy cache o = inr o' → mutateNetworkPolicy cache o' = inr o') ∧
  (∀ o o', mutateService cache o = inr o' → mutateService cache o' = inr o') ∧
  (∀ o o', mutateStatefulSet cache b o = inr o' → mutateStatefulSet cache b o' = inr o').
Proof.
  split_and!; intros o o'; eauto using mutateCellNamespace_idem, mutateResourceQuota_idem,
    mutateNetworkPolicy_idem, mutateService_idem, mutateStatefulSet_idem.
Qed.

(** What the StatefulSet rewrite does to any existing object: the fields the
    API server refuses to change (selector, service name, pod management policy)
    are kept, the replica count is the requested one unless a lower count is held
    back, the pod template carries the labels the operator lists by, and in a cell
    the owner references stay as they are. *)
Theorem mutateStatefulSet_respects_existing cache b o o' :
  mutateStatefulSet cache b o = inr o' → om_CreationTimestamp (sts_meta o) ≠ None →
  let s := sts_Spec o in let s' := sts_Spec o' in
  ServiceName s' = ServiceName s ∧ sts_Selector s' = sts_Selector s ∧
  PodManagementPolicy s' = PodManagementPolicy s ∧ tmpl_Labels s' = podLabels cache ∧
  (∀ c d, sts_Replicas s = Some c → Replicas (Spec cache) = Some d →
     sts_Replicas s' = Some (if b then d else Z.max c d)) ∧
  (isCrossNamespaceChild cache = true →
     om_OwnerReferences (sts_meta o') = om_OwnerReferences (sts_meta o)).
Proof.
  intros H Hc. pose proof (mutateStatefulSet_meta _ _ _ _ H) as Hm.
  unfold mutateStatefulSet in H. rewrite bool_decide_false in H by done.
  destruct (setControllerReferenceIfSameNamespace _ _) as [e|m] eqn:E; [done|].
  injection H as <-. simpl. split_and!; [done..| |by apply childMeta_cross with "cache"].
  intros c d -> Hd. unfold heldReplicas. rewrite Hd.
  destruct b, (d <? c) eqn:Hlt; simpl; f_equal; lia.
Qed.

(** The StatefulSet, the Service and every pod listing of a fresh cache agree:
    the selectors and the template labels are one label set, and the service name
    is that of the Service the operator creates. *)
Theorem fresh_workload_is_consistent cache b sts' svc svc' :
  mutateStatefulSet cache b (newStatefulSet cache) = inr sts' →
  mutateService cache svc = inr svc' →
  sts_Selector (sts_Spec sts') = Some (tmpl_Labels (sts_Spec sts')) ∧
  svc_Selector (svc_Spec svc') = tmpl_Labels (sts_Spec sts') ∧
  tmpl_Labels (sts_Spec sts') = podLabels cache ∧
  ServiceName (sts_Spec sts') = dc_Name cache ∧
  sts_Replicas (sts_Spec sts') = Replicas (Spec cache) ∧
  om_Namespace (sts_meta sts') = targetNamespace cache.
Proof.
  intros H1 H2. pose proof (mutateStatefulSet_meta _ _ _ _ H1) as Hm.
  apply setControllerReference_frame in Hm as (_ & _ & _ & Hns & _).
  unfold mutateStatefulSet in H1. unfold mutateService in H2.
  case_match; [done|]. case_match; [done|]. by simplify_eq/=.
Qed.

(** For every [int32] grace period the termination grace given to the kubelet
    is exactly ten seconds longer, without wrap-around, and so is never shorter
    than the drain. *)
Theorem termination_outlasts_drain cache :
  int32_ok (GracePeriodSeconds (Drain (Spec cache))) →
  terminationGrace cache = GracePeriodSeconds (Drain (Spec cache)) + 10 ∧
  terminationGrace cache * Second = wrap64 (GracePeriodSeconds (Drain (Spec cache)) * Second) + 10 * Second.
Proof.
  intros Hg. unfold terminationGrace. set (g := GracePeriodSeconds _) in *.
  unfold Second. rewrite !wrap64_id by go_int. lia.
Qed.

End Workload.
