(* ===== verification/Status.v ===== *)
(** * Status conditions: markDegraded and setObservedConditions

    distributedcache_controller.go: what the operator reports about a cache,
    written through [meta.SetStatusCondition]. *)

From S2P Require Import Prelude GoLib Api Kube Names Ring.

Local Open Scope Z_scope.

Section Status.
Context `{KL : KubeLib}.

Definition setCondition (c : Condition) (cache : DistributedCache) : DistributedCache :=
  set_Conditions (SetStatusCondition (Conditions (Status cache)) c) cache.

Definition markDegraded (cache : DistributedCache) (reason : string) (err : goerror) :
    DistributedCache :=
  setCondition (mkCondition ConditionDegraded ConditionTrue (dc_Generation cache) reason (Error err))
    cache.

Definition availableCondition (cache : DistributedCache) (ring : Ring) : Condition :=
  let desired := specReplicas cache in
  let ready := wrap32 (Z.of_nat (length (Members ring))) in
  let gen := dc_Generation cache in
  let cond := mkCondition ConditionAvailable in
  if bool_decide (ready = 0) then
    cond ConditionFalse gen ReasonNoReadyPods "No cache pods are Ready."
  else if ready <? desired then
    cond ConditionFalse gen ReasonInsufficientReplicas
      (FormatInt ready +:+ "/" +:+ FormatInt desired +:+ " replicas Ready.")
  else if bool_decide (Version ring = 0) then
    cond ConditionFalse gen ReasonRingNotPublished "Ring ConfigMap has not been published yet."
  else
    cond ConditionTrue gen ReasonReconciled
      (FormatInt ready +:+ "/" +:+ FormatInt desired +:+ " replicas Ready; ring version "
       +:+ FormatInt (Version ring) +:+ ".").

Definition progressingCondition (cache : DistributedCache) (ring : Ring) : Condition :=
  let desired := specReplicas cache in
  let ready := wrap32 (Z.of_nat (length (Members ring))) in
  let gen := dc_Generation cache in
  if negb (bool_decide (ready = desired)) then
    mkCondition ConditionProgressing ConditionTrue gen ReasonReplicasConverging
      ("Working toward " +:+ FormatInt desired +:+ " replicas (currently " +:+ FormatInt ready
       +:+ " Ready).")
  else mkCondition ConditionProgressing ConditionFalse gen ReasonReconciled "Steady state.".

Definition notDegradedCondition (cache : DistributedCache) : Condition :=
  mkCondition ConditionDegraded ConditionFalse (dc_Generation cache) ReasonReconciled
    "No degraded conditions observed.".

Definition tenantCondition (cache : DistributedCache) : Condition :=
  let gen := dc_Generation cache in
  if isolated cache then
    mkCondition ConditionTenantIsolated ConditionTrue gen ReasonReconciled
      ("Cell namespace " +:+ targetNamespace cache +:+ " with quota and NetworkPolicy active.")
  else mkCondition ConditionTenantIsolated ConditionFalse gen ReasonNotRequested
         "spec.tenant.isolate is unset or false.".

Definition setObservedConditions (cache : DistributedCache) (ring : Ring) : DistributedCache :=
  let c1 := setCondition (availableCondition cache ring) cache in
  let c2 := setCondition (progressingCondition cache ring) c1 in
  let c3 := setCondition (notDegradedCondition cache) c2 in
  setCondition (tenantCondition cache) c3.

(** The status Reconcile writes after a successful pass. *)
Definition observedStatus (cache : DistributedCache) (ring : Ring) : DistributedCache :=
  let st := mkStatus (Conditions (Status cache)) (dc_Generation cache)
              (wrap32 (Z.of_nat (length (Members ring))))
              (mkRingStatus (Version ring) (Members ring) (ringConfigMapName cache)) in
  setObservedConditions (mkCache (dc_meta cache) (Spec cache) st) ring.

Definition condition (ty : string) (cache : DistributedCache) : option Condition :=
  find_cond ty (Conditions (Status cache)).

(** ** Reading conditions back *)

Lemma condition_setCondition_same c cache : condition (c_Type c) (setCondition c cache) = Some c.
Proof. apply SetStatusCondition_same. Qed.

Lemma condition_setCondition_other c cache ty :
  ty ≠ c_Type c → condition ty (setCondition c cache) = condition ty cache.
Proof. apply SetStatusCondition_other. Qed.

Lemma availableCondition_Type cache ring : c_Type (availableCondition cache ring) = ConditionAvailable.
Proof. unfold availableCondition. by repeat case_match. Qed.

Lemma progressingCondition_Type cache ring :
  c_Type (progressingCondition cache ring) = ConditionProgressing.
Proof. unfold progressingCondition. by case_match. Qed.

Lemma tenantCondition_Type cache : c_Type (tenantCondition cache) = ConditionTenantIsolated.
Proof. unfold tenantCondition. by case_match. Qed.

Lemma condition_setObservedConditions cache ring ty :
  condition ty (setObservedConditions cache ring) =
    if decide (ty = ConditionTenantIsolated) then Some (tenantCondition cache)
    else if decide (ty = ConditionDegraded) then Some (notDegradedCondition cache)
    else if decide (ty = ConditionProgressing) then Some (progressingCondition cache ring)
    else if decide (ty = ConditionAvailable) then Some (availableCondition cache ring)
    else condition ty cache.
Proof.
  unfold setObservedConditions.
  assert (∀ c cache T, c_Type c = T → condition ty (setCondition c cache) =
            if decide (ty = T) then Some c else condition ty cache) as Hset.
  { intros c cache' T <-. case_decide as Hty; [rewrite Hty; apply condition_setCondition_same|].
    by apply condition_setCondition_other. }
  rewrite (Hset _ _ _ (tenantCondition_Type cache)),
    (Hset (notDegradedCondition cache) _ ConditionDegraded eq_refl),
    (Hset _ _ _ (progressingCondition_Type cache ring)),
    (Hset _ _ _ (availableCondition_Type cache ring)). done.
Qed.

Lemma available_true cache ring :
  Z.of_nat (length (Members ring)) <= MaxInt32 →
  c_Status (availableCondition cache ring) = ConditionTrue ↔
  Members ring ≠ [] ∧ specReplicas cache <= Z.of_nat (length (Members ring)) ∧ Version ring ≠ 0.
Proof.
  intros Hlen. unfold availableCondition. rewrite wrap32_id by go_int.
  assert (Z.of_nat (length (Members ring)) = 0 ↔ Members ring = []) as Hnil.
  { rewrite <- length_zero_iff_nil. lia. }
  case_bool_decide as H0; [rewrite Hnil in H0; naive_solver|]. rewrite Hnil in H0.
  destruct (_ <? _) eqn:Hlt; simpl; [split; [done|lia]|].
  case_bool_decide as Hv; simpl; [naive_solver|]. split; [|done]. intros _. split_and!; [done|lia|done].
Qed.

(** ** Claims *)

(** The status of a successful pass. Whatever conditions were there before,
    all four of the operator's are replaced and every other one is kept; Available
    is True exactly when the ring is published, not empty and at least as large as
    requested, Progressing exactly when its size is not the requested one,
    Degraded is False, TenantIsolated follows the spec; the ring, its size and the
    generation are recorded, and nothing outside the status changes. *)
Theorem observedStatus_reports_ring cache ring :
  Z.of_nat (length (Members ring)) <= MaxInt32 →
  let c' := observedStatus cache ring in
  let n := Z.of_nat (length (Members ring)) in
  let is_ ty b := ∃ c, condition ty c' = Some c ∧ c_ObservedGeneration c = dc_Generation cache ∧
                       (c_Status c = ConditionTrue ↔ b) in
  is_ ConditionAvailable (Members ring ≠ [] ∧ specReplicas cache <= n ∧ Version ring ≠ 0) ∧
  is_ ConditionProgressing (n ≠ specReplicas cache) ∧
  is_ ConditionDegraded False ∧ is_ ConditionTenantIsolated (isolated cache = true) ∧
  (∀ ty, ty ∉ [ConditionAvailable; ConditionProgressing; ConditionDegraded; ConditionTenantIsolated] →
     condition ty c' = condition ty cache) ∧
  StatusRing (Status c') = mkRingStatus (Version ring) (Members ring) (ringConfigMapName cache) ∧
  ReadyReplicas (Status c') = n ∧ ObservedGeneration (Status c') = dc_Generation cache ∧
  dc_meta c' = dc_meta cache ∧ Spec c' = Spec cache.
Proof.
  intros Hlen. cbv zeta. unfold observedStatus. set (cache0 := mkCache _ _ _).
  split_and!; try (eexists; rewrite condition_setObservedConditions; split; [done|]).
  - split; [by unfold availableCondition; repeat case_match|]. by apply (available_true cache0).
  - unfold progressingCondition. rewrite wrap32_id by go_int.
    change (specReplicas cache0) with (specReplicas cache). case_bool_decide; simpl; by split.
  - by split.
  - unfold tenantCondition. change (isolated cache0) with (isolated cache).
    by destruct (isolated cache).
  - intros ty Hty. rewrite condition_setObservedConditions.
    rewrite !decide_False by set_solver. done.
  - done.
  - simpl. by rewrite wrap32_id by go_int.
  - done.
  - done.
  - done.
Qed.

(** MarkDegraded sets the Degraded condition to True with the given reason and
    the error's text, and leaves every other condition, the rest of the status,
    the spec and the metadata alone. *)
Theorem markDegraded_touches_only_degraded cache reason err :
  let c' := markDegraded cache reason err in
  condition ConditionDegraded c' = Some (mkCondition ConditionDegraded ConditionTrue
    (dc_Generation cache) reason (Error err)) ∧
  (∀ ty, ty ≠ ConditionDegraded → condition ty c' = condition ty cache) ∧
  c' = set_Conditions (Conditions (Status c')) cache.
Proof.
  cbv zeta. unfold markDegraded. split_and!; [|intros ty Hty|done].
  - by rewrite <- condition_setCondition_same with (cache := cache).
  - by apply condition_setCondition_other.
Qed.

End Status.
