(* ===== verification/RingPublish.v ===== *)
(** * reconcileRing: computing and publishing the ring ConfigMap

    distributedcache_controller.go, lines 592-686. *)

From S2P Require Import Prelude GoLib Json Api Kube Names Ring Cell.

Local Open Scope Z_scope.
Local Open Scope prog_scope.

Section RingPublish.
Context `{KL : KubeLib} `{SS : SliceSort}.

(** The ring a ConfigMap payload stands for: absent or unparsable payloads are
    the zero ring. *)
Definition currentRing (data : gmap string string) : Ring :=
  match data !! ringConfigMapKey with
  | Some payload => match UnmarshalRing payload with
                    | Some (v, ms) => mkRing v ms
                    | None => mkRing 0 []
                    end
  | None => mkRing 0 []
  end.

Definition desiredRing (members : list string) (current : Ring) : Ring :=
  if MembersEqual (mkRing 0 members) current then mkRing (Version current) members
  else mkRing (wrap64 (Version current + 1)) members.

Definition ringPayload (r : Ring) : string := MarshalRing (Version r) (Members r).

Definition mutateRingConfigMap (cache : DistributedCache) (payload : string) (cm : ConfigMap) :
    goerror + ConfigMap :=
  let m := om_set_Labels (stampLabels cache "ring") (cm_meta cm) in
  let data := <[ringConfigMapKey := payload]> (Data cm) in
  match setControllerReferenceIfSameNamespace cache m with
  | inl e => inl e
  | inr m => inr (mkConfigMap m data)
  end.

(** The second half of the function: compare, skip or write, report. *)
Definition publishRing (cache : DistributedCache) (desiredMembers : list string)
    (data : gmap string string) : prog (goerror + Ring) :=
  let current := currentRing data in
  let desired := desiredRing desiredMembers current in
  if Ring_Equal desired current && (0 <? Z.of_nat (size data)) then mret (inr desired)
  else
    r ←? wrapf "CreateOrUpdate ring ConfigMap" (CreateOrUpdate KConfigMap
           (mkConfigMap (newMeta (ringConfigMapName cache) (targetNamespace cache)) ∅)
           (mutateRingConfigMap cache (ringPayload desired)));
    let '(op, cm) := (r : string * ConfigMap) in
    reportOp op "RingPublished"
      ("Ring " +:+ om_Namespace (cm_meta cm) +:+ "/" +:+ om_Name (cm_meta cm) +:+ " " +:+ op
       +:+ " (version=" +:+ FormatInt (Version desired) +:+ ", members=["
       +:+ join " " (Members desired) +:+ "])") ;;?
    mret (inr desired).

Definition reconcileRing (cache : DistributedCache) : prog (goerror + Ring) :=
  podList ←? wrapf "list pods" (ListPods (targetNamespace cache) (podLabels cache));
  let desiredMembers := computeMembers podList in
  got ← Get KConfigMap (mkNN (targetNamespace cache) (ringConfigMapName cache));
  match got with
  | inl e => if negb (IsNotFound e) then mret (inl (Wrapf "get ring ConfigMap" e))
             else publishRing cache desiredMembers ∅
  | inr cm => publishRing cache desiredMembers (Data (cm : ConfigMap))
  end.

(** ** Footprint *)

Lemma publishRing_only cache ms data :
  safe (only [TCreateOrUpdate KConfigMap; TEvent]) (publishRing cache ms data).
Proof.
  unfold publishRing, CreateOrUpdate. repeat (safe_step || apply reportOp_only); done.
Qed.

Lemma reconcileRing_only cache :
  safe (only [TListPods; TGet KConfigMap; TCreateOrUpdate KConfigMap; TEvent]) (reconcileRing cache).
Proof.
  assert (∀ ms data, safe (only [TListPods; TGet KConfigMap; TCreateOrUpdate KConfigMap; TEvent])
                       (publishRing cache ms data)) as Hp.
  { intros. eapply only_weaken; [|apply publishRing_only]. by apply (bool_decide_unpack _). }
  unfold reconcileRing, ListPods, Get. repeat (safe_step || apply Hp); done.
Qed.

(** ** The ring a pass computes *)

Lemma currentRing_ok data : int64_ok (Version (currentRing data)).
Proof.
  unfold currentRing. destruct (data !! _) as [p|]; [|simpl; go_int].
  destruct (UnmarshalRing p) as [[v ms]|] eqn:E; [|simpl; go_int].
  by eapply UnmarshalRing_ok.
Qed.

Lemma desiredRing_Members ms cur : Members (desiredRing ms cur) = ms.
Proof. unfold desiredRing. by case_match. Qed.

Lemma desiredRing_same ms cur : ms = Members cur → desiredRing ms cur = cur.
Proof.
  intros ->. unfold desiredRing. destruct cur as [v ms].
  by rewrite (proj2 (MembersEqual_eq _ _)).
Qed.

Lemma desiredRing_bump ms cur :
  ms ≠ Members cur → Version (desiredRing ms cur) = wrap64 (Version cur + 1).
Proof.
  intros Hne. unfold desiredRing. destruct (MembersEqual _ cur) eqn:E; [|done].
  by apply MembersEqual_eq in E.
Qed.

Lemma desiredRing_ok ms cur : int64_ok (Version cur) → int64_ok (Version (desiredRing ms cur)).
Proof. unfold desiredRing. intros. case_match; [done|]. by apply wrap_ok. Qed.

(** What the mutate function stores decodes to the ring it was made from. *)
Lemma mutateRingConfigMap_currentRing cache r cm cm' :
  int64_ok (Version r) → Forall (λ s, ascii_string s = true) (Members r) →
  mutateRingConfigMap cache (ringPayload r) cm = inr cm' → currentRing (Data cm') = r.
Proof.
  intros Hv Hms. unfold mutateRingConfigMap. case_match; [done|]. intros [= <-].
  unfold currentRing. simpl. rewrite lookup_insert_eq. unfold ringPayload.
  rewrite Unmarshal_Marshal by done. by destruct r.
Qed.

Lemma mutateRingConfigMap_payload cache payload cm cm' :
  mutateRingConfigMap cache payload cm = inr cm' → Data cm' !! ringConfigMapKey = Some payload.
Proof.
  unfold mutateRingConfigMap. case_match; [done|]. intros [= <-]. simpl. by rewrite lookup_insert_eq.
Qed.

(** The second half: skip when the ring is already there, else write it. *)
Lemma publishRing_result cache ms data t ring :
  runs (publishRing cache ms data) t (inr ring) →
  ring = desiredRing ms (currentRing data) ∧
  ((t = [] ∧ ring = currentRing data ∧ data ≠ ∅) ∨
   (∃ new answer evs,
      t = ev (OCreateOrUpdate KConfigMap new (mutateRingConfigMap cache (ringPayload ring)))
            (inr answer) :: evs ∧
      Forall (λ e : event, op_tag (projT1 e) = TEvent) evs)).
Proof.
  unfold publishRing, CreateOrUpdate. intros H.
  destruct (Ring_Equal _ _ && _) eqn:E.
  - run_step H. split; [done|]. left. apply andb_true_iff in E as [E1 E2].
    split_and!; [done|by apply Ring_Equal_eq|]. intros ->. by rewrite map_size_empty in E2.
  - run_step H. run_step H0. run_step H0. destruct a as [op cm].
    run_step H. run_step H. split; [done|]. right. eexists _, _, _. split; [done|].
    rewrite app_nil_r.
    assert (safe (only [TEvent]) (reportOp op "RingPublished"
      ("Ring " +:+ om_Namespace (cm_meta cm) +:+ "/" +:+ om_Name (cm_meta cm) +:+ " " +:+ op
       +:+ " (version=" +:+ FormatInt (Version (desiredRing ms (currentRing data)))
       +:+ ", members=[" +:+ join " " (Members (desiredRing ms (currentRing data))) +:+ "])")))
      as Hs by (by apply reportOp_only).
    eapply safe_runs in Hs; [|exact H0]. eapply Forall_impl; [exact Hs|].
    intros e He%bool_decide_eq_true. set_solver.
Qed.

(** ** Histories of publications

    One publication: the operator reads the ConfigMap, computes the ring for
    some membership and rewrites the ConfigMap it read. *)
Definition ringWrite (cache : DistributedCache) (cm cm' : ConfigMap) : Prop :=
  ∃ members, Forall (λ s, ascii_string s = true) members ∧
    mutateRingConfigMap cache (ringPayload (desiredRing members (currentRing (Data cm)))) cm = inr cm'.

(** The second ring comes after the first one: its version is the same or the next,
    and the same only if the members are. *)
Definition succeeds (r r' : Ring) : Prop :=
  Version r <= Version r' <= Version r + 1 ∧ (Version r = Version r' → Members r = Members r').

Lemma succeeds_refl r : succeeds r r.
Proof. split; [lia|done]. Qed.

Lemma desiredRing_succeeds ms r :
  int64_ok (Version r) → Version r < MaxInt64 → succeeds r (desiredRing ms r).
Proof.
  intros Hok Hlt. destruct (decide (ms = Members r)) as [Heq|Hne].
  - rewrite desiredRing_same by done. apply succeeds_refl.
  - unfold succeeds. rewrite desiredRing_bump by done. rewrite wrap64_id by go_int. split; lia.
Qed.

(** Along any history whose steps keep [P] and lead from a ring to one that comes
    after it. *)
Lemma history_versions {A} (P : A → Prop) (ring : A → Ring) (R : relation A) n a a' :
  (∀ a a', R a a' → P a → Version (ring a) < MaxInt64 → P a' ∧ succeeds (ring a) (ring a')) →
  nsteps R n a a' → P a → Version (ring a) + Z.of_nat n <= MaxInt64 →
  P a' ∧ Version (ring a) <= Version (ring a') <= Version (ring a) + Z.of_nat n ∧
  (Version (ring a) = Version (ring a') → Members (ring a) = Members (ring a')).
Proof.
  intros Hstep Hn. induction Hn as [a|n a a1 a2 H1 _ IH]; intros HP Hle; [split_and!; [done|lia..|done]|].
  destruct (Hstep a a1 H1 HP) as [HP1 [Hv Hm]]; [lia|]. destruct (IH HP1) as (HP2 & Hv2 & Hm2); [lia|].
  split_and!; [done|lia..|]. intros Heq. rewrite Hm by lia. apply Hm2. lia.
Qed.

Lemma ringWrite_step cache cm cm' :
  ringWrite cache cm cm' → Version (currentRing (Data cm)) < MaxInt64 →
  succeeds (currentRing (Data cm)) (currentRing (Data cm')).
Proof.
  intros (ms & Hms & Hm) Hlt. pose proof (currentRing_ok (Data cm)) as Hok.
  apply mutateRingConfigMap_currentRing in Hm; [|by apply desiredRing_ok|by rewrite desiredRing_Members].
  rewrite Hm. by apply desiredRing_succeeds.
Qed.

Lemma ringWrites_monotone cache n cm cm' :
  nsteps (ringWrite cache) n cm cm' →
  Version (currentRing (Data cm)) + Z.of_nat n <= MaxInt64 →
  Version (currentRing (Data cm)) <= Version (currentRing (Data cm')) <=
    Version (currentRing (Data cm)) + Z.of_nat n ∧
  (Version (currentRing (Data cm)) = Version (currentRing (Data cm')) →
   Members (currentRing (Data cm)) = Members (currentRing (Data cm'))).
Proof.
  intros Hn Hle. destruct (history_versions (λ _, True) (λ cm, currentRing (Data cm)) (ringWrite cache) n cm cm')
    as [_ H]; [|done..]. intros a a' H _ Hlt. split; [done|]. by eapply ringWrite_step.
Qed.

Lemma ringWrites_identify_members cache n cm cm' :
  nsteps (ringWrite cache) n cm cm' →
  Version (currentRing (Data cm)) + Z.of_nat n <= MaxInt64 →
  Version (currentRing (Data cm)) = Version (currentRing (Data cm')) →
  Members (currentRing (Data cm)) = Members (currentRing (Data cm')).
Proof. intros Hn Hv. by apply (ringWrites_monotone _ _ _ _ Hn Hv). Qed.

(** ** Claims *)

(** Along any history of publications that does not exhaust the [int64]
    counter, the published version never decreases, grows by at most one per
    publication, and two points of the history with the same version publish the
    same members - which is what lets a client skip a ring whose version it
    already has. *)
Theorem ring_versions_identify_members cache n cm cm' :
  nsteps (ringWrite cache) n cm cm' →
  Version (currentRing (Data cm)) + Z.of_nat n <= MaxInt64 →
  Version (currentRing (Data cm)) <= Version (currentRing (Data cm')) <=
    Version (currentRing (Data cm)) + Z.of_nat n ∧
  (Version (currentRing (Data cm)) = Version (currentRing (Data cm')) →
   Members (currentRing (Data cm)) = Members (currentRing (Data cm'))).
Proof. apply ringWrites_monotone. Qed.

(** Every successful run of reconcileRing lists the pods, reads the
    ConfigMap (a missing one counts as empty), returns the ring of the servable
    pods under the versioning rule, and either stops there because that ring is
    already published or asks to write exactly that ring's payload. *)
Theorem reconcileRing_publishes_servable_pods cache t ring :
  runs (reconcileRing cache) t (inr ring) →
  ∃ pods got rest,
    t = ev (OListPods (targetNamespace cache) (podLabels cache)) (inr pods) ::
        ev (OGet KConfigMap (mkNN (targetNamespace cache) (ringConfigMapName cache))) got :: rest ∧
    (∀ e, got = inl e → IsNotFound e = true) ∧
    let data := match got with inr cm => Data cm | inl _ => ∅ end in
    ring = desiredRing (computeMembers pods) (currentRing data) ∧
    ((rest = [] ∧ ring = currentRing data ∧ data ≠ ∅) ∨
     (∃ new answer evs,
        rest = ev (OCreateOrUpdate KConfigMap new (mutateRingConfigMap cache (ringPayload ring)))
                 (inr answer) :: evs ∧
        Forall (λ e : event, op_tag (projT1 e) = TEvent) evs)).
Proof.
  unfold reconcileRing, ListPods, Get. intros H. run_step H. run_step H0. run_step H0.
  rename a into pods. run_step H. run_step H0. rename a into got, t0 into rest.
  set (data := match got with inr cm => Data (cm : ConfigMap) | inl _ => ∅ end).
  assert (runs (publishRing cache (computeMembers pods) data) rest (inr ring) ∧
          ∀ e, got = inl e → IsNotFound e = true) as [Hp He].
  { subst data. destruct got as [e|cm]; [|by split].
    destruct (IsNotFound e) eqn:E; simpl in H; [|run_step H].
    split; [done|]. by intros ? [= <-]. }
  exists pods, got, rest. split; [done|]. split; [exact He|]. cbv zeta. fold data.
  by apply publishRing_result.
Qed.

(** C22: publishing is a round trip: whatever ConfigMap the mutate function gets, for
    every ring with an [int64] version and ASCII member names, the stored payload
    decodes to that very ring, every other key of the ConfigMap is kept, and
    publishing the same ring again changes nothing. *)
Theorem published_ring_reads_back cache r cm cm' :
  int64_ok (Version r) → Forall (λ s, ascii_string s = true) (Members r) →
  mutateRingConfigMap cache (ringPayload r) cm = inr cm' →
  currentRing (Data cm') = r ∧
  (∀ k, k ≠ ringConfigMapKey → Data cm' !! k = Data cm !! k) ∧
  mutateRingConfigMap cache (ringPayload r) cm' = inr cm'.
Proof.
  intros Hv Hms H. split; [by eapply mutateRingConfigMap_currentRing|].
  unfold mutateRingConfigMap in *.
  destruct (setControllerReferenceIfSameNamespace _ _) as [e|m] eqn:E; [done|].
  injection H as <-. simpl. split.
  - intros k Hk. by rewrite lookup_insert_ne.
  - fold (childMeta cache "ring" m). rewrite (childMeta_idem cache "ring" (cm_meta cm)) by done.
    by rewrite insert_insert_eq.
Qed.

(** C37: an unparsable payload is not rebuilt while no pod is servable: the operator
    takes it for the zero ring, finds the empty membership already published, and
    returns without writing - the ConfigMap keeps what no client can decode. *)
Theorem corrupt_ring_left_in_place cache data payload :
  data !! ringConfigMapKey = Some payload → UnmarshalRing payload = None →
  publishRing cache [] data = mret (inr (mkRing 0 [])).
Proof.
  intros Hp Hu. unfold publishRing, currentRing. rewrite Hp, Hu.
  assert ((0 <? Z.of_nat (size data)) = true) as ->; [|done].
  apply Z.ltb_lt. assert (size data ≠ 0%nat); [|lia].
  intros Hs%map_size_empty_inv. by rewrite Hs in Hp.
Qed.

End RingPublish.
