(* ===== verification/Drain.v ===== *)
(** * Draining: drainScaleDown, reconcileDeletion, deleteCellNamespace

    distributedcache_controller.go, lines 688-904: annotate the pods that are
    to go, wait for the grace period, and only then let go of them. *)

From S2P Require Import Prelude GoLib Json Api Kube Names Ring Cell RingPublish.

Local Open Scope Z_scope.
Local Open Scope prog_scope.

(** controller-runtime's reconcile.Result; durations in nanoseconds. *)
Record Result := mkResult { Requeue : bool; RequeueAfter : Z }.

Definition done_ : Result := mkResult false 0.
Definition requeueAfter (secs : Z) : Result := mkResult false (secs * Second).

Section Drain.
Context `{KL : KubeLib} `{SS : SliceSort}.

(** [time.Duration(cache.Spec.Drain.GracePeriodSeconds) * time.Second] *)
Definition graceOf (cache : DistributedCache) : Z :=
  wrap64 (GracePeriodSeconds (Drain (Spec cache)) * Second).

(** [p.Annotations[drainAnnotation] = strconv.FormatInt(now.Unix(), 10)] *)
Definition startDrain (now : Time) (p : Pod) : Pod :=
  pod_annotate drainAnnotation (FormatInt (t_Unix now)) p.

(** ** Scale-down *)

(** The names [<name>-d] up to [<name>-(c-1)]. *)
Definition doomedNames (name : string) (desired current : Z) : gset string :=
  list_to_set ((λ i, podNameOf name i) <$> seqZ desired (current - desired)).

(** The loop over the listed pods; the accumulator is [allReady]. *)
Fixpoint drainPods (grace : Z) (now : Time) (doomed : gset string) (graceStr : string)
    (pods : list Pod) (allReady : bool) : prog (goerror + bool) :=
  match pods with
  | [] => mret (inr allReady)
  | p :: pods =>
      if negb (bool_decide (pod_Name p ∈ doomed)) then
        drainPods grace now doomed graceStr pods allReady
      else match pod_Annotations p !! drainAnnotation with
      | None =>
          p' ←? wrapf ("annotate pod " +:+ pod_Name p) (Update KPod (startDrain now p));
          Eventf "DrainStarted" ("Pod " +:+ pod_Name (p' : Pod) +:+ " marked for drain (grace="
                                 +:+ graceStr +:+ ")");;
          drainPods grace now doomed graceStr pods false
      | Some s =>
          match ParseInt s with
          | None =>
              wrapf ("rewrite drain annotation on " +:+ pod_Name p)
                (Update KPod (startDrain now p)) ;;?
              drainPods grace now doomed graceStr pods false
          | Some ts =>
              drainPods grace now doomed graceStr pods
                (if t_Sub now (time_Unix ts) <? grace then false else allReady)
          end
      end
  end.

Definition drainScaleDown (cache : DistributedCache) : prog (goerror + bool) :=
  got ← Get KStatefulSet (mkNN (targetNamespace cache) (dc_Name cache));
  match got with
  | inl e => if IsNotFound e then mret (inr true) else mret (inl (Wrapf "get StatefulSet" e))
  | inr sts =>
      let currentReplicas := default 0 (sts_Replicas (sts_Spec (sts : StatefulSet))) in
      let desiredReplicas := specReplicas cache in
      if currentReplicas <=? desiredReplicas then mret (inr true)
      else
        podList ←? wrapf "list pods" (ListPods (targetNamespace cache) (podLabels cache));
        now ← Now;
        drainPods (graceOf cache) now
          (doomedNames (dc_Name cache) desiredReplicas currentReplicas)
          (DurationSeconds_String (GracePeriodSeconds (Drain (Spec cache)))) podList true
  end.

(** ** Deletion *)

(** The loop of phase 1; the accumulator is [allDrained]. *)
Fixpoint drainAll (grace : Z) (now : Time) (pods : list Pod) (allDrained : bool) :
    prog (goerror + bool) :=
  match pods with
  | [] => mret (inr allDrained)
  | p :: pods =>
      match pod_Annotations p !! drainAnnotation with
      | None =>
          wrapf ("annotate " +:+ pod_Name p) (Update KPod (startDrain now p)) ;;?
          drainAll grace now pods false
      | Some s =>
          match ParseInt s with
          | None => drainAll grace now pods false
          | Some ts => drainAll grace now pods
                         (if t_Sub now (time_Unix ts) <? grace then false else allDrained)
          end
      end
  end.

Definition deleteCellNamespace (cache : DistributedCache) : prog (goerror + bool) :=
  let nsName := targetNamespace cache in
  got ← Get KNamespace (mkNN "" nsName);
  match got with
  | inl e => if IsNotFound e then mret (inr true) else mret (inl (Wrapf "get cell namespace" e))
  | inr ns =>
      if bool_decide (om_DeletionTimestamp (ns_meta (ns : Namespace_)) = None) then
        del ← Delete KNamespace ns;
        match del with
        | inl e => if IsNotFound e then mret (inr true)
                   else mret (inl (Wrapf "delete cell namespace" e))
        | inr _ =>
            Eventf "CellTearingDown"
              ("Cell namespace " +:+ nsName +:+ " deletion issued; cascading to children.");;
            mret (inr false)
        end
      else mret (inr false)
  end.

(** Phase 3: drop the finalizer. *)
Definition releaseCache (cache : DistributedCache) : prog (Result * option goerror) :=
  upd ← Update KDistributedCache
          (set_dc_Finalizers (RemoveFinalizer (om_Finalizers (dc_meta cache)) drainFinalizer) cache);
  match upd with
  | inl e => mret (done_, Some (Wrapf "remove finalizer" e))
  | inr _ =>
      Eventf "DrainComplete" "All pods drained; cell torn down; finalizer removed.";;
      mret (done_, None)
  end.

Definition reconcileDeletion (cache : DistributedCache) : prog (Result * option goerror) :=
  if negb (ContainsFinalizer (om_Finalizers (dc_meta cache)) drainFinalizer) then mret (done_, None)
  else
    listed ← ListPods (targetNamespace cache) (podLabels cache);
    match listed with
    | inl e => mret (done_, Some (Wrapf "list pods for deletion drain" e))
    | inr podList =>
        now ← Now;
        drained ← drainAll (graceOf cache) now podList true;
        match drained with
        | inl e => mret (done_, Some e)
        | inr allDrained =>
            (* best effort: an error is only logged *)
            _ ← reconcileRing cache;
            if negb allDrained then mret (requeueAfter 2, None)
            else if isCrossNamespaceChild cache then
              torn ← deleteCellNamespace cache;
              match torn with
              | inl e => mret (done_, Some (Wrapf "delete cell namespace" e))
              | inr false => mret (requeueAfter 2, None)
              | inr true => releaseCache cache
              end
            else releaseCache cache
        end
    end.

End Drain.

(** ** What a completed drain says about the pods *)

(** The pod was annotated at least [grace] before [now]. *)
Definition drained (grace : Z) (now : Time) (p : Pod) : Prop :=
  ∃ s ts, pod_Annotations p !! drainAnnotation = Some s ∧ ParseInt s = Some ts ∧
          grace <= t_Sub now (time_Unix ts).

Section Theorems.
Context `{KL : KubeLib} `{SS : SliceSort}.

(** ** Footprints *)

Lemma drainPods_only grace now doomed gs pods b :
  safe (only [TUpdate KPod; TEvent]) (drainPods grace now doomed gs pods b).
Proof.
  revert b. induction pods as [|p pods IH]; intros b; simpl; [done|].
  unfold Update, Eventf. repeat (safe_step || apply IH); done.
Qed.

Lemma drainAll_only grace now pods b :
  safe (only [TUpdate KPod]) (drainAll grace now pods b).
Proof.
  revert b. induction pods as [|p pods IH]; intros b; simpl; [done|].
  unfold Update. repeat (safe_step || apply IH); done.
Qed.

Lemma drainScaleDown_only cache :
  safe (only [TGet KStatefulSet; TListPods; TNow; TUpdate KPod; TEvent]) (drainScaleDown cache).
Proof.
  unfold drainScaleDown, Get, ListPods, Now.
  repeat (safe_step || (eapply only_weaken; [|apply drainPods_only]; by apply (bool_decide_unpack _)));
    done.
Qed.

Lemma deleteCellNamespace_only cache :
  safe (only [TGet KNamespace; TDelete KNamespace; TEvent]) (deleteCellNamespace cache).
Proof. unfold deleteCellNamespace, Get, Delete, Eventf. footprint. Qed.

Lemma drainPods_true grace now doomed gs pods b t :
  runs (drainPods grace now doomed gs pods b) t (inr true) →
  b = true ∧ ∀ p, p ∈ pods → pod_Name p ∈ doomed → drained grace now p.
Proof.
  revert b t. induction pods as [|p pods IH]; intros b t H; simpl in H.
  { destruct H as [_ [= ->]]. split; [done|]. set_solver. }
  case_bool_decide as Hd; simpl in H; cycle 1.
  { apply IH in H as [-> H]. split; [done|]. set_solver. }
  destruct (pod_Annotations p !! drainAnnotation) as [s|] eqn:Ha; cycle 1.
  { run_step H. run_step H. by apply IH in H as [? _]. }
  destruct (ParseInt s) as [ts|] eqn:Hs; cycle 1.
  { run_step H. by apply IH in H as [? _]. }
  apply IH in H as [Hb H]. destruct (t_Sub now (time_Unix ts) <? grace) eqn:Hlt; [done|].
  split; [done|]. intros q [->|Hq]%elem_of_cons; [|by apply H].
  intros _. exists s, ts. split_and!; [done|done|lia].
Qed.

Lemma drainAll_true grace now pods b t :
  runs (drainAll grace now pods b) t (inr true) →
  b = true ∧ ∀ p, p ∈ pods → drained grace now p.
Proof.
  revert b t. induction pods as [|p pods IH]; intros b t H; simpl in H.
  { destruct H as [_ [= ->]]. split; [done|]. set_solver. }
  destruct (pod_Annotations p !! drainAnnotation) as [s|] eqn:Ha; cycle 1.
  { run_step H. by apply IH in H as [? _]. }
  destruct (ParseInt s) as [ts|] eqn:Hs; [|by apply IH in H as [? _]].
  apply IH in H as [Hb H]. destruct (t_Sub now (time_Unix ts) <? grace) eqn:Hlt; [done|].
  split; [done|]. intros q [->|Hq]%elem_of_cons; [|by apply H].
  exists s, ts. split_and!; [done|done|lia].
Qed.

(** Every listed pod beyond the requested count, up to [current], has been seen
    drained. *)
Definition doomedSeenDrained (cache : DistributedCache) (current : Z) (pre : list event) : Prop :=
  ∃ pods now, ev (OListPods (targetNamespace cache) (podLabels cache)) (inr pods) ∈ pre ∧ ev ONow now ∈ pre ∧
    ∀ p, p ∈ pods → pod_Name p ∈ doomedNames (dc_Name cache) (specReplicas cache) current →
         drained (graceOf cache) now p.

(** What the operator has observed when it lets the StatefulSet shrink: there
    is none, or it is not larger than asked for, or every listed pod beyond the
    requested count has been drained. *)
Definition scaleDownEvidence (cache : DistributedCache) (pre : list event) : Prop :=
  let ns := targetNamespace cache in
  (∃ e, IsNotFound e = true ∧ ev (OGet KStatefulSet (mkNN ns (dc_Name cache))) (inl e) ∈ pre) ∨
  (∃ sts : StatefulSet, ev (OGet KStatefulSet (mkNN ns (dc_Name cache))) (inr sts) ∈ pre ∧
     let current := default 0 (sts_Replicas (sts_Spec sts)) in
     (current <= specReplicas cache ∨ doomedSeenDrained cache current pre)).

(** Whatever StatefulSet larger than asked for was read, the pods it would give up
    have been seen drained. *)
Definition readsBacked (cache : DistributedCache) (pre : list event) : Prop :=
  ∀ key (sts : StatefulSet), ev (OGet KStatefulSet key) (inr sts) ∈ pre →
    specReplicas cache < default 0 (sts_Replicas (sts_Spec sts)) →
    doomedSeenDrained cache (default 0 (sts_Replicas (sts_Spec sts))) pre.

Lemma doomedSeenDrained_mono cache current pre pre' :
  (∀ e, e ∈ pre → e ∈ pre') → doomedSeenDrained cache current pre → doomedSeenDrained cache current pre'.
Proof. unfold doomedSeenDrained. naive_solver. Qed.

Lemma scaleDownEvidence_mono cache pre pre' :
  (∀ e, e ∈ pre → e ∈ pre') → scaleDownEvidence cache pre → scaleDownEvidence cache pre'.
Proof. unfold scaleDownEvidence, doomedSeenDrained. naive_solver. Qed.

(** Calls before the drain that read no StatefulSet do not matter. *)
Lemma readsBacked_app cache pre t :
  Forall (λ e : event, op_tag (projT1 e) ≠ TGet KStatefulSet) pre → readsBacked cache t →
  readsBacked cache (pre ++ t).
Proof.
  intros Hpre Ht key sts [Hin|Hin]%elem_of_app Hlt.
  - rewrite Forall_forall in Hpre. by destruct (Hpre _ Hin).
  - eapply doomedSeenDrained_mono; [|by eapply Ht]. intros e He. apply elem_of_app. by right.
Qed.

(** One read, whose StatefulSet is backed, and no other. *)
Lemma readsBacked_cons cache key0 got t :
  Forall (λ e : event, op_tag (projT1 e) ≠ TGet KStatefulSet) t →
  (∀ sts : StatefulSet, got = inr sts → specReplicas cache < default 0 (sts_Replicas (sts_Spec sts)) →
     doomedSeenDrained cache (default 0 (sts_Replicas (sts_Spec sts))) (ev (OGet KStatefulSet key0) got :: t)) →
  readsBacked cache (ev (OGet KStatefulSet key0) got :: t).
Proof.
  intros Ht Hgot key sts [Hin|Hin]%elem_of_cons Hlt.
  - apply (f_equal (readOf KStatefulSet)) in Hin. rewrite !readOf_Get in Hin. injection Hin as <-. by apply Hgot.
  - rewrite Forall_forall in Ht. by destruct (Ht _ Hin).
Qed.

Lemma drainScaleDown_true cache t :
  runs (drainScaleDown cache) t (inr true) → scaleDownEvidence cache t ∧ readsBacked cache t.
Proof.
  unfold drainScaleDown, Get, ListPods, Now. intros H. run_step H. run_step H0. cbn [app].
  destruct a as [e|sts].
  { destruct (IsNotFound e) eqn:He; run_step H. split; [left; exists e; split; [done|left]|].
    by apply readsBacked_cons. }
  cbv zeta in H. destruct (_ <=? _) eqn:Hle.
  { run_step H. split; [right; exists sts; split; [left|left; lia]|].
    apply readsBacked_cons; [done|]. intros sts' [= <-]. lia. }
  run_step H. run_step H0. run_step H0. rename a into pods. run_step H. run_step H0.
  pose proof (safe_runs _ _ _ _ (drainPods_only _ _ _ _ _ _) H) as Htags. apply drainPods_true in H as [_ H].
  set (t' := ev (OGet KStatefulSet _) _ :: _).
  assert (doomedSeenDrained cache (default 0 (sts_Replicas (sts_Spec sts))) t') as Hseen.
  { exists pods, a. subst t'. split_and!; [set_solver|set_solver|exact H]. }
  split; [right; exists sts; split; [left|by right]|]. apply readsBacked_cons.
  - repeat (apply Forall_cons; split; [done|]). eapply Forall_impl; [exact Htags|].
    intros e He%bool_decide_eq_true Heq. rewrite Heq in He. set_solver.
  - by intros sts' [= <-].
Qed.

(** The cell namespace has been reported gone. *)
Definition cellGone (cache : DistributedCache) (pre : list event) : Prop :=
  ∃ e, IsNotFound e = true ∧
    (ev (OGet KNamespace (mkNN "" (targetNamespace cache))) (inl e) ∈ pre ∨
     ∃ ns, ev (ODelete KNamespace ns) (inl e) ∈ pre).

Lemma deleteCellNamespace_true cache t :
  runs (deleteCellNamespace cache) t (inr true) → cellGone cache t.
Proof.
  unfold deleteCellNamespace, Get, Delete. intros H. run_step H. run_step H0.
  destruct a as [e|ns].
  { destruct (IsNotFound e) eqn:He; run_step H. exists e. split; [done|]. left. left. }
  destruct (bool_decide _); run_step H. run_step H0. destruct a as [e|[]]; [|run_step H; run_step H].
  destruct (IsNotFound e) eqn:He; run_step H. exists e. split; [done|]. right. exists ns. set_solver.
Qed.

(** What the operator has observed when it gives the cache up: every listed pod
    is drained and, for a cell, the namespace is gone. *)
Definition releaseEvidence (cache : DistributedCache) (pre : list event) : Prop :=
  (∃ pods now, ev (OListPods (targetNamespace cache) (podLabels cache)) (inr pods) ∈ pre ∧
     ev ONow now ∈ pre ∧ ∀ p, p ∈ pods → drained (graceOf cache) now p) ∧
  (isCrossNamespaceChild cache = true → cellGone cache pre).

End Theorems.

(** The call takes the drain finalizer off a cache. *)
Definition releasesFinalizer `{KL : KubeLib} (o : Op) : Prop :=
  match o with
  | OUpdate k c => match k return obj k → Prop with
                   | KDistributedCache => λ c, drainFinalizer ∉ om_Finalizers (dc_meta c)
                   | _ => λ _, False
                   end c
  | _ => False
  end.

Section Release.
Context `{KL : KubeLib} `{SS : SliceSort}.

#[global] Instance releasesFinalizer_dec o : Decision (releasesFinalizer o).
Proof. destruct o as [| |[] ?| | | | |]; simpl; apply _. Defined.

Lemma releasesFinalizer_tag o : op_tag o ≠ TUpdate KDistributedCache → ¬ releasesFinalizer o.
Proof. destruct o as [| |[] ?| | | | |]; simpl; by intros Hne H. Qed.

Lemma keeps_finalizer {A} l (Q : list event → Prop) (p : prog A) pre :
  bool_decide (TUpdate KDistributedCache ∉ l) = true → safe (only l) p →
  guarded (λ pre o, releasesFinalizer o → Q pre) p pre.
Proof.
  apply guarded_outside. intros pre' o Ho H. by apply releasesFinalizer_tag in H.
Qed.

Lemma releaseCache_guarded cache (Q : list event → Prop) pre :
  Q pre → guarded (λ pre o, releasesFinalizer o → Q pre) (releaseCache cache) pre.
Proof.
  intros HQ. unfold releaseCache, Update, Eventf. apply guarded_bind; [done|].
  intros t [e|c] _; [done|]. apply (keeps_finalizer [TEvent]); [done|]. footprint.
Qed.

Lemma reconcileDeletion_guarded cache pre :
  guarded (λ pre o, releasesFinalizer o → releaseEvidence cache pre) (reconcileDeletion cache) pre.
Proof.
  unfold reconcileDeletion. destruct (ContainsFinalizer _ _); cbn [negb]; [|done].
  apply guarded_bind; [by apply guarded_call|]. intros t1 [e|pods] H1; [done|].
  apply guarded_bind; [by apply guarded_call|]. intros t2 now H2.
  apply runs_call in H1 as ->, H2 as ->.
  apply guarded_bind.
  { eapply keeps_finalizer; [|apply drainAll_only]. done. }
  intros t3 [e|allDrained] Hd; [done|]. apply guarded_bind.
  { eapply keeps_finalizer; [|apply reconcileRing_only]. done. }
  intros t4 _ _. destruct allDrained; cbn [negb]; [|done].
  apply drainAll_true in Hd as [_ Hd].
  destruct (isCrossNamespaceChild cache) eqn:Hx.
  - apply guarded_bind.
    { eapply keeps_finalizer; [|apply deleteCellNamespace_only]. done. }
    intros t5 [e|[|]] H5; [done| |done]. apply deleteCellNamespace_true in H5 as (e & He & H5).
    apply releaseCache_guarded. split.
    + exists pods, now. set_solver.
    + intros _. exists e. split; [done|]. set_solver.
  - apply releaseCache_guarded. split; [|congruence]. exists pods, now. set_solver.
Qed.

End Release.

(** ** The length of a drain *)

Section Grace.
Context `{KL : KubeLib}.

Lemma graceOf_int32 cache :
  int32_ok (GracePeriodSeconds (Drain (Spec cache))) →
  graceOf cache = GracePeriodSeconds (Drain (Spec cache)) * Second.
Proof. intros H. unfold graceOf, Second. apply wrap64_id. go_int. Qed.

Lemma startDrain_annotation now p :
  pod_Annotations (startDrain now p) !! drainAnnotation = Some (FormatInt (t_Unix now)).
Proof. unfold startDrain, pod_annotate, pod_Annotations. simpl. by rewrite lookup_insert_eq. Qed.

Lemma ParseInt_stamp now : ParseInt (FormatInt (t_Unix now)) = Some (t_Unix now).
Proof. apply ParseInt_FormatInt. unfold t_Unix. by apply wrap_ok. Qed.

(** A pod stamped at [now0] counts as drained at [now] when the clock has moved on
    by the grace period since the start of the second of the stamp. *)
Lemma drained_stamp cache now0 now p :
  pod_Annotations p !! drainAnnotation = Some (FormatInt (t_Unix now0)) →
  sane_time now0 → sane_time now → int32_ok (GracePeriodSeconds (Drain (Spec cache))) →
  drained (graceOf cache) now p ↔
    graceOf cache <= (t_sec now - t_sec now0) * Second + t_nsec now.
Proof.
  intros Hp H0 H1 Hg. rewrite graceOf_int32 by done.
  set (g := GracePeriodSeconds _) in *.
  assert (t_Sub now (time_Unix (t_Unix now0)) = clamp64 ((t_sec now - t_sec now0) * Second + t_nsec now))
    as Hsub by by apply t_Sub_Unix.
  assert (g * Second <= clamp64 ((t_sec now - t_sec now0) * Second + t_nsec now) ↔
          g * Second <= (t_sec now - t_sec now0) * Second + t_nsec now) as Hc.
  { unfold clamp64, Second in *. go_int. }
  rewrite <- Hc, <- Hsub. split.
  - intros (s & ts & Hs & Hts & Hle). rewrite Hp in Hs. injection Hs as <-.
    rewrite ParseInt_stamp in Hts. by injection Hts as <-.
  - intros Hle. exists (FormatInt (t_Unix now0)), (t_Unix now0).
    split_and!; [done|apply ParseInt_stamp|done].
Qed.

(** When every doomed pod is drained the loop has nothing left to do. *)
Lemma drainPods_drained grace now doomed gs pods b :
  (∀ p, p ∈ pods → pod_Name p ∈ doomed → drained grace now p) →
  drainPods grace now doomed gs pods b = mret (inr b).
Proof.
  revert b. induction pods as [|p pods IH]; intros b H; simpl; [done|].
  assert (∀ b, drainPods grace now doomed gs pods b = mret (inr b)) as IH'.
  { intros b'. apply IH. set_solver. }
  case_bool_decide as Hd; cbn [negb]; [|done].
  destruct (H p) as (s & ts & -> & -> & Hle); [left|done|].
  rewrite (proj2 (Z.ltb_ge _ _)) by lia. done.
Qed.

Lemma drainAll_drained grace now pods b :
  (∀ p, p ∈ pods → drained grace now p) → drainAll grace now pods b = mret (inr b).
Proof.
  revert b. induction pods as [|p pods IH]; intros b H; simpl; [done|].
  destruct (H p) as (s & ts & -> & -> & Hle); [left|].
  rewrite (proj2 (Z.ltb_ge _ _)) by lia. apply IH. set_solver.
Qed.

(** The deletion loop writes only pods that have no drain annotation. *)
Lemma drainAll_writes grace now pods b t r :
  runs (drainAll grace now pods b) t r →
  Forall (λ e : event, ∃ p, p ∈ pods ∧ pod_Annotations p !! drainAnnotation = None ∧
                           projT1 e = OUpdate KPod (startDrain now p)) t.
Proof.
  revert b t r. induction pods as [|p pods IH]; intros b t r H; simpl in H.
  { by destruct H as [-> _]. }
  assert (∀ b t r, runs (drainAll grace now pods b) t r →
    Forall (λ e : event, ∃ q, q ∈ p :: pods ∧ pod_Annotations q !! drainAnnotation = None ∧
                             projT1 e = OUpdate KPod (startDrain now q)) t) as IH'.
  { intros b' t' r' Hr. eapply Forall_impl; [by eapply IH|]. simpl. intros e (q & ? & ?). exists q.
    split; [by right|done]. }
  destruct (pod_Annotations p !! drainAnnotation) as [s|] eqn:Ha.
  { destruct (ParseInt s); by eapply IH'. }
  assert (∀ e : event, projT1 e = OUpdate KPod (startDrain now p) → ∃ q, q ∈ p :: pods ∧
    pod_Annotations q !! drainAnnotation = None ∧ projT1 e = OUpdate KPod (startDrain now q)) as Hp.
  { intros e He. exists p. split; [left|done]. }
  apply runs_ebind in H as [(e & H & ->)|(t1 & c & t2 & -> & H & H2)];
    [|apply Forall_app; split; [|by eapply IH']];
    apply runs_wrapf in H as [(e' & H & _)|(a' & H & _)]; apply (runs_call (OUpdate KPod _)) in H as ->;
    repeat constructor; by apply Hp.
Qed.

(** ** Claims *)

(** C36: an unreadable drain annotation stops a deletion for good: while the listing
    contains such a pod the drain loop never reports completion, and it rewrites
    only pods without any annotation, so it never repairs that one (the scale-down
    loop does). *)
Theorem unreadable_annotation_blocks_deletion grace now pods b p s t r :
  p ∈ pods → pod_Annotations p !! drainAnnotation = Some s → ParseInt s = None →
  runs (drainAll grace now pods b) t r →
  r ≠ inr true ∧
  Forall (λ e : event, ∃ q, q ∈ pods ∧ pod_Annotations q !! drainAnnotation = None ∧
                           projT1 e = OUpdate KPod (startDrain now q)) t.
Proof.
  intros Hp Hs Hn H. split; [|by eapply drainAll_writes].
  intros ->. apply drainAll_true in H as [_ H]. destruct (H p Hp) as (s' & ts & Hs' & Hts & _).
  congruence.
Qed.

(** A drain lasts the grace period, to the second. For a pod annotated at
    [now0] and looked at at [now], once the full grace period has elapsed it counts
    as drained, and it never does while the elapsed time is a second or more short
    of the grace period (the stamp drops the fraction of a second, so the last
    second can be cut). *)
Theorem drain_lasts_grace_period cache now0 now p :
  sane_time now0 → sane_time now → int32_ok (GracePeriodSeconds (Drain (Spec cache))) →
  (graceOf cache <= t_Sub now now0 → drained (graceOf cache) now (startDrain now0 p)) ∧
  (drained (graceOf cache) now (startDrain now0 p) → graceOf cache - Second < t_Sub now now0).
Proof.
  intros H0 H1 Hg. rewrite (drained_stamp cache now0) by (done || apply startDrain_annotation).
  rewrite graceOf_int32 by done. unfold t_Sub, clamp64, sane_time, Second in *. go_int.
Qed.

(** Drains complete. If every doomed pod was annotated at least the grace
    period ago, the scale-down loop returns "all drained", and so does the deletion
    loop over those pods; neither makes any further call. *)
Theorem drains_complete_after_grace cache now now0 doomed gs pods :
  sane_time now → sane_time now0 → int32_ok (GracePeriodSeconds (Drain (Spec cache))) →
  (∀ p, p ∈ pods → pod_Name p ∈ doomed →
     pod_Annotations p !! drainAnnotation = Some (FormatInt (t_Unix now0))) →
  t_sec now0 + GracePeriodSeconds (Drain (Spec cache)) <= t_sec now →
  drainPods (graceOf cache) now doomed gs pods true = mret (inr true) ∧
  drainAll (graceOf cache) now (filter (λ p, pod_Name p ∈ doomed) pods) true = mret (inr true).
Proof.
  intros H1 H0 Hg Hp Hle.
  assert (∀ p, p ∈ pods → pod_Name p ∈ doomed → drained (graceOf cache) now p) as Hd.
  { intros p Hin Hdoom. apply (drained_stamp cache now0); [by apply Hp|done..|].
    rewrite graceOf_int32 by done. unfold sane_time, Second in *. nia. }
  split; [apply drainPods_drained|apply drainAll_drained]; [done|].
  intros p [Hdoom Hin]%list_elem_of_filter. by apply Hd.
Qed.

End Grace.
