(* ===== verification/Reconciler.v ===== *)
(** * Reconcile

    distributedcache_controller.go, lines 122-211: one level-triggered pass. *)

From S2P Require Import Prelude GoLib Json Api Kube Names Ring Cell Workload Status RingPublish Drain.

Local Open Scope Z_scope.
Local Open Scope prog_scope.

Section Reconciler.
Context `{KL : KubeLib} `{SS : SliceSort}.

(** A failed stage: report Degraded (best effort) and return the wrapped
    error. *)
Definition failDegraded (cache : DistributedCache) (reason ctx : string) (err : goerror) :
    prog (Result * option goerror) :=
  _ ← StatusUpdate (markDegraded cache reason err);
  mret (done_, Some (Wrapf ctx err)).

(** The end of a successful pass: write the status, schedule the next pass. *)
Definition finishPass (cache : DistributedCache) (ring : Ring) (doomedComplete : bool) :
    prog (Result * option goerror) :=
  upd ← StatusUpdate (observedStatus cache ring);
  match upd with
  | inl e => mret (done_, Some (Wrapf "update status" e))
  | inr cache =>
      if negb doomedComplete then mret (requeueAfter 2, None)
      else if isCrossNamespaceChild cache then mret (requeueAfter 10, None)
      else mret (done_, None)
  end.

(** The stages after the cell: Service (tried twice), scale-down drain,
    StatefulSet, ring, status. *)
Definition reconcileChildren (cache : DistributedCache) : prog (Result * option goerror) :=
  svc1 ← reconcileService cache;
  svc ← (match svc1 with inl _ => reconcileService cache | inr _ => mret (inr tt) end);
  match svc with
  | inl err => failDegraded cache ReasonServiceFailed "reconcile service" err
  | inr _ =>
      drained ← drainScaleDown cache;
      match drained with
      | inl err => failDegraded cache ReasonStatefulSetFailed "drain scale-down" err
      | inr doomedComplete =>
          sts ← reconcileStatefulSet cache doomedComplete;
          match sts with
          | inl err => failDegraded cache ReasonStatefulSetFailed "reconcile statefulset" err
          | inr _ =>
              ring ← reconcileRing cache;
              match ring with
              | inl err => failDegraded cache ReasonRingFailed "reconcile ring" err
              | inr ring => finishPass cache ring doomedComplete
              end
          end
      end
  end.

(** A pass over a live cache: the finalizer first, then the cell, then the
    rest. *)
Definition reconcileLive (cache : DistributedCache) : prog (Result * option goerror) :=
  let '(finalizers, added) := AddFinalizer (om_Finalizers (dc_meta cache)) drainFinalizer in
  let cache := set_dc_Finalizers finalizers cache in
  if added then
    upd ← Update KDistributedCache cache;
    match upd with
    | inl e => mret (done_, Some (Wrapf "add finalizer" e))
    | inr _ => mret (mkResult true 0, None)
    end
  else
    cell ← reconcileCell cache;
    match cell with
    | inl err => failDegraded cache ReasonCellFailed "reconcile cell" err
    | inr _ => reconcileChildren cache
    end.

Definition Reconcile (req : NamespacedName) : prog (Result * option goerror) :=
  got ← Get KDistributedCache req;
  match got with
  | inl e => if IsNotFound e then mret (done_, None)
             else mret (done_, Some (Wrapf "get DistributedCache" e))
  | inr cache =>
      if negb (bool_decide (om_DeletionTimestamp (dc_meta (cache : DistributedCache)) = None))
      then reconcileDeletion cache
      else reconcileLive cache
  end.

End Reconciler.

(** ** Scale-down safety *)

(** The call rewrites some StatefulSet to fewer replicas than it has. *)
Definition lowersReplicas `{KL : KubeLib} (o : Op) : Prop :=
  match o with
  | OCreateOrUpdate k _ f =>
      match k return (obj k → goerror + obj k) → Prop with
      | KStatefulSet => λ f, ∃ (sts sts' : StatefulSet) n d,
          sts_Replicas (sts_Spec sts) = Some n ∧ f sts = inr sts' ∧
          sts_Replicas (sts_Spec sts') = Some d ∧ d < n
      | _ => λ _, False
      end f
  | _ => False
  end.

(** The call lowers the replica count of this StatefulSet. *)
Definition lowersOn `{KL : KubeLib} (o : Op) (sts : StatefulSet) : bool :=
  match o with
  | OCreateOrUpdate k _ f =>
      match k return (obj k → goerror + obj k) → bool with
      | KStatefulSet => λ f, match f sts with
          | inr sts' => match sts_Replicas (sts_Spec sts), sts_Replicas (sts_Spec sts') with
                        | Some n, Some d => d <? n
                        | _, _ => false
                        end
          | inl _ => false
          end
      | _ => λ _, false
      end f
  | _ => false
  end.

Section Theorems.
Context `{KL : KubeLib} `{SS : SliceSort}.

Lemma lowersOn_sound o sts : lowersOn o sts = true → lowersReplicas o.
Proof.
  destruct o as [| | | | |[] ? f| |]; simpl; try done. intros H.
  destruct (f sts) as [|sts'] eqn:Hf; [done|]. exists sts, sts'.
  destruct (sts_Replicas (sts_Spec sts)) as [n|], (sts_Replicas (sts_Spec sts')) as [d|];
    try discriminate. exists n, d. split_and!; [done|exact Hf|done|lia].
Qed.

Lemma lowersReplicas_tag o : op_tag o ≠ TCreateOrUpdate KStatefulSet → ¬ lowersReplicas o.
Proof. destruct o as [| | | | |[] ? ?| |]; simpl; by intros Hne H. Qed.

(** A program that never touches the StatefulSet is no concern here. *)
Lemma guarded_tagged {A} l (Q : list event → Op → Prop) (p : prog A) pre :
  bool_decide (TCreateOrUpdate KStatefulSet ∉ l) = true → safe (only l) p →
  guarded (λ pre o, lowersReplicas o → Q pre o) p pre.
Proof. apply guarded_outside. intros pre' o Ho H. by apply lowersReplicas_tag in H. Qed.

Lemma mutateStatefulSet_held cache sts sts' n d :
  mutateStatefulSet cache false sts = inr sts' → sts_Replicas (sts_Spec sts) = Some n →
  sts_Replicas (sts_Spec sts') = Some d → n <= d.
Proof.
  unfold mutateStatefulSet. intros H Hn Hd. case_match; [done|]. simplify_eq/=.
  rewrite Hn in Hd. unfold heldReplicas in Hd. destruct (Replicas (Spec cache)); [|done].
  simpl in Hd. case_match; simplify_eq; lia.
Qed.

Lemma set_dc_Finalizers_same cache :
  set_dc_Finalizers (om_Finalizers (dc_meta cache)) cache = cache.
Proof. by destruct cache as [[] ? ?]. Qed.

(** What backs a call that lowers a replica count; when it lowers a StatefulSet that
    was read, the pods that one gives up have been seen drained. *)
Definition lowerBacked (cache : DistributedCache) (pre : list event) (o : Op) : Prop :=
  scaleDownEvidence cache pre ∧
  ∀ key (sts : StatefulSet), ev (OGet KStatefulSet key) (inr sts) ∈ pre → lowersOn o sts = true →
    doomedSeenDrained cache (default 0 (sts_Replicas (sts_Spec sts))) pre.

(** A rewrite that is not held back lowers only what is larger than asked for. *)
Lemma lowersOn_larger cache b new sts :
  lowersOn (OCreateOrUpdate KStatefulSet new (mutateStatefulSet cache b)) sts = true →
  specReplicas cache < default 0 (sts_Replicas (sts_Spec sts)).
Proof.
  simpl. unfold mutateStatefulSet. destruct (setControllerReferenceIfSameNamespace _ _) as [e|m]; [done|].
  cbn [sts_Spec sts_Replicas]. unfold heldReplicas, specReplicas.
  destruct (sts_Replicas (sts_Spec sts)) as [n|]; [|done]. destruct (Replicas (Spec cache)) as [d|]; [|done].
  simpl. destruct (negb b && (d <? n)); lia.
Qed.

Lemma reconcileStatefulSet_guarded cache b pre :
  (b = true → scaleDownEvidence cache pre ∧ readsBacked cache pre) →
  guarded (λ pre o, lowersReplicas o → lowerBacked cache pre o) (reconcileStatefulSet cache b) pre.
Proof.
  intros Hb. unfold reconcileStatefulSet, CreateOrUpdate, ebind, wrapf.
  apply guarded_bind.
  - apply guarded_bind; [|done]. simpl. split; [|done].
    intros (sts & sts' & n & d & Hn & Hf & Hd & Hlt). destruct b; cycle 1.
    { pose proof (mutateStatefulSet_held _ _ _ _ _ Hf Hn Hd). lia. }
    destruct (Hb eq_refl) as [He Hr]. split; [done|]. intros key sts2 Hin Hlow.
    apply (Hr key sts2 Hin). by eapply lowersOn_larger.
  - intros t [e|[op sts]] _; [done|]. eapply (guarded_tagged [TEvent]); [done|]. by apply reportOp_only.
Qed.

Lemma failDegraded_only cache reason ctx err :
  safe (only [TStatusUpdate]) (failDegraded cache reason ctx err).
Proof. unfold failDegraded, StatusUpdate. footprint. Qed.

Lemma finishPass_only cache ring b : safe (only [TStatusUpdate]) (finishPass cache ring b).
Proof. unfold finishPass, StatusUpdate. footprint. Qed.

(** Calls that read no StatefulSet. *)
Lemma no_reads {A} l (p : prog A) t a :
  bool_decide (TGet KStatefulSet ∉ l) = true → safe (only l) p → runs p t a →
  Forall (λ e : event, op_tag (projT1 e) ≠ TGet KStatefulSet) t.
Proof.
  intros Hl%bool_decide_eq_true Hp Hr. eapply Forall_impl; [by eapply safe_runs|].
  intros e He%bool_decide_eq_true Heq. by rewrite Heq in He.
Qed.

Lemma reconcileChildren_guarded cache pre :
  Forall (λ e : event, op_tag (projT1 e) ≠ TGet KStatefulSet) pre →
  guarded (λ pre o, lowersReplicas o → lowerBacked cache pre o) (reconcileChildren cache) pre.
Proof.
  intros Hpre.
  assert (∀ reason ctx err pre, guarded (λ pre o, lowersReplicas o → lowerBacked cache pre o)
    (failDegraded cache reason ctx err) pre) as Hfail.
  { intros. eapply guarded_tagged; [|apply failDegraded_only]. done. }
  assert (∀ pre, guarded (λ pre o, lowersReplicas o → lowerBacked cache pre o)
    (reconcileService cache) pre) as Hsvc.
  { intros. eapply guarded_tagged; [|apply reconcileService_only]. done. }
  assert (∀ t a, runs (reconcileService cache) t a →
    Forall (λ e : event, op_tag (projT1 e) ≠ TGet KStatefulSet) t) as Hnone.
  { intros t a Ht. eapply no_reads; [|apply reconcileService_only|exact Ht]. done. }
  unfold reconcileChildren. apply guarded_bind; [done|]. intros t1 svc1 H1.
  apply guarded_bind; [by destruct svc1|]. intros t2 [e|u] H2; [done|].
  apply guarded_bind.
  { eapply guarded_tagged; [|apply drainScaleDown_only]. done. }
  intros t3 [e|b] Hdrain; [done|]. apply guarded_bind.
  { apply reconcileStatefulSet_guarded. intros ->. apply drainScaleDown_true in Hdrain as [He Hr]. split.
    - eapply scaleDownEvidence_mono; [|done]. set_solver.
    - apply readsBacked_app; [|done]. rewrite !Forall_app. split_and!; [done|by eapply Hnone|].
      destruct svc1 as [e|[]]; [by eapply Hnone|by destruct H2 as [-> _]]. }
  intros t4 [e|_] _; [done|]. apply guarded_bind.
  { eapply guarded_tagged; [|apply reconcileRing_only]. done. }
  intros t5 [e|ring] _; [done|]. eapply guarded_tagged; [|apply finishPass_only]. done.
Qed.

Lemma reconcileDeletion_only cache :
  safe (only [TListPods; TNow; TUpdate KPod; TGet KConfigMap; TCreateOrUpdate KConfigMap; TEvent;
              TGet KNamespace; TDelete KNamespace; TUpdate KDistributedCache])
    (reconcileDeletion cache).
Proof.
  unfold reconcileDeletion, releaseCache, ListPods, Now, Update, Eventf.
  repeat (safe_step || (eapply only_weaken; [|first
    [apply drainAll_only | apply reconcileRing_only | apply deleteCellNamespace_only]];
    by apply (bool_decide_unpack _))); done.
Qed.

Lemma reconcileChildren_only cache :
  safe (only [TCreateOrUpdate KService; TCreateOrUpdate KStatefulSet; TCreateOrUpdate KConfigMap;
              TEvent; TGet KStatefulSet; TGet KConfigMap; TListPods; TNow; TUpdate KPod;
              TStatusUpdate]) (reconcileChildren cache).
Proof.
  unfold reconcileChildren.
  repeat (safe_step || (eapply only_weaken; [|first
    [apply reconcileService_only | apply drainScaleDown_only | apply reconcileStatefulSet_only |
     apply reconcileRing_only | apply failDegraded_only | apply finishPass_only]];
    by apply (bool_decide_unpack _))); done.
Qed.

(** The frame of every property of Reconcile's calls: the first Get, then the
    deletion or the live pass of the cache it returned. *)
Lemma Reconcile_guarded (P : list event → Op → Prop) req :
  P [] (OGet KDistributedCache req) →
  (∀ (cache : DistributedCache) pre, pre = [ev (OGet KDistributedCache req) (inr cache)] →
     om_DeletionTimestamp (dc_meta cache) ≠ None → guarded P (reconcileDeletion cache) pre) →
  (∀ (cache : DistributedCache) pre, pre = [ev (OGet KDistributedCache req) (inr cache)] →
     om_DeletionTimestamp (dc_meta cache) = None → guarded P (reconcileLive cache) pre) →
  guarded P (Reconcile req) [].
Proof.
  intros Hget Hdel Hlive. unfold Reconcile. apply guarded_bind; [by apply guarded_call|].
  intros t [e|cache] Ht; [by destruct (IsNotFound e)|].
  apply (runs_call (OGet KDistributedCache req)) in Ht as ->.
  case_bool_decide; cbn [negb]; [by apply Hlive|by apply Hdel].
Qed.

(** A live pass: the finalizer update alone, or the stages on the cache as read. *)
Lemma reconcileLive_guarded (P : list event → Op → Prop) (cache : DistributedCache) pre :
  (∀ c', drainFinalizer ∈ om_Finalizers (dc_meta c') → P pre (OUpdate KDistributedCache c')) →
  (drainFinalizer ∈ om_Finalizers (dc_meta cache) → guarded P (reconcileCell cache) pre) →
  (drainFinalizer ∈ om_Finalizers (dc_meta cache) → ∀ t err, runs (reconcileCell cache) t (inl err) →
     guarded P (failDegraded cache ReasonCellFailed "reconcile cell" err) (pre ++ t)) →
  (drainFinalizer ∈ om_Finalizers (dc_meta cache) → ∀ t, runs (reconcileCell cache) t (inr tt) →
     guarded P (reconcileChildren cache) (pre ++ t)) →
  guarded P (reconcileLive cache) pre.
Proof.
  intros Hupd Hcell Hfail Hkids. unfold reconcileLive.
  pose proof (AddFinalizer_same (om_Finalizers (dc_meta cache)) drainFinalizer) as Hs.
  pose proof (AddFinalizer_changed (om_Finalizers (dc_meta cache)) drainFinalizer) as Hc.
  pose proof (AddFinalizer_elem (om_Finalizers (dc_meta cache)) drainFinalizer drainFinalizer) as He.
  destruct (AddFinalizer _ _) as [fs added]. simpl in Hs, Hc, He. destruct added.
  { apply guarded_bind; [|by intros t [e|c] _]. apply guarded_call, Hupd. simpl. tauto. }
  case_bool_decide as Hf; [|done]. rewrite Hs, set_dc_Finalizers_same by done.
  apply guarded_bind; [by apply Hcell|]. intros t [err|[]] Hr; eauto.
Qed.

Lemma Reconcile_scale_guarded req :
  guarded (λ pre o, lowersReplicas o → ∃ cache : DistributedCache,
    ev (OGet KDistributedCache req) (inr cache) ∈ pre ∧ lowerBacked cache pre o)
    (Reconcile req) [].
Proof.
  apply Reconcile_guarded; [done| |]; intros cache pre Hpre Hdel.
  { eapply guarded_tagged; [|apply reconcileDeletion_only]. done. }
  apply reconcileLive_guarded; [done|intros _..].
  - eapply guarded_tagged; [|apply reconcileCell_only]. done.
  - intros t err _. eapply guarded_tagged; [|apply failDegraded_only]. done.
  - intros t Ht. eapply guarded_prefix; [apply (reconcileChildren_guarded cache)|].
    + subst pre. apply Forall_cons. split; [done|].
      eapply no_reads; [|apply reconcileCell_only|exact Ht]. done.
    + intros t' o Ho Hlow. exists cache. split; [set_solver|by apply Ho].
Qed.

Lemma Reconcile_release_guarded req :
  guarded (λ pre o, releasesFinalizer o → ∃ cache : DistributedCache,
    ev (OGet KDistributedCache req) (inr cache) ∈ pre ∧
    om_DeletionTimestamp (dc_meta cache) ≠ None ∧ releaseEvidence cache pre)
    (Reconcile req) [].
Proof.
  apply Reconcile_guarded; [done| |]; intros cache pre Hpre Hdel.
  { eapply guarded_prefix; [apply reconcileDeletion_guarded|].
    intros t' o Ho Hr. exists cache. split_and!; [set_solver|done|by apply Ho]. }
  apply reconcileLive_guarded; [by intros c' Hin []|intros _..].
  - eapply keeps_finalizer; [|apply reconcileCell_only]. done.
  - intros t err _. eapply keeps_finalizer; [|apply failDegraded_only]. done.
  - intros t _. eapply keeps_finalizer; [|apply reconcileChildren_only]. done.
Qed.

(** ** Claims *)

(** C5: in every run of Reconcile, whatever the API server answers, the operator
    asks for a StatefulSet rewrite that lowers a replica count only after it has
    observed, for the cache it read, that there is no StatefulSet, that it is not
    larger than requested, or that every listed pod beyond the requested count
    carries a drain annotation at least the grace period old; and if the rewrite
    lowers a StatefulSet that was read in this run, so that the read was not stale,
    the last is what it has observed, for all pods that StatefulSet gives up. *)
Theorem scale_down_only_after_drain req t res t1 e t2 :
  runs (Reconcile req) t res → t = t1 ++ e :: t2 → lowersReplicas (projT1 e) →
  ∃ cache : DistributedCache,
    ev (OGet KDistributedCache req) (inr cache) ∈ t1 ∧ scaleDownEvidence cache t1 ∧
    ∀ key (sts : StatefulSet), ev (OGet KStatefulSet key) (inr sts) ∈ t1 → lowersOn (projT1 e) sts = true →
      doomedSeenDrained cache (default 0 (sts_Replicas (sts_Spec sts))) t1.
Proof.
  intros Hr Ht. apply (guarded_runs _ _ [] t res t1 e t2 (Reconcile_scale_guarded req) Hr Ht).
Qed.

(** C6: in every run of Reconcile, an update that takes the drain finalizer off
    the cache is sent only for a cache being deleted, after every pod the API
    server listed was seen drained for the grace period and, for a cell, after
    the cell namespace was reported not found. *)
Theorem finalizer_released_only_after_drain req t res t1 e t2 :
  runs (Reconcile req) t res → t = t1 ++ e :: t2 → releasesFinalizer (projT1 e) →
  ∃ cache : DistributedCache,
    ev (OGet KDistributedCache req) (inr cache) ∈ t1 ∧
    om_DeletionTimestamp (dc_meta cache) ≠ None ∧ releaseEvidence cache t1.
Proof.
  intros Hr Ht. apply (guarded_runs _ _ [] t res t1 e t2 (Reconcile_release_guarded req) Hr Ht).
Qed.

End Theorems.
