(* ===== verification/Passes.v ===== *)
(** * Whole passes of Reconcile

    What every run of one pass has done by the time it returns: the order of
    finalizer and children, the report of a failed stage, the status and the
    requeue of a successful one, and the pod writes in between. *)

From S2P Require Import Prelude GoLib Json Api Kube Names Ring Cell Workload Status RingPublish.
From S2P Require Import Drain Reconciler.

Local Open Scope Z_scope.
Local Open Scope prog_scope.

(** The call changes or deletes something other than the cache itself. *)
Definition writesChild `{KL : KubeLib} (o : Op) : bool :=
  match op_tag o with
  | TCreateOrUpdate _ | TDelete _ | TUpdate KPod => true
  | _ => false
  end.

(** [p'] is a listed pod whose drain starts now: it had no drain annotation, or
    one that is not a number. *)
Definition startsDrain `{KL : KubeLib} (now : Time) (pods : list Pod) (p' : Pod) : Prop :=
  ∃ p, p ∈ pods ∧ p' = startDrain now p ∧
       ∀ s, pod_Annotations p !! drainAnnotation = Some s → ParseInt s = None.

(** A pod update satisfies [Q]; other calls are free. *)
Definition podWrite `{KL : KubeLib} (Q : Pod → Prop) (o : Op) : Prop :=
  match o with
  | OUpdate k p => match k return obj k → Prop with KPod => Q | _ => λ _, True end p
  | _ => True
  end.

Section Passes.
Context `{KL : KubeLib} `{SS : SliceSort}.

Lemma podWrite_tag Q o : op_tag o ≠ TUpdate KPod → podWrite Q o.
Proof. by destruct o as [| |[] ?| | | | |]. Qed.

Lemma podWrite_mono (P Q : Pod → Prop) o : (∀ p, P p → Q p) → podWrite P o → podWrite Q o.
Proof. destruct o as [| |[] ?| | | | |]; simpl; auto. Qed.

(** ** Pod writes of the two drain loops *)

Lemma startsDrain_cons now p pods p' : startsDrain now pods p' → startsDrain now (p :: pods) p'.
Proof. intros (q & Hq & H). exists q. split; [by right|done]. Qed.

Lemma startsDrain_here now p pods :
  (∀ s, pod_Annotations p !! drainAnnotation = Some s → ParseInt s = None) →
  startsDrain now (p :: pods) (startDrain now p).
Proof. intros H. exists p. split; [left|done]. Qed.

Lemma drainPods_podWrite grace now doomed gs pods b :
  safe (podWrite (startsDrain now pods)) (drainPods grace now doomed gs pods b).
Proof.
  revert b. induction pods as [|p pods IH]; intros b; simpl; [done|].
  assert (∀ b, safe (podWrite (startsDrain now (p :: pods))) (drainPods grace now doomed gs pods b))
    as IH'.
  { intros b'. eapply safe_mono; [|apply IH]. intros o. apply podWrite_mono. apply startsDrain_cons. }
  unfold Update, Eventf. repeat (safe_step || apply IH'); simpl; try done;
    apply startsDrain_here; congruence.
Qed.

Lemma drainAll_podWrite grace now pods b :
  safe (podWrite (startsDrain now pods)) (drainAll grace now pods b).
Proof.
  revert b. induction pods as [|p pods IH]; intros b; simpl; [done|].
  assert (∀ b, safe (podWrite (startsDrain now (p :: pods))) (drainAll grace now pods b)) as IH'.
  { intros b'. eapply safe_mono; [|apply IH]. intros o. apply podWrite_mono. apply startsDrain_cons. }
  unfold Update. repeat (safe_step || apply IH'); simpl; try done; apply startsDrain_here; congruence.
Qed.

(** Backed by a listing and a clock reading of the same run. *)
Definition backedDrain (pre : list event) (p' : Pod) : Prop :=
  ∃ ns sel pods now, ev (OListPods ns sel) (inr pods) ∈ pre ∧ ev ONow now ∈ pre ∧
    startsDrain now pods p'.

Lemma no_pod_writes {A} l (p : prog A) pre :
  bool_decide (TUpdate KPod ∉ l) = true → safe (only l) p →
  guarded (λ pre o, podWrite (backedDrain pre) o) p pre.
Proof. apply guarded_outside. intros pre' o. apply podWrite_tag. Qed.

Lemma backed_safe {A} (p : prog A) ns sel pods now pre :
  ev (OListPods ns sel) (inr pods) ∈ pre → ev ONow now ∈ pre →
  safe (podWrite (startsDrain now pods)) p →
  guarded (λ pre o, podWrite (backedDrain pre) o) p pre.
Proof.
  intros H1 H2 Hp. apply guarded_prefix with (λ _ o, podWrite (startsDrain now pods) o).
  - apply guarded_safe. eapply safe_mono; [|exact Hp]. done.
  - intros t o. apply podWrite_mono. intros p' Hp'. exists ns, sel, pods, now. set_solver.
Qed.

Lemma drainScaleDown_podWrites cache pre :
  guarded (λ pre o, podWrite (backedDrain pre) o) (drainScaleDown cache) pre.
Proof.
  unfold drainScaleDown. apply guarded_bind; [by apply guarded_call|].
  intros t1 [e|sts] _; [by destruct (IsNotFound e)|]. destruct (_ <=? _); [done|].
  unfold ebind, wrapf. apply guarded_bind.
  { apply guarded_bind; [by apply guarded_call|done]. }
  intros t2 [e|pods] H; [done|].
  apply (runs_wrapf_ok "list pods"), runs_call in H as ->.
  apply guarded_bind; [by apply guarded_call|]. intros t3 now H3. apply runs_call in H3 as ->.
  apply (backed_safe _ (targetNamespace cache) (podLabels cache) pods now);
    [set_solver..|apply drainPods_podWrite].
Qed.

Lemma reconcileDeletion_podWrites cache pre :
  guarded (λ pre o, podWrite (backedDrain pre) o) (reconcileDeletion cache) pre.
Proof.
  unfold reconcileDeletion. destruct (ContainsFinalizer _ _); cbn [negb]; [|done].
  apply guarded_bind; [by apply guarded_call|]. intros t1 [e|pods] H1; [done|].
  apply guarded_bind; [by apply guarded_call|]. intros t2 now H2. apply runs_call in H1 as ->, H2 as ->.
  apply guarded_bind.
  { apply (backed_safe _ (targetNamespace cache) (podLabels cache) pods now);
      [set_solver..|apply drainAll_podWrite]. }
  intros t3 [e|b] _; [done|].
  apply guarded_bind; [eapply no_pod_writes; [|apply reconcileRing_only]; done|].
  intros t4 _ _. destruct b; cbn [negb]; [|done].
  assert (∀ pre, guarded (λ pre o, podWrite (backedDrain pre) o) (releaseCache cache) pre) as Hrel.
  { intros pre'. eapply (no_pod_writes [TUpdate KDistributedCache; TEvent]); [done|].
    unfold releaseCache, Update, Eventf. footprint. }
  destruct (isCrossNamespaceChild cache); [|done].
  apply guarded_bind; [eapply no_pod_writes; [|apply deleteCellNamespace_only]; done|].
  by intros t5 [e|[|]] _.
Qed.

Lemma reconcileChildren_podWrites cache pre :
  guarded (λ pre o, podWrite (backedDrain pre) o) (reconcileChildren cache) pre.
Proof.
  assert (∀ reason ctx err pre, guarded (λ pre o, podWrite (backedDrain pre) o)
    (failDegraded cache reason ctx err) pre) as Hfail.
  { intros. eapply no_pod_writes; [|apply failDegraded_only]. done. }
  assert (∀ pre, guarded (λ pre o, podWrite (backedDrain pre) o) (reconcileService cache) pre) as Hsvc.
  { intros. eapply no_pod_writes; [|apply reconcileService_only]. done. }
  unfold reconcileChildren. apply guarded_bind; [done|]. intros t1 svc1 _.
  apply guarded_bind; [by destruct svc1|]. intros t2 [e|_] _; [done|].
  apply guarded_bind; [apply drainScaleDown_podWrites|]. intros t3 [e|b] _; [done|].
  apply guarded_bind; [eapply no_pod_writes; [|apply reconcileStatefulSet_only]; done|].
  intros t4 [e|_] _; [done|].
  apply guarded_bind; [eapply no_pod_writes; [|apply reconcileRing_only]; done|].
  intros t5 [e|ring] _; [done|]. eapply no_pod_writes; [|apply finishPass_only]. done.
Qed.

Lemma Reconcile_podWrites req :
  guarded (λ pre o, podWrite (backedDrain pre) o) (Reconcile req) [].
Proof.
  apply Reconcile_guarded; [done| |]; intros cache pre _ _.
  - apply reconcileDeletion_podWrites.
  - apply reconcileLive_guarded; [done|intros _..].
    + eapply no_pod_writes; [|apply reconcileCell_only]. done.
    + intros t err _. eapply no_pod_writes; [|apply failDegraded_only]. done.
    + intros t _. apply reconcileChildren_podWrites.
Qed.

(** ** Finalizer before children *)

Lemma Reconcile_finalizer_first req :
  guarded (λ pre o, writesChild o = true → ∃ cache : DistributedCache,
    ev (OGet KDistributedCache req) (inr cache) ∈ pre ∧
    drainFinalizer ∈ om_Finalizers (dc_meta cache)) (Reconcile req) [].
Proof.
  apply Reconcile_guarded; [done| |]; intros cache pre Hpre _.
  - unfold reconcileDeletion. rewrite ContainsFinalizer_spec.
    case_bool_decide as Hf; cbn [negb]; [|done].
    apply guarded_always. intros t o _. exists cache. set_solver.
  - apply reconcileLive_guarded; [done|..]; intros Hf; [|intros t err _|intros t _];
      apply guarded_always; intros t' o _; exists cache; set_solver.
Qed.

(** ** Results *)

Lemma failDegraded_runs cache reason ctx err t res :
  runs (failDegraded cache reason ctx err) t res →
  ∃ r, t = [ev (OStatusUpdate (markDegraded cache reason err)) r] ∧ res = (done_, Some (Wrapf ctx err)).
Proof.
  unfold failDegraded, StatusUpdate. intros H. run_step H. run_step H0. run_step H. eauto.
Qed.

(** The Service stage: a second try if the first one fails. *)
Inductive serviceTried (cache : DistributedCache) : list event → goerror + unit → Prop :=
  | first_try t : runs (reconcileService cache) t (inr tt) → serviceTried cache t (inr tt)
  | second_try t1 e t2 r :
      runs (reconcileService cache) t1 (inl e) → runs (reconcileService cache) t2 r →
      serviceTried cache (t1 ++ t2) r.

(** The calls up to the drain, and up to the status, in order, every stage having
    succeeded. *)
Definition upToService (cache : DistributedCache) (t : list event) : Prop :=
  ∃ tc ts, t = tc ++ ts ∧ runs (reconcileCell cache) tc (inr tt) ∧ serviceTried cache ts (inr tt).

Definition upToDrain (cache : DistributedCache) (b : bool) (t : list event) : Prop :=
  ∃ t1 td, t = t1 ++ td ∧ upToService cache t1 ∧ runs (drainScaleDown cache) td (inr b).

Definition upToStatefulSet (cache : DistributedCache) (b : bool) (t : list event) : Prop :=
  ∃ t1 ts, t = t1 ++ ts ∧ upToDrain cache b t1 ∧ runs (reconcileStatefulSet cache b) ts (inr tt).

Definition upToRing (cache : DistributedCache) (b : bool) (ring : Ring) (t : list event) : Prop :=
  ∃ t1 tr, t = t1 ++ tr ∧ upToStatefulSet cache b t1 ∧ runs (reconcileRing cache) tr (inr ring).

(** [failsAt cache t ctx reason err]: after the calls [t] a stage has failed with
    [err], every stage before it having succeeded; [ctx] and [reason] are that stage's. *)
Inductive failsAt (cache : DistributedCache) : list event → string → string → goerror → Prop :=
  | cell_fails t err :
      runs (reconcileCell cache) t (inl err) → failsAt cache t "reconcile cell" ReasonCellFailed err
  | service_fails t1 t err :
      runs (reconcileCell cache) t1 (inr tt) → serviceTried cache t (inl err) →
      failsAt cache (t1 ++ t) "reconcile service" ReasonServiceFailed err
  | drain_fails t1 t err :
      upToService cache t1 → runs (drainScaleDown cache) t (inl err) →
      failsAt cache (t1 ++ t) "drain scale-down" ReasonStatefulSetFailed err
  | statefulset_fails b t1 t err :
      upToDrain cache b t1 → runs (reconcileStatefulSet cache b) t (inl err) →
      failsAt cache (t1 ++ t) "reconcile statefulset" ReasonStatefulSetFailed err
  | ring_fails b t1 t err :
      upToStatefulSet cache b t1 → runs (reconcileRing cache) t (inl err) →
      failsAt cache (t1 ++ t) "reconcile ring" ReasonRingFailed err.

(** How a pass over a live, finalized cache ends. *)
Inductive passEnd (cache : DistributedCache) : list event → Result * option goerror → Prop :=
  | stage_failed pre ctx reason err r :
      failsAt cache pre ctx reason err →
      passEnd cache (pre ++ [ev (OStatusUpdate (markDegraded cache reason err)) r])
        (done_, Some (Wrapf ctx err))
  | status_failed pre ring b e :
      upToRing cache b ring pre →
      passEnd cache (pre ++ [ev (OStatusUpdate (observedStatus cache ring)) (inl e)])
        (done_, Some (Wrapf "update status" e))
  | pass_ok pre ring b c' :
      upToRing cache b ring pre →
      passEnd cache (pre ++ [ev (OStatusUpdate (observedStatus cache ring)) (inr c')])
        (if b then if isCrossNamespaceChild c' then requeueAfter 10 else done_ else requeueAfter 2,
         None).

Lemma failDegraded_passEnd cache pre reason ctx err t res :
  runs (failDegraded cache reason ctx err) t res → failsAt cache pre ctx reason err →
  passEnd cache (pre ++ t) res.
Proof. intros (r & -> & ->)%failDegraded_runs Hf. by apply stage_failed. Qed.

Lemma finishPass_passEnd cache ring b pre t res :
  runs (finishPass cache ring b) t res → upToRing cache b ring pre → passEnd cache (pre ++ t) res.
Proof.
  unfold finishPass, StatusUpdate. intros (tu & upd & t6 & -> & Hu & H)%runs_bind Hr.
  apply (runs_call (OStatusUpdate _)) in Hu as ->. destruct upd as [e|c'].
  { run_step H. by eapply status_failed. }
  pose proof (pass_ok cache pre ring b c' Hr) as Hok.
  destruct b; [destruct (isCrossNamespaceChild c')|]; simpl in H; run_step H; exact Hok.
Qed.

Lemma reconcileChildren_passEnd cache tc t res :
  runs (reconcileCell cache) tc (inr tt) → runs (reconcileChildren cache) t res → passEnd cache (tc ++ t) res.
Proof.
  unfold reconcileChildren. intros Hcell (t1 & svc1 & ? & -> & Hs1 & (t2 & svc & ? & -> & Hs2 & H)%runs_bind)%runs_bind.
  assert (serviceTried cache (t1 ++ t2) svc) as Htried.
  { destruct svc1 as [e|[]]; [by eapply second_try|]. run_step Hs2. rewrite app_nil_r. by apply first_try. }
  rewrite (app_assoc t1), app_assoc. destruct svc as [e|[]].
  { eapply failDegraded_passEnd; [exact H|by apply service_fails]. }
  assert (upToService cache (tc ++ t1 ++ t2)) as Hsvc by (by exists tc, (t1 ++ t2)).
  apply runs_bind in H as (td & [e|b] & t3 & -> & Hd & H); rewrite (app_assoc _ td).
  { eapply failDegraded_passEnd; [exact H|by apply drain_fails]. }
  assert (upToDrain cache b ((tc ++ t1 ++ t2) ++ td)) as Hdr by (by eexists _, td).
  apply runs_bind in H as (ts & [e|[]] & t4 & -> & Hs & H); rewrite (app_assoc _ ts).
  { eapply failDegraded_passEnd; [exact H|by eapply statefulset_fails]. }
  assert (upToStatefulSet cache b (((tc ++ t1 ++ t2) ++ td) ++ ts)) as Hst by (by eexists _, ts).
  apply runs_bind in H as (tr & [e|ring] & t5 & -> & Hr & H); rewrite (app_assoc _ tr).
  { eapply failDegraded_passEnd; [exact H|by eapply ring_fails]. }
  eapply finishPass_passEnd; [exact H|]. by eexists _, tr.
Qed.

(** What follows the first read. *)
Lemma Reconcile_read req (cache : DistributedCache) t res :
  runs (Reconcile req) (ev (OGet KDistributedCache req) (inr cache) :: t) res →
  runs (if negb (bool_decide (om_DeletionTimestamp (dc_meta cache) = None))
        then reconcileDeletion cache else reconcileLive cache) t res.
Proof.
  unfold Reconcile. intros (t1 & got & t2 & Ht & Hg & H)%runs_bind.
  apply (runs_call (OGet KDistributedCache req)) in Hg as ->.
  by apply get_events_inj in Ht as [<- <-].
Qed.

(** ** Claims *)

(** C19: in every run of Reconcile, a pod is written only to start its drain: the
    update is a pod listed in that run, unchanged but for the drain annotation set
    to the time read in that run, and the pod had no annotation or an unreadable
    one. A running drain is never restarted and never taken back. *)
Theorem pod_updates_only_start_drains req t res t1 (p' : Pod) r t2 :
  runs (Reconcile req) t res → t = t1 ++ ev (OUpdate KPod p') r :: t2 →
  ∃ ns sel pods now, ev (OListPods ns sel) (inr pods) ∈ t1 ∧ ev ONow now ∈ t1 ∧
    startsDrain now pods p'.
Proof.
  intros Hr Ht. exact (guarded_runs _ _ [] t res t1 _ t2 (Reconcile_podWrites req) Hr Ht).
Qed.

(** In every run of Reconcile, a child object or a pod is created, updated or
    deleted only for a cache that was read with the drain finalizer on it: nothing
    is created that deletion would not drain. *)
Theorem children_written_only_under_finalizer req t res t1 e t2 :
  runs (Reconcile req) t res → t = t1 ++ e :: t2 → writesChild (projT1 e) = true →
  ∃ cache : DistributedCache, ev (OGet KDistributedCache req) (inr cache) ∈ t1 ∧
    drainFinalizer ∈ om_Finalizers (dc_meta cache).
Proof.
  intros Hr Ht. exact (guarded_runs _ _ [] t res t1 e t2 (Reconcile_finalizer_first req) Hr Ht).
Qed.

(** C18: every run of Reconcile that reads a live cache carrying the finalizer ends
    in one of three ways. A stage failed, all stages before it having succeeded (cell,
    Service with its second try, drain, StatefulSet, ring, in this order): the last
    call reports Degraded with that stage's reason and that stage's error, and the
    error is returned under that stage's name. Or all stages succeeded but the status
    update failed, and its error is returned. Or the last call wrote the status of the
    ring just published, and the next pass is in 2 s while a drain is pending, in 10 s
    for a cell, and not scheduled otherwise. *)
Theorem live_pass_ends_reported req (cache : DistributedCache) t res :
  runs (Reconcile req) (ev (OGet KDistributedCache req) (inr cache) :: t) res →
  om_DeletionTimestamp (dc_meta cache) = None → drainFinalizer ∈ om_Finalizers (dc_meta cache) →
  passEnd cache t res.
Proof.
  intros H Hdel Hf. apply Reconcile_read in H. rewrite bool_decide_true in H by done.
  cbn [negb] in H. unfold reconcileLive in H.
  pose proof (AddFinalizer_same (om_Finalizers (dc_meta cache)) drainFinalizer Hf) as Hs.
  pose proof (AddFinalizer_changed (om_Finalizers (dc_meta cache)) drainFinalizer) as Hc.
  rewrite bool_decide_true in Hc by done.
  destruct (AddFinalizer _ _) as [fs added]. simpl in Hs, Hc. subst added.
  rewrite Hs, set_dc_Finalizers_same in H.
  apply runs_bind in H as (tc & [err|[]] & t3 & -> & Hc' & H).
  - eapply failDegraded_passEnd; [exact H|by apply cell_fails].
  - by apply reconcileChildren_passEnd.
Qed.

(** A pass over a live cache without the finalizer does nothing but add it:
    the calls are the read and one update that appends the finalizer, after which
    the pass asks to be run again (or returns the update's error). *)
Theorem first_pass_only_adds_finalizer req (cache : DistributedCache) t res :
  runs (Reconcile req) (ev (OGet KDistributedCache req) (inr cache) :: t) res →
  om_DeletionTimestamp (dc_meta cache) = None → drainFinalizer ∉ om_Finalizers (dc_meta cache) →
  ∃ fs r, t = [ev (OUpdate KDistributedCache (set_dc_Finalizers fs cache)) r] ∧
    (∀ x, x ∈ fs ↔ x ∈ om_Finalizers (dc_meta cache) ∨ x = drainFinalizer) ∧
    res = match r with inl e => (done_, Some (Wrapf "add finalizer" e))
                     | inr _ => (mkResult true 0, None) end.
Proof.
  intros H Hdel Hf. apply Reconcile_read in H. rewrite bool_decide_true in H by done.
  cbn [negb] in H. unfold reconcileLive in H.
  pose proof (AddFinalizer_elem (om_Finalizers (dc_meta cache)) drainFinalizer) as He.
  pose proof (AddFinalizer_changed (om_Finalizers (dc_meta cache)) drainFinalizer) as Hc.
  rewrite bool_decide_false in Hc by done.
  destruct (AddFinalizer _ _) as [fs added]. simpl in He, Hc. subst added.
  unfold Update in H. apply runs_bind in H as (t1 & r & t2 & -> & Hu & H).
  apply (runs_call (OUpdate KDistributedCache _)) in Hu as ->. exists fs, r.
  destruct r as [e|c']; run_step H; by split_and!.
Qed.

End Passes.
