(* ===== verification/Stages.v ===== *)
(** * The stages of a pass on a cooperative API server

    The stages of [Reconcile] executed against the in-memory server of [KubeRef]
    when every write is accepted: what each of them leaves in the store. *)

From S2P Require Import Prelude GoLib Json Api Kube KubeRef Names Ring Cell Workload Status.
From S2P Require Import RingPublish Drain Reconciler.

#[local] Existing Instance refKube.
Local Open Scope Z_scope.
Local Open Scope prog_scope.

(** ** Running programs *)

Lemma run_bind {A B} (p : prog A) (f : A → prog B) c :
  run (p ≫= f) c = let '(c1, a) := run p c in run (f a) c1.
Proof.
  unfold run. rewrite interp_bind. destruct (interp server p c) as [[c1 t1] a].
  by destruct (interp server (f a) c1) as [[c2 t2] b].
Qed.

Lemma run_ebind {A B} (p : prog (goerror + A)) (f : A → prog (goerror + B)) c :
  run (ebind p f) c = match run p c with
                      | (c1, inl e) => (c1, inl e)
                      | (c1, inr a) => run (f a) c1
                      end.
Proof. unfold ebind. rewrite run_bind. by destruct (run p c) as [c1 [e|a]]. Qed.

Lemma run_wrapf {A} ctx (p : prog (goerror + A)) c :
  run (wrapf ctx p) c = match run p c with
                        | (c1, inl e) => (c1, inl (Wrapf ctx e))
                        | (c1, inr a) => (c1, inr a)
                        end.
Proof. unfold wrapf. rewrite run_bind. by destruct (run p c) as [c1 [e|a]]. Qed.

Lemma run_call o c : run (call o) c = server o c.
Proof. unfold run, call. simpl. by destruct (server o c) as [c1 r]. Qed.

Lemma run_CreateOrUpdate k (o : obj k) f c : run (CreateOrUpdate k o f) c = server_cou k o f c.
Proof. apply (run_call (OCreateOrUpdate k o f)). Qed.

Lemma run_Update k (o : obj k) c : run (Update k o) c = server_update k o c.
Proof. apply (run_call (OUpdate k o)). Qed.

Lemma run_Get k key c :
  run (Get k key) c = (c, match store c k !! (nn_Namespace key, nn_Name key) with
                          | Some o => inr o | None => notFound end).
Proof. apply (run_call (OGet k key)). Qed.

Lemma run_bind_Get {B} k key (f : goerror + obj k → prog B) c :
  run (Get k key ≫= f) c = run (f (match store c k !! (nn_Namespace key, nn_Name key) with
                                   | Some o => inr o | None => notFound end)) c.
Proof. by rewrite run_bind, run_Get. Qed.

Lemma run_Now c : run Now c = (c, clock c).
Proof. done. Qed.

(** The pods a list call returns. *)
Definition listing (ns : string) (sel : gmap string string) (c : Cluster) : list Pod :=
  filter (λ p : Pod, om_Namespace (pod_meta p) = ns ∧ sel ⊆ om_Labels (pod_meta p))
    (map_to_list (store c KPod)).*2.

Lemma run_ListPods ns sel c : run (ListPods ns sel) c = (c, inr (listing ns sel c)).
Proof. done. Qed.

Lemma run_ret {A} (a : A) c : run (mret a) c = (c, a).
Proof. done. Qed.

(** ** Frames: what a program cannot have changed *)

Definition tag_kind (g : tag) : option Kind :=
  match g with
  | TUpdate k | TDelete k | TCreateOrUpdate k => Some k
  | TStatusUpdate => Some KDistributedCache
  | _ => None
  end.

(** The clock, the server's temper and every kind outside [l] are as before. *)
Definition keeps (l : list Kind) (c c' : Cluster) : Prop :=
  clock c' = clock c ∧ writes_fail c' = writes_fail c ∧ ∀ k, k ∉ l → store c' k = store c k.

Lemma keeps_refl l c : keeps l c c.
Proof. by split_and!. Qed.

Lemma keeps_trans l c1 c2 c3 : keeps l c1 c2 → keeps l c2 c3 → keeps l c1 c3.
Proof.
  intros (H1 & H2 & H3) (G1 & G2 & G3). split_and!; [congruence..|].
  intros k Hk. by rewrite G3, H3.
Qed.

Lemma store_put_ne {k} (o : obj k) k' c : k' ≠ k → store (put o c) k' = store c k'.
Proof. intros Hne. unfold put. simpl. by destruct (decide (k = k')). Qed.

Lemma store_put {k} (o : obj k) c : store (put o c) k = <[key_of o := o]> (store c k).
Proof.
  unfold put. simpl. destruct (decide (k = k)) as [E|]; [|done].
  by rewrite (Eqdep_dec.UIP_dec (λ a b, decide (a = b)) E eq_refl).
Qed.

Lemma keeps_put {k} (o : obj k) c : keeps [k] c (put o c).
Proof. split_and!; [done..|]. intros k' Hk'. apply store_put_ne. set_solver. Qed.

Lemma keeps_remove k key c : keeps [k] c (remove k key c).
Proof.
  split_and!; [done..|]. intros k' Hk'. simpl. destruct (decide (k = k')); [set_solver|done].
Qed.

Lemma server_keeps o c l :
  (∀ k, tag_kind (op_tag o) = Some k → k ∈ l) → keeps l c (server o c).1.
Proof.
  intros Hl.
  assert (∀ k c', tag_kind (op_tag o) = Some k → keeps [k] c c' → keeps l c c') as Hw.
  { intros k c' Hk (H1 & H2 & H3). split_and!; [done..|]. intros k' Hk'. apply H3.
    apply Hl in Hk. set_solver. }
  destruct o as [k key|ns sel|k o|d|k o|k o f|ty r m|]; simpl; try apply keeps_refl.
  - apply (Hw k); [done|]. unfold server_update.
    repeat case_match; try apply keeps_refl; [apply keeps_remove|apply keeps_put].
  - apply (Hw KDistributedCache); [done|]. case_match; [|apply keeps_refl]. apply keeps_put.
  - apply (Hw k); [done|]. case_match; [|apply keeps_refl]. apply keeps_put.
  - apply (Hw k); [done|]. unfold server_cou.
    repeat case_match; try apply keeps_refl; apply keeps_put.
Qed.

(** The kinds a program with this footprint may write. *)
Definition kinds_of (l : list tag) : list Kind := omap tag_kind l.

Lemma run_keeps {A} l (p : prog A) c : safe (only l) p → keeps (kinds_of l) c (run p c).1.
Proof.
  revert c. induction p as [a|o k IH]; intros c; [intros; apply keeps_refl|].
  intros [Ho Hk]. unfold run. simpl. pose proof (server_keeps o c (kinds_of l)) as Hs.
  destruct (server o c) as [c1 r]. specialize (IH r c1 (Hk r)). unfold run in IH.
  destruct (interp server (k r) c1) as [[c2 t] a]. simpl in *.
  eapply keeps_trans; [|exact IH]. apply Hs. intros k' Hk'. unfold kinds_of.
  apply list_elem_of_omap. exists (op_tag o). split; [|done]. by apply bool_decide_eq_true in Ho.
Qed.

Lemma run_keeps_eq {A} l (p : prog A) c c' a :
  run p c = (c', a) → safe (only l) p → keeps (kinds_of l) c c'.
Proof. intros Hr Hs. pose proof (run_keeps l p c Hs) as H. by rewrite Hr in H. Qed.

(** ** Stages: CreateOrUpdate of one child *)

Lemma run_reportOp op reason msg c : run (reportOp op reason msg) c = (c, inr tt).
Proof. unfold reportOp. by case_match. Qed.

Lemma key_of_map_meta k (f : ObjectMeta → ObjectMeta) (o : obj k) :
  (∀ m, om_Name (f m) = om_Name m ∧ om_Namespace (f m) = om_Namespace m) →
  key_of (map_meta f k o) = key_of o.
Proof.
  intros Hf. destruct k; unfold key_of; simpl; by rewrite (proj1 (Hf _)), (proj2 (Hf _)).
Qed.

Lemma server_cou_ok k (o : obj k) f c o' :
  writes_fail c k = false → f (default o (store c k !! key_of o)) = inr o' → key_of o' = key_of o →
  ∃ c' op o2, server_cou k o f c = (c', inr (op, o2)) ∧
    store c' k = <[key_of o := o2]> (store c k) ∧
    (o2 = o' ∨ o2 = map_meta (created (clock c)) k o').
Proof.
  intros Hw Hf Hkey. unfold server_cou. rewrite Hw.
  destruct (store c k !! key_of o) as [o0|] eqn:E; simpl in Hf; rewrite Hf.
  - case_bool_decide as Heq.
    + subst o'. exists c, "unchanged", o0. rewrite insert_id by done. by split_and!; [..|left].
    + eexists _, _, o'. split; [done|]. rewrite store_put, Hkey. by split; [|left].
  - eexists _, _, _. split; [done|]. rewrite store_put, key_of_map_meta by done.
    rewrite Hkey. by split; [|right].
Qed.

(** A child the cache may own: in a cell, or with no other controller. *)
Definition adoptable (cache : DistributedCache) (m : ObjectMeta) : Prop :=
  isCrossNamespaceChild cache = true ∨
  existsb or_Controller (filter (λ r, or_UID r ≠ om_UID (dc_meta cache)) (om_OwnerReferences m)) = false.

Lemma adoptable_new cache name ns : adoptable cache (newMeta name ns).
Proof. by right. Qed.

Lemma adoptable_created cache now m : adoptable cache m → adoptable cache (created now m).
Proof. done. Qed.

Lemma obj_meta_map_meta k f (o : obj k) : obj_meta k (map_meta f k o) = f (obj_meta k o).
Proof. by destruct k. Qed.

Lemma childMeta_adoptable cache comp m :
  adoptable cache m → ∃ m', childMeta cache comp m = inr m' ∧ adoptable cache m' ∧
    om_Name m' = om_Name m ∧ om_Namespace m' = om_Namespace m.
Proof.
  unfold adoptable, childMeta, setControllerReferenceIfSameNamespace.
  destruct (isCrossNamespaceChild cache); [eauto 6|]. intros [|Ho]; [done|].
  cbn [SetControllerReference refKube]. unfold refSetControllerReference.
  change (om_OwnerReferences (om_set_Labels _ m)) with (om_OwnerReferences m).
  change refQuantity with (@KL_Quantity refKube). rewrite Ho. eexists. split; [done|].
  split_and!; [right|done..]. simpl.
  rewrite filter_app, filter_cons_False, filter_nil, app_nil_r by (simpl; naive_solver).
  by rewrite list_filter_filter_l by done.
Qed.

Lemma childMeta_created cache comp t m :
  childMeta cache comp m = inr m → childMeta cache comp (created t m) = inr (created t m).
Proof.
  intros H. pose proof (setControllerReference_frame _ _ _ H) as (Hl & _). simpl in Hl.
  unfold childMeta in *. rewrite om_set_Labels_same in * by done.
  unfold setControllerReferenceIfSameNamespace in *. destruct (isCrossNamespaceChild cache); [done|].
  cbn [SetControllerReference refKube] in *. unfold refSetControllerReference in *. cbn [created om_OwnerReferences].
  destruct (existsb _ _); [done|]. injection H as Hm. f_equal.
  apply (f_equal om_OwnerReferences) in Hm. unfold om_set_Owners, created in *. simpl in *. by rewrite Hm.
Qed.

(** The children are adoptable. *)
Definition childKinds : list Kind := [KResourceQuota; KNetworkPolicy; KService; KStatefulSet; KConfigMap].

Definition children_ok (cache : DistributedCache) (c : Cluster) : Prop :=
  ∀ k, k ∈ childKinds → ∀ key o, store c k !! key = Some o → adoptable cache (obj_meta k o).

Lemma children_ok_insert cache c c' k key (o : obj k) :
  children_ok cache c → keeps [k] c c' → store c' k = <[key := o]> (store c k) →
  adoptable cache (obj_meta k o) → children_ok cache c'.
Proof.
  intros Hc (_ & _ & Hk) Hs Ho k' Hk' key' o' Ho'. destruct (decide (k' = k)) as [->|Hne].
  - rewrite Hs in Ho'. destruct (decide (key' = key)) as [->|].
    + rewrite lookup_insert_eq in Ho'. by simplify_eq.
    + rewrite lookup_insert_ne in Ho' by done. by eapply Hc.
  - rewrite Hk in Ho' by set_solver. by eapply Hc.
Qed.

(** A program of one kind that has nothing left to do, as long as that kind is
    left alone. *)
Definition settles (p : prog (goerror + unit)) (k : Kind) (c : Cluster) : Prop :=
  ∀ c', store c' k = store c k → writes_fail c' k = false → run p c' = (c', inr tt).

Lemma settles_keeps p k l c c' : settles p k c → keeps l c c' → k ∉ l → settles p k c'.
Proof. intros H (_ & _ & K) Hk c'' Hs. apply H. by rewrite Hs, K. Qed.

Lemma settles_cou k (o : obj k) f ctx (report : string * obj k → prog (goerror + unit)) c x :
  store c k !! key_of o = Some x → f x = inr x → (∀ r c, run (report r) c = (c, inr tt)) →
  settles (ebind (wrapf ctx (CreateOrUpdate k o f)) report) k c.
Proof.
  intros Hl Hf Hrep c' Hs Hw.
  assert (server_cou k o f c' = (c', inr ("unchanged", x))) as Hr.
  { unfold server_cou. by rewrite Hw, Hs, Hl, Hf, bool_decide_true. }
  rewrite run_ebind, run_wrapf, run_CreateOrUpdate, Hr. apply Hrep.
Qed.

(** Making the content again from what was made changes nothing, before and
    after the server has stamped the creation time. *)
Definition stable (cache : DistributedCache) (comp : string) (k : Kind)
    (mk : obj k → ObjectMeta → obj k) : Prop :=
  ∀ x m t, childMeta cache comp (obj_meta k x) = inr m →
    mk (mk x m) m = mk x m ∧
    mk (map_meta (created t) k (mk x m)) (created t m) = map_meta (created t) k (mk x m).

(** One stage of the pass: the child's metadata goes through [childMeta], the
    rest is made by [mk]. *)
Lemma run_child_stage cache comp k (o : obj k) (f : obj k → goerror + obj k)
    (mk : obj k → ObjectMeta → obj k) ctx (report : string * obj k → prog (goerror + unit)) c :
  (∀ x, f x = match childMeta cache comp (obj_meta k x) with inl e => inl e | inr m => inr (mk x m) end) →
  (∀ x m, obj_meta k (mk x m) = m) → (∀ r c, run (report r) c = (c, inr tt)) →
  k ∈ childKinds → children_ok cache c → adoptable cache (obj_meta k o) → writes_fail c k = false →
  (∀ x, store c k !! key_of o = Some x → key_of x = key_of o) → stable cache comp k mk →
  ∃ c' o2 m, run (ebind (wrapf ctx (CreateOrUpdate k o f)) report) c = (c', inr tt) ∧
    keeps [k] c c' ∧ store c' k = <[key_of o := o2]> (store c k) ∧ children_ok cache c' ∧
    key_of o2 = key_of o ∧ f o2 = inr o2 ∧
    let x := default o (store c k !! key_of o) in
    (o2 = mk x m ∨ o2 = map_meta (created (clock c)) k (mk x m)).
Proof.
  intros Hf Hmk Hrep Hk Hc Ho Hw Hkey Hst. set (x := default o (store c k !! key_of o)).
  assert (adoptable cache (obj_meta k x) ∧ key_of x = key_of o) as [Hx Hkx].
  { subst x. destruct (store c k !! key_of o) as [x|] eqn:E; simpl; [|done]. split; [by eapply Hc|eauto]. }
  destruct (childMeta_adoptable cache comp _ Hx) as (m & Hm & Ham & Hn & Hns).
  assert (f x = inr (mk x m)) as Hfx by by rewrite Hf, Hm.
  assert (key_of (mk x m) = key_of o) as Hkm.
  { rewrite <- Hkx. unfold key_of. by rewrite Hmk, Hn, Hns. }
  destruct (server_cou_ok k o f c _ Hw Hfx Hkm) as (c' & op & o2 & Hr & Hs & Ho2).
  assert (keeps [k] c c') as Hkeep.
  { pose proof (server_keeps (OCreateOrUpdate k o f) c [k]) as H. simpl in H. rewrite Hr in H.
    apply H. intros ? [= <-]. set_solver. }
  pose proof (childMeta_idem cache comp _ _ Hm) as Hidem.
  destruct (Hst x m (clock c) Hm) as [Hst1 Hst2].
  exists c', o2, m. split_and!; [|done|done| | | |done].
  - rewrite run_ebind, run_wrapf, run_CreateOrUpdate, Hr. apply Hrep.
  - eapply children_ok_insert; [done..|].
    destruct Ho2 as [->| ->]; rewrite ?obj_meta_map_meta, Hmk; by try apply adoptable_created.
  - destruct Ho2 as [->| ->]; rewrite ?key_of_map_meta by done; done.
  - destruct Ho2 as [->| ->]; rewrite Hf, ?obj_meta_map_meta, Hmk, ?(childMeta_created cache comp _ m Hidem).
    + by rewrite Hidem, Hst1.
    + by rewrite Hst2.
Qed.

(** ** The cluster a pass works on *)

(** The server accepts every write, objects are stored under their own names,
    the cache is there, no other controller owns its children and no pod is
    being deleted. *)
Record ready (cache : DistributedCache) (c : Cluster) : Prop := {
  rd_writes : ∀ k, writes_fail c k = false;
  rd_keys : ∀ k key o, store c k !! key = Some o → key_of o = key;
  rd_children : children_ok cache c;
  rd_cache : store c KDistributedCache !! (dc_Namespace cache, dc_Name cache) = Some cache;
  rd_pods : ∀ key p, store c KPod !! key = Some p → om_DeletionTimestamp (pod_meta p) = None
}.

Lemma ready_at_time cache c t : ready cache c → ready cache (at_time t c).
Proof. by intros []. Qed.

Lemma keys_insert {c c' k key} {o : obj k} :
  (∀ k key o, store c k !! key = Some o → key_of o = key) → keeps [k] c c' →
  store c' k = <[key := o]> (store c k) → key_of o = key →
  ∀ k key o, store c' k !! key = Some o → key_of o = key.
Proof.
  intros Hc (_ & _ & Hk) Hs Ho k' key' o' Ho'. destruct (decide (k' = k)) as [->|Hne].
  - rewrite Hs in Ho'. destruct (decide (key' = key)) as [->|].
    + rewrite lookup_insert_eq in Ho'. by simplify_eq.
    + rewrite lookup_insert_ne in Ho' by done. by apply Hc.
  - rewrite Hk in Ho' by set_solver. by apply Hc.
Qed.

Lemma ready_child cache c c' k key (o : obj k) :
  ready cache c → keeps [k] c c' → k ≠ KDistributedCache → k ≠ KPod →
  store c' k = <[key := o]> (store c k) → key_of o = key → children_ok cache c' → ready cache c'.
Proof.
  intros [Hw Hkeys Hch Hca Hp] Hkeep Hk1 Hk2 Hs Ho Hch'. pose proof Hkeep as (_ & Hwf & Hk).
  split; [intros; by rewrite Hwf|by eapply keys_insert|done| |].
  - by rewrite Hk by set_solver.
  - rewrite Hk by set_solver. done.
Qed.

Section Stages.
Context `{SS : SliceSort}.

(** A child stage that succeeded on a ready cluster. *)
Definition stage_ok {A} (p : prog (goerror + A)) (l : list Kind) (cache : DistributedCache)
    (c : Cluster) (Q : A → Cluster → Prop) : Prop :=
  ∃ c' a, run p c = (c', inr a) ∧ ready cache c' ∧ keeps l c c' ∧ Q a c'.

Lemma keeps_mono l l' c c' : (∀ k, k ∈ l → k ∈ l') → keeps l c c' → keeps l' c c'.
Proof. intros Hl (H1 & H2 & H3). split_and!; [done..|]. intros k Hk. apply H3. auto. Qed.

(** Stages in sequence. *)
Lemma stage_ebind {A B} (p : prog (goerror + A)) (f : A → prog (goerror + B)) l cache c P Q :
  stage_ok p l cache c P →
  (∀ a c', ready cache c' → keeps l c c' → P a c' → stage_ok (f a) l cache c' Q) →
  stage_ok (ebind p f) l cache c Q.
Proof.
  intros (c1 & a & Hr & Hrd & Hk & HP) Hf. destruct (Hf a c1) as (c2 & b & Hr2 & Hrd2 & Hk2 & HQ); [done..|].
  exists c2, b. rewrite run_ebind, Hr. split_and!; [done|done|by eapply keeps_trans|done].
Qed.

Lemma stage_wrapf {A} ctx (p : prog (goerror + A)) l cache c Q :
  stage_ok p l cache c Q → stage_ok (wrapf ctx p) l cache c Q.
Proof. intros (c1 & a & Hr & H). exists c1, a. by rewrite run_wrapf, Hr. Qed.

Lemma stage_mono {A} (p : prog (goerror + A)) l l' cache c (P Q : A → Cluster → Prop) :
  stage_ok p l cache c P → (∀ k, k ∈ l → k ∈ l') → (∀ a c', P a c' → Q a c') →
  stage_ok p l' cache c Q.
Proof.
  intros (c1 & a & Hr & Hrd & Hk & HP) Hl HPQ. exists c1, a.
  split_and!; [done|done|by eapply keeps_mono|by apply HPQ].
Qed.

Lemma stage_ret {A} (a : A) l cache c (Q : A → Cluster → Prop) :
  ready cache c → Q a c → stage_ok (mret (inr a)) l cache c Q.
Proof. intros Hrd HQ. exists c, a. by split_and!; [..|apply keeps_refl|]. Qed.

Lemma stage_run {A} (p q : prog (goerror + A)) l cache c Q :
  run p c = run q c → stage_ok q l cache c Q → stage_ok p l cache c Q.
Proof. unfold stage_ok. by intros ->. Qed.

Lemma stage_child cache comp k (o : obj k) f mk ctx report c :
  (∀ x, f x = match childMeta cache comp (obj_meta k x) with inl e => inl e | inr m => inr (mk x m) end) →
  (∀ x m, obj_meta k (mk x m) = m) → (∀ r c, run (report r) c = (c, inr tt)) →
  k ∈ childKinds → adoptable cache (obj_meta k o) → ready cache c → stable cache comp k mk →
  stage_ok (ebind (wrapf ctx (CreateOrUpdate k o f)) report) [k] cache c
    (λ _ c', settles (ebind (wrapf ctx (CreateOrUpdate k o f)) report) k c' ∧
       ∃ o2 m, store c' k = <[key_of o := o2]> (store c k) ∧
       let x := default o (store c k !! key_of o) in
       (o2 = mk x m ∨ o2 = map_meta (created (clock c)) k (mk x m))).
Proof.
  intros Hf Hmk Hrep Hk Ho Hrd Hst.
  destruct (run_child_stage cache comp k o f mk ctx report c)
    as (c' & o2 & m & Hr & Hkeep & Hs & Hch & Hkey & Hfix & Ho2);
    [done..|apply Hrd|done|apply Hrd|intros; by eapply rd_keys|done|].
  exists c', tt. split_and!; [done| |done| |by exists o2, m]; cycle 1.
  { eapply settles_cou; [rewrite Hs; apply lookup_insert_eq|done|done]. }
  eapply ready_child; [done|done| | |done..]; by intros ->; set_solver.
Qed.

Lemma reconcileService_stage cache c :
  ready cache c → stage_ok (reconcileService cache) [KService] cache c (λ _ c', settles (reconcileService cache) KService c').
Proof.
  intros Hrd. eapply stage_mono.
  - apply (stage_child cache "cache" KService _ _ (λ _ m, mkService m
      (mkServiceSpec ClusterIPNone (podLabels cache) cacheServicePorts false)));
      [done|done|intros [op svc] c'; apply run_reportOp|set_solver|apply adoptable_new|done|done].
  - done.
  - by intros [] c' [H _].
Qed.

Lemma reconcileResourceQuota_stage cache c :
  ready cache c → stage_ok (reconcileResourceQuota cache) [KResourceQuota] cache c (λ _ c', settles (reconcileResourceQuota cache) KResourceQuota c').
Proof.
  intros Hrd. eapply stage_mono.
  - apply (stage_child cache "cell" KResourceQuota _ _ (λ _ m, mkResourceQuota m
      {[ "pods" := resourceQuantity (quotaPods cache); "limits.memory" := quotaMemory cache;
         "requests.memory" := quotaMemory cache ]}));
      [done|done|intros [op q] c'; apply run_reportOp|set_solver|apply adoptable_new|done|done].
  - done.
  - by intros [] c' [H _].
Qed.

Lemma reconcileNetworkPolicy_stage cache c :
  ready cache c → stage_ok (reconcileNetworkPolicy cache) [KNetworkPolicy] cache c (λ _ c', settles (reconcileNetworkPolicy cache) KNetworkPolicy c').
Proof.
  intros Hrd. eapply stage_mono.
  - apply (stage_child cache "cell" KNetworkPolicy _ _ (λ _ m, mkNetworkPolicy m cellNetworkPolicySpec));
      [done|done|intros [op q] c'; apply run_reportOp|set_solver|apply adoptable_new|done|done].
  - done.
  - by intros [] c' [H _].
Qed.

Lemma reconcileCellNamespace_stage cache c :
  ready cache c → stage_ok (reconcileCellNamespace cache) [KNamespace] cache c
    (λ _ c', settles (reconcileCellNamespace cache) KNamespace c').
Proof.
  intros Hrd. unfold reconcileCellNamespace.
  set (o := mkNamespace (newMeta (targetNamespace cache) "")).
  destruct (server_cou_ok KNamespace o (mutateCellNamespace cache) c
    (mkNamespace (om_set_Labels (λ l, <[cellOfLabel := dc_Namespace cache +:+ "." +:+ dc_Name cache]>
       (stampLabels cache "cell" l)) (ns_meta (default o (store c KNamespace !! @key_of KNamespace o))))))
    as (c' & op & o2 & Hr & Hs & Ho2).
  { apply Hrd. } { done. }
  { destruct (store c KNamespace !! @key_of KNamespace o) as [x|] eqn:E; [|done].
    exact (rd_keys _ _ Hrd KNamespace _ x E). }
  assert (keeps [KNamespace] c c') as Hkeep.
  { pose proof (server_keeps (OCreateOrUpdate KNamespace o (mutateCellNamespace cache)) c [KNamespace]) as H.
    cbn [server] in H. rewrite Hr in H. apply H. intros ? [= <-]. set_solver. }
  assert (@key_of KNamespace o2 = @key_of KNamespace o) as Hkey.
  { destruct (store c KNamespace !! @key_of KNamespace o) as [x|] eqn:E.
    - pose proof (rd_keys _ _ Hrd KNamespace _ x E) as Hx. by destruct Ho2 as [->| ->].
    - by destruct Ho2 as [->| ->]. }
  assert (mutateCellNamespace cache o2 = inr o2) as Hfix.
  { set (x := default o _) in Ho2. destruct Ho2 as [->| ->].
    - by apply (mutateCellNamespace_idem cache x).
    - by apply (mutateCellNamespace_idem cache (mkNamespace (created (clock c) (ns_meta x)))). }
  exists c', tt. split_and!; [|eapply ready_child; [done..|]|done|].
  - rewrite run_ebind, run_wrapf, run_CreateOrUpdate, Hr. apply run_reportOp.
  - destruct Hkeep as (_ & _ & Hk). intros k Hin key x Hx. rewrite Hk in Hx by set_solver.
    by eapply rd_children.
  - apply (settles_cou KNamespace o _ _ _ c' o2); [rewrite Hs; apply lookup_insert_eq|done|].
    intros [op' ns] c''. apply run_reportOp.
Qed.

Lemma reconcileCell_stage cache c :
  ready cache c →
  stage_ok (reconcileCell cache) [KNamespace; KResourceQuota; KNetworkPolicy] cache c (λ _ c',
    ∀ c'', (∀ k, k ∈ [KNamespace; KResourceQuota; KNetworkPolicy] → store c'' k = store c' k) →
      (∀ k, writes_fail c'' k = false) → run (reconcileCell cache) c'' = (c'', inr tt)).
Proof.
  intros Hrd. unfold reconcileCell. destruct (isolated cache); cbn [negb]; [|by apply stage_ret].
  destruct (reconcileCellNamespace_stage cache c Hrd) as (c1 & [] & R1 & Hrd1 & K1 & S1).
  destruct (reconcileResourceQuota_stage cache c1 Hrd1) as (c2 & [] & R2 & Hrd2 & K2 & S2).
  destruct (reconcileNetworkPolicy_stage cache c2 Hrd2) as (c3 & [] & R3 & Hrd3 & K3 & S3).
  pose proof (settles_keeps _ _ _ _ _ (settles_keeps _ _ _ _ _ S1 K2 ltac:(set_solver)) K3 ltac:(set_solver)) as S1'.
  pose proof (settles_keeps _ _ _ _ _ S2 K3 ltac:(set_solver)) as S2'.
  exists c3, tt. split_and!; [|done| |].
  - rewrite run_ebind, run_wrapf, R1, run_ebind, run_wrapf, R2, run_ebind, run_wrapf, R3. done.
  - eapply keeps_trans; [by eapply keeps_mono; [|exact K1]; set_solver|].
    eapply keeps_trans; [by eapply keeps_mono; [|exact K2]; set_solver|].
    eapply keeps_mono; [|exact K3]. set_solver.
  - intros c'' Hk Hw. rewrite run_ebind, run_wrapf, S1' by (apply Hk || done; set_solver).
    rewrite run_ebind, run_wrapf, S2' by (apply Hk || done; set_solver).
    rewrite run_ebind, run_wrapf, S3 by (apply Hk || done; set_solver). done.
Qed.

(** ** The ring stage *)

Definition podsOf (cache : DistributedCache) (c : Cluster) : list Pod :=
  listing (targetNamespace cache) (podLabels cache) c.

Definition ringKey (cache : DistributedCache) : okey := (targetNamespace cache, ringConfigMapName cache).

Definition ringData (cache : DistributedCache) (c : Cluster) : gmap string string :=
  match store c KConfigMap !! ringKey cache with Some cm => Data (cm : ConfigMap) | None => ∅ end.

(** The ring published in the cluster. *)
Definition ringOf (cache : DistributedCache) (c : Cluster) : Ring := currentRing (ringData cache c).

Lemma ringOf_stored cache c (cm : ConfigMap) :
  store c KConfigMap !! ringKey cache = Some cm → ringOf cache c = currentRing (Data cm).
Proof. unfold ringOf, ringData. by intros ->. Qed.

Lemma ringOf_none cache c : store c KConfigMap !! ringKey cache = None → ringOf cache c = mkRing 0 [].
Proof.
  unfold ringOf, ringData. change (@lookup okey ConfigMap) with (@lookup okey (obj KConfigMap)).
  by intros ->.
Qed.

Definition decodable (cm : ConfigMap) : Prop := is_Some (Data cm !! ringConfigMapKey ≫= UnmarshalRing).

Definition ascii_names (pods : list Pod) : Prop := Forall (λ p, ascii_string (pod_Name p) = true) pods.

Lemma computeMembers_ascii pods :
  ascii_names pods → Forall (λ s, ascii_string s = true) (computeMembers pods).
Proof.
  intros H. apply Forall_forall. intros m (p & Hp & <- & _)%elem_of_computeMembers.
  by eapply Forall_forall in H.
Qed.

Lemma ringPayload_decodes r :
  int64_ok (Version r) → Forall (λ s, ascii_string s = true) (Members r) →
  UnmarshalRing (ringPayload r) = Some (Version r, Members r).
Proof. apply Unmarshal_Marshal. Qed.

(** The write of a ring leaves exactly that ring to be read. *)
Lemma writeRing_stage cache c r :
  ready cache c → int64_ok (Version r) → Forall (λ s, ascii_string s = true) (Members r) →
  stage_ok (wrapf "CreateOrUpdate ring ConfigMap" (CreateOrUpdate KConfigMap
      (mkConfigMap (newMeta (ringConfigMapName cache) (targetNamespace cache)) ∅)
      (mutateRingConfigMap cache (ringPayload r)))) [KConfigMap] cache c (λ _ c',
    ringOf cache c' = r ∧ ∃ cm, store c' KConfigMap !! ringKey cache = Some cm ∧ decodable cm).
Proof.
  intros Hrd Hv Hms.
  set (new := mkConfigMap (newMeta (ringConfigMapName cache) (targetNamespace cache)) ∅).
  destruct (stage_child cache "ring" KConfigMap new (mutateRingConfigMap cache (ringPayload r))
    (λ cm m, mkConfigMap m (<[ringConfigMapKey := ringPayload r]> (Data (cm : ConfigMap))))
    "CreateOrUpdate ring ConfigMap" (λ _, mret (inr tt)) c)
    as (c' & [] & Hr & Hrd' & Hk & (_ & o2 & m & Hs & Ho2));
    [done|done|done|set_solver|apply adoptable_new|done| |].
  { intros x m t _. cbn. by rewrite insert_insert_eq. }
  rewrite run_ebind in Hr.
  destruct (run (wrapf _ _) c) as [c'' [e|a]] eqn:Er; [done|]. injection Hr as ->.
  exists c', a. split; [done|]. split; [done|]. split; [done|].
  assert (Data (o2 : ConfigMap) !! ringConfigMapKey = Some (ringPayload r)) as Hd.
  { destruct Ho2 as [->| ->]; simpl; by rewrite lookup_insert_eq. }
  assert (store c' KConfigMap !! ringKey cache = Some o2) as Hl by (rewrite Hs; apply lookup_insert_eq).
  rewrite (ringOf_stored _ _ _ Hl). split.
  - unfold currentRing. rewrite Hd, ringPayload_decodes by done. by destruct r.
  - exists o2. split; [done|]. unfold decodable. rewrite Hd. simpl.
    rewrite ringPayload_decodes by done. by eexists.
Qed.

(** What publishing leaves: the desired ring, in a ConfigMap that is not empty and
    that was there before or decodes. *)
Definition ringLeft (cache : DistributedCache) (c : Cluster) (desired ring : Ring) (c' : Cluster) : Prop :=
  ring = desired ∧ ringOf cache c' = ring ∧
  ∃ cm, store c' KConfigMap !! ringKey cache = Some cm ∧ Data (cm : ConfigMap) ≠ ∅ ∧
    (decodable cm ∨ store c KConfigMap !! ringKey cache = Some cm).

Lemma publishRing_stage cache c members :
  ready cache c → Forall (λ s, ascii_string s = true) members →
  stage_ok (publishRing cache members (ringData cache c)) [KConfigMap] cache c
    (ringLeft cache c (desiredRing members (ringOf cache c))).
Proof.
  intros Hrd Hms. unfold publishRing. fold (ringOf cache c).
  set (desired := desiredRing members (ringOf cache c)).
  destruct (Ring_Equal desired (ringOf cache c) && _) eqn:E.
  - apply andb_true_iff in E as [E1%Ring_Equal_eq E2]. apply stage_ret; [done|].
    split_and!; [done|done|]. unfold ringData in E2.
    destruct (store c KConfigMap !! ringKey cache) as [cm|] eqn:Ecm.
    + exists cm. split_and!; [done| |by right]. intros He. by rewrite He, map_size_empty in E2.
    + by rewrite map_size_empty in E2.
  - eapply stage_ebind.
    { apply writeRing_stage; [done|apply desiredRing_ok, currentRing_ok|].
      unfold desired. by rewrite desiredRing_Members. }
    intros [op cm] c' Hrd' _ (Hring & cm' & Hcm & Hdec).
    exists c', desired. rewrite run_ebind, run_reportOp.
    split; [done|]. split; [done|]. split; [apply keeps_refl|]. split_and!; [done..|].
    exists cm'. split_and!; [done| |by left]. intros He. unfold decodable in Hdec.
    rewrite He, lookup_empty in Hdec. by destruct Hdec.
Qed.

Lemma reconcileRing_stage cache c :
  ready cache c → ascii_names (podsOf cache c) →
  stage_ok (reconcileRing cache) [KConfigMap] cache c
    (ringLeft cache c (desiredRing (computeMembers (podsOf cache c)) (ringOf cache c))).
Proof.
  intros Hrd Hascii. unfold reconcileRing.
  eapply stage_run; [|by apply publishRing_stage, computeMembers_ascii].
  rewrite run_ebind, run_wrapf, run_ListPods. fold (podsOf cache c).
  etransitivity; [apply (run_bind_Get KConfigMap)|]. cbn [nn_Namespace nn_Name].
  unfold ringData, ringKey. by destruct (store c KConfigMap !! _).
Qed.

(** ** The StatefulSet stage *)

Definition stsKey (cache : DistributedCache) : okey := (targetNamespace cache, dc_Name cache).

Definition replicasOf (cache : DistributedCache) (c : Cluster) : option Z :=
  store c KStatefulSet !! stsKey cache ≫= λ sts : StatefulSet, sts_Replicas (sts_Spec sts).

Lemma replicasOf_stored cache c (sts : StatefulSet) :
  store c KStatefulSet !! stsKey cache = Some sts → replicasOf cache c = sts_Replicas (sts_Spec sts).
Proof. unfold replicasOf. by intros ->. Qed.

Lemma replicasOf_none cache c :
  store c KStatefulSet !! stsKey cache = None → replicasOf cache c = None.
Proof.
  unfold replicasOf. change (@lookup okey StatefulSet) with (@lookup okey (obj KStatefulSet)).
  by intros ->.
Qed.

(** The StatefulSet as [mutateStatefulSet] makes it around its metadata. *)
Definition makeStatefulSet (cache : DistributedCache) (b : bool) (sts : StatefulSet) (m : ObjectMeta) :
    StatefulSet :=
  let s := sts_Spec sts in
  let fresh := bool_decide (om_CreationTimestamp (sts_meta sts) = None) in
  mkStatefulSet m (mkStatefulSetSpec (heldReplicas cache b (sts_Replicas s))
    (if fresh then dc_Name cache else ServiceName s)
    (if fresh then Some (podLabels cache) else sts_Selector s)
    (if fresh then ParallelPodManagement else PodManagementPolicy s)
    (podLabels cache) (Some (terminationGrace cache)) [cacheContainer cache]).

Lemma makeStatefulSet_stable cache b : stable cache "cache" KStatefulSet (makeStatefulSet cache b).
Proof.
  intros x m t Hm. apply setControllerReference_frame in Hm as (_ & Hc & _).
  cbn [obj_meta om_set_Labels om_CreationTimestamp] in Hc.
  unfold makeStatefulSet, map_meta. cbn [sts_meta sts_Spec sts_Replicas ServiceName sts_Selector
    PodManagementPolicy created om_CreationTimestamp].
  rewrite heldReplicas_idem, Hc. split; [by case_bool_decide|]. by rewrite bool_decide_false.
Qed.

Lemma reconcileStatefulSet_stage cache b c :
  ready cache c →
  stage_ok (reconcileStatefulSet cache b) [KStatefulSet] cache c (λ _ c',
    settles (reconcileStatefulSet cache b) KStatefulSet c' ∧
    is_Some (store c' KStatefulSet !! stsKey cache) ∧
    replicasOf cache c' = heldReplicas cache b (replicasOf cache c)).
Proof.
  intros Hrd. eapply stage_mono.
  - apply (stage_child cache "cache" KStatefulSet (newStatefulSet cache) (mutateStatefulSet cache b)
      (makeStatefulSet cache b));
      [done|done|intros [op sts] c'; apply run_reportOp|set_solver|apply adoptable_new|done|].
    apply makeStatefulSet_stable.
  - done.
  - intros [] c' (Hset & o2 & m & Hs & Ho2). split; [done|].
    change (@key_of KStatefulSet (newStatefulSet cache)) with (stsKey cache) in *.
    assert (store c' KStatefulSet !! stsKey cache = Some o2) as Hl by (rewrite Hs; apply lookup_insert_eq).
    split; [by eexists|]. rewrite (replicasOf_stored _ _ _ Hl). unfold replicasOf.
    destruct (store c KStatefulSet !! stsKey cache); destruct Ho2 as [->| ->]; done.
Qed.

(** ** The drain stage *)

Lemma pod_keys_listed cache c :
  ready cache c → key_of (k := KPod) <$> (map_to_list (store c KPod)).*2 = (map_to_list (store c KPod)).*1.
Proof.
  intros Hrd. rewrite <- list_fmap_compose. apply list_fmap_ext. intros i [key p] Hi. simpl.
  apply (rd_keys _ _ Hrd KPod). apply elem_of_map_to_list. by eapply list_elem_of_lookup_2.
Qed.

Lemma elem_of_listing_keys c ns sel p :
  (∀ k key o, store c k !! key = Some o → key_of o = key) →
  p ∈ listing ns sel c ↔
  store c KPod !! (@key_of KPod p) = Some p ∧ om_Namespace (pod_meta p) = ns ∧ sel ⊆ om_Labels (pod_meta p).
Proof.
  intros Hkeys. unfold listing. rewrite list_elem_of_filter, list_elem_of_fmap. split.
  - intros ([Hn Hs] & [key p'] & -> & Hin%elem_of_map_to_list). split_and!; [|done..]. simpl.
    by rewrite (Hkeys KPod _ _ Hin).
  - intros (Hl & Hn & Hs). split; [done|]. exists (@key_of KPod p, p). split; [done|].
    by apply elem_of_map_to_list.
Qed.

Lemma elem_of_listing cache c ns sel p :
  ready cache c →
  p ∈ listing ns sel c ↔
  store c KPod !! (@key_of KPod p) = Some p ∧ om_Namespace (pod_meta p) = ns ∧ sel ⊆ om_Labels (pod_meta p).
Proof. intros Hrd. apply elem_of_listing_keys, Hrd. Qed.

Lemma NoDup_listing cache c ns sel : ready cache c → NoDup (key_of (k := KPod) <$> listing ns sel c).
Proof.
  intros Hrd. unfold listing. eapply sublist_NoDup; [|apply fmap_sublist, sublist_filter].
  pose proof (NoDup_fst_map_to_list (store c KPod)) as H.
  rewrite <- (pod_keys_listed _ _ Hrd) in H. exact H.
Qed.

(** [drained] as a test. *)
Definition drainedB (grace : Z) (now : Time) (p : Pod) : bool :=
  match pod_Annotations p !! drainAnnotation ≫= ParseInt with
  | Some ts => grace <=? t_Sub now (time_Unix ts)
  | None => false
  end.

Lemma drainedB_spec grace now p : drainedB grace now p = true ↔ drained grace now p.
Proof.
  unfold drainedB, drained. split.
  - destruct (pod_Annotations p !! drainAnnotation) as [s|] eqn:E; [|done]. simpl.
    destruct (ParseInt s) as [ts|] eqn:Es; [|done]. intros H%Z.leb_le. eauto.
  - intros (s & ts & -> & Hs & Hle). simpl. rewrite Hs. by apply Z.leb_le.
Qed.

(** What the drain loop makes of a pod. *)
Definition stampPod (now : Time) (doomed : gset string) (p : Pod) : Pod :=
  if bool_decide (pod_Name p ∈ doomed) then
    match pod_Annotations p !! drainAnnotation ≫= ParseInt with
    | Some _ => p | None => startDrain now p
    end
  else p.

Definition leaves (grace : Z) (now : Time) (doomed : gset string) (p : Pod) : bool :=
  negb (bool_decide (pod_Name p ∈ doomed)) || drainedB grace now p.

Lemma pod_update_stage cache c (p p' : Pod) :
  ready cache c → store c KPod !! (@key_of KPod p) = Some p →
  @key_of KPod p' = @key_of KPod p → om_DeletionTimestamp (pod_meta p') = None →
  stage_ok (Update KPod p') [KPod] cache c (λ (_ : obj KPod) c',
    store c' KPod = <[@key_of KPod p := p']> (store c KPod)).
Proof.
  intros Hrd Hp Hkey Hdel.
  assert (server_update KPod p' c = (@put KPod p' c, inr p')) as Hu.
  { unfold server_update. rewrite (rd_writes _ _ Hrd), Hkey.
    change (@lookup okey Pod) with (@lookup okey (obj KPod)) in Hp. rewrite Hp. simpl. by rewrite Hdel. }
  exists (@put KPod p' c), (p' : obj KPod). rewrite run_Update, Hu.
  pose proof (keeps_put (k := KPod) p' c) as Hk. pose proof (store_put (k := KPod) p' c) as Hs.
  split_and!; [done| |done|by rewrite <- Hkey]. destruct Hrd as [Hw Hkeys Hch Hca Hpods].
  split; [done|by eapply keys_insert| | |].
  - intros k Hin key o Ho. destruct Hk as (_ & _ & Hk). rewrite Hk in Ho by set_solver. by eapply Hch.
  - by rewrite store_put_ne.
  - intros key q. rewrite Hs. destruct (decide (key = @key_of KPod p')) as [->|Hne].
    + rewrite lookup_insert_eq. by intros [= <-].
    + rewrite lookup_insert_ne by done. apply Hpods.
Qed.

(** The pods at these keys have gone through [f], the others are untouched. *)
Definition restamped (f : Pod → Pod) (keys : list okey) (c c' : Cluster) : Prop :=
  ∀ key, store c' KPod !! key =
    (if bool_decide (key ∈ keys) then f else id) <$> store c KPod !! key.

Definition stamped (now : Time) (doomed : gset string) : list okey → Cluster → Cluster → Prop :=
  restamped (stampPod now doomed).

Lemma restamped_nil f c : restamped f [] c c.
Proof. intros key. rewrite bool_decide_false by set_solver. by destruct (store c KPod !! key). Qed.

Lemma restamped_here f keys c c' (p : Pod) :
  @key_of KPod p ∉ keys → store c KPod !! (@key_of KPod p) = Some p → f p = p →
  restamped f keys c c' → restamped f (@key_of KPod p :: keys) c c'.
Proof.
  intros Hin Hp Hst H key. rewrite H. destruct (decide (key = @key_of KPod p)) as [->|Hne].
  - rewrite bool_decide_false, bool_decide_true, Hp by set_solver. simpl. by rewrite Hst.
  - assert (bool_decide (key ∈ @key_of KPod p :: keys) = bool_decide (key ∈ keys)) as ->; [|done].
    apply bool_decide_ext. set_solver.
Qed.

Lemma restamped_update f keys c c1 c' (p : Pod) :
  @key_of KPod p ∉ keys → store c KPod !! (@key_of KPod p) = Some p →
  store c1 KPod = <[@key_of KPod p := f p]> (store c KPod) →
  restamped f keys c1 c' → restamped f (@key_of KPod p :: keys) c c'.
Proof.
  intros Hin Hp Hs H key. rewrite H, Hs. destruct (decide (key = @key_of KPod p)) as [->|Hne].
  - by rewrite bool_decide_false, bool_decide_true, lookup_insert_eq, Hp by set_solver.
  - rewrite lookup_insert_ne by done.
    assert (bool_decide (key ∈ @key_of KPod p :: keys) = bool_decide (key ∈ keys)) as ->; [|done].
    apply bool_decide_ext. set_solver.
Qed.

Lemma drainPods_stage grace now doomed gs pods b cache c :
  ready cache c → NoDup (key_of (k := KPod) <$> pods) →
  (∀ p, p ∈ pods → store c KPod !! (@key_of KPod p) = Some p) →
  stage_ok (drainPods grace now doomed gs pods b) [KPod] cache c (λ b' c',
    stamped now doomed (key_of (k := KPod) <$> pods) c c' ∧
    b' = b && forallb (leaves grace now doomed) pods).
Proof.
  revert b c. induction pods as [|p pods IH]; intros b c Hrd Hnd Hpods.
  { apply stage_ret; [done|]. split; [|by rewrite andb_true_r]. apply restamped_nil. }
  rewrite fmap_cons in *. apply NoDup_cons in Hnd as [Hp Hnd]. cbn [drainPods forallb].
  pose proof (Hpods p ltac:(left)) as Hpl.
  assert (∀ b2, stampPod now doomed p = p → b2 = b && leaves grace now doomed p →
    stage_ok (drainPods grace now doomed gs pods b2) [KPod] cache c (λ b' c',
      stamped now doomed (@key_of KPod p :: (key_of (k := KPod) <$> pods)) c c' ∧
      b' = b && (leaves grace now doomed p && forallb (leaves grace now doomed) pods))) as Hskip.
  { intros b2 Hst ->. eapply stage_mono; [apply IH|done|]; [done|done|set_solver|].
    intros b' c' [H1 ->]. split; [by apply restamped_here|]. by rewrite andb_assoc. }
  assert (stampPod now doomed p = startDrain now p → leaves grace now doomed p = false →
    ∀ (q : obj KPod) c1, ready cache c1 → store c1 KPod = <[@key_of KPod p := startDrain now p]> (store c KPod) →
    stage_ok (drainPods grace now doomed gs pods false) [KPod] cache c1 (λ b' c',
      stamped now doomed (@key_of KPod p :: (key_of (k := KPod) <$> pods)) c c' ∧
      b' = b && (leaves grace now doomed p && forallb (leaves grace now doomed) pods))) as Hgo.
  { intros Hst Hlv _ c1 Hrd1 Hs. eapply stage_mono; [apply IH|done|]; [done|done| |].
    - intros q Hq. rewrite Hs, lookup_insert_ne; [set_solver|].
      intros Heq. apply Hp. rewrite Heq. apply list_elem_of_fmap. eauto.
    - intros b' c' [H1 ->]. split; [|by rewrite Hlv, !andb_false_r].
      eapply restamped_update; [done|done|by rewrite Hst|done]. }
  assert (stage_ok (Update KPod (startDrain now p)) [KPod] cache c (λ (_ : obj KPod) c',
    store c' KPod = <[@key_of KPod p := startDrain now p]> (store c KPod))) as Hupd.
  { apply pod_update_stage; [done|done|done|]. exact (rd_pods _ _ Hrd _ _ Hpl). }
  unfold stampPod, leaves, drainedB in *. case_bool_decide as Hd; cbn [negb orb] in *; [|by apply Hskip; rewrite ?andb_true_r].
  destruct (pod_Annotations p !! drainAnnotation) as [s|] eqn:Ha; simpl in *.
  - destruct (ParseInt s) as [ts|] eqn:Hs.
    + apply Hskip; [done|]. rewrite Z.leb_antisym. destruct (_ <? _); simpl; by rewrite ?andb_false_r, ?andb_true_r.
    + eapply stage_ebind; [by apply stage_wrapf|]. intros q c1 Hrd1 _ Hs1. by apply Hgo.
  - eapply stage_ebind; [by apply stage_wrapf|]. intros q c1 Hrd1 _ Hs1.
    eapply stage_run; [|by apply (Hgo eq_refl eq_refl q c1)]. cbn beta. unfold Eventf. etransitivity; [apply (run_bind (call _))|done].
Qed.

(** The names a pass would shrink away, and whether all of those pods have been
    drained. *)
Definition doomedOf (cache : DistributedCache) (c : Cluster) : gset string :=
  doomedNames (dc_Name cache) (specReplicas cache) (default 0 (replicasOf cache c)).

Definition allDrained (cache : DistributedCache) (c : Cluster) : bool :=
  forallb (leaves (graceOf cache) (clock c) (doomedOf cache c)) (podsOf cache c).

Definition podKeys (cache : DistributedCache) (c : Cluster) : list okey :=
  key_of (k := KPod) <$> podsOf cache c.

Lemma doomedNames_empty name d n : n <= d → doomedNames name d n = ∅.
Proof. intros H. unfold doomedNames. by rewrite seqZ_nil by lia. Qed.

Lemma stamped_none now keys c : stamped now ∅ keys c c.
Proof.
  intros key. destruct (store c KPod !! key) as [p|]; [|done]. simpl. f_equal.
  case_bool_decide; [|done]. unfold stampPod. by rewrite bool_decide_false by set_solver.
Qed.

Lemma leaves_none grace now pods : forallb (leaves grace now ∅) pods = true.
Proof. apply forallb_forall. intros p _. unfold leaves. by rewrite bool_decide_false by set_solver. Qed.

Lemma drainScaleDown_stage cache c :
  ready cache c → 0 <= specReplicas cache →
  stage_ok (drainScaleDown cache) [KPod] cache c (λ b c',
    stamped (clock c) (doomedOf cache c) (podKeys cache c) c c' ∧ b = allDrained cache c).
Proof.
  intros Hrd Hspec.
  assert (default 0 (replicasOf cache c) <= specReplicas cache →
    stage_ok (mret (inr true)) [KPod] cache c (λ b c',
      stamped (clock c) (doomedOf cache c) (podKeys cache c) c c' ∧ b = allDrained cache c)) as Hno.
  { intros Hle. apply stage_ret; [done|]. unfold allDrained, doomedOf.
    rewrite doomedNames_empty, leaves_none by done. split; [apply stamped_none|done]. }
  unfold drainScaleDown. destruct (store c KStatefulSet !! stsKey cache) as [sts|] eqn:Es.
  - eapply stage_run.
    { etransitivity; [apply (run_bind_Get KStatefulSet)|]. cbn [nn_Namespace nn_Name].
      fold (stsKey cache). rewrite Es. done. }
    cbv beta iota zeta. rewrite <- (replicasOf_stored _ _ _ Es).
    destruct (_ <=? _) eqn:Hle; [apply Hno; lia|].
    eapply stage_run.
    { rewrite run_ebind, run_wrapf, run_ListPods. cbv beta iota.
      etransitivity; [apply (run_bind Now)|]. rewrite run_Now. done. }
    apply (drainPods_stage _ _ _ _ (podsOf cache c) true); [done|by eapply NoDup_listing|].
    intros p Hp. eapply elem_of_listing in Hp; [|done]. apply Hp.
  - eapply stage_run; [|apply Hno; by rewrite replicasOf_none].
    etransitivity; [apply (run_bind_Get KStatefulSet)|]. cbn [nn_Namespace nn_Name].
    fold (stsKey cache). rewrite Es. done.
Qed.

End Stages.
