(* ===== verification/Footprint.v ===== *)
(** * What a pass may touch

    The objects a cache owns in the API server, and that [Reconcile] writes no
    others, for every API server that answers a read with the object it was asked
    for and a list with pods that match the selector. On the in-memory server this
    becomes non-interference: a pass over one cache leaves everything another cache
    owns as it is. *)

From S2P Require Import Prelude GoLib Json Api Kube KubeRef Names Ring Cell Workload Status.
From S2P Require Import RingPublish Drain Reconciler Stages.

Local Open Scope Z_scope.
Local Open Scope prog_scope.

Section Footprint.
Context `{KL : KubeLib} `{SS : SliceSort}.

(** ** Ownership *)

Definition metaKey (m : ObjectMeta) : okey := (om_Namespace m, om_Name m).

(** The object of kind [k] with this metadata is the cache itself, one of its
    children, its cell, or one of its pods. *)
Definition owned (cache : DistributedCache) (k : Kind) (m : ObjectMeta) : Prop :=
  match k with
  | KDistributedCache => metaKey m = (dc_Namespace cache, dc_Name cache)
  | KPod => om_Namespace m = targetNamespace cache ∧ podLabels cache ⊆ om_Labels m
  | KNamespace => isolated cache = true ∧ metaKey m = ("", targetNamespace cache)
  | KResourceQuota => isolated cache = true ∧ metaKey m = (targetNamespace cache, "cell-quota")
  | KNetworkPolicy => isolated cache = true ∧ metaKey m = (targetNamespace cache, "cell-isolation")
  | KService | KStatefulSet => metaKey m = (targetNamespace cache, dc_Name cache)
  | KConfigMap => metaKey m = (targetNamespace cache, ringConfigMapName cache)
  end.

(** Kind and metadata of what a call writes. *)
Definition written (o : Op) : option (Kind * ObjectMeta) :=
  match o with
  | OUpdate k x | ODelete k x | OCreateOrUpdate k x _ => Some (k, obj_meta k x)
  | OStatusUpdate d => Some (KDistributedCache, dc_meta d)
  | OGet _ _ | OListPods _ _ | OEvent _ _ _ | ONow => None
  end.

(** Two caches own nothing in common when neither they nor the namespace and name of
    their children coincide. *)
Lemma owned_disjoint a b k m :
  (dc_Namespace a, dc_Name a) ≠ (dc_Namespace b, dc_Name b) →
  (targetNamespace a, dc_Name a) ≠ (targetNamespace b, dc_Name b) →
  owned a k m → owned b k m → False.
Proof.
  intros H1 H2. unfold owned, ringConfigMapName.
  assert (isolated a = true → isolated b = true → targetNamespace a ≠ targetNamespace b) as Hcell.
  { unfold targetNamespace. intros Ha Hb. rewrite Ha, Hb. intros Heq. apply H2.
    apply (inj (String.app cellNamespacePrefix)) in Heq. unfold targetNamespace. by rewrite Ha, Hb, Heq. }
  destruct k; try congruence;
    try (intros [Ha Hka] [Hb Hkb]; apply (Hcell Ha Hb); congruence).
  - intros [Hna Hla] [Hnb Hlb]. apply H2. f_equal; [congruence|].
    assert (∀ x, podLabels x ⊆ om_Labels m → om_Labels m !! labelInstance = Some (dc_Name x)) as Hi.
    { intros x Hx. eapply lookup_weaken; [|exact Hx]. unfold podLabels.
      rewrite lookup_insert_ne by done. apply lookup_singleton_eq. }
    apply Hi in Hla, Hlb. congruence.
  - intros Ha Hb. rewrite Ha in Hb. injection Hb as Hns Hn. apply H2. f_equal; [done|].
    by apply string_app_inj_r in Hn.
Qed.

(** ** Programs run against honest answers *)

(** [hsafe H P p]: as long as the answers satisfy [H], every call satisfies [P]. *)
Fixpoint hsafe {A} (H : ∀ o, Resp o → Prop) (P : Op → Prop) (p : prog A) : Prop :=
  match p with
  | Ret _ => True
  | Vis o k => P o ∧ ∀ r, H o r → hsafe H P (k r)
  end.

Context (H : ∀ o, Resp o → Prop) (P : Op → Prop).

Lemma hsafe_bind {A B} (p : prog A) (f : A → prog B) :
  hsafe H P p → (∀ a, hsafe H P (f a)) → hsafe H P (p ≫= f).
Proof.
  unfold mbind, prog_mbind. induction p as [a|o k IH]; simpl; [by eauto|].
  intros [Ho Hk] Hf. split; [done|]. intros r Hr. by apply IH; [apply Hk|].
Qed.

Lemma hsafe_ebind {A B} (p : prog (goerror + A)) (f : A → prog (goerror + B)) :
  hsafe H P p → (∀ a, hsafe H P (f a)) → hsafe H P (ebind p f).
Proof. intros Hp Hf. apply hsafe_bind; [done|]. by intros [e|a]; [|apply Hf]. Qed.

Lemma hsafe_wrapf {A} ctx (p : prog (goerror + A)) : hsafe H P p → hsafe H P (wrapf ctx p).
Proof. intros Hp. by apply hsafe_bind. Qed.

Lemma hsafe_call o : P o → hsafe H P (call o).
Proof. by split. Qed.

(** What comes after a call may rely on its answer. *)
Lemma hsafe_read {B} o (f : Resp o → prog B) :
  P o → (∀ r, H o r → hsafe H P (f r)) → hsafe H P (call o ≫= f).
Proof. by split. Qed.

Lemma hsafe_runs {A} (p : prog A) t a :
  hsafe H P p → runs p t a → Forall (λ e : event, H (projT1 e) (projT2 e)) t →
  Forall (λ e : event, P (projT1 e)) t.
Proof.
  revert t. induction p as [b|o k IH]; intros t; simpl.
  - by intros _ [-> _].
  - intros [Ho Hk] (r & t' & -> & Hr) [Hh Ht]%Forall_cons. constructor; [done|]. eauto.
Qed.

End Footprint.

(** Prove [hsafe] of straight-line programs. *)
Ltac hsafe_step :=
  lazymatch goal with
  | |- hsafe _ _ (ebind _ _) => apply hsafe_ebind; [|intros ?]
  | |- hsafe _ _ (wrapf _ _) => apply hsafe_wrapf
  | |- hsafe _ _ (_ ≫= _) => apply hsafe_bind; [|intros ?]
  | |- hsafe _ _ (call _) => apply hsafe_call
  | |- hsafe _ _ (mret _) => exact I
  | |- hsafe _ _ (Ret _) => exact I
  | |- hsafe _ _ (if ?b then _ else _) => destruct b eqn:?
  | |- hsafe _ _ (match ?x with _ => _ end) => destruct x eqn:?
  end.

(** ** The footprint of Reconcile *)

Section Confined.
Context `{KL : KubeLib} `{SS : SliceSort}.

(** What else is known of the pods a list returns; annotating keeps it. *)
Variable known : ObjectMeta → Prop.
Hypothesis known_annotate : ∀ f m, known m → known (om_set_Annotations f m).

Definition honest (o : Op) : Resp o → Prop :=
  match o return Resp o → Prop with
  | OGet k key => λ r, ∀ x, r = inr x → metaKey (obj_meta k x) = (nn_Namespace key, nn_Name key)
  | OListPods ns sel => λ r, ∀ pods, r = inr pods → ∀ p, p ∈ pods →
      om_Namespace (pod_meta p) = ns ∧ sel ⊆ om_Labels (pod_meta p) ∧ known (pod_meta p)
  | _ => λ _, True
  end.

(** The call writes, if anything, an object of the cache, and under its key. *)
Definition confined (cache : DistributedCache) (o : Op) : Prop :=
  (∀ k m, written o = Some (k, m) → owned cache k m ∧ (k = KPod → known m)) ∧
  match o with
  | OCreateOrUpdate k _ f =>
      k ≠ KPod ∧ ∀ x x', f x = inr x' → metaKey (obj_meta k x') = metaKey (obj_meta k x)
  | ODelete k _ => k ≠ KPod
  | _ => True
  end.

Abbreviation ok cache := (hsafe honest (confined cache)).

Lemma confined_quiet cache o : written o = None → confined cache o.
Proof. intros Ho. split; [congruence|]. by destruct o. Qed.

Lemma confined_write cache o k m :
  written o = Some (k, m) → owned cache k m → k ≠ KPod → (∀ k x f, o ≠ OCreateOrUpdate k x f) →
  confined cache o.
Proof. intros Ho Hm Hk Hn. split; [intros k' m'; rewrite Ho; naive_solver|]. destruct o; naive_solver. Qed.

Lemma confined_cou cache k (x : obj k) f :
  owned cache k (obj_meta k x) → k ≠ KPod →
  (∀ x x', f x = inr x' → metaKey (obj_meta k x') = metaKey (obj_meta k x)) →
  confined cache (OCreateOrUpdate k x f).
Proof. intros Hm Hk Hf. split; [|done]. by intros k' m' [= <- <-]. Qed.

Lemma childMeta_key cache comp m m' : childMeta cache comp m = inr m' → metaKey m' = metaKey m.
Proof. intros (_ & _ & Hn & Hns & _)%setControllerReference_frame. unfold metaKey. by rewrite Hn, Hns. Qed.

(** A mutate function that makes the metadata with [childMeta] stays in place. *)
Lemma mutate_key {A} cache comp (meta : A → ObjectMeta) (mk : A → ObjectMeta → A) x x' :
  (∀ x m, meta (mk x m) = m) →
  match childMeta cache comp (meta x) with inl e => inl e | inr m => inr (mk x m) end = inr x' →
  metaKey (meta x') = metaKey (meta x).
Proof.
  intros Hmk. destruct (childMeta cache comp (meta x)) as [e|m] eqn:E; [done|]. intros [= <-].
  rewrite Hmk. by eapply childMeta_key.
Qed.

Lemma ok_event cache reason msg : ok cache (Eventf reason msg).
Proof. apply hsafe_call. by apply confined_quiet. Qed.

Lemma ok_report cache op reason msg : ok cache (reportOp op reason msg).
Proof. unfold reportOp. repeat hsafe_step. apply ok_event. Qed.

Lemma ok_child cache k (x : obj k) f ctx (report : string * obj k → prog (goerror + unit)) :
  owned cache k (obj_meta k x) → k ≠ KPod →
  (∀ x x', f x = inr x' → metaKey (obj_meta k x') = metaKey (obj_meta k x)) →
  (∀ r, ok cache (report r)) →
  ok cache (ebind (wrapf ctx (CreateOrUpdate k x f)) report).
Proof.
  intros Hm Hk Hf Hr. apply hsafe_ebind; [|done]. apply hsafe_wrapf, hsafe_call. by apply confined_cou.
Qed.

Lemma ok_cell cache : ok cache (reconcileCell cache).
Proof.
  unfold reconcileCell. destruct (isolated cache) eqn:Hi; [|done]. cbn [negb].
  repeat hsafe_step.
  - apply ok_child; [done|done| |by intros [op ns]; apply ok_report].
    unfold mutateCellNamespace. by intros x x' [= <-].
  - apply ok_child; [done|done| |by intros [op q]; apply ok_report].
    intros x x'. by apply (mutate_key cache "cell" rq_meta (λ _ m, mkResourceQuota m _)).
  - apply ok_child; [done|done| |by intros [op q]; apply ok_report].
    intros x x'. by apply (mutate_key cache "cell" np_meta (λ _ m, mkNetworkPolicy m _)).
Qed.

Lemma ok_service cache : ok cache (reconcileService cache).
Proof.
  apply ok_child; [done|done| |by intros [op q]; apply ok_report].
  intros x x'. by apply (mutate_key cache "cache" svc_meta (λ _ m, mkService m _)).
Qed.

Lemma ok_statefulset cache b : ok cache (reconcileStatefulSet cache b).
Proof.
  apply ok_child; [done|done| |by intros [op q]; apply ok_report].
  intros x x' E%mutateStatefulSet_meta. by eapply childMeta_key.
Qed.

Lemma ok_ring cache : ok cache (reconcileRing cache).
Proof.
  assert (∀ ms data, ok cache (publishRing cache ms data)) as Hpub.
  { intros ms data. unfold publishRing. destruct (_ && _); [done|].
    apply hsafe_ebind; [|intros [op cm]; repeat hsafe_step; apply ok_report].
    apply hsafe_wrapf, hsafe_call, confined_cou; [done|done|].
    intros x x'. by apply (mutate_key cache "ring" cm_meta (λ cm m, mkConfigMap m
      (<[ringConfigMapKey := _]> (Data cm)))). }
  unfold reconcileRing, ListPods, Get. repeat (hsafe_step || apply Hpub); by apply confined_quiet.
Qed.

(** ** Pods *)

Definition ownPod (cache : DistributedCache) (p : Pod) : Prop :=
  owned cache KPod (pod_meta p) ∧ known (pod_meta p).

Lemma ok_annotate cache now p : ownPod cache p → ok cache (Update KPod (startDrain now p)).
Proof.
  intros [Ho Hk]. apply hsafe_call. split; [|done]. intros k m [= <- <-].
  split; [exact Ho|]. intros _. by apply known_annotate.
Qed.

Lemma ok_drainPods cache grace now doomed gs pods b :
  (∀ p, p ∈ pods → ownPod cache p) → ok cache (drainPods grace now doomed gs pods b).
Proof.
  revert b. induction pods as [|p pods IH]; intros b Hp; [done|]; cbn [drainPods drainAll].
  assert (∀ b, ok cache (drainPods grace now doomed gs pods b)) as IH' by (intros; apply IH; set_solver).
  assert (ownPod cache p) as Ho by (apply Hp; left).
  repeat (hsafe_step || apply IH' || (by apply ok_annotate) || apply ok_event).
Qed.

Lemma ok_drainAll cache grace now pods b :
  (∀ p, p ∈ pods → ownPod cache p) → ok cache (drainAll grace now pods b).
Proof.
  revert b. induction pods as [|p pods IH]; intros b Hp; [done|]; cbn [drainPods drainAll].
  assert (∀ b, ok cache (drainAll grace now pods b)) as IH' by (intros; apply IH; set_solver).
  assert (ownPod cache p) as Ho by (apply Hp; left).
  repeat (hsafe_step || apply IH' || (by apply ok_annotate) || apply ok_event).
Qed.

(** The pods of the cache's own list. *)
Lemma honest_list cache r :
  honest (OListPods (targetNamespace cache) (podLabels cache)) r →
  ∀ pods, r = inr pods → ∀ p, p ∈ pods → ownPod cache p.
Proof. intros Hr pods E p Hp. by destruct (Hr pods E p Hp) as (H1 & H2 & H3). Qed.

Lemma ok_list {B} cache ctx (f : list Pod → prog (goerror + B)) :
  (∀ pods, (∀ p, p ∈ pods → ownPod cache p) → ok cache (f pods)) →
  ok cache (ebind (wrapf ctx (ListPods (targetNamespace cache) (podLabels cache))) f).
Proof.
  intros Hf. split; [by apply confined_quiet|]. intros [e|pods] Hr; [done|]. apply Hf.
  by eapply honest_list.
Qed.

Lemma ok_drainScaleDown cache : ok cache (drainScaleDown cache).
Proof.
  unfold drainScaleDown. apply hsafe_read; [by apply confined_quiet|]. intros [e|sts] _.
  { by destruct (IsNotFound e). }
  destruct (_ <=? _); [done|]. apply ok_list. intros pods Hp.
  apply hsafe_bind; [by apply hsafe_call, confined_quiet|]. intros now. by apply ok_drainPods.
Qed.

(** ** The passes *)

Lemma ok_StatusUpdate cache d : metaKey (dc_meta d) = (dc_Namespace cache, dc_Name cache) → ok cache (StatusUpdate d).
Proof. intros Hd. apply hsafe_call. by eapply (confined_write _ _ KDistributedCache (dc_meta d)). Qed.

Lemma ok_Update cache d :
  metaKey (dc_meta d) = (dc_Namespace cache, dc_Name cache) → ok cache (Update KDistributedCache d).
Proof. intros Hd. apply hsafe_call. by eapply (confined_write _ _ KDistributedCache (dc_meta d)). Qed.

Lemma ok_fail cache reason ctx e : ok cache (failDegraded cache reason ctx e).
Proof. unfold failDegraded. repeat hsafe_step. by apply ok_StatusUpdate. Qed.

Lemma ok_live cache : ok cache (reconcileLive cache).
Proof.
  unfold reconcileLive. destruct (AddFinalizer _ _) as [fs []].
  { apply hsafe_bind; [by apply ok_Update|]. by intros [e|c]. }
  set (cache' := set_dc_Finalizers fs cache).
  change (ok cache' (cell ← reconcileCell cache';
    match cell with
    | inl err => failDegraded cache' ReasonCellFailed "reconcile cell" err
    | inr _ => reconcileChildren cache'
    end)).
  unfold reconcileChildren, finishPass.
  repeat first
    [ solve [apply ok_cell | apply ok_fail | apply ok_service | apply ok_drainScaleDown
        | apply ok_statefulset | apply ok_ring]
    | (by apply ok_StatusUpdate) | hsafe_step ].
Qed.

Lemma ok_deleteCell cache : isCrossNamespaceChild cache = true → ok cache (deleteCellNamespace cache).
Proof.
  intros Hx. unfold deleteCellNamespace. apply hsafe_read; [by apply confined_quiet|].
  intros [e|ns] Hns; [by destruct (IsNotFound e)|].
  specialize (Hns ns eq_refl). case_bool_decide; [|done].
  apply hsafe_bind.
  - apply hsafe_call. eapply (confined_write _ _ KNamespace (ns_meta ns)); [done| |done|done].
    split; [|exact Hns]. unfold isCrossNamespaceChild, targetNamespace in Hx.
    destruct (isolated cache); [done|]. by rewrite bool_decide_true in Hx.
  - intros [e|[]]; repeat hsafe_step. apply ok_event.
Qed.

Lemma ok_deletion cache : ok cache (reconcileDeletion cache).
Proof.
  unfold reconcileDeletion. destruct (negb _); [done|].
  apply hsafe_read; [by apply confined_quiet|]. intros [e|pods] Hr; [done|].
  pose proof (honest_list cache _ Hr pods eq_refl) as Hp.
  apply hsafe_bind; [by apply hsafe_call, confined_quiet|]. intros now.
  assert (ok cache (releaseCache cache)) as Hrel.
  { unfold releaseCache. apply hsafe_bind; [by apply ok_Update|]. intros [e|c]; repeat hsafe_step. apply ok_event. }
  repeat first [ (by apply ok_drainAll) | solve [apply ok_ring] | exact Hrel | (by apply ok_deleteCell) | hsafe_step ].
Qed.

(** The first call reads the cache; every later one is confined to it. *)
Lemma Reconcile_confined req t a :
  runs (Reconcile req) t a → Forall (λ e : event, honest (projT1 e) (projT2 e)) t →
  ∀ e k m, e ∈ t → written (projT1 e) = Some (k, m) →
  ∃ (cache : DistributedCache) rest, t = ev (OGet KDistributedCache req) (inr cache) :: rest ∧
    metaKey (dc_meta cache) = (nn_Namespace req, nn_Name req) ∧ owned cache k m.
Proof.
  intros (r & t' & -> & Hr) [Hh Ht]%Forall_cons e k m He Hw.
  assert (e ∈ t') as Hin.
  { apply elem_of_cons in He as [->|He]; [done|exact He]. }
  destruct r as [err|cache].
  { cbn in Hr. destruct (IsNotFound err); destruct Hr as [-> _]; by apply elem_of_nil in Hin. }
  exists cache, t'. split; [done|]. split; [by apply Hh|].
  assert (Forall (λ e : event, confined cache (projT1 e)) t') as Hc.
  { eapply hsafe_runs; [|exact Hr|exact Ht]. unfold prog_mbind, prog_bind.
    destruct (negb _); [apply ok_deletion|apply ok_live]. }
  eapply Forall_forall in Hc; [|exact Hin]. by apply Hc.
Qed.

End Confined.

(** ** Non-interference on the in-memory server *)

Section Cluster.
Context `{SS : SliceSort}.

#[local] Existing Instance refKube.

(** Objects are stored under their own names. *)
Definition keyed (c : Cluster) : Prop := ∀ k key o, store c k !! key = Some o → key_of o = key.

(** Running a program whose calls keep [I] when their answers are as expected. *)
Lemma run_hsafe {A} (H : ∀ o, Resp o → Prop) P (I : Cluster → Prop) (p : prog A) c :
  (∀ o c, I c → P o → I (server o c).1 ∧ H o (server o c).2) →
  hsafe H P p → I c → I (run p c).1.
Proof.
  intros Hstep. revert c. induction p as [a|o k IH]; intros c; [done|]. intros [Ho Hk] HI.
  destruct (Hstep o c HI Ho) as [HI' Hr]. unfold run. simpl. destruct (server o c) as [c1 r]. simpl in *.
  specialize (IH r c1 (Hk r Hr) HI'). unfold run in IH.
  by destruct (interp server (k r) c1) as [[c2 t] a].
Qed.

(** Two objects that only differ in what ownership does not look at. *)
Definition sameOwner (k : Kind) (m m' : ObjectMeta) : Prop :=
  metaKey m' = metaKey m ∧ (k = KPod → om_Labels m' = om_Labels m).

Lemma owned_same cache k m m' : sameOwner k m m' → owned cache k m → owned cache k m'.
Proof.
  intros [Hk Hl]. unfold owned. destruct k; rewrite ?Hk; try done.
  rewrite (Hl eq_refl). injection Hk as -> _. done.
Qed.

(** A call on the server: nothing, or a write or removal at one key. *)
Inductive effect (k : Kind) (m : ObjectMeta) (c : Cluster) : Cluster → Prop :=
  | effect_none : effect k m c c
  | effect_put (o : obj k) : sameOwner k m (obj_meta k o) → effect k m c (put o c)
  | effect_remove : effect k m c (remove k (metaKey m) c).

Lemma effect_lookup k m c c' k' key o :
  effect k m c c' → store c' k' !! key = Some o →
  store c k' !! key = Some o ∨ (k' = k ∧ key = metaKey m ∧ sameOwner k' m (obj_meta k' o)).
Proof.
  intros [|x Hx|]; [by left| |].
  - destruct (decide (k' = k)) as [->|Hk]; [|rewrite store_put_ne by done; by left].
    rewrite store_put. intros [[<- <-]|[_ Ho]]%lookup_insert_Some; [right|by left].
    split_and!; [done|apply Hx|done].
  - simpl. destruct (decide (k = k')) as [->|Hk]; [|by left]. intros [_ Ho]%lookup_delete_Some. by left.
Qed.

Lemma effect_elsewhere k m c c' k' key o :
  effect k m c c' → (k', key) ≠ (k, metaKey m) → store c k' !! key = Some o → store c' k' !! key = Some o.
Proof.
  intros [|x Hx|] Hne; [done| |].
  - destruct (decide (k' = k)) as [->|Hk]; [|by rewrite store_put_ne].
    rewrite store_put, lookup_insert_ne; [done|]. intros Hkey. apply Hne. rewrite <- Hkey. f_equal. apply Hx.
  - simpl. destruct (decide (k = k')) as [->|Hk]; [|done]. rewrite lookup_delete_ne; [done|]. congruence.
Qed.

Lemma effect_keyed k m c c' : effect k m c c' → keyed c → keyed c'.
Proof.
  intros He Hc k' key o Ho. destruct (effect_lookup _ _ _ _ _ _ _ He Ho) as [H|(-> & -> & Hs)]; [by apply Hc|].
  apply Hs.
Qed.

Lemma server_effect known cache o c :
  keyed c → confined known cache o →
  match written o with
  | Some (k, m) => effect k m c (server o c).1
  | None => (server o c).1 = c
  end.
Proof.
  intros Hc [_ Hf]. destruct o as [k key|ns sel|k o|d|k o|k o f|ty r m|]; simpl; try done.
  - unfold server_update. repeat case_match; try apply effect_none; [apply effect_remove|by apply effect_put].
  - case_match eqn:E; [|apply effect_none]. apply effect_put. split; [|done].
    exact (Hc KDistributedCache _ _ E).
  - case_match eqn:E; [|apply effect_none]. apply effect_put. split; [|done].
    rewrite obj_meta_map_meta. by apply Hc.
  - destruct Hf as [Hk Hf]. unfold server_cou.
    repeat case_match; cbn [fst]; try apply effect_none; apply effect_put; (split; [|done]).
    + etransitivity; [by eapply Hf|]. by apply Hc.
    + rewrite obj_meta_map_meta. by eapply Hf.
Qed.

(** *** The invariant of a pass over [a], as seen by [b] *)

Variables (a b : DistributedCache) (c0 : Cluster).
Hypothesis Hkeyed : keyed c0.
Hypothesis Hcaches : (dc_Namespace a, dc_Name a) ≠ (dc_Namespace b, dc_Name b).
Hypothesis Hchildren : (targetNamespace a, dc_Name a) ≠ (targetNamespace b, dc_Name b).

Definition wasThere (m : ObjectMeta) : Prop :=
  ∃ p0, store c0 KPod !! metaKey m = Some p0 ∧ om_Labels (pod_meta p0) = om_Labels m.

Definition undisturbed (c : Cluster) : Prop :=
  keyed c ∧ (∀ key p, store c KPod !! key = Some p → wasThere (pod_meta p)) ∧
  ∀ k key o, owned b k (obj_meta k o) → store c k !! key = Some o ↔ store c0 k !! key = Some o.

Lemma undisturbed_start : undisturbed c0.
Proof.
  split_and!; [done| |done]. intros key p Hp. exists p. split; [|done].
  rewrite <- (Hkeyed KPod key p Hp) in Hp. exact Hp.
Qed.

(** The object at a key [a] writes is not one of [b]'s, before and after. *)
Lemma not_theirs k m key o :
  owned a k m → (k = KPod → wasThere m) → key = metaKey m → owned b k (obj_meta k o) →
  sameOwner k m (obj_meta k o) ∨ store c0 k !! key = Some o → False.
Proof.
  intros Ha Hk -> Hb Hor. apply (owned_disjoint a b k (obj_meta k o)); [done|done| |done].
  apply (owned_same a k m); [|done]. destruct Hor as [Hs|Ho]; [done|].
  split; [exact (Hkeyed k _ o Ho)|]. intros ->. destruct (Hk eq_refl) as (p0 & Hp0 & Hl).
  pose proof (eq_trans (eq_sym Ho) Hp0) as E. injection E as ->. exact Hl.
Qed.

Lemma undisturbed_effect k m c c' :
  undisturbed c → owned a k m → (k = KPod → wasThere m) → effect k m c c' → undisturbed c'.
Proof.
  intros (Hc & Hp & Hb) Ha Hk He. split_and!; [by eapply effect_keyed| |].
  - intros key p Hl. destruct (effect_lookup _ _ _ _ KPod key p He Hl) as [H|(<- & -> & Hs)]; [by eapply Hp|].
    destruct (Hk eq_refl) as (p0 & Hp0 & Hl0). destruct Hs as [Hkey Hlab]. exists p0. cbn [obj_meta] in *.
    rewrite Hkey, (Hlab eq_refl). done.
  - intros k' key o Ho. rewrite <- Hb by done. split; intros Hl.
    + destruct (effect_lookup _ _ _ _ _ _ _ He Hl) as [H|(-> & Hkey & Hs)]; [done|].
      exfalso. eapply not_theirs; [exact Ha|exact Hk|exact Hkey|exact Ho|by left].
    + eapply effect_elsewhere; [exact He| |exact Hl]. intros [= -> Hkey].
      eapply not_theirs; [exact Ha|exact Hk|exact Hkey|exact Ho|right]. by apply Hb.
Qed.

Lemma server_undisturbed o c :
  undisturbed c → confined wasThere a o → undisturbed (server o c).1 ∧ honest wasThere o (server o c).2.
Proof.
  intros Hu Hcf. pose proof Hu as (Hc & Hp & Hb). split.
  - pose proof (server_effect wasThere a o c Hc Hcf) as He. destruct Hcf as [Hw _].
    destruct (written o) as [[k m]|]; [|by rewrite He]. destruct (Hw k m eq_refl) as [Ho Hk].
    by eapply undisturbed_effect.
  - destruct o as [k key|ns sel| | | | | |]; simpl; try done.
    + intros x. case_match eqn:E; intros Hx; simplify_eq. exact (Hc k _ _ E).
    + intros pods [= <-] p (Hm & ([key q] & -> & Hin)%list_elem_of_fmap)%list_elem_of_filter.
      apply elem_of_map_to_list in Hin. destruct Hm as [H1 H2]. split_and!; [done|done|]. exact (Hp key q Hin).
Qed.

Lemma pass_undisturbed :
  store c0 KDistributedCache !! (dc_Namespace a, dc_Name a) = Some a →
  undisturbed (run (Reconcile (mkNN (dc_Namespace a) (dc_Name a))) c0).1.
Proof.
  intros Ha. change (@lookup okey DistributedCache) with (@lookup okey (obj KDistributedCache)) in Ha.
  assert (run (Reconcile (mkNN (dc_Namespace a) (dc_Name a))) c0 =
    run (if negb (bool_decide (om_DeletionTimestamp (dc_meta a) = None)) then reconcileDeletion a
         else reconcileLive a) c0) as ->.
  { etransitivity; [apply (run_bind_Get KDistributedCache)|]. cbn [nn_Namespace nn_Name]. by rewrite Ha. }
  eapply (run_hsafe (honest wasThere) (confined wasThere a) undisturbed);
    [apply server_undisturbed| |apply undisturbed_start].
  assert (∀ f m, wasThere m → wasThere (om_set_Annotations f m)) as Hk by done.
  destruct (negb _); [by apply ok_deletion|by apply ok_live].
Qed.

End Cluster.

(** ** Claims *)

(** C20: a pass keeps to its own. Against every API server that answers a read with an
    object of the name it was asked for and a list with pods that match the
    namespace and labels asked for, every object a pass over a request writes,
    deletes or re-labels is the DistributedCache it read under the request's name,
    that cache's Service, StatefulSet or ring ConfigMap, the namespace, quota and
    policy of its cell if it has one, or a pod in its target namespace that carries
    its labels. *)
Theorem reconcile_writes_only_own `{KL : KubeLib} `{SS : SliceSort} req t a :
  runs (Reconcile req) t a →
  Forall (λ e : event, honest (λ _, True) (projT1 e) (projT2 e)) t →
  ∀ e k m, e ∈ t → written (projT1 e) = Some (k, m) →
  ∃ (cache : DistributedCache) rest, t = ev (OGet KDistributedCache req) (inr cache) :: rest ∧
    metaKey (dc_meta cache) = (nn_Namespace req, nn_Name req) ∧ owned cache k m.
Proof. by apply Reconcile_confined. Qed.

#[local] Existing Instance refKube.

(** C8: caches do not interfere. Whatever else is in the cluster and whichever writes
    the server refuses, a pass over one cache leaves every object another cache owns
    exactly as it was, adds none and removes none, unless their children share both
    namespace and name. *)
Theorem caches_do_not_interfere `{SS : SliceSort} (a b : DistributedCache) c :
  keyed c → store c KDistributedCache !! (dc_Namespace a, dc_Name a) = Some a →
  (dc_Namespace a, dc_Name a) ≠ (dc_Namespace b, dc_Name b) →
  (targetNamespace a, dc_Name a) ≠ (targetNamespace b, dc_Name b) →
  let c' := (run (Reconcile (mkNN (dc_Namespace a) (dc_Name a))) c).1 in
  ∀ k key o, owned b k (obj_meta k o) →
    store c' k !! key = Some o ↔ store c k !! key = Some o.
Proof. intros Hc Ha Hab Hch c' k key o. by apply (pass_undisturbed a b c Hc Hab Hch Ha). Qed.
