(* ===== verification/Converge.v ===== *)
(** * A pass on a cooperative API server

    The effect of a whole pass of [Reconcile] on a ready cluster, put together from
    the stages of [Stages]: what it leaves in the store and that running it again
    changes nothing. *)

From S2P Require Import Prelude GoLib Json Api Kube KubeRef Names Ring Cell Workload Status.
From S2P Require Import RingPublish Drain Reconciler Stages.

#[local] Existing Instance refKube.
Local Open Scope Z_scope.
Local Open Scope prog_scope.

Section Converge.
Context `{SS : SliceSort}.

(** ** The whole pass *)

Lemma observedStatus_meta cache ring :
  dc_meta (observedStatus cache ring) = dc_meta cache ∧ Spec (observedStatus cache ring) = Spec cache.
Proof. done. Qed.

Lemma key_of_cache (d cache : DistributedCache) :
  dc_meta d = dc_meta cache → @key_of KDistributedCache d = (dc_Namespace cache, dc_Name cache).
Proof. intros Hm. unfold key_of, dc_Namespace, dc_Name. cbn [obj_meta]. by rewrite Hm. Qed.

(** Only the status of the stored cache changes. *)
Lemma ready_status cache cache' c c' :
  ready cache c → dc_meta cache' = dc_meta cache → Spec cache' = Spec cache →
  keeps [KDistributedCache] c c' →
  store c' KDistributedCache = <[(dc_Namespace cache, dc_Name cache) := cache']> (store c KDistributedCache) →
  ready cache' c'.
Proof.
  intros [Hw Hkeys Hch Hca Hp] Hm Hsp Hk Hs. pose proof Hk as (_ & Hwf & Hks).
  assert (isCrossNamespaceChild cache' = isCrossNamespaceChild cache) as Hx.
  { unfold isCrossNamespaceChild, targetNamespace, isolated, dc_Namespace, dc_Name. by rewrite Hm, Hsp. }
  split.
  - intros k. by rewrite Hwf.
  - eapply (keys_insert (k := KDistributedCache)); [done|done|exact Hs|].
    by apply key_of_cache.
  - intros k Hin key o Ho. unfold adoptable. rewrite Hx, Hm.
    rewrite Hks in Ho by set_solver. by eapply Hch.
  - rewrite Hs, <- (key_of_cache cache' cache Hm), (key_of_cache cache' cache' eq_refl).
    apply lookup_insert_eq.
  - by rewrite Hks by set_solver.
Qed.

Lemma StatusUpdate_stage cache cache' c :
  ready cache c → dc_meta cache' = dc_meta cache → Spec cache' = Spec cache →
  ∃ c', run (StatusUpdate cache') c = (c', inr cache') ∧ ready cache' c' ∧
        keeps [KDistributedCache] c c' ∧
        store c' KDistributedCache = <[(dc_Namespace cache, dc_Name cache) := cache']> (store c KDistributedCache).
Proof.
  intros Hrd Hm Hsp. exists (@put KDistributedCache cache' c).
  assert (run (StatusUpdate cache') c = (@put KDistributedCache cache' c, inr cache')) as Hrun.
  { etransitivity; [apply (run_call (OStatusUpdate cache'))|]. cbn [server].
    rewrite (key_of_cache cache' cache Hm).
    rewrite (rd_cache _ _ Hrd).
    assert (mkCache (dc_meta cache) (Spec cache) (Status cache') = cache') as ->; [|done].
    rewrite <- Hm, <- Hsp. by destruct cache'. }
  assert (store (@put KDistributedCache cache' c) KDistributedCache =
    <[(dc_Namespace cache, dc_Name cache) := cache']> (store c KDistributedCache)) as Hs.
  { by rewrite (store_put (k := KDistributedCache)), (key_of_cache cache' cache Hm). }
  split_and!; [done| |apply keeps_put|done].
  eapply ready_status; [done..|apply (keeps_put (k := KDistributedCache))|done].
Qed.

(** What a pass over a live cache leaves behind, for the cache [cache] it read. *)
Record passed (cache : DistributedCache) (c c' : Cluster) : Prop := {
  ps_ready : ready (observedStatus cache (ringOf cache c')) c';
  ps_clock : clock c' = clock c;
  ps_pods : stamped (clock c) (doomedOf cache c) (podKeys cache c) c c';
  ps_sts : is_Some (store c' KStatefulSet !! stsKey cache);
  ps_replicas : replicasOf cache c' = heldReplicas cache (allDrained cache c) (replicasOf cache c);
  ps_ring : ringOf cache c' = desiredRing (computeMembers (podsOf cache c')) (ringOf cache c);
  ps_cm : ∃ cm, store c' KConfigMap !! ringKey cache = Some cm ∧ Data (cm : ConfigMap) ≠ ∅ ∧
            (decodable cm ∨ store c KConfigMap !! ringKey cache = Some cm)
}.

(** The Service and the StatefulSet stages have nothing left to do. *)
Definition quiet (cache : DistributedCache) (complete : bool) (c : Cluster) : Prop :=
  settles (reconcileService cache) KService c ∧
  settles (reconcileStatefulSet cache complete) KStatefulSet c.

Definition passResult (cache : DistributedCache) (complete : bool) : Result :=
  if negb complete then requeueAfter 2
  else if isCrossNamespaceChild cache then requeueAfter 10 else done_.

Definition ascii_pods (c : Cluster) : Prop :=
  ∀ key p, store c KPod !! key = Some p → ascii_string (pod_Name p) = true.

Lemma ascii_podsOf cache c : ready cache c → ascii_pods c → ascii_names (podsOf cache c).
Proof.
  intros Hrd H. apply Forall_forall. intros p (Hp & _)%(elem_of_listing cache c); [|done]. by eapply H.
Qed.

Lemma stampPod_Name now doomed p : pod_Name (stampPod now doomed p) = pod_Name p.
Proof. unfold stampPod. by repeat case_match. Qed.

Lemma stamped_names now doomed keys c c' : stamped now doomed keys c c' → ascii_pods c → ascii_pods c'.
Proof.
  intros Hst H key p. rewrite Hst, fmap_Some. intros (q & Hq & ->). apply H in Hq.
  case_bool_decide; [by rewrite stampPod_Name|done].
Qed.

(** Reads of the final state through the kinds the later stages leave alone. *)
Lemma replicasOf_keeps cache c c' : store c' KStatefulSet = store c KStatefulSet → replicasOf cache c' = replicasOf cache c.
Proof. unfold replicasOf. by intros ->. Qed.

Lemma podsOf_keeps cache c c' : store c' KPod = store c KPod → podsOf cache c' = podsOf cache c.
Proof. unfold podsOf, listing. by intros ->. Qed.

Lemma ringOf_keeps cache c c' : store c' KConfigMap = store c KConfigMap → ringOf cache c' = ringOf cache c.
Proof. unfold ringOf, ringData. by intros ->. Qed.

Lemma reconcileChildren_pass cache c :
  ready cache c → ascii_pods c → 0 <= specReplicas cache →
  ∃ c', run (reconcileChildren cache) c = (c', (passResult cache (allDrained cache c), None)) ∧
    passed cache c c' ∧ quiet cache (allDrained cache c) c' ∧
    ∀ k, k ∈ [KNamespace; KResourceQuota; KNetworkPolicy] → store c' k = store c k.
Proof.
  intros Hrd Hascii Hspec. unfold reconcileChildren.
  destruct (reconcileService_stage cache c Hrd) as (c1 & [] & R1 & Hrd1 & (Hc1 & _ & K1) & S1).
  destruct (drainScaleDown_stage cache c1 Hrd1 Hspec) as (c2 & b & R2 & Hrd2 & (Hc2 & _ & K2) & Hst & Hb).
  destruct (reconcileStatefulSet_stage cache b c2 Hrd2) as (c3 & [] & R3 & Hrd3 & (Hc3 & _ & K3) & S3 & Hsts & Hrep).
  assert (ascii_names (podsOf cache c3)) as Hn.
  { apply ascii_podsOf; [done|]. intros key p. rewrite K3 by set_solver.
    eapply stamped_names; [exact Hst|]. intros key' q. rewrite K1 by set_solver. apply Hascii. }
  destruct (reconcileRing_stage cache c3 Hrd3 Hn) as (c4 & ring & R4 & Hrd4 & (Hc4 & _ & K4) & Hring & Hr4 & cm & Hcm & Hne & Hdec).
  destruct (StatusUpdate_stage cache (observedStatus cache ring) c4 Hrd4) as (c5 & R5 & Hrd5 & (Hc5 & _ & K5) & _); [done..|].
  assert (replicasOf cache c1 = replicasOf cache c) as E1 by (apply replicasOf_keeps, K1; set_solver).
  assert (podsOf cache c1 = podsOf cache c) as E2 by (apply podsOf_keeps, K1; set_solver).
  assert (doomedOf cache c1 = doomedOf cache c) as E3 by (unfold doomedOf; by rewrite E1).
  assert (allDrained cache c1 = allDrained cache c) as E4 by (unfold allDrained; by rewrite E2, E3, Hc1).
  assert (podKeys cache c1 = podKeys cache c) as E5 by (unfold podKeys; by rewrite E2).
  assert (ringOf cache c5 = ring) as E6 by (rewrite <- Hr4; apply ringOf_keeps, K5; set_solver).
  exists c5. rewrite Hb, E4 in *. rewrite E3, E5, Hc1 in Hst. split.
  { rewrite run_bind, R1. cbv beta iota zeta. rewrite run_bind. cbn [run interp mret prog_ret].
    rewrite run_bind, R2. cbv beta iota zeta. rewrite run_bind, R3. cbv beta iota zeta.
    rewrite run_bind, R4. cbv beta iota zeta. unfold finishPass. rewrite run_bind, R5.
    cbv beta iota zeta. unfold passResult.
    change (isCrossNamespaceChild (observedStatus cache ring)) with (isCrossNamespaceChild cache).
    by repeat case_match. }
  split; [|split]; cycle 1.
  { split.
    - intros c'' Hs Hw. apply S1; [|done]. by rewrite Hs, K5, K4, K3, K2 by set_solver.
    - intros c'' Hs Hw. apply S3; [|done]. by rewrite Hs, K5, K4 by set_solver. }
  { intros k Hk. by rewrite K5, K4, K3, K2, K1 by set_solver. }
  split.
  - by rewrite E6.
  - congruence.
  - intros key. rewrite K5, K4, K3, Hst, K1 by set_solver. done.
  - by rewrite K5, K4 by set_solver.
  - rewrite (replicasOf_keeps cache c3) by (rewrite K5, K4 by set_solver; done).
    rewrite Hrep, (replicasOf_keeps cache c1), E1 by (apply K2; set_solver). done.
  - rewrite E6, Hring. f_equal.
    + f_equal. symmetry. apply podsOf_keeps. by rewrite K5, K4 by set_solver.
    + apply ringOf_keeps. by rewrite K3, K2, K1 by set_solver.
  - exists cm. rewrite K5 by set_solver. split_and!; [done|done|].
    rewrite K3, K2, K1 in Hdec by set_solver. done.
Qed.

(** The cell comes before; the later stages do not look at it. *)
Lemma passed_after_cell cache c c0 c' :
  keeps [KNamespace; KResourceQuota; KNetworkPolicy] c c0 → passed cache c0 c' → passed cache c c'.
Proof.
  intros (Hc & _ & K) [Hrd Hcl Hp Hs Hrep Hring Hcm].
  assert (replicasOf cache c0 = replicasOf cache c) as E1 by (apply replicasOf_keeps, K; set_solver).
  assert (podsOf cache c0 = podsOf cache c) as E2 by (apply podsOf_keeps, K; set_solver).
  assert (ringOf cache c0 = ringOf cache c) as E3 by (apply ringOf_keeps, K; set_solver).
  unfold allDrained, podKeys, doomedOf, stamped, restamped in *. rewrite E1, E2, Hc in *. rewrite E3 in Hring.
  setoid_rewrite K in Hp; [|set_solver]. setoid_rewrite K in Hcm; [|set_solver].
  split; done || congruence.
Qed.

(** The request for a cache. *)
Definition reqOf (cache : DistributedCache) : NamespacedName := mkNN (dc_Namespace cache) (dc_Name cache).

Lemma run_Reconcile cache c :
  ready cache c → om_DeletionTimestamp (dc_meta cache) = None →
  run (Reconcile (reqOf cache)) c = run (reconcileLive cache) c.
Proof.
  intros Hrd Hdel. unfold Reconcile. etransitivity; [apply (run_bind_Get KDistributedCache)|].
  cbn [nn_Namespace nn_Name reqOf]. pose proof (rd_cache _ _ Hrd) as Hc.
  change (@lookup okey DistributedCache) with (@lookup okey (obj KDistributedCache)) in Hc.
  rewrite Hc. cbv beta iota.
  by rewrite bool_decide_true by done.
Qed.

Lemma AddFinalizer_present cache :
  drainFinalizer ∈ om_Finalizers (dc_meta cache) →
  AddFinalizer (om_Finalizers (dc_meta cache)) drainFinalizer = (om_Finalizers (dc_meta cache), false).
Proof. intros Hf. cbn [AddFinalizer refKube]. by rewrite bool_decide_true. Qed.

Lemma allDrained_after_cell cache c c0 :
  keeps [KNamespace; KResourceQuota; KNetworkPolicy] c c0 → allDrained cache c0 = allDrained cache c.
Proof.
  intros (Hc & _ & K). unfold allDrained, doomedOf.
  by rewrite Hc, (replicasOf_keeps cache c c0), (podsOf_keeps cache c c0) by (apply K; set_solver).
Qed.

Lemma Reconcile_pass_quiet cache c :
  ready cache c → ascii_pods c → 0 <= specReplicas cache →
  om_DeletionTimestamp (dc_meta cache) = None → drainFinalizer ∈ om_Finalizers (dc_meta cache) →
  ∃ c', run (Reconcile (reqOf cache)) c = (c', (passResult cache (allDrained cache c), None)) ∧
    passed cache c c' ∧ quiet cache (allDrained cache c) c' ∧
    run (reconcileCell cache) c' = (c', inr tt).
Proof.
  intros Hrd Hascii Hspec Hdel Hf. rewrite run_Reconcile by done. unfold reconcileLive.
  rewrite AddFinalizer_present by done. cbv beta iota zeta. rewrite set_dc_Finalizers_same.
  destruct (reconcileCell_stage cache c Hrd) as (c0 & [] & R0 & Hrd0 & K0 & S0).
  destruct (reconcileChildren_pass cache c0 Hrd0) as (c' & R & Hp & Hq & Kc); [|done|].
  { intros key p. destruct K0 as (_ & _ & K). rewrite K by set_solver. apply Hascii. }
  rewrite (allDrained_after_cell _ _ _ K0) in *. exists c'. split_and!.
  - rewrite run_bind, R0. cbv beta iota zeta. by rewrite R.
  - by eapply passed_after_cell.
  - done.
  - apply S0; [done|]. apply (ps_ready _ _ _ Hp).
Qed.

Lemma Reconcile_pass cache c :
  ready cache c → ascii_pods c → 0 <= specReplicas cache →
  om_DeletionTimestamp (dc_meta cache) = None → drainFinalizer ∈ om_Finalizers (dc_meta cache) →
  ∃ c', run (Reconcile (reqOf cache)) c = (c', (passResult cache (allDrained cache c), None)) ∧
    passed cache c c'.
Proof.
  intros Hrd Hascii Hspec Hdel Hf.
  destruct (Reconcile_pass_quiet cache c) as (c' & Hr & Hp & _); [done..|]. eauto.
Qed.

(** Only the finalizers of the stored cache change. *)
Lemma ready_finalizers fs cache c :
  ready cache c →
  ready (set_dc_Finalizers fs cache) (@put KDistributedCache (set_dc_Finalizers fs cache) c).
Proof.
  set (cache' := set_dc_Finalizers fs cache).
  pose proof (keeps_put (k := KDistributedCache) cache' c) as Hk.
  pose proof (store_put (k := KDistributedCache) cache' c) as Hs.
  intros [Hw Hkeys Hch Hca Hp]. split; [done|by eapply keys_insert| | |].
  - destruct Hk as (_ & _ & K). intros k Hin key o Ho. rewrite K in Ho by set_solver.
    exact (Hch k Hin key o Ho).
  - rewrite Hs. apply lookup_insert_eq.
  - by rewrite store_put_ne.
Qed.

(** Without the finalizer the pass only adds it. *)
Definition finalized (cache : DistributedCache) : DistributedCache :=
  set_dc_Finalizers (om_Finalizers (dc_meta cache) ++ [drainFinalizer]) cache.

Lemma Reconcile_first_pass cache c :
  ready cache c → om_DeletionTimestamp (dc_meta cache) = None →
  drainFinalizer ∉ om_Finalizers (dc_meta cache) →
  ∃ c', run (Reconcile (reqOf cache)) c = (c', (mkResult true 0, None)) ∧
    ready (finalized cache) c' ∧ keeps [KDistributedCache] c c'.
Proof.
  intros Hrd Hdel Hf. rewrite run_Reconcile by done. unfold reconcileLive.
  assert (AddFinalizer (om_Finalizers (dc_meta cache)) drainFinalizer =
    (om_Finalizers (dc_meta cache) ++ [drainFinalizer], true)) as ->.
  { cbn [AddFinalizer refKube]. by rewrite bool_decide_false. }
  cbv beta iota zeta. fold (finalized cache).
  assert (@key_of KDistributedCache (finalized cache) = (dc_Namespace cache, dc_Name cache)) as Hkey by done.
  assert (server_update KDistributedCache (finalized cache) c =
    (@put KDistributedCache (finalized cache) c, inr (finalized cache))) as Hu.
  { pose proof (rd_cache _ _ Hrd) as Hc.
    change (@lookup okey DistributedCache) with (@lookup okey (obj KDistributedCache)) in Hc.
    unfold server_update. rewrite (rd_writes _ _ Hrd), Hkey, Hc.
    change (om_DeletionTimestamp (obj_meta KDistributedCache (finalized cache)))
      with (om_DeletionTimestamp (dc_meta cache)). by rewrite Hdel. }
  exists (@put KDistributedCache (finalized cache) c). split.
  { etransitivity; [apply (run_bind (Update KDistributedCache _))|]. rewrite run_Update, Hu. done. }
  split; [by apply ready_finalizers|apply (keeps_put (k := KDistributedCache))].
Qed.

(** ** Running the pass again *)

(** The stages read the metadata and the spec of the cache, never its status. *)
Ltac status_free :=
  cbv beta iota zeta delta [reconcileCell reconcileCellNamespace mutateCellNamespace
    reconcileResourceQuota quotaMemory quotaPods mutateResourceQuota
    reconcileNetworkPolicy mutateNetworkPolicy stampLabels
    setControllerReferenceIfSameNamespace isCrossNamespaceChild targetNamespace isolated
    SetControllerReference refKube refSetControllerReference ownerOf
    reconcileService mutateService podLabels
    reconcileStatefulSet mutateStatefulSet newStatefulSet heldReplicas cacheContainer terminationGrace
    drainScaleDown graceOf reconcileRing publishRing mutateRingConfigMap ringConfigMapName
    specReplicas dc_Name dc_Namespace dc_meta Spec]; reflexivity.

Lemma stages_ignore_status m s st st' :
  reconcileCell (mkCache m s st) = reconcileCell (mkCache m s st') ∧
  reconcileService (mkCache m s st) = reconcileService (mkCache m s st') ∧
  (∀ b, reconcileStatefulSet (mkCache m s st) b = reconcileStatefulSet (mkCache m s st') b) ∧
  reconcileRing (mkCache m s st) = reconcileRing (mkCache m s st').
Proof. split_and!; [status_free|status_free|intros b; status_free|status_free]. Qed.

(** The same for what the pass reads. *)
Lemma reads_ignore_status m s st st' c :
  allDrained (mkCache m s st) c = allDrained (mkCache m s st') c ∧
  doomedOf (mkCache m s st) c = doomedOf (mkCache m s st') c ∧
  podsOf (mkCache m s st) c = podsOf (mkCache m s st') c ∧
  (∀ b, passResult (mkCache m s st) b = passResult (mkCache m s st') b).
Proof. by split_and!. Qed.

Lemma observedStatus_twin cache ring :
  ∃ m s st st', cache = mkCache m s st ∧ observedStatus cache ring = mkCache m s st'.
Proof. destruct cache as [m s st]. by eexists _, _, _, _. Qed.

(** Hence a pass on the cache it has written is the same pass. *)
Lemma stages_again cache ring :
  reconcileCell (observedStatus cache ring) = reconcileCell cache ∧
  reconcileService (observedStatus cache ring) = reconcileService cache ∧
  (∀ b, reconcileStatefulSet (observedStatus cache ring) b = reconcileStatefulSet cache b) ∧
  reconcileRing (observedStatus cache ring) = reconcileRing cache.
Proof.
  destruct (observedStatus_twin cache ring) as (m & s & st & st' & -> & ->). apply stages_ignore_status.
Qed.

Lemma reads_again cache ring c :
  let cache1 := observedStatus cache ring in
  allDrained cache1 c = allDrained cache c ∧ doomedOf cache1 c = doomedOf cache c ∧
  podsOf cache1 c = podsOf cache c ∧ (∀ b, passResult cache1 b = passResult cache b).
Proof.
  destruct (observedStatus_twin cache ring) as (m & s & st & st' & -> & ->). apply reads_ignore_status.
Qed.

Lemma refSetCondition_present l c : find_cond (c_Type c) l = Some c → refSetCondition l c = l.
Proof.
  induction l as [|d l IH]; [done|]. rewrite find_cond_cons. simpl.
  case_bool_decide; [by intros [= ->]|]. intros H'. by rewrite IH.
Qed.

Lemma setCondition_present c cache : condition (c_Type c) cache = Some c → setCondition c cache = cache.
Proof.
  unfold setCondition, condition. cbn [SetStatusCondition refKube]. intros H.
  rewrite (refSetCondition_present _ _ H). by destruct cache as [? ? []].
Qed.

(** Observing the same ring again gives the same status. *)
Lemma observedStatus_idem cache ring :
  observedStatus (observedStatus cache ring) ring = observedStatus cache ring.
Proof.
  set (cache1 := observedStatus cache ring).
  set (base := mkCache (dc_meta cache) (Spec cache) (mkStatus (Conditions (Status cache)) (dc_Generation cache)
    (wrap32 (Z.of_nat (length (Members ring))))
    (mkRingStatus (Version ring) (Members ring) (ringConfigMapName cache)))).
  assert (∀ ty, condition ty cache1 = _) as Hcond by exact (condition_setObservedConditions base ring).
  unfold observedStatus at 1.
  change (mkCache (dc_meta cache1) (Spec cache1) _) with cache1.
  unfold setObservedConditions.
  rewrite (setCondition_present (availableCondition cache1 ring)) by (rewrite availableCondition_Type, Hcond; done).
  rewrite (setCondition_present (progressingCondition cache1 ring)) by (rewrite progressingCondition_Type, Hcond; done).
  rewrite (setCondition_present (notDegradedCondition cache1)) by (rewrite Hcond; done).
  rewrite (setCondition_present (tenantCondition cache1)) by (rewrite tenantCondition_Type, Hcond; done).
  done.
Qed.

(** *** The drain, again *)

Lemma drainedB_just_stamped cache now p :
  sane_time now → int32_ok (GracePeriodSeconds (Drain (Spec cache))) →
  1 <= GracePeriodSeconds (Drain (Spec cache)) → drainedB (graceOf cache) now (startDrain now p) = false.
Proof.
  intros Hs Hg H1. apply not_true_is_false. rewrite drainedB_spec.
  rewrite (drained_stamp cache now) by (done || apply startDrain_annotation).
  rewrite graceOf_int32 by done. unfold sane_time, Second in *. lia.
Qed.

Lemma stampPod_idem now doomed p : stampPod now doomed (stampPod now doomed p) = stampPod now doomed p.
Proof.
  unfold stampPod at 1. rewrite stampPod_Name. case_bool_decide as Hd; [|done].
  unfold stampPod. rewrite bool_decide_true by done.
  destruct (pod_Annotations p !! drainAnnotation ≫= ParseInt) as [ts|] eqn:Ha; [by rewrite Ha|].
  rewrite startDrain_annotation. simpl. by rewrite ParseInt_stamp.
Qed.

Lemma stampPod_empty now p : stampPod now ∅ p = p.
Proof. unfold stampPod. by rewrite bool_decide_false by set_solver. Qed.

(** Stamping moves no pod into or out of the listing. *)
Lemma stampPod_listed now doomed ns sel p :
  (om_Namespace (pod_meta (stampPod now doomed p)) = ns ∧ sel ⊆ om_Labels (pod_meta (stampPod now doomed p)))
  ↔ (om_Namespace (pod_meta p) = ns ∧ sel ⊆ om_Labels (pod_meta p)).
Proof. unfold stampPod. by repeat case_match. Qed.

Lemma podKeys_listed cache1 cache c key p :
  ready cache1 c → store c KPod !! key = Some p → key ∈ podKeys cache c ↔ p ∈ podsOf cache c.
Proof.
  intros Hrd Hp. pose proof (rd_keys _ _ Hrd KPod _ _ Hp) as Hkey. unfold podKeys.
  rewrite list_elem_of_fmap. split; [|by exists p]. intros (q & -> & Hq).
  pose proof (proj1 (elem_of_listing cache1 c _ _ q Hrd) Hq) as [Hq' _].
  by pose proof (eq_trans (eq_sym Hp) Hq') as [= ->].
Qed.

Lemma listed_after cache1 cache c c' p' :
  ready cache c → ready cache1 c' → stamped (clock c) (doomedOf cache c) (podKeys cache c) c c' →
  p' ∈ podsOf cache c' ↔ ∃ p, p ∈ podsOf cache c ∧ p' = stampPod (clock c) (doomedOf cache c) p.
Proof.
  intros Hrd Hrd' Hst. unfold podsOf. rewrite (elem_of_listing cache1 c') by done.
  setoid_rewrite (elem_of_listing cache c); [|done]. split.
  - intros (Hl & Hin). rewrite Hst in Hl. apply fmap_Some in Hl as (p & Hp & Hp').
    pose proof (rd_keys _ _ Hrd KPod _ _ Hp) as Hkey.
    pose proof (podKeys_listed cache cache c _ p Hrd Hp) as Hiff.
    case_bool_decide as Hk.
    + exists p. rewrite Hp' in Hin. apply stampPod_listed in Hin. by rewrite Hkey.
    + exfalso. apply Hk, Hiff. apply (elem_of_listing cache c); [done|]. rewrite Hp' in Hin. by rewrite Hkey.
  - intros (p & (Hp & Hin) & ->). rewrite stampPod_listed. split; [|done].
    assert (@key_of KPod (stampPod (clock c) (doomedOf cache c) p) = @key_of KPod p) as ->.
    { unfold stampPod. by repeat case_match. }
    rewrite Hst. apply fmap_Some. exists p. split; [exact Hp|].
    rewrite bool_decide_true; [done|]. apply (podKeys_listed cache cache c _ p Hrd Hp).
    by apply (elem_of_listing cache c).
Qed.

(** Either the StatefulSet has its final size, or the same pods are doomed. *)
Lemma doomed_after cache c c' d :
  passed cache c c' → Replicas (Spec cache) = Some d → 0 <= d →
  (allDrained cache c = true ∧ doomedOf cache c' = ∅) ∨
  (allDrained cache c = false ∧ doomedOf cache c' = doomedOf cache c).
Proof.
  intros Hps Hd Hd0. pose proof (ps_replicas _ _ _ Hps) as Hrep.
  unfold doomedOf. rewrite Hrep. unfold heldReplicas, specReplicas. rewrite Hd. simpl.
  destruct (allDrained cache c) eqn:Hall.
  - left. split; [done|]. destruct (replicasOf cache c); by rewrite doomedNames_empty by done.
  - right. split; [done|].
    assert (doomedOf cache c ≠ ∅) as Hne.
    { intros He. unfold allDrained in Hall. by rewrite He, leaves_none in Hall. }
    unfold doomedOf, specReplicas in Hne. rewrite Hd in Hne. simpl in Hne.
    destruct (replicasOf cache c) as [r|]; simpl in *.
    + destruct (d <? r) eqn:Hlt; [done|]. exfalso. apply Hne, doomedNames_empty. lia.
    + exfalso. apply Hne, doomedNames_empty. lia.
Qed.

Lemma allDrained_again cache1 cache c c' d :
  ready cache c → ready cache1 c' → passed cache c c' → Replicas (Spec cache) = Some d → 0 <= d →
  sane_time (clock c) → int32_ok (GracePeriodSeconds (Drain (Spec cache))) →
  1 <= GracePeriodSeconds (Drain (Spec cache)) →
  allDrained cache c' = allDrained cache c.
Proof.
  intros Hrd Hrd' Hps Hd Hd0 Hs Hg H1.
  destruct (doomed_after cache c c' d Hps Hd Hd0) as [[Hall Hdoom]|[Hall Hdoom]]; rewrite Hall.
  - unfold allDrained. rewrite Hdoom. apply leaves_none.
  - apply not_true_is_false. unfold allDrained in *. rewrite Hdoom, (ps_clock _ _ _ Hps), forallb_forall.
    intros H. apply not_true_iff_false in Hall. apply Hall. apply forallb_forall. intros p Hp%list_elem_of_In.
    specialize (H (stampPod (clock c) (doomedOf cache c) p)).
    assert (leaves (graceOf cache) (clock c) (doomedOf cache c)
      (stampPod (clock c) (doomedOf cache c) p) = true) as Hl.
    { apply H, list_elem_of_In. apply (listed_after cache1 cache c c'); [done|done|apply Hps|]. eauto. }
    unfold leaves in *. rewrite stampPod_Name in Hl. unfold stampPod in Hl.
    case_bool_decide as Hin; [|done]. simpl in *.
    destruct (pod_Annotations p !! drainAnnotation ≫= ParseInt); [done|].
    by rewrite drainedB_just_stamped in Hl.
Qed.

Lemma stamped_again cache1 cache c c' c2 d :
  ready cache c → ready cache1 c' → passed cache c c' → Replicas (Spec cache) = Some d → 0 <= d →
  stamped (clock c') (doomedOf cache c') (podKeys cache c') c' c2 → store c2 KPod = store c' KPod.
Proof.
  intros Hrd Hrd' Hps Hd Hd0 Hst. apply map_eq. intros key. rewrite Hst.
  destruct (store c' KPod !! key) as [p'|] eqn:Hl; [|done]. simpl. f_equal.
  case_bool_decide as Hin; [|done].
  assert (p' ∈ podsOf cache c') as Hp' by (by eapply podKeys_listed).
  apply (listed_after cache1 cache c c') in Hp' as (p & _ & ->); [|done|done|apply Hps].
  destruct (doomed_after cache c c' d Hps Hd Hd0) as [[_ ->]|[_ ->]].
  - apply stampPod_empty.
  - rewrite (ps_clock _ _ _ Hps). apply stampPod_idem.
Qed.

(** A published ring that matches the pods is left alone. *)
Lemma reconcileRing_quiet cache c cm :
  store c KConfigMap !! ringKey cache = Some cm → Data cm ≠ ∅ →
  Members (ringOf cache c) = computeMembers (podsOf cache c) →
  run (reconcileRing cache) c = (c, inr (ringOf cache c)).
Proof.
  intros Hcm Hne Hms. unfold reconcileRing. rewrite run_ebind, run_wrapf, run_ListPods.
  fold (podsOf cache c). etransitivity; [apply (run_bind_Get KConfigMap)|]. cbn [nn_Namespace nn_Name].
  fold (ringKey cache). change (@lookup okey ConfigMap) with (@lookup okey (obj KConfigMap)) in Hcm.
  rewrite Hcm. cbv beta iota. unfold publishRing.
  change (@lookup okey (obj KConfigMap)) with (@lookup okey ConfigMap) in Hcm.
  rewrite <- (ringOf_stored _ _ _ Hcm), (desiredRing_same _ (ringOf cache c)) by done.
  rewrite (proj2 (Ring_Equal_eq _ _)) by done.
  assert ((0 <? Z.of_nat (size (Data cm))) = true) as ->; [|done].
  apply Z.ltb_lt. assert (size (Data cm) ≠ 0%nat); [|lia]. by intros Hs%map_size_empty_inv.
Qed.

(** The children's half of the second pass, run for the cache as stored. *)
Lemma reconcileChildren_again cache c c' d :
  let cache1 := observedStatus cache (ringOf cache c') in let b := allDrained cache c in
  ready cache c → passed cache c c' → quiet cache b c' → Replicas (Spec cache) = Some d → 0 <= d →
  sane_time (clock c) → int32_ok (GracePeriodSeconds (Drain (Spec cache))) →
  1 <= GracePeriodSeconds (Drain (Spec cache)) →
  ∃ c'', run (reconcileChildren cache1) c' = (c'', (passResult cache b, None)) ∧
    ∀ k, store c'' k = store c' k.
Proof.
  intros cache1 b Hrd Hps [Ssvc Ssts] Hd Hd0 Hs Hg H1. pose proof (ps_ready _ _ _ Hps) as Hrd1. fold cache1 in Hrd1.
  destruct (stages_again cache (ringOf cache c')) as (_ & Esvc & Ests & Ering). fold cache1 in Esvc, Ests, Ering.
  destruct (reads_again cache (ringOf cache c') c') as (Eall & Edoom & Epods & Eres). fold cache1 in Eall, Edoom, Epods, Eres.
  assert (0 <= specReplicas cache1) as Hspec.
  { change (specReplicas cache1) with (specReplicas cache). unfold specReplicas. by rewrite Hd. }
  destruct (drainScaleDown_stage cache1 c' Hrd1 Hspec) as (c2 & b2 & R2 & Hrd2 & K2 & Hst & Hb2).
  pose proof (allDrained_again cache1 cache c c' d Hrd Hrd1 Hps Hd Hd0 Hs Hg H1) as Hall.
  rewrite Eall, Hall in Hb2. subst b2.
  assert (store c2 KPod = store c' KPod) as Hpods.
  { eapply (stamped_again cache1 cache c c' c2 d); [done..|]. unfold podKeys in *. by rewrite <- Edoom, <- Epods. }
  assert (∀ k, store c2 k = store c' k) as Hsame.
  { intros k. destruct (decide (k = KPod)) as [->|Hk]; [done|]. destruct K2 as (_ & _ & K). apply K. set_solver. }
  assert (run (reconcileService cache1) c' = (c', inr tt)) as R1 by (rewrite Esvc; apply Ssvc; [done|apply Hrd1]).
  assert (run (reconcileStatefulSet cache1 b) c2 = (c2, inr tt)) as R3 by (rewrite Ests; apply Ssts; [done|apply Hrd2]).
  destruct (ps_cm _ _ _ Hps) as (cm & Hcm & Hne & _).
  assert (run (reconcileRing cache1) c2 = (c2, inr (ringOf cache c'))) as R4.
  { rewrite Ering, <- (ringOf_keeps cache c' c2) by apply Hsame.
    apply (reconcileRing_quiet cache c2 cm); [by rewrite Hsame|done|].
    rewrite (ringOf_keeps cache c' c2), (podsOf_keeps cache c' c2) by apply Hsame.
    by rewrite (ps_ring _ _ _ Hps), desiredRing_Members. }
  assert (observedStatus cache1 (ringOf cache c') = cache1) as Eidem by apply observedStatus_idem.
  destruct (StatusUpdate_stage cache1 cache1 c2 Hrd2) as (c5 & R5 & _ & (_ & _ & K5) & Hs5); [done..|].
  exists c5. split.
  - unfold reconcileChildren. rewrite run_bind, R1. cbv beta iota zeta. rewrite run_bind.
    cbn [run interp mret prog_ret]. rewrite run_bind, R2. cbv beta iota zeta. fold b. rewrite run_bind, R3.
    cbv beta iota zeta. rewrite run_bind, R4. cbv beta iota zeta. unfold finishPass.
    rewrite Eidem, run_bind, R5. cbv beta iota zeta.
    rewrite <- Eres. unfold passResult. by repeat case_match.
  - intros k. destruct (decide (k = KDistributedCache)) as [->|Hk]; [|by rewrite K5, Hsame by set_solver].
    rewrite Hs5, insert_id; [apply Hsame|]. apply (rd_cache _ _ Hrd2).
Qed.

(** The pass after a pass. *)
Lemma Reconcile_again cache c c' r d :
  ready cache c → ascii_pods c → Replicas (Spec cache) = Some d → 0 <= d →
  om_DeletionTimestamp (dc_meta cache) = None → drainFinalizer ∈ om_Finalizers (dc_meta cache) →
  sane_time (clock c) → int32_ok (GracePeriodSeconds (Drain (Spec cache))) →
  1 <= GracePeriodSeconds (Drain (Spec cache)) →
  run (Reconcile (reqOf cache)) c = (c', r) →
  ∃ c'', run (Reconcile (reqOf cache)) c' = (c'', r) ∧ ∀ k, store c'' k = store c' k.
Proof.
  intros Hrd Ha Hd Hd0 Hdel Hf Hs Hg H1 Hrun.
  destruct (Reconcile_pass_quiet cache c) as (c1 & Hr & Hps & Hq & Hcell); [done|done| |done|done|].
  { unfold specReplicas. by rewrite Hd. }
  rewrite Hrun in Hr. injection Hr as <- ->. pose proof (ps_ready _ _ _ Hps) as Hrd1.
  set (cache1 := observedStatus cache (ringOf cache c')) in *.
  change (reqOf cache) with (reqOf cache1). rewrite run_Reconcile by done. unfold reconcileLive.
  rewrite (AddFinalizer_present cache1) by done. cbv beta iota zeta. rewrite set_dc_Finalizers_same.
  destruct (reconcileChildren_again cache c c' d) as (c2 & R & Hsame); [done..|].
  exists c2. split; [|done]. rewrite run_bind.
  destruct (stages_again cache (ringOf cache c')) as (Ecell & _). fold cache1 in Ecell. rewrite Ecell.
  rewrite Hcell. cbv beta iota zeta. exact R.
Qed.

(** ** Claims *)

(** C13: a pass succeeds and does what it promises. On a ready cluster, a pass over a
    live cache with the finalizer returns no error and the requeue of its state,
    and leaves: every doomed pod annotated and all others untouched, the StatefulSet
    at the requested size or held back exactly while a doomed pod is not drained,
    the ring of the servable pods under the versioning rule published, and the
    status reporting that ring. *)
Theorem pass_succeeds cache c :
  ready cache c → ascii_pods c → 0 <= specReplicas cache →
  om_DeletionTimestamp (dc_meta cache) = None → drainFinalizer ∈ om_Finalizers (dc_meta cache) →
  ∃ c', run (Reconcile (reqOf cache)) c = (c', (passResult cache (allDrained cache c), None)) ∧
    stamped (clock c) (doomedOf cache c) (podKeys cache c) c c' ∧
    replicasOf cache c' = heldReplicas cache (allDrained cache c) (replicasOf cache c) ∧
    ringOf cache c' = desiredRing (computeMembers (podsOf cache c')) (ringOf cache c) ∧
    store c' KDistributedCache !! (dc_Namespace cache, dc_Name cache) =
      Some (observedStatus cache (ringOf cache c')).
Proof.
  intros Hrd Ha Hs Hd Hf. destruct (Reconcile_pass cache c) as (c' & Hr & Hp); [done..|].
  exists c'. split_and!; [done|apply Hp..|]. apply (rd_cache _ _ (ps_ready _ _ _ Hp)).
Qed.

(** C11: reconciliation is level-triggered: when a pass over a live cache that carries
    the finalizer, with a replica count and a grace period of at least a second, has
    run on a ready cluster and nothing else happens, not even time, running it again
    gives the same result and leaves every stored object exactly as it is. (Without
    the finalizer the first pass only adds it.) *)
Theorem second_pass_changes_nothing cache c c' r d :
  ready cache c → ascii_pods c → Replicas (Spec cache) = Some d → 0 <= d →
  om_DeletionTimestamp (dc_meta cache) = None → drainFinalizer ∈ om_Finalizers (dc_meta cache) →
  sane_time (clock c) → int32_ok (GracePeriodSeconds (Drain (Spec cache))) →
  1 <= GracePeriodSeconds (Drain (Spec cache)) →
  run (Reconcile (reqOf cache)) c = (c', r) →
  ∃ c'', run (Reconcile (reqOf cache)) c' = (c'', r) ∧ ∀ k, store c'' k = store c' k.
Proof. apply Reconcile_again. Qed.

End Converge.
