(* ===== verification/Gaps.v ===== *)
(** * What a scale-down does not undo and does not wait for

    Two general laws behind the findings about draining, on the in-memory server
    of [KubeRef]: a drain annotation is never taken back, and the StatefulSet
    shrinks although the ring could not be published. *)

From S2P Require Import Prelude GoLib Json Api Kube KubeRef Names Ring Cell Workload Status.
From S2P Require Import RingPublish Drain Reconciler Stages Converge.

#[local] Existing Instance refKube.
Local Open Scope Z_scope.
Local Open Scope prog_scope.

(** Passes at these times, with nothing in between. *)
Fixpoint passesAt `{SliceSort} (req : NamespacedName) (ts : list Time) (c : Cluster) : Cluster :=
  match ts with
  | [] => c
  | t :: ts => passesAt req ts (run (Reconcile req) (at_time t c)).1
  end.

(** The server refuses to write ConfigMaps. *)
Definition ringRefused (k : Kind) : bool := bool_decide (k = KConfigMap).

(** ** Programs on a server that refuses other writes *)

Lemma server_failing f o c :
  (∀ k, tag_kind (op_tag o) = Some k → f k = writes_fail c k) →
  server o (failing f c) = (failing f (server o c).1, (server o c).2).
Proof.
  intros Hf. destruct o; simpl in *; try done; unfold server_update, server_cou; simpl;
    rewrite ?(Hf _ eq_refl); repeat case_match; try done; by simplify_eq/=.
Qed.

Lemma run_failing {A} f l (p : prog A) c c' a :
  safe (only l) p → (∀ k, k ∈ kinds_of l → f k = writes_fail c k) → run p c = (c', a) →
  run p (failing f c) = (failing f c', a).
Proof.
  revert c. induction p as [b|o k IH]; intros c; simpl.
  { by intros _ _ [= <- <-]. }
  intros [Ho Hk] Hf. apply bool_decide_eq_true in Ho.
  assert (∀ k', tag_kind (op_tag o) = Some k' → k' ∈ kinds_of l) as Hin.
  { intros k' Hk'. apply list_elem_of_omap. eauto. }
  pose proof (server_keeps o c (kinds_of l) Hin) as (_ & Hw & _).
  pose proof (server_failing f o c (λ k' Hk', Hf k' (Hin k' Hk'))) as Hs.
  unfold run in *. simpl. rewrite Hs. destruct (server o c) as [c1 r]. cbn [fst snd] in *.
  specialize (IH r c1 (Hk r)). rewrite Hw in IH. specialize (IH Hf).
  destruct (interp server (k r) c1) as [[c2 t] b], (interp server (k r) (failing f c1)) as [[c3 t'] b'].
  intros [= <- <-]. by injection (IH eq_refl) as <- <-.
Qed.

Section Gaps.
Context `{SS : SliceSort}.

(** The ring stage then leaves everything as it is, with or without an error. *)
Lemma reconcileRing_refused cache c :
  writes_fail c KConfigMap = true → ∃ r, run (reconcileRing cache) c = (c, r).
Proof.
  intros Hw. unfold reconcileRing. rewrite run_ebind, run_wrapf, run_ListPods.
  assert (∀ ms data, ∃ r, run (publishRing cache ms data) c = (c, r)) as Hpub.
  { intros ms data. unfold publishRing. case_match; [by eexists|].
    rewrite run_ebind, run_wrapf, run_CreateOrUpdate. unfold server_cou. rewrite Hw. by eexists. }
  assert (∀ q : goerror + ConfigMap → prog (goerror + Ring), (∀ e, ∃ r, run (q e) c = (c, r)) →
    ∃ r, run (Get KConfigMap (mkNN (targetNamespace cache) (ringConfigMapName cache)) ≫= q) c = (c, r)) as Hget.
  { intros q Hq. rewrite (run_bind_Get KConfigMap). apply Hq. }
  apply Hget. intros [e|cm]; [|apply Hpub]. case_match; [by eexists|apply Hpub].
Qed.

(** What ends a pass writes the status of the cache and nothing else. *)
Lemma status_end cache c (p : prog (Result * option goerror)) :
  ready cache c →
  (∃ reason ctx err, p = failDegraded cache reason ctx err) ∨ (∃ ring b, p = finishPass cache ring b) →
  ∃ st c' res, run p c = (c', res) ∧ ready (mkCache (dc_meta cache) (Spec cache) st) c' ∧
    keeps [KDistributedCache] c c'.
Proof.
  intros Hrd Hp.
  assert (∃ cache' q, dc_meta cache' = dc_meta cache ∧ Spec cache' = Spec cache ∧
    p = StatusUpdate cache' ≫= q ∧ ∀ x c, ∃ res, run (q (inr x)) c = (c, res)) as (cache' & q & Hm & Hs & -> & Hq).
  { destruct Hp as [(reason & ctx & err & ->)|(ring & b & ->)]; eexists _, _;
      (split; [|split; [|split; [reflexivity|]]]); try done; intros x c0; cbn beta iota;
      repeat case_match; by eexists. }
  destruct (StatusUpdate_stage cache cache' c Hrd Hm Hs) as (c' & Hrun & Hrd' & Hk & _).
  destruct (Hq cache' c') as [res Hres]. exists (Status cache'), c', res. split; [by rewrite run_bind, Hrun|].
  split; [|done]. rewrite <- Hm, <- Hs. by destruct cache'.
Qed.

(** ** A pass that cannot publish the ring *)

(** Everything but the ring and the status is as in a pass that can. *)
Record unpublished (cache : DistributedCache) (c c' : Cluster) : Prop := {
  up_clock : clock c' = clock c;
  up_pods : stamped (clock c) (doomedOf cache c) (podKeys cache c) c c';
  up_replicas : replicasOf cache c' = heldReplicas cache (allDrained cache c) (replicasOf cache c);
  up_ring : store c' KConfigMap = store c KConfigMap
}.

Lemma ringRefused_other (l : list Kind) k : bool_decide (KConfigMap ∉ l) = true → k ∈ l → ringRefused k = false.
Proof. intros Hl%bool_decide_eq_true Hk. apply bool_decide_false. by intros ->. Qed.

(** A stage that writes no ConfigMap runs as it does on the ready cluster. *)
Lemma stage_failing {A} l (p : prog A) cache c c' a :
  ready cache c → safe (only l) p → bool_decide (KConfigMap ∉ kinds_of l) = true → run p c = (c', a) →
  run p (failing ringRefused c) = (failing ringRefused c', a).
Proof.
  intros Hrd Hp Hl. apply (run_failing _ l); [done|]. intros k Hk.
  by rewrite (rd_writes _ _ Hrd), (ringRefused_other (kinds_of l)).
Qed.

Lemma reconcileChildren_unpublished cache c :
  ready cache c → 0 <= specReplicas cache →
  ∃ st c' res, run (reconcileChildren cache) (failing ringRefused c) = (failing ringRefused c', res) ∧
    ready (mkCache (dc_meta cache) (Spec cache) st) c' ∧ unpublished cache c c'.
Proof.
  intros Hrd Hspec. unfold reconcileChildren.
  destruct (reconcileService_stage cache c Hrd) as (c1 & [] & R1 & Hrd1 & (Hc1 & _ & K1) & _).
  destruct (drainScaleDown_stage cache c1 Hrd1 Hspec) as (c2 & b & R2 & Hrd2 & (Hc2 & _ & K2) & Hst & Hb).
  destruct (reconcileStatefulSet_stage cache b c2 Hrd2) as (c3 & [] & R3 & Hrd3 & (Hc3 & _ & K3) & _ & _ & Hrep).
  destruct (reconcileRing_refused cache (failing ringRefused c3) eq_refl) as [r R4].
  eapply stage_failing in R1; [|exact Hrd|apply reconcileService_only|done].
  eapply stage_failing in R2; [|exact Hrd1|apply drainScaleDown_only|done].
  eapply stage_failing in R3; [|exact Hrd2|apply reconcileStatefulSet_only|done].
  assert (∃ st c' res, run (match r with
      | inl err => failDegraded cache ReasonRingFailed "reconcile ring" err
      | inr ring => finishPass cache ring b end) (failing ringRefused c3) = (failing ringRefused c', res) ∧
    ready (mkCache (dc_meta cache) (Spec cache) st) c' ∧ keeps [KDistributedCache] c3 c')
    as (st & c' & res & R5 & Hrd' & (Hc' & _ & K')).
  { set (p := match r with inl _ => _ | inr _ => _ end).
    destruct (status_end cache c3 p Hrd3) as (st & c' & res & R5 & H).
    { subst p. destruct r; [left; by eexists _, _, _|right; by eexists _, _]. }
    exists st, c', res. split; [|done]. apply (stage_failing [TStatusUpdate] _ cache c3); [exact Hrd3| |done|exact R5].
    subst p. destruct r; [apply failDegraded_only|apply finishPass_only]. }
  exists st, c', res. split.
  { rewrite run_bind, R1. cbv beta iota zeta. rewrite run_bind, run_ret. cbv beta iota zeta.
    rewrite run_bind, R2. cbv beta iota zeta. rewrite run_bind, R3. cbv beta iota zeta.
    by rewrite run_bind, R4. }
  assert (replicasOf cache c1 = replicasOf cache c) as E1 by (apply replicasOf_keeps, K1; set_solver).
  assert (podsOf cache c1 = podsOf cache c) as E2 by (apply podsOf_keeps, K1; set_solver).
  unfold allDrained, podKeys, doomedOf in *. rewrite E1, E2, Hc1 in *. split; [done|]. split; [congruence| | |].
  - intros key. rewrite K', K3, Hst, K1 by set_solver. done.
  - rewrite (replicasOf_keeps cache c3), Hrep, (replicasOf_keeps cache c1), E1, Hb
      by (rewrite ?K', ?K2 by set_solver; done). done.
  - by rewrite K', K3, K2, K1 by set_solver.
Qed.

Lemma Reconcile_unpublished cache c :
  ready cache c → 0 <= specReplicas cache →
  om_DeletionTimestamp (dc_meta cache) = None → drainFinalizer ∈ om_Finalizers (dc_meta cache) →
  ∃ st c' res, run (Reconcile (reqOf cache)) (failing ringRefused c) = (failing ringRefused c', res) ∧
    ready (mkCache (dc_meta cache) (Spec cache) st) c' ∧ unpublished cache c c'.
Proof.
  intros Hrd Hspec Hdel Hf.
  destruct (reconcileCell_stage cache c Hrd) as (c0 & [] & R0 & Hrd0 & K0 & _).
  destruct (reconcileChildren_unpublished cache c0 Hrd0 Hspec) as (st & c' & res & R & Hrd' & Hu).
  eapply stage_failing in R0; [|exact Hrd|apply reconcileCell_only|done].
  exists st, c', res. split_and!; [|done|].
  - unfold Reconcile. etransitivity; [apply (run_bind_Get KDistributedCache)|].
    cbn [nn_Namespace nn_Name reqOf]. pose proof (rd_cache _ _ Hrd) as Hc.
    change (@lookup okey DistributedCache) with (@lookup okey (obj KDistributedCache)) in Hc.
    change (store (failing ringRefused c) KDistributedCache) with (store c KDistributedCache).
    rewrite Hc. cbv beta iota. rewrite bool_decide_true by done. cbn [negb]. unfold reconcileLive.
    rewrite AddFinalizer_present by done. cbv beta iota zeta. rewrite set_dc_Finalizers_same, run_bind, R0.
    cbv beta iota zeta. exact R.
  - destruct Hu as [Hc1 Hp1 Hr1 Hring1]. pose proof K0 as (Hc & _ & K).
    unfold allDrained, podKeys, doomedOf, stamped, restamped in *.
    rewrite (replicasOf_keeps cache c c0), (podsOf_keeps cache c c0), Hc in * by (apply K; set_solver).
    setoid_rewrite K in Hp1; [|set_solver]. rewrite K in Hring1 by set_solver. by split.
Qed.

(** Pods whose drain began in the first pass are drained when the grace period is
    over, or there is nothing left to drain. *)
Lemma unpublished_drained cache c c' st d t :
  ready cache c → ready (mkCache (dc_meta cache) (Spec cache) st) c' → unpublished cache c c' →
  Replicas (Spec cache) = Some d → 0 <= d → int32_ok (GracePeriodSeconds (Drain (Spec cache))) →
  (∀ p, p ∈ podsOf cache c → pod_Annotations p !! drainAnnotation ≫= ParseInt = None) →
  sane_time (clock c) → sane_time t →
  t_sec (clock c) + GracePeriodSeconds (Drain (Spec cache)) <= t_sec t →
  allDrained cache (at_time t c') = true.
Proof.
  intros Hrd Hrd' [Hc Hst Hrep _] Hd Hd0 Hg Hnone Hs Ht Hwait. unfold allDrained.
  assert (doomedOf cache (at_time t c') = ∅ ∨ doomedOf cache (at_time t c') = doomedOf cache c) as [->| ->].
  { unfold doomedOf. change (replicasOf cache (at_time t c')) with (replicasOf cache c'). rewrite Hrep.
    unfold heldReplicas, specReplicas. rewrite Hd. simpl. destruct (replicasOf cache c) as [r|]; simpl.
    - case_match; [by right|]. left. by apply doomedNames_empty.
    - left. by apply doomedNames_empty. }
  { apply leaves_none. }
  apply forallb_forall. intros p' Hp'%list_elem_of_In.
  change (podsOf cache (at_time t c')) with (podsOf cache c') in Hp'.
  apply (listed_after _ cache c c' p' Hrd Hrd' Hst) in Hp' as (p & Hp & ->).
  unfold leaves. rewrite stampPod_Name. unfold stampPod. case_bool_decide as Hin; [|done]. simpl.
  rewrite (Hnone p Hp). apply drainedB_spec.
  apply (drained_stamp cache (clock c)); [apply startDrain_annotation|done..|].
  rewrite graceOf_int32 by done. change (clock (at_time t c')) with t. unfold sane_time, Second in *. nia.
Qed.

(** ** A pass with nothing to give up *)

Lemma pass_keeps_annotated cache c r d name p :
  ready cache c → ascii_pods c → om_DeletionTimestamp (dc_meta cache) = None →
  drainFinalizer ∈ om_Finalizers (dc_meta cache) → Replicas (Spec cache) = Some d → 0 <= d →
  replicasOf cache c = Some r → r <= d →
  store c KPod !! (targetNamespace cache, name) = Some p → is_Some (pod_Annotations p !! drainAnnotation) →
  ∃ c', run (Reconcile (reqOf cache)) c = (c', (passResult cache true, None)) ∧
    ready (observedStatus cache (ringOf cache c')) c' ∧ store c' KPod = store c KPod ∧
    replicasOf cache c' = Some d ∧ (name ∉ Members (ringOf cache c')).
Proof.
  intros Hrd Ha Hdel Hf Hd Hd0 Hr Hle Hp [v Hv].
  assert (specReplicas cache = d) as Hspec by (unfold specReplicas; by rewrite Hd).
  assert (doomedOf cache c = ∅) as Hdoom.
  { unfold doomedOf. rewrite Hr, Hspec. by apply doomedNames_empty. }
  assert (allDrained cache c = true) as Hall by (unfold allDrained; rewrite Hdoom; apply leaves_none).
  destruct (Reconcile_pass cache c) as (c' & Hrun & [Hrd' Hc Hst _ Hrep Hring _]); [done|done|lia|done..|].
  rewrite Hall in *. assert (store c' KPod = store c KPod) as Hpods.
  { apply map_eq. intros key. rewrite Hst, Hdoom. destruct (store c KPod !! key); [|done]. simpl.
    f_equal. case_bool_decide; [apply stampPod_empty|done]. }
  exists c'. split_and!; [done|done|done| |].
  - rewrite Hrep, Hr. unfold heldReplicas. by rewrite Hd.
  - rewrite Hring, desiredRing_Members, elem_of_computeMembers.
    intros (q & (Hq & Hns & _)%(elem_of_listing (observedStatus cache (ringOf cache c')) c') & <- & _ & Hsv & _); [|done].
    rewrite Hpods in Hq. unfold key_of in Hq. cbn [obj_meta] in Hq. rewrite Hns in Hq.
    change (om_Name (pod_meta q)) with (pod_Name q) in Hq.
    pose proof (eq_trans (eq_sym Hp) Hq) as [= ->]. by rewrite Hv in Hsv.
Qed.

Lemma passes_keep_annotated cache c r d name p ts t :
  ready cache c → ascii_pods c → om_DeletionTimestamp (dc_meta cache) = None →
  drainFinalizer ∈ om_Finalizers (dc_meta cache) → Replicas (Spec cache) = Some d → 0 <= d →
  replicasOf cache c = Some r → r <= d →
  store c KPod !! (targetNamespace cache, name) = Some p → is_Some (pod_Annotations p !! drainAnnotation) →
  ∃ c', run (Reconcile (reqOf cache)) (at_time t (passesAt (reqOf cache) ts c)) =
      (c', (passResult cache true, None)) ∧
    store c' KPod !! (targetNamespace cache, name) = Some p ∧
    replicasOf cache c' = Some d ∧ (name ∉ Members (ringOf cache c')).
Proof.
  revert cache c r. induction ts as [|u ts IH]; intros cache c r Hrd Ha Hdel Hf Hd Hd0 Hr Hle Hp Hv; simpl.
  - destruct (pass_keeps_annotated cache (at_time t c) r d name p) as (c' & Hrun & _ & Hpods & Hrest);
      [by apply ready_at_time|done..|]. exists c'. split; [done|]. rewrite Hpods. done.
  - destruct (pass_keeps_annotated cache (at_time u c) r d name p) as (c1 & -> & Hrd1 & Hpods & Hr1 & _);
      [by apply ready_at_time|done..|]. cbn [fst].
    apply (IH (observedStatus cache (ringOf cache c1)) c1 d); try done.
    + intros key q. rewrite Hpods. apply Ha.
    + exact (eq_trans (f_equal (lookup _) Hpods) Hp).
Qed.

(** ** Claims *)

(** C34: a scale-down that is taken back strands its pods. Take a live, finalized cache
    on a ready cluster whose StatefulSet is no larger than requested, and a stored pod
    that carries a drain annotation, readable or not. However many passes run at
    whatever times with nothing in between, each succeeds, asks for nothing but the
    poll of a cell, has the StatefulSet at the requested size, leaves the pod with its
    annotation as it is, and publishes a ring without it. *)
Theorem aborted_scale_down_strands_pods cache c r d name p ts t :
  ready cache c → ascii_pods c → om_DeletionTimestamp (dc_meta cache) = None →
  drainFinalizer ∈ om_Finalizers (dc_meta cache) → Replicas (Spec cache) = Some d → 0 <= d →
  replicasOf cache c = Some r → r <= d →
  store c KPod !! (targetNamespace cache, name) = Some p → is_Some (pod_Annotations p !! drainAnnotation) →
  ∃ c', run (Reconcile (reqOf cache)) (at_time t (passesAt (reqOf cache) ts c)) =
      (c', (passResult cache true, None)) ∧
    store c' KPod !! (targetNamespace cache, name) = Some p ∧
    replicasOf cache c' = Some d ∧ (name ∉ Members (ringOf cache c')).
Proof. apply passes_keep_annotated. Qed.

(** C35: the scale-down does not wait for the ring. Take a live, finalized cache on a
    cluster that is ready but for refusing ConfigMap writes, none of whose pods has
    begun to drain. A pass, the grace period and another pass leave the StatefulSet at
    the requested replica count, and every ConfigMap, the ring with the pods given up
    included, as it was. *)
Theorem shrinks_before_ring_is_published cache c d t c1 res1 c2 res2 :
  ready cache c → om_DeletionTimestamp (dc_meta cache) = None →
  drainFinalizer ∈ om_Finalizers (dc_meta cache) → Replicas (Spec cache) = Some d → 0 <= d →
  int32_ok (GracePeriodSeconds (Drain (Spec cache))) →
  (∀ p, p ∈ podsOf cache c → pod_Annotations p !! drainAnnotation ≫= ParseInt = None) →
  sane_time (clock c) → sane_time t →
  t_sec (clock c) + GracePeriodSeconds (Drain (Spec cache)) <= t_sec t →
  run (Reconcile (reqOf cache)) (failing ringRefused c) = (c1, res1) →
  run (Reconcile (reqOf cache)) (at_time t c1) = (c2, res2) →
  replicasOf cache c2 = Some d ∧ store c2 KConfigMap = store c KConfigMap ∧
  ringOf cache c2 = ringOf cache c.
Proof.
  intros Hrd Hdel Hf Hd Hd0 Hg Hnone Hs Ht Hwait Hrun1 Hrun2.
  assert (0 <= specReplicas cache) as Hspec by (unfold specReplicas; by rewrite Hd).
  destruct (Reconcile_unpublished cache c Hrd Hspec Hdel Hf) as (st & c1' & r1 & E1 & Hrd1 & Hu1).
  rewrite Hrun1 in E1. injection E1 as -> _.
  pose proof (unpublished_drained cache c c1' st d t Hrd Hrd1 Hu1 Hd Hd0 Hg Hnone Hs Ht Hwait) as Hall.
  destruct (Reconcile_unpublished _ (at_time t c1') (ready_at_time _ _ t Hrd1) Hspec Hdel Hf)
    as (st2 & c2' & r2 & E2 & _ & [_ _ Hrep Hcm]).
  change (at_time t (failing ringRefused c1')) with (failing ringRefused (at_time t c1')) in Hrun2.
  assert (failing ringRefused c2' = c2) as <-.
  { pose proof (eq_trans (eq_sym E2) Hrun2) as [= <- _]. done. }
  assert (store (failing ringRefused c2') KConfigMap = store c KConfigMap) as Hring.
  { exact (eq_trans Hcm (up_ring _ _ _ Hu1)). }
  split_and!; [|done|by apply ringOf_keeps]. refine (eq_trans Hrep _).
  rewrite (Hall : allDrained (mkCache (dc_meta cache) (Spec cache) st) (at_time t c1') = true).
  unfold heldReplicas. cbn [Spec]. rewrite Hd. by case_match.
Qed.

End Gaps.
