(* ===== verification/Interrupt.v ===== *)
(** * Interrupted passes

    The operator may stop at any call of a pass: it crashes, loses its leadership,
    is evicted. [runFor n p c] is the cluster after the first [n] calls of [p].
    Because every stage leaves what an earlier, interrupted run of it has done alone,
    a pass that is cut short and run again ends like one that was not. *)

From S2P Require Import Prelude GoLib Json Api Kube KubeRef Names Ring Cell Workload Status.
From S2P Require Import RingPublish Drain Reconciler Passes Stages Converge.

#[local] Existing Instance refKube.
Local Open Scope Z_scope.
Local Open Scope prog_scope.

(** ** Equal clusters *)

Record eqc (c c' : Cluster) : Prop := {
  eqc_store : ∀ k, store c k = store c' k;
  eqc_clock : clock c = clock c';
  eqc_writes : writes_fail c = writes_fail c'
}.

#[global] Instance eqc_equivalence : Equivalence eqc.
Proof.
  split.
  - by split.
  - intros c c' [H1 H2 H3]. by split.
  - intros c1 c2 c3 [H1 H2 H3] [G1 G2 G3]. split; [|congruence..]. intros k. by rewrite H1.
Qed.

#[global] Instance put_proper k o : Proper (eqc ==> eqc) (@put k o).
Proof. intros c c' [H1 H2 H3]. split; [|done..]. intros k'. simpl. by rewrite H1. Qed.

#[global] Instance remove_proper k key : Proper (eqc ==> eqc) (remove k key).
Proof. intros c c' [H1 H2 H3]. split; [|done..]. intros k'. simpl. by rewrite H1. Qed.

(** Results agree when the clusters are equal and the answers the same. *)
Definition eqr {A} (x y : Cluster * A) : Prop := eqc x.1 y.1 ∧ x.2 = y.2.

#[global] Instance eqr_equivalence A : Equivalence (@eqr A).
Proof.
  split.
  - by split.
  - intros x y [H1 H2]. by split.
  - intros x y z [H1 H2] [G1 G2]. split; [by etransitivity|congruence].
Qed.

Lemma server_eqc o c c' : eqc c c' → eqr (server o c) (server o c').
Proof.
  intros Hc. pose proof Hc as [H1 H2 H3].
  destruct o as [k key|ns sel|k o|d|k o|k o f|ty r m|]; simpl;
    unfold server_update, server_cou; rewrite ?H1, ?H2, ?H3;
    repeat case_match; (split; [simpl; by rewrite Hc|done]).
Qed.

Lemma run_eqc {A} (p : prog A) c c' : eqc c c' → eqr (run p c) (run p c').
Proof.
  unfold run. revert c c'. induction p as [a|o k IH]; intros c c' Hc; [by split|]. simpl.
  destruct (server_eqc o c c' Hc) as [Hs Hr]. destruct (server o c) as [c1 r], (server o c') as [c1' r'].
  simpl in Hs, Hr. subst r'. specialize (IH r c1 c1' Hs).
  by destruct (interp server (k r) c1) as [[c2 t] a], (interp server (k r) c1') as [[c2' t'] a'].
Qed.

(** ** Runs cut short *)

Fixpoint runFor {A} (n : nat) (p : prog A) (c : Cluster) : Cluster :=
  match n, p with
  | S n, Vis o k => let '(c1, r) := server o c in runFor n (k r) c1
  | _, _ => c
  end.

(** A sequence is cut in its first part or, after that, in its second. *)
Lemma runFor_bind {A B} n (p : prog A) (f : A → prog B) c c1 a :
  run p c = (c1, a) →
  runFor n (p ≫= f) c = runFor n p c ∨ ∃ m, runFor n (p ≫= f) c = runFor m (f a) c1.
Proof.
  unfold run, mbind, prog_mbind. revert n c. induction p as [b|o k IH]; intros n c; simpl.
  - intros [= <- <-]. right. by exists n.
  - destruct (server o c) as [c' r] eqn:Hs. specialize (IH r). destruct n as [|n]; [by left|]. simpl. rewrite Hs.
    destruct (interp server (k r) c') as [[c2 t] b] eqn:Hi. intros [= <- <-].
    specialize (IH n c'). rewrite Hi in IH. by apply IH.
Qed.

Lemma runFor_ebind {A B} n (p : prog (goerror + A)) (f : A → prog (goerror + B)) c c1 a :
  run p c = (c1, inr a) →
  runFor n (ebind p f) c = runFor n p c ∨ ∃ m, runFor n (ebind p f) c = runFor m (f a) c1.
Proof. exact (runFor_bind n p (λ r, match r with inl e => Ret (inl e) | inr a => f a end) c c1 (inr a)). Qed.

Lemma runFor_keeps {A} l n (p : prog A) c : safe (only l) p → keeps (kinds_of l) c (runFor n p c).
Proof.
  revert n c. induction p as [a|o k IH]; intros [|n] c; try (intros; apply keeps_refl).
  intros [Ho Hk]. simpl. pose proof (server_keeps o c (kinds_of l)) as Hs.
  destruct (server o c) as [c1 r]. eapply keeps_trans; [|by apply IH]. apply Hs. intros k' Hk'.
  apply list_elem_of_omap. exists (op_tag o). split; [|done]. by apply bool_decide_eq_true in Ho.
Qed.

(** *** Programs that can be cut short and run again *)

(** Cut short anywhere, [p] is complete or, run again, ends as it would have. *)
Definition resumes {A} (p : prog A) (c c' : Cluster) (a : A) : Prop :=
  run p c = (c', a) ∧ ∀ n, runFor n p c = c' ∨ eqr (run p (runFor n p c)) (c', a).

(** Nothing is left to do for [p]; it would answer [a] again. *)
Definition rests {A} (p : prog A) (a : A) (x : Cluster) : Prop := eqr (run p x) (x, a).

Lemma resumes_bind {A B} (p : prog A) (f : A → prog B) c c1 c2 a b :
  resumes p c c1 a → resumes (f a) c1 c2 b →
  (∀ m, runFor m (f a) c1 = c2 ∨ rests p a (runFor m (f a) c1)) →
  resumes (p ≫= f) c c2 b.
Proof.
  intros [Hp Hp'] [Hf Hf'] Hr. split; [by rewrite run_bind, Hp|]. intros n. rewrite run_bind.
  assert (∀ x y, eqr (run p x) (y, a) → eqr (run (f a) y) (c2, b) →
    eqr (let '(c1, a) := run p x in run (f a) c1) (c2, b)) as Hgo.
  { intros x y. destruct (run p x) as [x' a']. intros [Hx Ha] Hy. simpl in Hx, Ha. subst a'.
    etransitivity; [by apply run_eqc|done]. }
  destruct (runFor_bind n p f c c1 a Hp) as [->|[m ->]].
  - destruct (Hp' n) as [->|H]; [|right; apply (Hgo _ c1); [done|by rewrite Hf]].
    destruct (Hr 0%nat) as [H|H]; [by left|right]. apply (Hgo _ c1); [done|by rewrite Hf].
  - destruct (Hr m) as [H|H]; [by left|]. destruct (Hf' m) as [H'|H']; [by left|right].
    by apply (Hgo _ (runFor m (f a) c1)).
Qed.

(** A program cut short leaves what it found or what it makes. *)
Definition atomic {A} (p : prog A) (c : Cluster) : Prop :=
  ∀ n, runFor n p c = c ∨ runFor n p c = (run p c).1.

Lemma atomic_resumes {A} (p : prog A) c c' a : run p c = (c', a) → atomic p c → resumes p c c' a.
Proof.
  intros Hp Ha. split; [done|]. intros n. destruct (Ha n) as [->| ->]; [right|left]; by rewrite Hp.
Qed.

(** Calls that write nothing leave the cluster alone. *)
Definition readOnly (o : Op) : Prop := tag_kind (op_tag o) = None.

Lemma server_readOnly o c : readOnly o → (server o c).1 = c.
Proof. by destruct o. Qed.

Lemma readOnly_runs {A} (p : prog A) c :
  safe readOnly p → (run p c).1 = c ∧ ∀ n, runFor n p c = c.
Proof.
  unfold run. revert c. induction p as [a|o k IH]; intros c; [by intros _; split; [|intros []]|].
  intros [Ho Hk]. simpl. pose proof (server_readOnly o c Ho) as Hs. destruct (server o c) as [c1 r] eqn:E. simpl in Hs. subst c1.
  destruct (IH r c (Hk r)) as [H1 H2]. split; [|by intros [|n]; [|simpl; rewrite E; apply H2]].
  by destruct (interp server (k r) c) as [[c2 t] a].
Qed.

(** Reading first does not matter. *)
Lemma cut_read {A B} (P : Cluster → Prop) n (p : prog A) (f : A → prog B) c c' a :
  safe readOnly p → run p c = (c', a) → (∀ m, P (runFor m (f a) c)) → P (runFor n (p ≫= f) c).
Proof.
  intros Hp Hr HP. destruct (readOnly_runs p c Hp) as [H1 H2]. rewrite Hr in H1. simpl in H1. subst c'.
  destruct (runFor_bind n p f c c a Hr) as [->|[m ->]]; [|done]. rewrite H2. apply (HP 0%nat).
Qed.

Lemma cut_eread {A B} (P : Cluster → Prop) n (p : prog (goerror + A)) (f : A → prog (goerror + B)) c c' a :
  safe readOnly p → run p c = (c', inr a) → (∀ m, P (runFor m (f a) c)) → P (runFor n (ebind p f) c).
Proof.
  exact (cut_read P n p (λ r, match r with inl e => Ret (inl e) | inr a => f a end) c c' (inr a)).
Qed.

Lemma atomic_write_here {A} o (k : Resp o → prog A) c :
  safe readOnly (k (server o c).2) → atomic (Vis o k) c.
Proof.
  intros Hk [|n]; [by left|right]. simpl. unfold run. simpl. destruct (server o c) as [c1 r].
  destruct (readOnly_runs (k r) c1 Hk) as [H1 ->]. unfold run in H1.
  by destruct (interp server (k r) c1) as [[c2 t] a].
Qed.

Lemma atomic_write {A} o (k : Resp o → prog A) c : (∀ r, safe readOnly (k r)) → atomic (Vis o k) c.
Proof. intros Hk. apply atomic_write_here, Hk. Qed.

(** Reads first, then what is atomic. *)
Lemma atomic_read {A} o (k : Resp o → prog A) c :
  readOnly o → atomic (k (server o c).2) c → atomic (Vis o k) c.
Proof.
  intros Ho Hk n. unfold atomic, run in *. simpl. pose proof (server_readOnly o c Ho) as Hs.
  destruct n as [|n]; [by left|]. simpl. destruct (server o c) as [c1 r]. simpl in *. subst c1.
  specialize (Hk n). by destruct (interp server (k r) c) as [[c2 t] a].
Qed.

Lemma reportOp_readOnly op reason msg : safe readOnly (reportOp op reason msg).
Proof. unfold reportOp, Eventf. repeat safe_step; reflexivity. Qed.

Lemma atomic_child k (o : obj k) f ctx (report : string * obj k → prog (goerror + unit)) c :
  (∀ r, safe readOnly (report r)) → atomic (ebind (wrapf ctx (CreateOrUpdate k o f)) report) c.
Proof. intros Hr. apply atomic_write. by intros [e|r]; [|apply Hr]. Qed.

Lemma atomic_update ctx k (o : obj k) c : atomic (wrapf ctx (Update k o)) c.
Proof. apply atomic_write. done. Qed.

Lemma resumes_ret {A} (a : A) c : resumes (mret a) c c a.
Proof. split; [done|]. intros n. left. by destruct n. Qed.

Lemma resumes_wrapf {A} ctx (p : prog (goerror + A)) c c' a :
  resumes p c c' (inr a) → resumes (wrapf ctx p) c c' (inr a).
Proof. intros Hp. eapply resumes_bind; [done|apply resumes_ret|]. intros m. left. by destruct m. Qed.

Lemma rests_wrapf {A} ctx (p : prog (goerror + A)) a x :
  rests p (inr a) x → rests (wrapf ctx p) (inr a) x.
Proof.
  unfold rests. rewrite run_wrapf. destruct (run p x) as [x' r]. intros [Hx Hr]. simpl in Hx, Hr. by subst r.
Qed.

(** ** The stages resume *)

Section Stages.
Context `{SS : SliceSort}.

Lemma settles_rests p k c x :
  settles p k c → store x k = store c k → writes_fail x k = false → rests p (inr tt) x.
Proof. intros Hs Hx Hw. unfold rests. by rewrite (Hs x Hx Hw). Qed.

(** A settled stage rests through whatever the later stages do to other kinds. *)
Lemma settled_later {B} p k c (q : prog B) l m :
  settles p k c → (∀ k, writes_fail c k = false) → safe (only l) q →
  bool_decide (k ∉ kinds_of l) = true → rests p (inr tt) (runFor m q c).
Proof.
  intros Hs Hw Hq Hk%bool_decide_eq_true. destruct (runFor_keeps l m q c Hq) as (_ & Hwf & K).
  eapply settles_rests; [done|by apply K|by rewrite Hwf].
Qed.

(** One child after another. *)
Lemma resumes_children {B} ctx p k (rest : prog (goerror + B)) l c c1 c2 b :
  run p c = (c1, inr tt) → settles p k c1 → (∀ k, writes_fail c1 k = false) → atomic p c →
  resumes rest c1 c2 b → safe (only l) rest → bool_decide (k ∉ kinds_of l) = true →
  resumes (wrapf ctx p ;;? rest) c c2 b.
Proof.
  intros Hp Hs Hw Ha Hr Hl Hk. apply (resumes_bind _ _ c c1 c2 (inr tt) b); [|exact Hr|].
  - by apply resumes_wrapf, atomic_resumes.
  - intros m. right. apply rests_wrapf. by eapply settled_later.
Qed.

Lemma atomic_namespace cache c : atomic (reconcileCellNamespace cache) c.
Proof. apply atomic_child. intros [op o]. apply reportOp_readOnly. Qed.
Lemma atomic_quota cache c : atomic (reconcileResourceQuota cache) c.
Proof. apply atomic_child. intros [op o]. apply reportOp_readOnly. Qed.
Lemma atomic_netpol cache c : atomic (reconcileNetworkPolicy cache) c.
Proof. apply atomic_child. intros [op o]. apply reportOp_readOnly. Qed.
Lemma atomic_service cache c : atomic (reconcileService cache) c.
Proof. apply atomic_child. intros [op o]. apply reportOp_readOnly. Qed.
Lemma atomic_statefulset cache b c : atomic (reconcileStatefulSet cache b) c.
Proof. apply atomic_child. intros [op o]. apply reportOp_readOnly. Qed.

Lemma reconcileCell_resumes cache c c' :
  ready cache c → run (reconcileCell cache) c = (c', inr tt) → resumes (reconcileCell cache) c c' (inr tt).
Proof.
  intros Hrd. unfold reconcileCell. destruct (isolated cache); cbn [negb];
    [|intros [= <-]; apply resumes_ret].
  destruct (reconcileCellNamespace_stage cache c Hrd) as (c1 & [] & R1 & Hrd1 & _ & S1).
  destruct (reconcileResourceQuota_stage cache c1 Hrd1) as (c2 & [] & R2 & Hrd2 & _ & S2).
  destruct (reconcileNetworkPolicy_stage cache c2 Hrd2) as (c3 & [] & R3 & Hrd3 & _ & S3).
  rewrite run_ebind, run_wrapf, R1, run_ebind, run_wrapf, R2, run_ebind, run_wrapf, R3. intros [= <-].
  eapply (resumes_children _ _ KNamespace _
    [TCreateOrUpdate KResourceQuota; TCreateOrUpdate KNetworkPolicy; TEvent]);
    [done|done|apply Hrd1|apply atomic_namespace| | |done].
  - eapply (resumes_children _ _ KResourceQuota _ [TCreateOrUpdate KNetworkPolicy; TEvent]);
      [done|done|apply Hrd2|apply atomic_quota| | |done].
    + eapply (resumes_children _ _ KNetworkPolicy _ []);
        [done|done|apply Hrd3|apply atomic_netpol|apply resumes_ret|done|done].
    + unfold reconcileNetworkPolicy, CreateOrUpdate. repeat (safe_step || apply reportOp_only); done.
  - unfold reconcileResourceQuota, reconcileNetworkPolicy, CreateOrUpdate.
    repeat (safe_step || apply reportOp_only); done.
Qed.

(** ** The drain resumes *)

(** What a drain that is cut short leaves: some of its pods treated by [f]. *)
Definition halfway (f : Pod → Pod) (keys : list okey) (cache : DistributedCache) (c x : Cluster) : Prop :=
  ready cache x ∧ ∃ done_keys, done_keys ⊆ keys ∧ restamped f done_keys c x.

Lemma halfway_refl f keys cache c : ready cache c → halfway f keys cache c c.
Proof. intros Hrd. split; [done|]. exists []. split; [set_solver|apply restamped_nil]. Qed.

(** After the first pod, cut in the rest. *)
Lemma halfway_cons f keys cache c c1 x (p : Pod) :
  @key_of KPod p ∉ keys → store c KPod !! (@key_of KPod p) = Some p →
  store c1 KPod = <[@key_of KPod p := f p]> (store c KPod) →
  halfway f keys cache c1 x → halfway f (@key_of KPod p :: keys) cache c x.
Proof.
  intros Hin Hp Hs (Hrd & ks & Hks & Hst). split; [done|]. exists (@key_of KPod p :: ks).
  split; [set_solver|]. eapply restamped_update; [set_solver|done|done|done].
Qed.

Lemma halfway_mono f keys keys' cache c x :
  keys ⊆ keys' → halfway f keys cache c x → halfway f keys' cache c x.
Proof. intros Hk (Hrd & ks & Hks & Hst). split; [done|]. exists ks. split; [set_solver|done]. Qed.

Lemma elem_of_podsOf cache y p :
  ready cache y → p ∈ podsOf cache y ↔ store y KPod !! (@key_of KPod p) = Some p ∧ @key_of KPod p ∈ podKeys cache y.
Proof.
  intros Hy. split.
  - intros Hp. pose proof (proj1 (elem_of_listing cache y _ _ p Hy) Hp) as [Hl _]. split; [done|].
    apply list_elem_of_fmap. eauto.
  - intros [Hl Hk]. by apply (podKeys_listed cache cache y _ p Hy Hl).
Qed.

(** The pods of a cluster halfway through, for a treatment that leaves names,
    namespaces and labels alone. *)
Section Halfway.
Variables (f : Pod → Pod) (cache : DistributedCache) (c : Cluster).
Hypothesis Hready : ready cache c.
Hypothesis Hkey : ∀ p, @key_of KPod (f p) = @key_of KPod p.
Hypothesis Hlabels : ∀ p, om_Labels (pod_meta (f p)) = om_Labels (pod_meta p).

Abbreviation half := (halfway f (podKeys cache c) cache c).

Lemma half_pod x key :
  half x →
  ∃ g, (g = id ∨ (key ∈ podKeys cache c ∧ g = f)) ∧ store x KPod !! key = g <$> store c KPod !! key.
Proof.
  intros (_ & ks & Hks & Hst). rewrite Hst. case_bool_decide; eexists; (split; [|reflexivity]); [right|by left].
  split; [set_solver|done].
Qed.

Lemma half_listed x key : half x → key ∈ podKeys cache x ↔ key ∈ podKeys cache c.
Proof.
  intros Hx. pose proof (proj1 Hx) as Hrx. destruct (half_pod x key Hx) as (g & Hg & Hl).
  assert (∀ y, ready cache y → key ∈ podKeys cache y ↔ ∃ p, store y KPod !! key = Some p ∧
    om_Namespace (pod_meta p) = targetNamespace cache ∧ podLabels cache ⊆ om_Labels (pod_meta p)) as Hkeys.
  { intros y Hy. unfold podKeys. rewrite list_elem_of_fmap. split.
    - intros (p & -> & Hp). exists p. by apply (elem_of_listing cache y) in Hp.
    - intros (p & Hp & Hm). pose proof (rd_keys _ _ Hy KPod _ _ Hp) as Hk. exists p. split; [done|].
      apply (elem_of_listing cache y); [done|]. rewrite Hk. by split. }
  assert (∀ p, om_Namespace (pod_meta (f p)) = om_Namespace (pod_meta p)) as Hns.
  { intros p. by pose proof (f_equal fst (Hkey p)). }
  rewrite !Hkeys by done. rewrite Hl. destruct Hg as [->|[_ ->]].
  - by destruct (store c KPod !! key).
  - destruct (store c KPod !! key) as [p|]; [|naive_solver]. simpl. split.
    + intros (p' & [= <-] & Hm). rewrite Hns, Hlabels in Hm. eauto.
    + intros (p' & [= <-] & Hm). eexists. split; [done|]. by rewrite Hns, Hlabels.
Qed.

(** A test the treatment does not affect comes out the same. *)
Lemma half_forallb (t : Pod → bool) x :
  (∀ p, t (f p) = t p) → half x → forallb t (podsOf cache x) = forallb t (podsOf cache c).
Proof.
  intros Ht Hx. apply eq_iff_eq_true. rewrite !forallb_forall.
  pose proof (proj1 Hx) as Hrx. split; intros H p Hp%list_elem_of_In.
  - apply (elem_of_podsOf cache c p Hready) in Hp as [Hl Hk].
    destruct (half_pod x (@key_of KPod p) Hx) as (g & Hg & Hlx0).
    pose proof (eq_trans Hlx0 (f_equal (fmap g) Hl)) as Hlx. simpl in Hlx.
    assert (t (g p) = true) as Hgp.
    { apply H, list_elem_of_In, elem_of_podsOf; [done|].
      assert (@key_of KPod (g p) = @key_of KPod p) as -> by (destruct Hg as [->|[_ ->]]; [done|apply Hkey]).
      split; [done|]. by apply half_listed. }
    destruct Hg as [->|[_ ->]]; [done|]. by rewrite Ht in Hgp.
  - apply (elem_of_podsOf cache x p Hrx) in Hp as [Hl Hk]. apply half_listed in Hk; [|done].
    destruct (half_pod x (@key_of KPod p) Hx) as (g & Hg & Hlx0).
    pose proof (eq_trans (eq_sym Hlx0) Hl) as Hlx. apply fmap_Some in Hlx as (q & Hq & ->).
    assert (t q = true) as Hgq.
    { apply H, list_elem_of_In, elem_of_podsOf; [done|]. pose proof (rd_keys _ _ Hready KPod _ _ Hq) as Hqk.
      rewrite Hqk. done. }
    destruct Hg as [->|[_ ->]]; [done|]. by rewrite Ht.
Qed.

(** Treating the pods again completes the treatment. *)
Lemma half_completes x x' :
  (∀ p, f (f p) = f p) → half x → restamped f (podKeys cache x) x x' →
  restamped f (podKeys cache c) c x'.
Proof.
  intros Hidem Hx Hst key. rewrite Hst. destruct (half_pod x key Hx) as (g & Hg & ->).
  rewrite (bool_decide_ext (key ∈ podKeys cache x) (key ∈ podKeys cache c)) by by apply half_listed.
  destruct (store c KPod !! key) as [p|]; [|done]. simpl. f_equal.
  case_bool_decide; destruct Hg as [->|[? ->]]; by try apply Hidem.
Qed.

End Halfway.

Lemma restamped_unique f keys c x y :
  restamped f keys c x → restamped f keys c y → store x KPod = store y KPod.
Proof. intros Hx Hy. apply map_eq. intros key. by rewrite Hx, Hy. Qed.

Lemma eqc_pods l x y :
  keeps l x y → (∀ k, k ∈ l → store x k = store y k) → eqc y x.
Proof.
  intros (H1 & H2 & H3) Hl. split; [|done|done]. intros k. destruct (decide (k ∈ l)); [by rewrite Hl|by apply H3].
Qed.

Lemma drainPods_cut n grace now doomed gs pods b cache c :
  ready cache c → NoDup (key_of (k := KPod) <$> pods) →
  (∀ p, p ∈ pods → store c KPod !! (@key_of KPod p) = Some p) →
  halfway (stampPod now doomed) (key_of (k := KPod) <$> pods) cache c
    (runFor n (drainPods grace now doomed gs pods b) c).
Proof.
  revert n b c. induction pods as [|p pods IH]; intros n b c Hrd Hnd Hpods.
  { destruct n; by apply halfway_refl. }
  rewrite fmap_cons in *. apply NoDup_cons in Hnd as [Hp Hnd]. cbn [drainPods].
  pose proof (Hpods p ltac:(left)) as Hpl.
  assert (∀ n b, halfway (stampPod now doomed) (@key_of KPod p :: (key_of (k := KPod) <$> pods)) cache c
    (runFor n (drainPods grace now doomed gs pods b) c)) as Hskip.
  { intros n' b'. eapply halfway_mono; [|apply IH; [done|done|set_solver]]. set_solver. }
  destruct (pod_update_stage cache c p (startDrain now p)) as (c1 & q & R1 & Hrd1 & _ & Hs1);
    [done|done|done|exact (rd_pods _ _ Hrd _ _ Hpl)|].
  assert (stampPod now doomed p = startDrain now p → ∀ ctx (f : obj KPod → prog (goerror + bool)),
    (∀ m, runFor m (f q) c1 = c1 ∨
       ∃ m', runFor m (f q) c1 = runFor m' (drainPods grace now doomed gs pods false) c1) →
    halfway (stampPod now doomed) (@key_of KPod p :: (key_of (k := KPod) <$> pods)) cache c
      (runFor n (ebind (wrapf ctx (Update KPod (startDrain now p))) f) c)) as Hgo.
  { intros Hst ctx f Hrest.
    assert (∀ m, halfway (stampPod now doomed) (@key_of KPod p :: (key_of (k := KPod) <$> pods)) cache c
      (runFor m (f q) c1)) as Hc1.
    { intros m. eapply halfway_cons; [done|done|by rewrite Hst|].
      destruct (Hrest m) as [->|[m' ->]]; [by apply halfway_refl|]. apply IH; [done|done|].
      intros r Hr. rewrite Hs1, lookup_insert_ne; [set_solver|].
      intros Heq. apply Hp. rewrite Heq. apply list_elem_of_fmap. eauto. }
    assert (run (wrapf ctx (Update KPod (startDrain now p))) c = (c1, inr q)) as Hw
      by by rewrite run_wrapf, R1.
    destruct (runFor_ebind n _ f c c1 q Hw) as [->|[m ->]]; [|apply Hc1].
    destruct (atomic_update ctx KPod (startDrain now p) c n) as [->| ->]; [by apply halfway_refl|].
    rewrite Hw. exact (Hc1 0%nat). }
  unfold stampPod in Hgo. case_bool_decide as Hd; cbn [negb]; [|apply Hskip].
  destruct (pod_Annotations p !! drainAnnotation) as [st|] eqn:Ha; simpl in Hgo.
  - destruct (ParseInt st) as [ts|]; [apply Hskip|]. apply Hgo; [done|]. intros m. right. by exists m.
  - apply Hgo; [done|]. intros [|m]; [by left|]. right. by exists m.
Qed.

Lemma drainScaleDown_cut n cache c :
  ready cache c →
  halfway (stampPod (clock c) (doomedOf cache c)) (podKeys cache c) cache c (runFor n (drainScaleDown cache) c).
Proof.
  intros Hrd. set (P := halfway (stampPod (clock c) (doomedOf cache c)) (podKeys cache c) cache c).
  assert (∀ m (r : goerror + bool), P (runFor m (mret r) c)) as Hret.
  { intros m r. destruct m; by apply halfway_refl. }
  apply (cut_read P n (Get KStatefulSet (mkNN (targetNamespace cache) (dc_Name cache))) _ c c _
    ltac:(done) (run_Get _ _ _)).
  cbn [nn_Namespace nn_Name]. fold (stsKey cache). intros m.
  destruct (store c KStatefulSet !! stsKey cache) as [sts|] eqn:Es; [|apply Hret].
  rewrite <- (replicasOf_stored _ _ _ Es). destruct (_ <=? _); [apply Hret|].
  eapply (cut_eread P); [by repeat split|by rewrite run_wrapf, run_ListPods|]. intros m'.
  eapply (cut_read P); [by repeat split|apply run_Now|]. intros m''.
  apply drainPods_cut; [done|by eapply NoDup_listing|].
  intros p Hp. eapply elem_of_listing in Hp; [|done]. apply Hp.
Qed.

(** *** Draining again from there *)

Section Drain.
Variables (cache : DistributedCache) (c : Cluster).
Hypothesis Hready : ready cache c.
Hypothesis Hspec : 0 <= specReplicas cache.
Hypothesis Hsane : sane_time (clock c).
Hypothesis Hgrace : int32_ok (GracePeriodSeconds (Drain (Spec cache))).
Hypothesis Hgrace1 : 1 <= GracePeriodSeconds (Drain (Spec cache)).

Abbreviation stamp := (stampPod (clock c) (doomedOf cache c)).
Abbreviation half := (halfway (stampPod (clock c) (doomedOf cache c)) (podKeys cache c) cache c).

(** A pod stamped just now is as little drained as one that was not stamped. *)
Lemma leaves_stamp p :
  leaves (graceOf cache) (clock c) (doomedOf cache c) (stamp p) =
  leaves (graceOf cache) (clock c) (doomedOf cache c) p.
Proof.
  unfold leaves. rewrite stampPod_Name. unfold stampPod. case_bool_decide; [|done]. simpl.
  destruct (pod_Annotations p !! drainAnnotation ≫= ParseInt) as [ts|] eqn:Ha; [done|].
  rewrite drainedB_just_stamped by done. unfold drainedB. by rewrite Ha.
Qed.

Lemma stamp_key p : @key_of KPod (stamp p) = @key_of KPod p.
Proof. unfold stampPod. by repeat case_match. Qed.

Lemma stamp_labels p : om_Labels (pod_meta (stamp p)) = om_Labels (pod_meta p).
Proof. unfold stampPod. by repeat case_match. Qed.

Lemma half_allDrained x :
  half x → clock x = clock c → replicasOf cache x = replicasOf cache c →
  allDrained cache x = allDrained cache c ∧ doomedOf cache x = doomedOf cache c.
Proof.
  intros Hx Hcl Hrep. assert (doomedOf cache x = doomedOf cache c) as Hd by (unfold doomedOf; by rewrite Hrep).
  split; [|done]. unfold allDrained. rewrite Hd, Hcl.
  by apply (half_forallb stamp cache c Hready stamp_key stamp_labels _ x leaves_stamp).
Qed.

(** Run again from there, the drain completes the stamping and answers the same. *)
Lemma drain_again x :
  half x → clock x = clock c → replicasOf cache x = replicasOf cache c →
  ∃ x', run (drainScaleDown cache) x = (x', inr (allDrained cache c)) ∧ keeps [KPod] x x' ∧
    stamped (clock c) (doomedOf cache c) (podKeys cache c) c x'.
Proof.
  intros Hx Hcl Hrep. pose proof (proj1 Hx) as Hrx. destruct (half_allDrained x Hx Hcl Hrep) as [Hall Hd].
  destruct (drainScaleDown_stage cache x Hrx Hspec) as (x' & b & R & _ & K & Hst & Hb).
  exists x'. rewrite R, Hb, Hall. split_and!; [done|done|]. rewrite Hd, Hcl in Hst.
  apply (half_completes stamp cache c Hready stamp_key stamp_labels x); [|done|exact Hst].
  intros p. apply stampPod_idem.
Qed.

Lemma drainScaleDown_resumes c2 b :
  run (drainScaleDown cache) c = (c2, inr b) → resumes (drainScaleDown cache) c c2 (inr b).
Proof.
  intros Hr. split; [done|]. intros n. right.
  destruct (drainScaleDown_stage cache c Hready Hspec) as (c2' & b' & R & _ & K & Hst & Hb).
  rewrite Hr in R. injection R as <- <-.
  pose proof (runFor_keeps _ n _ c (drainScaleDown_only cache)) as (Hcl & Hwf & Kn).
  assert (replicasOf cache (runFor n (drainScaleDown cache) c) = replicasOf cache c) as Hrep.
  { apply replicasOf_keeps, Kn. apply (bool_decide_unpack _). exact I. }
  destruct (drain_again _ (drainScaleDown_cut n cache c Hready) Hcl Hrep) as (x' & -> & Kx & Hx).
  rewrite Hb. split; [|done]. simpl.
  destruct K as (K1 & K2 & K3), Kx as (Kx1 & Kx2 & Kx3). split; [|congruence|congruence].
  intros k. destruct (decide (k = KPod)) as [->|Hk]; [by eapply restamped_unique|].
  rewrite Kx3, K3 by set_solver. apply Kn. intros Hin. revert Hk.
  change (kinds_of _) with [KPod] in Hin. set_solver.
Qed.

(** Once complete it has nothing more to do, before and after the StatefulSet has
    been given its size. *)
Lemma drainScaleDown_rests d x :
  Replicas (Spec cache) = Some d → ready cache x → clock x = clock c →
  stamped (clock c) (doomedOf cache c) (podKeys cache c) c x →
  replicasOf cache x = replicasOf cache c ∨
    replicasOf cache x = heldReplicas cache (allDrained cache c) (replicasOf cache c) →
  rests (drainScaleDown cache) (inr (allDrained cache c)) x.
Proof.
  intros Hd Hrx Hcl Hst Hrep.
  assert (replicasOf cache x = replicasOf cache c ∨ (allDrained cache c = true ∧ doomedOf cache x = ∅)) as Hcase.
  { destruct Hrep as [->|Hrep]; [by left|]. unfold heldReplicas in Hrep. rewrite Hd in Hrep.
    destruct (allDrained cache c) eqn:Hall; cbn [negb andb] in Hrep.
    - right. split; [done|]. unfold doomedOf. apply doomedNames_empty. rewrite Hrep. unfold specReplicas.
      rewrite Hd. by destruct (replicasOf cache c).
    - left. assert (doomedOf cache c ≠ ∅) as Hne.
      { intros He. unfold allDrained in Hall. by rewrite He, leaves_none in Hall. }
      assert (0 <= d) as Hd0 by (revert Hspec; unfold specReplicas; by rewrite Hd).
      unfold doomedOf, specReplicas in Hne. rewrite Hd in Hne.
      destruct (replicasOf cache c) as [r|]; simpl in Hne.
      + destruct (d <? r) eqn:Hlt; [done|]. exfalso. apply Hne, doomedNames_empty. lia.
      + exfalso. by apply Hne, doomedNames_empty. }
  unfold rests. destruct Hcase as [Hsame|[Hall He]].
  - destruct (drain_again x) as (x' & -> & K & Hx'); [|done|done|].
    { split; [done|]. eexists. split; [|exact Hst]. done. }
    split; [|done]. simpl. apply (eqc_pods [KPod]); [done|]. intros k ->%list_elem_of_singleton.
    by eapply restamped_unique.
  - destruct (drainScaleDown_stage cache x Hrx Hspec) as (x' & b & -> & _ & K & Hx' & ->).
    unfold allDrained. rewrite He, leaves_none. fold (allDrained cache c). rewrite Hall. split; [|done]. simpl.
    apply (eqc_pods [KPod]); [done|]. intros k ->%list_elem_of_singleton. apply map_eq. intros key.
    rewrite Hx', He. destruct (store x KPod !! key) as [p|]; [|done]. simpl.
    case_bool_decide; [by rewrite stampPod_empty|done].
Qed.

End Drain.

(** ** The whole pass resumes *)

(** The clusters a program can be cut short in. *)
Definition cuts {A} (p : prog A) (c : Cluster) (xs : list Cluster) : Prop := ∀ n, runFor n p c ∈ xs.

Lemma cuts_atomic {A} (p : prog A) c c' a : run p c = (c', a) → atomic p c → cuts p c [c; c'].
Proof. intros Hp Ha n. destruct (Ha n) as [->| ->]; rewrite ?Hp; set_solver. Qed.

Lemma cuts_bind {A B} (p : prog A) (f : A → prog B) c c1 a xs :
  run p c = (c1, a) → atomic p c → cuts (f a) c1 xs → cuts (p ≫= f) c (c :: xs).
Proof.
  intros Hp Ha Hf n. destruct (runFor_bind n p f c c1 a Hp) as [->|[m ->]]; [|right; apply Hf].
  destruct (Ha n) as [->| ->]; [left|right]. rewrite Hp. apply (Hf 0%nat).
Qed.

Lemma atomic_wrapf {A} ctx (p : prog (goerror + A)) c : atomic p c → atomic (wrapf ctx p) c.
Proof.
  intros Ha n. rewrite run_wrapf. destruct (run p c) as [c1 r] eqn:R.
  assert ((match r with inl e => (c1, inl (Wrapf ctx e)) | inr a => (c1, inr a) end).1 = c1) as ->
    by by destruct r.
  unfold wrapf. destruct (runFor_bind n p (λ r, Ret (match r with inl e => inl (Wrapf ctx e) | inr a => inr a end)) c c1 r R)
    as [->|[m ->]].
  - destruct (Ha n) as [->| ->]; [by left|right]. by rewrite R.
  - right. by destruct m.
Qed.

(** One child, then the rest of the cell. *)
Lemma cuts_child {B} ctx (p : prog (goerror + unit)) (rest : prog (goerror + B)) c c1 xs :
  run p c = (c1, inr tt) → atomic p c → cuts rest c1 xs → cuts (wrapf ctx p ;;? rest) c (c :: xs).
Proof.
  intros Hp Ha Hr. apply (cuts_bind (wrapf ctx p) (λ r, match r with inl e => Ret (inl e) | inr _ => rest end) c c1 (inr tt));
    [by rewrite run_wrapf, Hp|by apply atomic_wrapf|done].
Qed.

Lemma reconcileCell_cuts cache c : ready cache c → ∀ n, ready cache (runFor n (reconcileCell cache) c).
Proof.
  intros Hrd. unfold reconcileCell. destruct (isolated cache); cbn [negb]; [|by intros []].
  destruct (reconcileCellNamespace_stage cache c Hrd) as (c1 & [] & R1 & Hrd1 & _).
  destruct (reconcileResourceQuota_stage cache c1 Hrd1) as (c2 & [] & R2 & Hrd2 & _).
  destruct (reconcileNetworkPolicy_stage cache c2 Hrd2) as (c3 & [] & R3 & Hrd3 & _).
  intros n. assert (cuts (mret (inr tt) : prog (goerror + unit)) c3 [c3]) as C by (intros []; set_solver).
  pose proof (cuts_child "networkpolicy" _ _ _ _ _ R3 (atomic_netpol cache c2) C) as C3.
  pose proof (cuts_child "resourcequota" _ _ _ _ _ R2 (atomic_quota cache c1) C3) as C2.
  pose proof (cuts_child "namespace" _ _ _ _ _ R1 (atomic_namespace cache c) C2 n) as Hn.
  rewrite !elem_of_cons, elem_of_nil in Hn. by destruct Hn as [->|[->|[->|[->|[]]]]].
Qed.

Lemma resumes_atomic {A B} (p : prog A) (f : A → prog B) c c1 c2 a b xs :
  run p c = (c1, a) → atomic p c → resumes (f a) c1 c2 b → cuts (f a) c1 xs →
  (∀ x, x ∈ xs → x = c2 ∨ rests p a x) → resumes (p ≫= f) c c2 b.
Proof.
  intros Hp Ha Hf Hcuts Hx. eapply resumes_bind; [by apply atomic_resumes|done|]. intros m. by apply Hx.
Qed.

Lemma finishPass_atomic cache ring b c : atomic (finishPass cache ring b) c.
Proof. apply atomic_write. intros [e|d]; repeat safe_step. Qed.

Lemma publishRing_atomic cache ms data c : atomic (publishRing cache ms data) c.
Proof.
  unfold publishRing. destruct (_ && _); [intros n; left; by destruct n|].
  apply atomic_write. intros [e|[op cm]]; [exact I|].
  apply safe_ebind; [apply reportOp_readOnly|done].
Qed.

Lemma reconcileRing_atomic cache c : atomic (reconcileRing cache) c.
Proof.
  unfold reconcileRing. apply atomic_read; [done|]. apply atomic_read; [done|].
  cbn [server snd]. destruct (store c KConfigMap !! _); apply publishRing_atomic.
Qed.

(** The stages of [reconcileChildren] after each other. *)
Definition afterRing (cache : DistributedCache) (b : bool) (r : goerror + Ring) : prog (Result * option goerror) :=
  match r with
  | inl err => failDegraded cache ReasonRingFailed "reconcile ring" err
  | inr ring => finishPass cache ring b
  end.

Definition afterStatefulSet (cache : DistributedCache) (b : bool) (r : goerror + unit) :
    prog (Result * option goerror) :=
  match r with
  | inl err => failDegraded cache ReasonStatefulSetFailed "reconcile statefulset" err
  | inr _ => reconcileRing cache ≫= afterRing cache b
  end.

Definition afterDrain (cache : DistributedCache) (r : goerror + bool) : prog (Result * option goerror) :=
  match r with
  | inl err => failDegraded cache ReasonStatefulSetFailed "drain scale-down" err
  | inr b => reconcileStatefulSet cache b ≫= afterStatefulSet cache b
  end.

Lemma run_reconcileChildren cache c c1 :
  run (reconcileService cache) c = (c1, inr tt) →
  run (reconcileChildren cache) c = run (drainScaleDown cache ≫= afterDrain cache) c1.
Proof. intros H. unfold reconcileChildren. by rewrite run_bind, H. Qed.

Section Pass.
Variables (cache : DistributedCache) (d : Z).
Hypothesis Hspec : Replicas (Spec cache) = Some d.
Hypothesis Hd0 : 0 <= d.
Hypothesis Hgrace : int32_ok (GracePeriodSeconds (Drain (Spec cache))).
Hypothesis Hgrace1 : 1 <= GracePeriodSeconds (Drain (Spec cache)).

(** The ring and the status: cut before, between or after the two. *)
Lemma ring_and_status c b :
  ready cache c → ascii_pods c →
  ∃ c4 c5 ring res, resumes (reconcileRing cache ≫= afterRing cache b) c c5 res ∧
    cuts (reconcileRing cache ≫= afterRing cache b) c [c; c4; c5] ∧
    ready cache c4 ∧ keeps [KConfigMap] c c4 ∧ ready (observedStatus cache ring) c5.
Proof.
  intros Hrd Ha.
  destruct (reconcileRing_stage cache c Hrd (ascii_podsOf cache c Hrd Ha))
    as (c4 & ring & R4 & Hrd4 & K4 & Hring & Hr4 & cm & Hcm & Hne & _).
  destruct (StatusUpdate_stage cache (observedStatus cache ring) c4 Hrd4) as (c5 & R5 & Hrd5 & _); [done..|].
  assert (∃ res, run (finishPass cache ring b) c4 = (c5, res)) as [res R5'].
  { unfold finishPass. rewrite run_bind, R5. cbv beta iota zeta. by repeat case_match; eexists. }
  pose proof (cuts_atomic _ _ _ _ R5' (finishPass_atomic cache ring b c4)) as C5.
  assert (run (reconcileRing cache) c4 = (c4, inr ring)) as Q4.
  { rewrite <- Hr4. apply (reconcileRing_quiet cache c4 cm); [done|done|].
    rewrite Hr4, Hring, desiredRing_Members. f_equal. symmetry. apply podsOf_keeps.
    apply (proj2 (proj2 K4)). set_solver. }
  exists c4, c5, ring, res. split; [|split; [|done]].
  - eapply resumes_atomic; [exact R4|apply reconcileRing_atomic| |exact C5|].
    + apply (atomic_resumes (finishPass cache ring b)); [exact R5'|apply finishPass_atomic].
    + intros x Hx. rewrite !elem_of_cons, elem_of_nil in Hx. destruct Hx as [->|[->|[]]]; [right|by left].
      unfold rests. by rewrite Q4.
  - eapply cuts_bind; [exact R4|apply reconcileRing_atomic|exact C5].
Qed.

(** From the StatefulSet on, every cut is between two stages. *)
Lemma stages_after_drain c b :
  ready cache c → ascii_pods c →
  ∃ c3 c4 c5 ring res, resumes (afterDrain cache (inr b)) c c5 res ∧
    cuts (afterDrain cache (inr b)) c [c; c3; c4; c5] ∧
    (∀ x, x ∈ [c; c3; c4] → ready cache x ∧ keeps [KStatefulSet; KConfigMap] c x ∧
       (replicasOf cache x = replicasOf cache c ∨ replicasOf cache x = heldReplicas cache b (replicasOf cache c))) ∧
    ready (observedStatus cache ring) c5.
Proof.
  intros Hrd Ha.
  destruct (reconcileStatefulSet_stage cache b c Hrd) as (c3 & [] & R3 & Hrd3 & K3 & S3 & _ & Hrep).
  destruct (ring_and_status c3 b Hrd3) as (c4 & c5 & ring & res & Hres & C4 & Hrd4 & K4 & Hrd5).
  { intros key p. rewrite (proj2 (proj2 K3)) by set_solver. apply Ha. }
  assert (store c4 KStatefulSet = store c3 KStatefulSet) as Hs4 by (apply (proj2 (proj2 K4)); set_solver).
  exists c3, c4, c5, ring, res. split; [|split; [|split; [|done]]].
  - eapply resumes_atomic; [exact R3|apply atomic_statefulset|exact Hres|exact C4|].
    intros x Hx. rewrite !elem_of_cons, elem_of_nil in Hx. destruct Hx as [->|[->|[->|[]]]]; [| |by left];
      right; eapply settles_rests; [exact S3|done|apply Hrd3|exact S3|done|apply Hrd4].
  - eapply cuts_bind; [exact R3|apply atomic_statefulset|exact C4].
  - intros x Hx. rewrite !elem_of_cons, elem_of_nil in Hx. destruct Hx as [->|[->|[->|[]]]].
    + split_and!; [done|apply keeps_refl|by left].
    + split_and!; [done|by eapply keeps_mono; [|exact K3]; set_solver|by right].
    + split_and!; [done| |right; rewrite <- Hrep; by apply replicasOf_keeps].
      eapply keeps_trans; [eapply keeps_mono; [|exact K3]|eapply keeps_mono; [|exact K4]]; set_solver.
Qed.

(** The drain and what follows it. *)
Lemma drain_and_after c :
  ready cache c → ascii_pods c → sane_time (clock c) →
  ∃ c5 ring res, resumes (drainScaleDown cache ≫= afterDrain cache) c c5 res ∧
    ready (observedStatus cache ring) c5 ∧
    ∀ n, runFor n (drainScaleDown cache ≫= afterDrain cache) c = c5 ∨
      ready cache (runFor n (drainScaleDown cache ≫= afterDrain cache) c).
Proof.
  intros Hrd Ha Hs. assert (0 <= specReplicas cache) as Hsp by (unfold specReplicas; by rewrite Hspec).
  destruct (drainScaleDown_stage cache c Hrd Hsp) as (c2 & b & R2 & Hrd2 & K2 & Hst & Hb).
  destruct (stages_after_drain c2 b Hrd2) as (c3 & c4 & c5 & ring & res & Hres & Hcuts & Hmid & Hrd5).
  { by eapply stamped_names. }
  assert (replicasOf cache c2 = replicasOf cache c) as Hrep2.
  { apply replicasOf_keeps, (proj2 (proj2 K2)). set_solver. }
  exists c5, ring, res. split; [|split; [done|]].
  - eapply resumes_bind; [by apply drainScaleDown_resumes|exact Hres|]. intros m.
    assert (runFor m (afterDrain cache (inr b)) c2 = c5 ∨
      runFor m (afterDrain cache (inr b)) c2 ∈ [c2; c3; c4]) as [H|H] by (specialize (Hcuts m); set_solver);
      [by left|right]. destruct (Hmid _ H) as (Hrx & Kx & Hrep). rewrite Hrep2, Hb in Hrep. subst b.
    destruct K2 as (K2 & _), Kx as (Kx & _ & Kx').
    apply (drainScaleDown_rests cache c Hrd Hsp Hs Hgrace Hgrace1 d); [done|done|congruence| |exact Hrep].
    intros key. rewrite Kx' by set_solver. apply Hst.
  - intros n. destruct (runFor_bind n (drainScaleDown cache) (afterDrain cache) c c2 (inr b) R2) as [->|[m ->]].
    + right. apply (drainScaleDown_cut n cache c Hrd).
    + specialize (Hcuts m). rewrite !elem_of_cons, elem_of_nil in Hcuts.
      destruct Hcuts as [H|[H|[H|[H|[]]]]]; [right|right|right|by left]; rewrite H; apply Hmid; set_solver.
Qed.

Lemma drain_and_after_only :
  safe (only [TGet KStatefulSet; TListPods; TNow; TUpdate KPod; TEvent; TCreateOrUpdate KStatefulSet;
    TGet KConfigMap; TCreateOrUpdate KConfigMap; TStatusUpdate]) (drainScaleDown cache ≫= afterDrain cache).
Proof.
  unfold afterDrain, afterStatefulSet, afterRing.
  repeat (safe_step || (eapply only_weaken; [|first
    [apply drainScaleDown_only | apply reconcileStatefulSet_only | apply reconcileRing_only
    | apply failDegraded_only | apply finishPass_only]]; by apply (bool_decide_unpack _))).
Qed.

Lemma children_resume c :
  ready cache c → ascii_pods c → sane_time (clock c) →
  ∃ c5 ring res, resumes (reconcileChildren cache) c c5 res ∧ ready (observedStatus cache ring) c5 ∧
    ∀ n, runFor n (reconcileChildren cache) c = c5 ∨ ready cache (runFor n (reconcileChildren cache) c).
Proof.
  intros Hrd Ha Hs. destruct (reconcileService_stage cache c Hrd) as (c1 & [] & R1 & Hrd1 & K1 & S1).
  destruct (drain_and_after c1 Hrd1) as (c5 & ring & res & Hres & Hrd5 & Hcut).
  { intros key p. rewrite (proj2 (proj2 K1)) by set_solver. apply Ha. }
  { by rewrite (proj1 K1). }
  exists c5, ring, res. split; [|split; [done|]].
  - apply (resumes_bind (reconcileService cache) _ c c1 c5 (inr tt) res); [|exact Hres|].
    + by apply atomic_resumes; [|apply atomic_service].
    + intros m. right. eapply settled_later; [exact S1|apply Hrd1|apply drain_and_after_only|done].
  - intros n. unfold reconcileChildren.
    destruct (runFor_bind n (reconcileService cache) (λ svc1,
      svc ← (match svc1 with inl _ => reconcileService cache | inr _ => mret (inr tt) end);
      match svc with
      | inl err => failDegraded cache ReasonServiceFailed "reconcile service" err
      | inr _ => drainScaleDown cache ≫= afterDrain cache
      end) c c1 (inr tt) R1) as [H|[m H]]; setoid_rewrite H.
    + right. destruct (atomic_service cache c n) as [->| ->]; [done|]. by rewrite R1.
    + exact (Hcut m).
Qed.

Lemma live_resume c :
  ready cache c → ascii_pods c → sane_time (clock c) → drainFinalizer ∈ om_Finalizers (dc_meta cache) →
  ∃ c5 ring res, resumes (reconcileLive cache) c c5 res ∧ ready (observedStatus cache ring) c5 ∧
    ∀ n, runFor n (reconcileLive cache) c = c5 ∨ ready cache (runFor n (reconcileLive cache) c).
Proof.
  intros Hrd Ha Hs Hf. unfold reconcileLive. rewrite AddFinalizer_present by done. cbv beta iota zeta.
  rewrite set_dc_Finalizers_same.
  destruct (reconcileCell_stage cache c Hrd) as (c1 & [] & R1 & Hrd1 & K1 & S1).
  destruct (children_resume c1 Hrd1) as (c5 & ring & res & Hres & Hrd5 & Hcut).
  { intros key p. rewrite (proj2 (proj2 K1)) by set_solver. apply Ha. }
  { by rewrite (proj1 K1). }
  set (after := λ cell : goerror + unit, match cell with
    | inl err => failDegraded cache ReasonCellFailed "reconcile cell" err
    | inr _ => reconcileChildren cache
    end).
  exists c5, ring, res. split; [|split; [done|]].
  - apply (resumes_bind (reconcileCell cache) after c c1 c5 (inr tt) res); [|exact Hres|].
    + by apply reconcileCell_resumes.
    + intros m. right. unfold rests. change (after (inr tt)) with (reconcileChildren cache).
      destruct (runFor_keeps _ m _ c1 (reconcileChildren_only cache)) as (_ & Hw & K).
      rewrite S1; [done| |]; [|intros k; rewrite Hw; apply Hrd1].
      intros k Hk. apply K. rewrite !elem_of_cons, elem_of_nil in Hk.
      destruct Hk as [->|[->|[->|[]]]]; by apply (bool_decide_unpack _).
  - intros n. destruct (runFor_bind n (reconcileCell cache) after c c1 (inr tt) R1) as [H|[m H]]; setoid_rewrite H.
    + right. by apply reconcileCell_cuts.
    + exact (Hcut m).
Qed.

End Pass.

End Stages.

(** A pass over a live cache, cut short and run again. *)
Lemma live_pass_recovers `{SS : SliceSort} cache c d n :
  ready cache c → ascii_pods c → Replicas (Spec cache) = Some d → 0 <= d →
  om_DeletionTimestamp (dc_meta cache) = None → drainFinalizer ∈ om_Finalizers (dc_meta cache) →
  sane_time (clock c) → int32_ok (GracePeriodSeconds (Drain (Spec cache))) →
  1 <= GracePeriodSeconds (Drain (Spec cache)) →
  let once := run (Reconcile (reqOf cache)) c in
  let again := run (Reconcile (reqOf cache)) (runFor n (Reconcile (reqOf cache)) c) in
  again.2 = once.2 ∧ ∀ k, store again.1 k = store once.1 k.
Proof.
  intros Hrd Ha Hd Hd0 Hdel Hf Hs Hg H1. cbv zeta.
  destruct (live_resume cache d Hd Hd0 Hg H1 c Hrd Ha Hs Hf) as (c5 & ring & res & [Hrun Hres] & Hrd5 & Hcut).
  pose proof (run_Reconcile cache c Hrd Hdel) as Hr. rewrite Hrun in Hr. rewrite Hr. cbn [fst snd].
  set (P := λ x, (run (Reconcile (reqOf cache)) x).2 = res ∧
    ∀ k, store (run (Reconcile (reqOf cache)) x).1 k = store c5 k). change (P (runFor n (Reconcile (reqOf cache)) c)).
  assert (P c5) as H5.
  { destruct (Reconcile_again cache c c5 res d) as (c'' & Hr' & Hsame); [done..|]. unfold P. by rewrite Hr'. }
  assert (∀ m, P (runFor m (reconcileLive cache) c)) as Hm.
  { intros m. destruct (Hcut m) as [->|Hrx]; [done|]. destruct (Hres m) as [->|[He Hr']]; [done|].
    unfold P. rewrite run_Reconcile by done. split; [exact Hr'|apply He]. }
  apply (cut_read P n (Get KDistributedCache (reqOf cache)) _ c c _ ltac:(done) (run_Get _ _ _)).
  cbn [nn_Namespace nn_Name reqOf]. pose proof (rd_cache _ _ Hrd) as Hc.
  change (@lookup okey DistributedCache) with (@lookup okey (obj KDistributedCache)) in Hc.
  rewrite Hc. cbv beta iota. by rewrite bool_decide_true.
Qed.
