(* ===== verification/Teardown.v ===== *)
(** * Deletion passes on a cooperative API server

    The effect of a pass of [Reconcile] over a cache that is being deleted:
    every pod is marked for drain, the ring is published without them, and once
    all of them are drained the pass lets go of the cache, by deleting its cell
    namespace or by removing the finalizer. *)

From S2P Require Import Prelude GoLib Json Api Kube KubeRef Names Ring Cell Workload Status.
From S2P Require Import RingPublish Drain Reconciler Stages Converge.

#[local] Existing Instance refKube.
Local Open Scope Z_scope.
Local Open Scope prog_scope.

Section Teardown.
Context `{SS : SliceSort}.

(** What the deletion loop makes of a pod: unlike a scale-down it leaves an
    unreadable annotation alone. *)
Definition markPod (now : Time) (p : Pod) : Pod :=
  match pod_Annotations p !! drainAnnotation with Some _ => p | None => startDrain now p end.

Definition allGone (cache : DistributedCache) (c : Cluster) : bool :=
  forallb (drainedB (graceOf cache) (clock c)) (podsOf cache c).

Lemma drainAll_stage grace now pods b cache c :
  ready cache c → NoDup (key_of (k := KPod) <$> pods) →
  (∀ p, p ∈ pods → store c KPod !! (@key_of KPod p) = Some p) →
  stage_ok (drainAll grace now pods b) [KPod] cache c (λ b' c',
    restamped (markPod now) (key_of (k := KPod) <$> pods) c c' ∧
    b' = b && forallb (drainedB grace now) pods).
Proof.
  revert b c. induction pods as [|p pods IH]; intros b c Hrd Hnd Hpods.
  { apply stage_ret; [done|]. split; [apply restamped_nil|by rewrite andb_true_r]. }
  rewrite fmap_cons in *. apply NoDup_cons in Hnd as [Hp Hnd]. cbn [drainAll forallb].
  pose proof (Hpods p ltac:(left)) as Hpl.
  assert (∀ b2, markPod now p = p → b2 = b && drainedB grace now p →
    stage_ok (drainAll grace now pods b2) [KPod] cache c (λ b' c',
      restamped (markPod now) (@key_of KPod p :: (key_of (k := KPod) <$> pods)) c c' ∧
      b' = b && (drainedB grace now p && forallb (drainedB grace now) pods))) as Hskip.
  { intros b2 Hst ->. eapply stage_mono; [apply IH|done|]; [done|done|set_solver|].
    intros b' c' [H1 ->]. split; [by apply restamped_here|]. by rewrite andb_assoc. }
  unfold drainedB, markPod in *.
  destruct (pod_Annotations p !! drainAnnotation) as [s|] eqn:Ha; simpl in *.
  - destruct (ParseInt s) as [ts|].
    + apply Hskip; [done|]. rewrite Z.leb_antisym.
      destruct (_ <? _); simpl; by rewrite ?andb_false_r, ?andb_true_r.
    + apply Hskip; [done|]. by rewrite andb_false_r.
  - eapply stage_ebind.
    { apply stage_wrapf, (pod_update_stage cache c p (startDrain now p)); [done|done|done|].
      exact (rd_pods _ _ Hrd _ _ Hpl). }
    intros q c1 Hrd1 _ Hs1. eapply stage_mono; [apply IH|done|]; [done|done| |].
    + intros r Hr. rewrite Hs1, lookup_insert_ne; [set_solver|].
      intros Heq. apply Hp. rewrite Heq. apply list_elem_of_fmap. eauto.
    + intros b' c' [H1 ->]. split; [|by rewrite !andb_false_r].
      eapply restamped_update; [done|done| |done]. by rewrite Ha.
Qed.

(** ** Letting go *)

(** The cluster after phase 3: the last finalizer gone, the server removes the
    cache; otherwise it stays without ours. *)
Definition released (cache : DistributedCache) : DistributedCache :=
  set_dc_Finalizers (RemoveFinalizer (om_Finalizers (dc_meta cache)) drainFinalizer) cache.

Definition release (cache : DistributedCache) (c : Cluster) : Cluster :=
  if bool_decide (om_Finalizers (dc_meta (released cache)) = [])
  then remove KDistributedCache (dc_Namespace cache, dc_Name cache) c
  else @put KDistributedCache (released cache) c.

Definition cellKey (cache : DistributedCache) : okey := ("", targetNamespace cache).

(** Phases 2 and 3: the cell namespace first, the finalizer when it is gone. *)
Definition letGo (cache : DistributedCache) (c : Cluster) : Cluster * Result :=
  if isCrossNamespaceChild cache then
    match store c KNamespace !! cellKey cache with
    | Some ns => (if bool_decide (om_DeletionTimestamp (ns_meta (ns : Namespace_)) = None)
                  then @put KNamespace (map_meta (deleted (clock c)) KNamespace ns) c else c,
                  requeueAfter 2)
    | None => (release cache c, done_)
    end
  else (release cache c, done_).

Lemma run_releaseCache cache c :
  ready cache c → om_DeletionTimestamp (dc_meta cache) ≠ None →
  run (releaseCache cache) c = (release cache c, (done_, None)).
Proof.
  intros Hrd Hdel. unfold releaseCache. fold (released cache).
  assert (server_update KDistributedCache (released cache) c = (release cache c, inr (released cache))) as Hu.
  { pose proof (rd_cache _ _ Hrd) as Hc.
    change (@lookup okey DistributedCache) with (@lookup okey (obj KDistributedCache)) in Hc.
    unfold server_update, release. rewrite (rd_writes _ _ Hrd).
    change (@key_of KDistributedCache (released cache)) with (dc_Namespace cache, dc_Name cache).
    rewrite Hc. cbv zeta. change (om_DeletionTimestamp (obj_meta KDistributedCache (released cache)))
      with (om_DeletionTimestamp (dc_meta cache)). rewrite bool_decide_false by done. cbn [negb andb].
    change (obj_meta KDistributedCache (released cache)) with (dc_meta (released cache)).
    by case_bool_decide. }
  etransitivity; [apply (run_bind (Update KDistributedCache _))|]. rewrite run_Update, Hu. done.
Qed.

Lemma run_deleteCellNamespace cache c :
  (∀ ns, store c KNamespace !! cellKey cache = Some ns → @key_of KNamespace ns = cellKey cache) →
  run (deleteCellNamespace cache) c =
    match store c KNamespace !! cellKey cache with
    | Some ns => (if bool_decide (om_DeletionTimestamp (ns_meta (ns : Namespace_)) = None)
                  then @put KNamespace (map_meta (deleted (clock c)) KNamespace ns) c else c, inr false)
    | None => (c, inr true)
    end.
Proof.
  intros Hkey. unfold deleteCellNamespace. etransitivity; [apply (run_bind_Get KNamespace)|].
  cbn [nn_Namespace nn_Name]. fold (cellKey cache).
  destruct (store c KNamespace !! cellKey cache) as [ns|] eqn:Hns; [|done].
  pose proof (Hkey ns eq_refl) as Hk. case_bool_decide; [|done].
  etransitivity; [apply (run_bind (call (ODelete KNamespace ns)))|]. rewrite run_call. cbn [server].
  rewrite Hk. by rewrite Hns.
Qed.

(** ** The whole pass *)

(** The pass after its ring stage, and after the loop over the pods. *)
Definition afterMarking (cache : DistributedCache) (allDrained : bool) : prog (Result * option goerror) :=
  if negb allDrained then mret (requeueAfter 2, None)
  else if isCrossNamespaceChild cache then
    torn ← deleteCellNamespace cache;
    match torn with
    | inl e => mret (done_, Some (Wrapf "delete cell namespace" e))
    | inr false => mret (requeueAfter 2, None)
    | inr true => releaseCache cache
    end
  else releaseCache cache.

Definition afterDrainAll (cache : DistributedCache) (drained : goerror + bool) :
    prog (Result * option goerror) :=
  match drained with
  | inl e => mret (done_, Some e)
  | inr allDrained => reconcileRing cache ≫= λ _, afterMarking cache allDrained
  end.

Lemma run_afterMarking cache b c :
  ready cache c → om_DeletionTimestamp (dc_meta cache) ≠ None →
  run (afterMarking cache b) c =
    if b then ((letGo cache c).1, ((letGo cache c).2, None)) else (c, (requeueAfter 2, None)).
Proof.
  intros Hrd Hdel. unfold afterMarking. destruct b; [|done]. cbn [negb]. unfold letGo.
  destruct (isCrossNamespaceChild cache); [|by apply run_releaseCache].
  rewrite run_bind, run_deleteCellNamespace by apply (rd_keys _ _ Hrd KNamespace).
  destruct (store c KNamespace !! cellKey cache) as [ns|]; [done|]. by apply run_releaseCache.
Qed.

(** Up to the ring: the listed pods are marked and it is known whether all are drained. *)
Lemma run_reconcileDeletion cache c :
  ready cache c → drainFinalizer ∈ om_Finalizers (dc_meta cache) →
  ∃ c1, run (reconcileDeletion cache) c = run (afterDrainAll cache (inr (allGone cache c))) c1 ∧
    run (drainAll (graceOf cache) (clock c) (podsOf cache c) true) c = (c1, inr (allGone cache c)) ∧
    ready cache c1 ∧ keeps [KPod] c c1 ∧ restamped (markPod (clock c)) (podKeys cache c) c c1.
Proof.
  intros Hrd Hf. unfold reconcileDeletion.
  assert (ContainsFinalizer (om_Finalizers (dc_meta cache)) drainFinalizer = true) as ->.
  { cbn [ContainsFinalizer refKube]. by rewrite bool_decide_true. }
  cbn [negb].
  destruct (drainAll_stage (graceOf cache) (clock c) (podsOf cache c) true cache c Hrd)
    as (c1 & b & R1 & Hrd1 & K1 & Hst & ->); [by eapply NoDup_listing| |].
  { intros p Hp. eapply elem_of_listing in Hp; [|done]. apply Hp. }
  exists c1. split_and!; [|done..].
  rewrite run_bind, run_ListPods. cbv beta iota zeta. fold (podsOf cache c).
  rewrite run_bind, run_Now. cbv beta iota zeta. rewrite run_bind, R1. done.
Qed.

(** What a deletion pass has done to pods and ring when it decides. *)
Record marked (cache : DistributedCache) (c m : Cluster) : Prop := {
  mk_ready : ready cache m;
  mk_keeps : keeps [KPod; KConfigMap] c m;
  mk_pods : restamped (markPod (clock c)) (podKeys cache c) c m;
  mk_ring : ringOf cache m = desiredRing (computeMembers (podsOf cache m)) (ringOf cache c);
  mk_cm : ∃ cm, store m KConfigMap !! ringKey cache = Some cm ∧ Data (cm : ConfigMap) ≠ ∅ ∧
            (decodable cm ∨ store c KConfigMap !! ringKey cache = Some cm)
}.

Lemma markPod_Name now p : pod_Name (markPod now p) = pod_Name p.
Proof. unfold markPod. by case_match. Qed.

Lemma run_Reconcile_deleting cache c :
  ready cache c → om_DeletionTimestamp (dc_meta cache) ≠ None →
  run (Reconcile (reqOf cache)) c = run (reconcileDeletion cache) c.
Proof.
  intros Hrd Hdel. unfold Reconcile. etransitivity; [apply (run_bind_Get KDistributedCache)|].
  cbn [nn_Namespace nn_Name reqOf]. pose proof (rd_cache _ _ Hrd) as Hc.
  change (@lookup okey DistributedCache) with (@lookup okey (obj KDistributedCache)) in Hc.
  rewrite Hc. cbv beta iota. by rewrite bool_decide_false by done.
Qed.

Lemma ring_after_marking cache c c1 :
  ready cache c1 → ascii_pods c → keeps [KPod] c c1 →
  restamped (markPod (clock c)) (podKeys cache c) c c1 →
  ∃ m ring, run (reconcileRing cache) c1 = (m, inr ring) ∧ marked cache c m.
Proof.
  intros Hrd1 Hascii K1 Hst.
  assert (ascii_pods c1) as Ha1.
  { intros key p. rewrite Hst, fmap_Some. intros (q & Hq & ->). apply Hascii in Hq.
    case_bool_decide; [by rewrite markPod_Name|done]. }
  destruct (reconcileRing_stage cache c1 Hrd1) as (m & ring & R2 & Hrd2 & K2 & Hring & Hr & Hcm);
    [by apply ascii_podsOf|].
  pose proof K1 as (_ & _ & K1s). pose proof K2 as (_ & _ & K2s).
  exists m, ring. split; [done|]. split; [done| | | |].
  - eapply keeps_trans; [by eapply keeps_mono; [|exact K1]; set_solver|].
    eapply keeps_mono; [|exact K2]. set_solver.
  - intros key. by rewrite K2s, Hst by set_solver.
  - rewrite Hr, Hring, (ringOf_keeps cache c c1), (podsOf_keeps cache c1 m) by (by rewrite ?K1s, ?K2s by set_solver).
    done.
  - destruct Hcm as (cm & ? & ? & Hdec). exists cm. rewrite K1s in Hdec by set_solver. done.
Qed.

Lemma Reconcile_deletion cache c :
  ready cache c → ascii_pods c →
  om_DeletionTimestamp (dc_meta cache) ≠ None → drainFinalizer ∈ om_Finalizers (dc_meta cache) →
  ∃ m, marked cache c m ∧
    run (Reconcile (reqOf cache)) c =
      (if allGone cache c then ((letGo cache m).1, ((letGo cache m).2, None))
       else (m, (requeueAfter 2, None))).
Proof.
  intros Hrd Hascii Hdel Hf. rewrite run_Reconcile_deleting by done.
  destruct (run_reconcileDeletion cache c Hrd Hf) as (c1 & -> & _ & Hrd1 & K1 & Hst).
  destruct (ring_after_marking cache c c1) as (m & ring & R2 & Hm); [done..|].
  exists m. split; [done|]. unfold afterDrainAll. rewrite run_bind, R2. apply run_afterMarking; [apply Hm|done].
Qed.

(** Once the cache is gone a pass does nothing. *)
Lemma Reconcile_absent cache c :
  store c KDistributedCache !! (dc_Namespace cache, dc_Name cache) = None →
  run (Reconcile (reqOf cache)) c = (c, (done_, None)).
Proof.
  intros Hl. unfold Reconcile. etransitivity; [apply (run_bind_Get KDistributedCache)|].
  cbn [nn_Namespace nn_Name reqOf].
  change (@lookup okey DistributedCache) with (@lookup okey (obj KDistributedCache)) in Hl. by rewrite Hl.
Qed.

(** Without our finalizer there is nothing left to do. *)
Lemma Reconcile_deletion_done cache c :
  ready cache c → om_DeletionTimestamp (dc_meta cache) ≠ None →
  drainFinalizer ∉ om_Finalizers (dc_meta cache) →
  run (Reconcile (reqOf cache)) c = (c, (done_, None)).
Proof.
  intros Hrd Hdel Hf. rewrite run_Reconcile_deleting by done. unfold reconcileDeletion.
  assert (ContainsFinalizer (om_Finalizers (dc_meta cache)) drainFinalizer = false) as ->; [|done].
  cbn [ContainsFinalizer refKube]. by rewrite bool_decide_false.
Qed.

End Teardown.
