(* ===== verification/Recover.v ===== *)
(** * Recovery from an interrupted pass

    [Interrupt] shows that the pass over a live cache can be cut short anywhere and
    run again. Here the same for the pass over a cache that is being deleted, and the
    claim for both. *)

From S2P Require Import Prelude GoLib Json Api Kube KubeRef Names Ring Cell Workload Status.
From S2P Require Import RingPublish Drain Reconciler Stages Converge Interrupt Teardown.

#[local] Existing Instance refKube.
Local Open Scope Z_scope.
Local Open Scope prog_scope.

Section Recover.
Context `{SS : SliceSort}.

Lemma markPod_key now p : @key_of KPod (markPod now p) = @key_of KPod p.
Proof. unfold markPod. by case_match. Qed.

Lemma markPod_labels now p : om_Labels (pod_meta (markPod now p)) = om_Labels (pod_meta p).
Proof. unfold markPod. by case_match. Qed.

Lemma markPod_idem now p : markPod now (markPod now p) = markPod now p.
Proof.
  unfold markPod. destruct (pod_Annotations p !! drainAnnotation) as [v|] eqn:Ha; [by rewrite Ha|].
  by rewrite startDrain_annotation.
Qed.

Lemma drainAll_cut n grace now pods b cache c :
  ready cache c → NoDup (key_of (k := KPod) <$> pods) →
  (∀ p, p ∈ pods → store c KPod !! (@key_of KPod p) = Some p) →
  halfway (markPod now) (key_of (k := KPod) <$> pods) cache c (runFor n (drainAll grace now pods b) c).
Proof.
  revert n b c. induction pods as [|p pods IH]; intros n b c Hrd Hnd Hpods.
  { destruct n; by apply halfway_refl. }
  rewrite fmap_cons in *. apply NoDup_cons in Hnd as [Hp Hnd]. cbn [drainAll].
  pose proof (Hpods p ltac:(left)) as Hpl.
  assert (∀ b, halfway (markPod now) (@key_of KPod p :: (key_of (k := KPod) <$> pods)) cache c
    (runFor n (drainAll grace now pods b) c)) as Hskip.
  { intros b'. eapply halfway_mono; [|apply IH; [done|done|set_solver]]. set_solver. }
  destruct (pod_Annotations p !! drainAnnotation) as [st|] eqn:Ha; [by destruct (ParseInt st)|].
  destruct (pod_update_stage cache c p (startDrain now p)) as (c1 & q & R1 & Hrd1 & _ & Hs1);
    [done|done|done|exact (rd_pods _ _ Hrd _ _ Hpl)|].
  assert (∀ m, halfway (markPod now) (@key_of KPod p :: (key_of (k := KPod) <$> pods)) cache c
    (runFor m (drainAll grace now pods false) c1)) as Hc1.
  { intros m. eapply halfway_cons; [done|done|by unfold markPod; rewrite Ha|]. apply IH; [done|done|].
    intros r Hr. rewrite Hs1, lookup_insert_ne; [set_solver|].
    intros Heq. apply Hp. rewrite Heq. apply list_elem_of_fmap. eauto. }
  assert (run (wrapf ("annotate " +:+ pod_Name p) (Update KPod (startDrain now p))) c = (c1, inr q)) as Hw
    by by rewrite run_wrapf, R1.
  destruct (runFor_ebind n _ (λ _, drainAll grace now pods false) c c1 q Hw) as [->|[m ->]]; [|apply Hc1].
  destruct (atomic_update ("annotate " +:+ pod_Name p) KPod (startDrain now p) c n) as [->| ->];
    [by apply halfway_refl|]. rewrite Hw. exact (Hc1 0%nat).
Qed.

Lemma releaseCache_atomic cache c : atomic (releaseCache cache) c.
Proof. apply atomic_write. by intros [e|d]; repeat safe_step. Qed.

(** After the marking there is at most one write. *)
Lemma afterMarking_atomic cache b c : ready cache c → atomic (afterMarking cache b) c.
Proof.
  intros Hrd.
  assert (∀ r : Result * option goerror, atomic (mret r) c) as Hret by (intros r n; left; by destruct n).
  unfold afterMarking. destruct (negb b); [apply Hret|].
  destruct (isCrossNamespaceChild cache); [|apply releaseCache_atomic].
  apply atomic_read; [done|]. cbn [server snd nn_Namespace nn_Name].
  destruct (store c KNamespace !! _) as [ns|] eqn:Hns; [|apply releaseCache_atomic]. cbn.
  case_bool_decide; [|apply Hret]. apply atomic_write_here. cbn [server].
  rewrite (rd_keys _ _ Hrd KNamespace _ _ Hns), Hns. cbn. by repeat safe_step.
Qed.

Lemma ready_namespace cache c ns : ready cache c → ready cache (@put KNamespace ns c).
Proof.
  pose proof (keeps_put (k := KNamespace) ns c) as Hk. intros [Hw Hkeys Hch Hca Hp].
  split; [done| | |by rewrite (store_put_ne (k := KNamespace))|by rewrite (store_put_ne (k := KNamespace))].
  - by eapply (keys_insert (k := KNamespace)); [done|done|apply store_put|].
  - destruct Hk as (_ & _ & K). intros k Hin key o Ho. rewrite K in Ho by set_solver. exact (Hch k Hin key o Ho).
Qed.

Section Deletion.
Variables (cache : DistributedCache) (c : Cluster).
Hypothesis Hready : ready cache c.
Hypothesis Hascii : ascii_pods c.
Hypothesis Hdel : om_DeletionTimestamp (dc_meta cache) ≠ None.
Hypothesis Hf : drainFinalizer ∈ om_Finalizers (dc_meta cache).
Hypothesis Hsane : sane_time (clock c).
Hypothesis Hgrace : int32_ok (GracePeriodSeconds (Drain (Spec cache))).
Hypothesis Hgrace1 : 1 <= GracePeriodSeconds (Drain (Spec cache)).

Abbreviation half := (halfway (markPod (clock c)) (podKeys cache c) cache c).

(** A pod marked just now is as little drained as one that was not marked. *)
Lemma drainedB_mark p :
  drainedB (graceOf cache) (clock c) (markPod (clock c) p) = drainedB (graceOf cache) (clock c) p.
Proof.
  unfold markPod. destruct (pod_Annotations p !! drainAnnotation) as [v|] eqn:Ha; [done|].
  rewrite drainedB_just_stamped by done. unfold drainedB. by rewrite Ha.
Qed.

Lemma half_allGone x : half x → clock x = clock c → allGone cache x = allGone cache c.
Proof.
  intros Hx Hcl. unfold allGone. rewrite Hcl.
  by apply (half_forallb _ cache c Hready (markPod_key _) (markPod_labels _) _ x drainedB_mark).
Qed.

(** The marking from there ends as it would have from the start. *)
Lemma marking_again x :
  half x → clock x = clock c →
  ∃ x1, run (reconcileDeletion cache) x = run (afterDrainAll cache (inr (allGone cache c))) x1 ∧
    keeps [KPod] x x1 ∧ restamped (markPod (clock c)) (podKeys cache c) c x1.
Proof.
  intros Hx Hcl. pose proof (proj1 Hx) as Hrx.
  destruct (run_reconcileDeletion cache x Hrx Hf) as (x1 & R & _ & _ & K & Hst). exists x1.
  rewrite (half_allGone x Hx Hcl) in R. split_and!; [done|done|]. rewrite Hcl in Hst.
  apply (half_completes _ cache c Hready (markPod_key _) (markPod_labels _) x); [apply markPod_idem|done|done].
Qed.

Lemma cut_in_marking x :
  half x → keeps [KPod] c x → eqr (run (reconcileDeletion cache) x) (run (reconcileDeletion cache) c).
Proof.
  intros Hx (Hcl & Hw & K). destruct (marking_again x Hx Hcl) as (x1 & -> & Kx & Hst).
  destruct (marking_again c (halfway_refl _ _ _ _ Hready) eq_refl) as (c1 & -> & Kc & Hstc).
  apply run_eqc. destruct Kx as (Kx1 & Kx2 & Kx3), Kc as (Kc1 & Kc2 & Kc3).
  split; [|congruence|congruence]. intros k. destruct (decide (k = KPod)) as [->|Hk].
  - by eapply restamped_unique.
  - rewrite Kx3, Kc3, K by set_solver. done.
Qed.

(** From the ring on: the marking and the ring have nothing left to do. *)
Record settled (m x : Cluster) : Prop := {
  st_ready : ready cache x;
  st_clock : clock x = clock c;
  st_pods : store x KPod = store m KPod;
  st_cm : store x KConfigMap = store m KConfigMap
}.

Lemma settled_again m x :
  marked cache c m → settled m x →
  eqr (run (reconcileDeletion cache) x) (run (afterMarking cache (allGone cache c)) x).
Proof.
  intros Hm [Hrx Hcl Hp Hcm].
  assert (restamped (markPod (clock c)) (podKeys cache c) c x) as Hst.
  { intros key. rewrite Hp. apply (mk_pods _ _ _ Hm). }
  destruct (marking_again x) as (x1 & -> & K & Hst1); [|done|].
  { split; [done|]. by eexists. }
  assert (eqc x1 x) as Hx1.
  { apply (eqc_pods [KPod]); [done|]. intros k ->%list_elem_of_singleton. by eapply restamped_unique. }
  etransitivity; [by apply run_eqc|]. unfold afterDrainAll. rewrite run_bind.
  destruct (mk_cm _ _ _ Hm) as (cm & Hl & Hne & _).
  rewrite (reconcileRing_quiet cache x cm); [done|by rewrite Hcm|done|].
  rewrite (ringOf_keeps cache m x), (podsOf_keeps cache m x) by done.
  by rewrite (mk_ring _ _ _ Hm), desiredRing_Members.
Qed.

(** Once the pass has let go, running it again finds nothing to do. *)
Lemma letGo_again m :
  marked cache c m → allGone cache c = true →
  eqr (run (Reconcile (reqOf cache)) (letGo cache m).1) ((letGo cache m).1, ((letGo cache m).2, None)).
Proof.
  intros Hm Hall. pose proof (mk_ready _ _ _ Hm) as Hrm.
  assert (eqr (run (Reconcile (reqOf cache)) (release cache m)) (release cache m, (done_, None))) as Hrel.
  { unfold release. case_bool_decide as Hfs.
    - rewrite Reconcile_absent; [done|]. apply (lookup_delete_eq (store m KDistributedCache)).
    - change (reqOf cache) with (reqOf (released cache)). rewrite Reconcile_deletion_done; [done| |done|].
      + by apply ready_finalizers.
      + cbn. rewrite list_elem_of_filter. naive_solver. }
  assert (∀ x, settled m x → (letGo cache x).1 = x →
    eqr (run (Reconcile (reqOf cache)) x) (x, ((letGo cache x).2, None))) as Hstay.
  { intros x Hx Hfix. rewrite run_Reconcile_deleting by (done || apply Hx).
    etransitivity; [by apply (settled_again m)|]. rewrite Hall, run_afterMarking by (done || apply Hx).
    by rewrite Hfix. }
  unfold letGo at 1 2 3. destruct (isCrossNamespaceChild cache) eqn:Hx; [|exact Hrel].
  destruct (store m KNamespace !! cellKey cache) as [ns|] eqn:Hns; [|exact Hrel]. cbn [fst snd].
  destruct (mk_keeps _ _ _ Hm) as (Hcl & _).
  set (ns' := map_meta (deleted (clock m)) KNamespace ns).
  assert (@key_of KNamespace ns' = cellKey cache) as Hk.
  { unfold ns'. rewrite key_of_map_meta by done. by apply (rd_keys _ _ Hrm KNamespace). }
  case_bool_decide as Hd.
  - assert (letGo cache (@put KNamespace ns' m) = (@put KNamespace ns' m, requeueAfter 2)) as Hgo.
    { unfold letGo. rewrite Hx, (store_put (k := KNamespace)), Hk, lookup_insert_eq. done. }
    specialize (Hstay (@put KNamespace ns' m)). rewrite Hgo in Hstay. apply Hstay; [|done].
    split; [|done..]. by apply ready_namespace.
  - assert (letGo cache m = (m, requeueAfter 2)) as Hgo.
    { unfold letGo. rewrite Hx, Hns. by rewrite bool_decide_false. }
    specialize (Hstay m). rewrite Hgo in Hstay. apply Hstay; [|done]. by split.
Qed.

(** A pass over a cache that is being deleted, cut short and run again. *)
Lemma deletion_recovers n :
  eqr (run (Reconcile (reqOf cache)) (runFor n (Reconcile (reqOf cache)) c)) (run (Reconcile (reqOf cache)) c).
Proof.
  destruct (run_reconcileDeletion cache c Hready Hf) as (c1 & R & R1 & Hrd1 & K1 & Hst).
  destruct (ring_after_marking cache c c1) as (m & ring & R2 & Hm); [done..|].
  set (b := allGone cache c) in *.
  assert (run (Reconcile (reqOf cache)) c = run (afterMarking cache b) m) as Honce.
  { rewrite run_Reconcile_deleting, R by done. unfold afterDrainAll. by rewrite run_bind, R2. }
  set (Q := λ x, eqr (run (Reconcile (reqOf cache)) x) (run (Reconcile (reqOf cache)) c)).
  change (Q (runFor n (Reconcile (reqOf cache)) c)).
  assert (∀ x, half x → keeps [KPod] c x → Q x) as Hhalf.
  { intros x Hx Kx. unfold Q. rewrite !run_Reconcile_deleting by (done || apply Hx). by apply cut_in_marking. }
  assert (Q m) as HQm.
  { unfold Q. rewrite Honce, run_Reconcile_deleting by (done || apply Hm). apply (settled_again m m Hm).
    split; [apply Hm|apply (mk_keeps _ _ _ Hm)|done|done]. }
  assert (Q (run (afterMarking cache b) m).1) as HQend.
  { unfold Q. rewrite Honce, run_afterMarking by (done || apply Hm). destruct b eqn:Hb; [by apply letGo_again|].
    etransitivity; [exact HQm|]. rewrite Honce, run_afterMarking by (done || apply Hm). done. }
  assert (∀ k, Q (runFor k (afterDrainAll cache (inr b)) c1)) as Hafter.
  { intros k. destruct (runFor_bind k (reconcileRing cache) (λ _, afterMarking cache b) c1 m (inr ring) R2)
      as [H|[k' H]]; unfold afterDrainAll; setoid_rewrite H.
    - destruct (reconcileRing_atomic cache c1 k) as [->| ->]; [|by rewrite R2].
      apply Hhalf; [|done]. split; [done|]. by eexists.
    - destruct (afterMarking_atomic cache b m (mk_ready _ _ _ Hm) k') as [->| ->]; done. }
  apply (cut_read Q n (Get KDistributedCache (reqOf cache)) _ c c _ ltac:(done) (run_Get _ _ _)).
  cbn [nn_Namespace nn_Name reqOf]. pose proof (rd_cache _ _ Hready) as Hc.
  change (@lookup okey DistributedCache) with (@lookup okey (obj KDistributedCache)) in Hc.
  rewrite Hc. cbv beta iota. rewrite bool_decide_false by done. cbn [negb]. intros k. unfold reconcileDeletion.
  assert (ContainsFinalizer (om_Finalizers (dc_meta cache)) drainFinalizer = true) as ->.
  { cbn [ContainsFinalizer refKube]. by rewrite bool_decide_true. }
  cbn [negb]. eapply (cut_read Q); [by repeat split|apply run_ListPods|]. intros k1. cbv beta iota.
  eapply (cut_read Q); [by repeat split|apply run_Now|]. intros k2. fold (podsOf cache c).
  destruct (runFor_bind k2 (drainAll (graceOf cache) (clock c) (podsOf cache c) true) (afterDrainAll cache)
    c c1 (inr b) R1) as [H|[k3 H]]; setoid_rewrite H; [|apply Hafter].
  apply Hhalf.
  - apply drainAll_cut; [done|by eapply NoDup_listing|].
    intros p Hp. eapply elem_of_listing in Hp; [|done]. apply Hp.
  - apply (runFor_keeps [TUpdate KPod]). apply drainAll_only.
Qed.

End Deletion.

End Recover.

(** Without our finalizer the pass writes nothing. *)
Lemma cut_done_deletion `{SS : SliceSort} cache c n :
  ready cache c → om_DeletionTimestamp (dc_meta cache) ≠ None →
  drainFinalizer ∉ om_Finalizers (dc_meta cache) → runFor n (Reconcile (reqOf cache)) c = c.
Proof.
  intros Hrd Hdel Hf.
  apply (cut_read (λ x, x = c) n (Get KDistributedCache (reqOf cache)) _ c c _ ltac:(done) (run_Get _ _ _)).
  cbn [nn_Namespace nn_Name reqOf]. pose proof (rd_cache _ _ Hrd) as Hc.
  change (@lookup okey DistributedCache) with (@lookup okey (obj KDistributedCache)) in Hc.
  rewrite Hc. cbv beta iota. rewrite bool_decide_false by done. cbn [negb]. unfold reconcileDeletion.
  assert (ContainsFinalizer (om_Finalizers (dc_meta cache)) drainFinalizer = false) as ->; [|by intros []].
  cbn [ContainsFinalizer refKube]. by rewrite bool_decide_false.
Qed.

(** ** Claims *)

(** C12: an interrupted pass leaves no trace. Take a ready cluster, whose server accepts
    the writes, and a cache that is being deleted, or live with the finalizer on it,
    with a replica count and a grace period of at least a second. Stop a pass after any
    number of its calls - the operator crashed, lost its lease, was evicted - and run a
    pass again at the same clock instant: it returns what the uninterrupted pass would
    have returned and every stored object ends up exactly as that pass would have left
    it. *)
Theorem interrupted_pass_leaves_no_trace `{SS : SliceSort} cache c d n :
  ready cache c → ascii_pods c → Replicas (Spec cache) = Some d → 0 <= d →
  (om_DeletionTimestamp (dc_meta cache) = None → drainFinalizer ∈ om_Finalizers (dc_meta cache)) →
  sane_time (clock c) → int32_ok (GracePeriodSeconds (Drain (Spec cache))) →
  1 <= GracePeriodSeconds (Drain (Spec cache)) →
  let once := run (Reconcile (reqOf cache)) c in
  let again := run (Reconcile (reqOf cache)) (runFor n (Reconcile (reqOf cache)) c) in
  again.2 = once.2 ∧ ∀ k, store again.1 k = store once.1 k.
Proof.
  intros Hrd Ha Hd Hd0 Hfin Hs Hg H1.
  destruct (decide (om_DeletionTimestamp (dc_meta cache) = None)) as [Hlive|Hdel].
  { by apply (live_pass_recovers cache c d n); auto. }
  cbv zeta. destruct (decide (drainFinalizer ∈ om_Finalizers (dc_meta cache))) as [Hf|Hf].
  - by destruct (deletion_recovers cache c Hrd Ha Hdel Hf Hs Hg H1 n) as [[H _ _] Hr].
  - assert (runFor n (Reconcile (reqOf cache)) c = c) as ->; [|done].
    by apply cut_done_deletion.
Qed.
