(* ===== verification/Setup.v ===== *)
(** * SetupWithManager and the permissions of the operator

    distributedcache_controller.go: which objects wake the operator up
    ([SetupWithManager]) and what its service account may do (the
    [+kubebuilder:rbac] markers above [Reconcile], from which the ClusterRole is
    generated). How an event becomes requests is controller-runtime's: [EventLib]
    states its documented contract. *)

From S2P Require Import Prelude GoLib Json Api Kube KubeRef Names Ring Cell Workload Status.
From S2P Require Import RingPublish Drain Reconciler Passes Stages Converge.

Local Open Scope Z_scope.

(** ** The controller *)

Record Controller := mkController { ctl_Name : string; ctl_For : Kind; ctl_Owns : list Kind }.

Definition SetupWithManager : Controller :=
  mkController "distributedcache" KDistributedCache [KService; KStatefulSet].

(** The name the event recorder is made for. *)
Definition recorderName : string := "distributedcache-controller".

Definition kindName (k : Kind) : string :=
  match k with
  | KDistributedCache => "DistributedCache" | KPod => "Pod" | KNamespace => "Namespace"
  | KResourceQuota => "ResourceQuota" | KNetworkPolicy => "NetworkPolicy" | KService => "Service"
  | KStatefulSet => "StatefulSet" | KConfigMap => "ConfigMap"
  end.

(** ** Permissions *)

(** One marker. *)
Record rbacRule := mkRule { rb_group : string; rb_resource : string; rb_verbs : list string }.

Definition coreGroup : string := EmptyString.

Definition allVerbs : list string := ["get"; "list"; "watch"; "create"; "update"; "patch"; "delete"].

Definition rbacRules : list rbacRule :=
  [mkRule groupName "distributedcaches" allVerbs;
   mkRule groupName "distributedcaches/status" ["get"; "update"; "patch"];
   mkRule groupName "distributedcaches/finalizers" ["update"];
   mkRule coreGroup "services" allVerbs;
   mkRule coreGroup "configmaps" allVerbs;
   mkRule coreGroup "events" ["create"; "patch"];
   mkRule coreGroup "pods" ["get"; "list"; "watch"; "update"; "patch"];
   mkRule "apps" "statefulsets" allVerbs;
   mkRule coreGroup "namespaces" allVerbs;
   mkRule coreGroup "resourcequotas" allVerbs;
   mkRule "networking.k8s.io" "networkpolicies" allVerbs].

(** A resource of an API group. *)
Definition resource : Type := string * string.

Definition granted (r : resource) (verb : string) : bool :=
  existsb (λ x, bool_decide ((rb_group x, rb_resource x) = r) && bool_decide (verb ∈ rb_verbs x)) rbacRules.

Definition resourceOf (k : Kind) : resource :=
  match k with
  | KDistributedCache => (groupName, "distributedcaches")
  | KPod => (coreGroup, "pods")
  | KNamespace => (coreGroup, "namespaces")
  | KResourceQuota => (coreGroup, "resourcequotas")
  | KNetworkPolicy => ("networking.k8s.io", "networkpolicies")
  | KService => (coreGroup, "services")
  | KStatefulSet => ("apps", "statefulsets")
  | KConfigMap => (coreGroup, "configmaps")
  end.

(** The builder's watches: an event on the primary kind enqueues the object, on an
    owned kind its controlling owner of the primary group and kind in the same namespace, on
    any other kind nothing. *)
Class EventLib `{QuantityLib} := {
  enqueue : Controller → ∀ k, obj k → list NamespacedName;
  enqueue_For : ∀ c (o : obj (ctl_For c)),
    enqueue c (ctl_For c) o = [mkNN (om_Namespace (obj_meta _ o)) (om_Name (obj_meta _ o))];
  enqueue_Owned : ∀ c k (o : obj k) req, k ∈ ctl_Owns c → k ≠ ctl_For c →
    req ∈ enqueue c k o ↔
      ∃ r, r ∈ om_OwnerReferences (obj_meta k o) ∧ or_Controller r = true ∧
           or_Group r = (resourceOf (ctl_For c)).1 ∧ or_Kind r = kindName (ctl_For c) ∧ req = mkNN (om_Namespace (obj_meta k o)) (or_Name r);
  enqueue_Other : ∀ c k (o : obj k), k ∉ ctl_Owns c → k ≠ ctl_For c → enqueue c k o = []
}.

(** What the API server asks of a call: the manager's client reads through a
    cache, which lists and watches; CreateOrUpdate reads and then creates or
    updates; an owner reference that blocks deletion needs the finalizers of the
    owner. *)
Definition needs (g : tag) : list (resource * string) :=
  match g with
  | TGet k => (resourceOf k,.) <$> ["get"; "list"; "watch"]
  | TListPods => (resourceOf KPod,.) <$> ["list"; "watch"]
  | TUpdate k => [(resourceOf k, "update")]
  | TStatusUpdate => [((groupName, "distributedcaches/status"), "update")]
  | TDelete k => [(resourceOf k, "delete")]
  | TCreateOrUpdate k => ((groupName, "distributedcaches/finalizers"), "update") ::
                         ((resourceOf k,.) <$> ["get"; "list"; "watch"; "create"; "update"])
  | TEvent => (((coreGroup, "events"),.) <$> ["create"; "patch"])
  | TNow => []
  end.

Definition permitted (g : tag) : bool := forallb (λ p, granted p.1 p.2) (needs g).

Section Setup.
Context `{KL : KubeLib} `{SS : SliceSort}.

(** The calls of a whole pass. *)
Definition reconcileTags : list tag :=
  [TGet KDistributedCache; TUpdate KDistributedCache; TStatusUpdate;
   TCreateOrUpdate KNamespace; TCreateOrUpdate KResourceQuota; TCreateOrUpdate KNetworkPolicy;
   TCreateOrUpdate KService; TCreateOrUpdate KStatefulSet; TCreateOrUpdate KConfigMap;
   TEvent; TGet KStatefulSet; TGet KConfigMap; TGet KNamespace; TDelete KNamespace;
   TListPods; TNow; TUpdate KPod].

Lemma Reconcile_only req : safe (only reconcileTags) (Reconcile req).
Proof.
  unfold Reconcile, reconcileLive, Get, Update.
  repeat (safe_step || (eapply only_weaken; [|first
    [apply reconcileDeletion_only | apply reconcileCell_only | apply reconcileChildren_only |
     apply failDegraded_only]]; by apply (bool_decide_unpack _))); done.
Qed.

(** ** Watches *)

Context {EL : EventLib}.

Lemma enqueue_owned_child k (o : obj k) cache r :
  k ∈ ctl_Owns SetupWithManager → r ∈ om_OwnerReferences (obj_meta k o) → or_Controller r = true →
  or_Group r = groupName → or_Kind r = "DistributedCache" → or_Name r = dc_Name cache →
  om_Namespace (obj_meta k o) = dc_Namespace cache → mkNN (dc_Namespace cache) (dc_Name cache) ∈ enqueue SetupWithManager k o.
Proof.
  intros Hk Hr Hc Hgr Hkind Hn Hns. apply enqueue_Owned; [done|by intros ->; set_solver|].
  exists r. split_and!; [done..|]. by rewrite Hns, Hn.
Qed.

(** The metadata every owned child ends up with names the cache as its owner. *)
Lemma childMeta_owner cache comp m m' :
  childMeta cache comp m = inr m' → isCrossNamespaceChild cache = false →
  ∃ r, r ∈ om_OwnerReferences m' ∧ or_Controller r = true ∧ or_Group r = groupName ∧
       or_Kind r = "DistributedCache" ∧ or_Name r = dc_Name cache.
Proof.
  unfold childMeta, setControllerReferenceIfSameNamespace. intros H Hx. rewrite Hx in H.
  by apply SetControllerReference_owner in H.
Qed.

(** ** Claims *)

(** C29: every call Reconcile can make, whatever the API server answers, is covered by
    the permissions declared in the rbac markers: the operator is never refused for
    want of a right. *)
Theorem reconcile_within_permissions req :
  safe (λ o, permitted (op_tag o) = true) (Reconcile req).
Proof.
  apply (only_avoids reconcileTags (λ g, permitted g = true)); [|apply Reconcile_only].
  by apply (bool_decide_unpack _).
Qed.

(** The watches close the loop for a cache whose children live in its own
    namespace: any event on a Service or StatefulSet as the operator writes it
    enqueues the cache it belongs to. *)
Theorem owned_children_wake_cache cache :
  isCrossNamespaceChild cache = false →
  (∀ svc svc', om_Namespace (svc_meta svc) = targetNamespace cache → mutateService cache svc = inr svc' →
     mkNN (dc_Namespace cache) (dc_Name cache) ∈ enqueue SetupWithManager KService svc') ∧
  (∀ b sts sts', om_Namespace (sts_meta sts) = targetNamespace cache →
     mutateStatefulSet cache b sts = inr sts' →
     mkNN (dc_Namespace cache) (dc_Name cache) ∈ enqueue SetupWithManager KStatefulSet sts').
Proof.
  intros Hx. assert (targetNamespace cache = dc_Namespace cache) as Ht.
  { unfold isCrossNamespaceChild in Hx. by apply negb_false_iff, bool_decide_eq_true in Hx. }
  assert (∀ comp m m', om_Namespace m = targetNamespace cache → childMeta cache comp m = inr m' →
    om_Namespace m' = dc_Namespace cache ∧ ∃ r, r ∈ om_OwnerReferences m' ∧ or_Controller r = true ∧
      or_Group r = groupName ∧ or_Kind r = "DistributedCache" ∧ or_Name r = dc_Name cache) as Hmeta.
  { intros comp m m' Hns Hm. split; [|by eapply childMeta_owner].
    apply setControllerReference_frame in Hm as (_ & _ & _ & Hn & _). simpl in Hn. congruence. }
  split.
  - intros svc svc' Hns H. unfold mutateService in H. fold (childMeta cache "cache" (svc_meta svc)) in H.
    destruct (childMeta cache "cache" (svc_meta svc)) as [e|m'] eqn:Hm; [done|]. injection H as <-.
    destruct (Hmeta "cache" _ _ Hns Hm) as (Hns' & r & Hr & Hc & Hg & Hk & Hn).
    by apply (enqueue_owned_child KService _ cache r); [set_solver|..].
  - intros b sts sts' Hns H. unfold mutateStatefulSet in H. fold (childMeta cache "cache" (sts_meta sts)) in H.
    destruct (childMeta cache "cache" (sts_meta sts)) as [e|m'] eqn:Hm; [done|]. injection H as <-.
    destruct (Hmeta "cache" _ _ Hns Hm) as (Hns' & r & Hr & Hc & Hg & Hk & Hn).
    by apply (enqueue_owned_child KStatefulSet _ cache r); [set_solver|..].
Qed.

(** Nothing watches the ring: an event on the ring ConfigMap, on a pod, or on the
    objects of a cell enqueues no request. In particular a deleted ring ConfigMap
    is not restored until something else wakes the operator. *)
Theorem ring_and_pods_unwatched :
  (∀ cm : ConfigMap, enqueue SetupWithManager KConfigMap cm = []) ∧
  (∀ p : Pod, enqueue SetupWithManager KPod p = []) ∧
  (∀ ns : Namespace_, enqueue SetupWithManager KNamespace ns = []) ∧
  (∀ q : ResourceQuota, enqueue SetupWithManager KResourceQuota q = []) ∧
  (∀ np : NetworkPolicy, enqueue SetupWithManager KNetworkPolicy np = []).
Proof.
  assert (∀ k (o : obj k), bool_decide (k ∉ ctl_Owns SetupWithManager) = true →
    bool_decide (k ≠ ctl_For SetupWithManager) = true → enqueue SetupWithManager k o = []) as H.
  { intros k o H1%bool_decide_eq_true H2%bool_decide_eq_true. by apply enqueue_Other. }
  split_and!; intros o; [apply (H KConfigMap)|apply (H KPod)|apply (H KNamespace)
    |apply (H KResourceQuota)|apply (H KNetworkPolicy)]; reflexivity.
Qed.

End Setup.

Section Cells.
#[local] Existing Instance refKube.
Context `{SS : SliceSort} {EL : EventLib}.

Lemma no_owner_no_event k (o : obj k) :
  k ∈ ctl_Owns SetupWithManager → om_OwnerReferences (obj_meta k o) = [] → enqueue SetupWithManager k o = [].
Proof.
  intros Hk Ho. destruct (enqueue SetupWithManager k o) as [|req l] eqn:E; [done|].
  assert (req ∈ enqueue SetupWithManager k o) as Hin by (rewrite E; left).
  apply enqueue_Owned in Hin as (r & Hr & _); [|done|by intros ->; set_solver].
  rewrite Ho in Hr. by apply elem_of_nil in Hr.
Qed.

(** C30: a cell is polled instead of watched: the Service and StatefulSet of a cache
    in a cell get no owner reference, so their events wake nobody - and every pass
    over such a cache, live and with the finalizer on it, on a ready cluster asks to be
    run again, after two seconds while a drain is pending and after ten otherwise. *)
Theorem cells_are_polled cache c :
  isCrossNamespaceChild cache = true → ready cache c → ascii_pods c → 0 <= specReplicas cache →
  om_DeletionTimestamp (dc_meta cache) = None → drainFinalizer ∈ om_Finalizers (dc_meta cache) →
  (∀ svc svc', om_OwnerReferences (svc_meta svc) = [] → mutateService cache svc = inr svc' →
     enqueue SetupWithManager KService svc' = []) ∧
  (∀ b sts sts', om_OwnerReferences (sts_meta sts) = [] → mutateStatefulSet cache b sts = inr sts' →
     enqueue SetupWithManager KStatefulSet sts' = []) ∧
  ∃ c', run (Reconcile (reqOf cache)) c =
    (c', (requeueAfter (if allDrained cache c then 10 else 2), None)).
Proof.
  intros Hx Hrd Ha Hs Hd Hf.
  assert (∀ m m', om_OwnerReferences m = [] → childMeta cache "cache" m = inr m' →
    om_OwnerReferences m' = []) as Hmeta.
  { intros m m' Ho Hm. by rewrite (childMeta_cross cache "cache" m m' Hm Hx). }
  split_and!.
  - intros svc svc' Ho H. unfold mutateService in H. fold (childMeta cache "cache" (svc_meta svc)) in H.
    destruct (childMeta cache "cache" (svc_meta svc)) as [e|m'] eqn:Hm; [done|]. injection H as <-.
    apply (no_owner_no_event KService); [set_solver|by eapply Hmeta].
  - intros b sts sts' Ho H. unfold mutateStatefulSet in H. fold (childMeta cache "cache" (sts_meta sts)) in H.
    destruct (childMeta cache "cache" (sts_meta sts)) as [e|m'] eqn:Hm; [done|]. injection H as <-.
    apply (no_owner_no_event KStatefulSet); [set_solver|by eapply Hmeta].
  - destruct (Reconcile_pass cache c) as (c' & Hr & _); [done..|]. exists c'. rewrite Hr.
    unfold passResult. rewrite Hx. by destruct (allDrained cache c).
Qed.

End Cells.
