(* ===== verification/Manager.v ===== *)
(** * The manager command

    cmd/manager/main.go: the scheme its client knows, the options of the webhook and
    metrics servers that follow from the flags, and the start-up sequence. Flag
    parsing, logging set-up and the manager itself are libraries: the flags are a
    record, and [env] answers the calls of the start-up. *)

From S2P Require Import Prelude GoLib Json Api Kube Setup.

Local Open Scope Z_scope.

(** ** The scheme *)

(** api/v1alpha1/groupversion_info.go and the [init] of the types. *)
Record GroupVersion := mkGV { gv_Group : string; gv_Version : string }.

Definition SchemeGroupVersion : GroupVersion := mkGV groupName "v1alpha1".

#[global] Instance GroupVersion_eq_dec : EqDecision GroupVersion.
Proof. solve_decision. Defined.
#[global] Program Instance GroupVersion_countable : Countable GroupVersion :=
  inj_countable' (λ g, (gv_Group g, gv_Version g)) (λ p, mkGV p.1 p.2) _.
Next Obligation. by intros []. Qed.

(** The kinds a scheme can encode and decode. *)
Abbreviation Scheme := (gset (GroupVersion * string)).

(** [SchemeBuilder.Register(&DistributedCache{}, &DistributedCacheList{})] *)
Definition registeredKinds : list string := ["DistributedCache"; "DistributedCacheList"].

Definition AddToScheme (s : Scheme) : Scheme :=
  s ∪ list_to_set ((SchemeGroupVersion,.) <$> registeredKinds).

(** Group and version of the kinds the operator works with. *)
Definition gvkOf (k : Kind) : GroupVersion * string :=
  (match k with
   | KDistributedCache => SchemeGroupVersion
   | KStatefulSet => mkGV "apps" "v1"
   | KNetworkPolicy => mkGV "networking.k8s.io" "v1"
   | _ => mkGV EmptyString "v1"
   end, kindName k).

(** [init]: both registrations must succeed or the process panics ([None]).
    [clientgo] is client-go's AddToScheme. *)
Definition initScheme (clientgo : Scheme → goerror + Scheme) : option Scheme :=
  match clientgo ∅ with
  | inl _ => None
  | inr s => Some (AddToScheme s)
  end.

(** ** Flags *)

Record managerFlags := mkManagerFlags {
  metricsAddr : string; probeAddr : string; enableLeaderElection : bool; secureMetrics : bool;
  webhookCertPath : string; webhookCertName : string; webhookCertKey : string;
  metricsCertPath : string; metricsCertName : string; metricsCertKey : string;
  enableHTTP2 : bool
}.

Definition managerDefaults : managerFlags :=
  mkManagerFlags "0" ":8081" false true "" "tls.crt" "tls.key" "" "tls.crt" "tls.key" false.

(** ** Server options *)

(** The field of a [tls.Config] the program sets. *)
Record tlsConfig := mkTLS { NextProtos : list string }.

Definition disableHTTP2 (_ : tlsConfig) : tlsConfig := mkTLS ["http/1.1"].

Definition tlsOpts (f : managerFlags) : list (tlsConfig → tlsConfig) :=
  if negb (enableHTTP2 f) then [disableHTTP2] else [].

Record certFiles := mkCert { CertDir : string; CertName : string; KeyName : string }.

Definition noCert : certFiles := mkCert "" "" "".

Record webhookOptions := mkWebhook { wh_TLSOpts : list (tlsConfig → tlsConfig); wh_Cert : certFiles }.

Definition webhookServerOptions (f : managerFlags) : webhookOptions :=
  mkWebhook (tlsOpts f)
    (if (0 <? Z.of_nat (len (webhookCertPath f))) then
       mkCert (webhookCertPath f) (webhookCertName f) (webhookCertKey f)
     else noCert).

(** The filter that demands authentication and authorization, or none. *)
Inductive filterProvider := NoFilter | WithAuthenticationAndAuthorization.

Record metricsOptions := mkMetrics {
  BindAddress : string; SecureServing : bool; ms_TLSOpts : list (tlsConfig → tlsConfig);
  FilterProvider : filterProvider; ms_Cert : certFiles
}.

Definition metricsServerOptions (f : managerFlags) : metricsOptions :=
  mkMetrics (metricsAddr f) (secureMetrics f) (tlsOpts f)
    (if secureMetrics f then WithAuthenticationAndAuthorization else NoFilter)
    (if (0 <? Z.of_nat (len (metricsCertPath f))) then
       mkCert (metricsCertPath f) (metricsCertName f) (metricsCertKey f)
     else noCert).

(** A server applies its options to its TLS configuration in order. *)
Definition applyTLS (opts : list (tlsConfig → tlsConfig)) (c : tlsConfig) : tlsConfig :=
  foldl (λ c f, f c) c opts.

Record managerOptions := mkManagerOptions {
  mo_Scheme : Scheme; mo_Metrics : metricsOptions; mo_Webhook : webhookOptions;
  HealthProbeBindAddress : string; LeaderElection : bool; LeaderElectionID : string
}.

Definition managerOptionsOf (scheme : Scheme) (f : managerFlags) : managerOptions :=
  mkManagerOptions scheme (metricsServerOptions f) (webhookServerOptions f) (probeAddr f)
    (enableLeaderElection f) "c75b5d52.sk1.services.com".

(** ** Start-up *)

Inductive mcall :=
  | NewManager (o : managerOptions)
  | SetupController (c : Controller)
  | AddHealthzCheck (name : string)
  | AddReadyzCheck (name : string)
  | StartManager.

(** The calls in order, each with what is logged when it fails. *)
Definition startupCalls (scheme : Scheme) (f : managerFlags) : list (mcall * string) :=
  [(NewManager (managerOptionsOf scheme f), "Failed to start manager");
   (SetupController SetupWithManager, "Failed to create controller");
   (AddHealthzCheck "healthz", "Failed to set up health check");
   (AddReadyzCheck "readyz", "Failed to set up ready check");
   (StartManager, "Failed to run manager")].

(** How the process ends: exit code, what it logged as its error, the calls it
    made. *)
Record mOutcome := mkOutcome { exitCode : Z; errorLog : option (string * goerror); made : list mcall }.

(** [if err := call(); err != nil { setupLog.Error(...); os.Exit(1) }], in sequence. *)
Fixpoint runCalls (env : mcall → option goerror) (calls : list (mcall * string)) (done : list mcall) :
    mOutcome :=
  match calls with
  | [] => mkOutcome 0 None done
  | (c, msg) :: calls =>
      match env c with
      | Some e => mkOutcome 1 (Some (msg, e)) (done ++ [c])
      | None => runCalls env calls (done ++ [c])
      end
  end.

(** [kubeConfig]: what GetConfigOrDie finds (on an error it logs it and exits
    with 1). *)
Definition managerMain (scheme : Scheme) (f : managerFlags) (kubeConfig : goerror + unit)
    (env : mcall → option goerror) : mOutcome :=
  match kubeConfig with
  | inl e => mkOutcome 1 (Some ("unable to get kubeconfig", e)) []
  | inr _ => runCalls env (startupCalls scheme f) []
  end.

(** ** Lemmas *)

Lemma runCalls_spec env calls pre :
  (exitCode (runCalls env calls pre) = 0 ∧ made (runCalls env calls pre) = pre ++ calls.*1 ∧
     Forall (λ c, env c = None) calls.*1 ∧ errorLog (runCalls env calls pre) = None) ∨
  (∃ l1 c msg l2 e, calls = l1 ++ (c, msg) :: l2 ∧ Forall (λ c, env c = None) l1.*1 ∧ env c = Some e ∧
     runCalls env calls pre = mkOutcome 1 (Some (msg, e)) (pre ++ l1.*1 ++ [c])).
Proof.
  revert pre. induction calls as [|[c msg] calls IH]; intros pre; simpl.
  - left. by rewrite app_nil_r.
  - destruct (env c) as [e|] eqn:He.
    + right. exists [], c, msg, calls, e. by split_and!.
    + destruct (IH (pre ++ [c])) as [(H1 & H2 & H3 & H4)|(l1 & c' & msg' & l2 & e & -> & H2 & H3 & H4)].
      * left. split_and!; [done| |by constructor|done]. by rewrite H2, <- app_assoc.
      * right. exists ((c, msg) :: l1), c', msg', l2, e. split_and!; [done|by constructor|done|].
        by rewrite H4, <- app_assoc.
Qed.

(** An element that occurs only at the end is reached only at the end. *)
Lemma prefix_reaches_end {A} (l1 l2 l : list A) (x : A) :
  l1 ++ l2 = l ++ [x] → x ∈ l1 → x ∉ l → l2 = [].
Proof.
  intros Heq Hin Hnot. destruct l2 as [|y l2 _] using rev_ind; [done|].
  rewrite app_assoc in Heq. apply app_inj_tail in Heq as [<- _]. set_solver.
Qed.

(** ** Claims *)

(** The manager runs only when everything before it worked. The process makes a
    prefix of the fixed sequence of start-up calls; every call but the last one made
    succeeded; it exits with 0 exactly when there is a kube configuration and every
    call succeeds; otherwise it exits with 1, having stopped at the first failing
    call and logged that call's message. In particular the manager is started only
    after the controller and both probes are registered. *)
Theorem manager_starts_only_when_ready scheme f kube env :
  let o := managerMain scheme f kube env in
  let calls := (startupCalls scheme f).*1 in
  made o `prefix_of` calls ∧
  (exitCode o = 0 ↔ kube = inr tt ∧ Forall (λ c, env c = None) calls) ∧
  (exitCode o = 0 ∨ exitCode o = 1 ∧ errorLog o ≠ None) ∧
  (StartManager ∈ made o → ∀ c, c ∈ calls → c ≠ StartManager → env c = None).
Proof.
  cbv zeta. unfold managerMain. destruct kube as [e|[]].
  { simpl. split_and!; [apply prefix_nil|split; [done|naive_solver]|by right|set_solver]. }
  destruct (runCalls_spec env (startupCalls scheme f) [])
    as [(H1 & H2 & H3 & H4)|(l1 & c & msg & l2 & e & Hc & H2 & H3 & ->)].
  - rewrite H2. split_and!; [done|by rewrite H1|by left|].
    intros _ c Hc _. by eapply Forall_forall in H3.
  - cbn [exitCode errorLog made app]. split_and!.
    + rewrite Hc, fmap_app, fmap_cons. exists l2.*1. by rewrite <- app_assoc.
    + split; [done|]. intros [_ Hall]. rewrite Hc, fmap_app, fmap_cons in Hall.
      apply Forall_app in Hall as [_ Hall]. apply Forall_cons in Hall as [Hall _]. simpl in Hall. congruence.
    + by right.
    + intros Hin c' Hc' Hne.
      assert ((l1.*1 ++ [c]) ++ l2.*1 = take 4 (startupCalls scheme f).*1 ++ [StartManager]) as Hcalls.
      { transitivity ((startupCalls scheme f).*1); [|done]. rewrite Hc, fmap_app. by rewrite <- app_assoc. }
      pose proof (prefix_reaches_end _ _ _ _ Hcalls Hin) as Hl2. rewrite Hl2, app_nil_r in Hcalls by set_solver.
      apply app_inj_tail in Hcalls as [Hl1 ->].
      assert (c' ∈ l1.*1) as Hin' by (rewrite Hl1; set_solver).
      by eapply Forall_forall in H2.
Qed.

(** What the flags do to the servers. Unless HTTP/2 is asked for, both the
    webhook and the metrics server negotiate nothing but HTTP/1.1, whatever their TLS
    configuration was; if it is, neither configuration is touched. The metrics
    endpoint is filtered by authentication and authorization exactly when it is
    served securely, which is the default. Certificates are read from disk exactly
    when a directory is given. *)
Theorem servers_follow_flags f c :
  let wh := webhookServerOptions f in let ms := metricsServerOptions f in
  applyTLS (wh_TLSOpts wh) c = (if enableHTTP2 f then c else mkTLS ["http/1.1"]) ∧
  applyTLS (ms_TLSOpts ms) c = (if enableHTTP2 f then c else mkTLS ["http/1.1"]) ∧
  (FilterProvider ms = WithAuthenticationAndAuthorization ↔ SecureServing ms = true) ∧
  FilterProvider (metricsServerOptions managerDefaults) = WithAuthenticationAndAuthorization ∧
  (wh_Cert wh = noCert ↔ webhookCertPath f = "") ∧ (ms_Cert ms = noCert ↔ metricsCertPath f = "").
Proof.
  cbv zeta. unfold webhookServerOptions, metricsServerOptions, tlsOpts, applyTLS. simpl.
  assert (∀ p n k, (if 0 <? Z.of_nat (len p) then mkCert p n k else noCert) = noCert ↔ p = "") as Hcert.
  { intros [|x p] n k; simpl; [done|]. split; [|done]. by unfold noCert; intros [=]. }
  split_and!; [by destruct (enableHTTP2 f)..|by destruct (secureMetrics f)|done|apply Hcert|apply Hcert].
Qed.

(** The client can speak every kind it is asked for: if client-go registers the
    core, apps and networking kinds, the scheme the manager is given knows all the
    kinds Reconcile reads or writes. *)
Lemma scheme_knows_all_kinds clientgo s s' :
  clientgo ∅ = inr s' → (∀ k, k ≠ KDistributedCache → gvkOf k ∈ s') →
  initScheme clientgo = Some s → ∀ k, gvkOf k ∈ s.
Proof.
  unfold initScheme, AddToScheme. intros -> Hk [= <-] k. destruct (decide (k = KDistributedCache)) as [->|Hne].
  - apply elem_of_union_r. unfold gvkOf. simpl. set_solver.
  - by apply elem_of_union_l, Hk.
Qed.
