(* ===== verification/Sha1.v ===== *)
(** * crypto/sha1 and encoding/binary

    SHA-1 (FIPS 180-4) over byte strings, as the client's [hashString] uses it,
    and the big-endian [Uint32] of its first four bytes. Words are [Z] kept in
    [0, 2^32) by explicit truncation. *)

From S2P Require Import Prelude GoLib Json.

Local Open Scope Z_scope.

Definition word (z : Z) : Z := Z.land z 4294967295.
Definition add32 (a b : Z) : Z := word (a + b).
Definition rotl (n x : Z) : Z := Z.lor (word (Z.shiftl x n)) (Z.shiftr x (32 - n)).
Definition not32 (x : Z) : Z := Z.lxor x 4294967295.

(** ** Padding and blocks *)

Fixpoint bytes_of (s : string) : list Z :=
  match s with EmptyString => [] | String c s => code c :: bytes_of s end.

(** The bit length as eight big-endian bytes. *)
Definition be64 (n : Z) : list Z :=
  (λ i, Z.land (Z.shiftr n i) 255) <$> [56; 48; 40; 32; 24; 16; 8; 0].

(** A one bit, zeros up to 56 modulo 64, the length. *)
Definition pad (m : list Z) : list Z :=
  let n := Z.of_nat (length m) in
  m ++ [128] ++ replicate (Z.to_nat ((55 - n) mod 64)) 0 ++ be64 (8 * n).

Definition be32 (a b c d : Z) : Z :=
  Z.lor (Z.shiftl a 24) (Z.lor (Z.shiftl b 16) (Z.lor (Z.shiftl c 8) d)).

(** The big-endian words of a byte list; a trailing rest of under four bytes
    does not occur after padding. *)
Fixpoint words (m : list Z) : list Z :=
  match m with
  | a :: b :: c :: d :: m => be32 a b c d :: words m
  | _ => []
  end.

(** ** The compression function *)

(** The message schedule, newest word first: [w(t) = rotl 1 (w(t-3) ^ w(t-8) ^
    w(t-14) ^ w(t-16))]. *)
Fixpoint schedule (n : nat) (ws : list Z) : list Z :=
  match n with
  | O => ws
  | S n =>
      let at_ i := nth i ws 0 in
      schedule n (rotl 1 (Z.lxor (Z.lxor (at_ 2%nat) (at_ 7%nat))
                            (Z.lxor (at_ 13%nat) (at_ 15%nat))) :: ws)
  end.

Definition round_f (t : Z) (b c d : Z) : Z :=
  if t <? 20 then Z.lor (Z.land b c) (Z.land (not32 b) d)
  else if t <? 40 then Z.lxor b (Z.lxor c d)
  else if t <? 60 then Z.lor (Z.land b c) (Z.lor (Z.land b d) (Z.land c d))
  else Z.lxor b (Z.lxor c d).

Definition round_k (t : Z) : Z :=
  if t <? 20 then 1518500249 else if t <? 40 then 1859775393
  else if t <? 60 then 2400959708 else 3395469782.

Record digest := mkDigest { h0 : Z; h1 : Z; h2 : Z; h3 : Z; h4 : Z }.

Fixpoint rounds (t : Z) (ws : list Z) (s : digest) : digest :=
  match ws with
  | [] => s
  | w :: ws =>
      let '(mkDigest a b c d e) := s in
      let tmp := add32 (add32 (rotl 5 a) (round_f t b c d)) (add32 e (add32 (round_k t) w)) in
      rounds (t + 1) ws (mkDigest tmp a (rotl 30 b) c d)
  end.

Definition compress (s : digest) (block : list Z) : digest :=
  let ws := rev (schedule 64 (rev block)) in
  let r := rounds 0 ws s in
  mkDigest (add32 (h0 s) (h0 r)) (add32 (h1 s) (h1 r)) (add32 (h2 s) (h2 r))
    (add32 (h3 s) (h3 r)) (add32 (h4 s) (h4 r)).

Definition initial : digest :=
  mkDigest 1732584193 4023233417 2562383102 271733878 3285377520.

(** Fold over the sixteen-word blocks; [n] blocks. *)
Fixpoint blocks (n : nat) (ws : list Z) (s : digest) : digest :=
  match n with
  | O => s
  | S n => blocks n (drop 16 ws) (compress s (take 16 ws))
  end.

(** [sha1.Sum] *)
Definition Sum (m : list Z) : digest :=
  let ws := words (pad m) in blocks (length ws / 16) ws initial.

(** The digest as bytes, each word big-endian. *)
Definition put32 (z : Z) : list Z := (λ i, Z.land (Z.shiftr z i) 255) <$> [24; 16; 8; 0].

Definition digest_bytes (d : digest) : list Z :=
  put32 (h0 d) ++ put32 (h1 d) ++ put32 (h2 d) ++ put32 (h3 d) ++ put32 (h4 d).

(** ** Facts *)

Lemma word_range z : 0 <= word z < 2 ^ 32.
Proof.
  unfold word. change 4294967295 with (Z.ones 32). rewrite Z.land_ones by lia.
  apply Z.mod_pos_bound. lia.
Qed.

Lemma Sum_h0_range m : 0 <= h0 (Sum m) < 2 ^ 32.
Proof.
  unfold Sum. set (ws := words _). generalize (length ws / 16)%nat as n. revert ws.
  assert (∀ n ws s, 0 <= h0 s < 2 ^ 32 → 0 <= h0 (blocks n ws s) < 2 ^ 32) as H.
  { induction n as [|n IH]; intros ws s Hs; simpl; [done|]. apply IH. apply word_range. }
  intros ws n. apply H. simpl. lia.
Qed.

(** Reading back four big-endian bytes. *)
Lemma byte_bit z k n : 0 <= k → 0 <= n →
  Z.testbit (Z.shiftl (Z.land (Z.shiftr z k) 255) k) n =
    Z.testbit z n && ((k <=? n) && (n <? k + 8)).
Proof.
  intros Hk Hn. rewrite Z.shiftl_spec by lia. change 255 with (Z.ones 8).
  destruct (k <=? n) eqn:E; simpl.
  - rewrite Z.land_spec, Z.shiftr_spec, Z.testbit_ones by lia.
    replace (n - k + k) with n by lia. f_equal. lia.
  - rewrite Z.testbit_neg_r by lia. by rewrite andb_false_r.
Qed.

Lemma be32_bytes z : 0 <= z < 2 ^ 32 →
  be32 (Z.land (Z.shiftr z 24) 255) (Z.land (Z.shiftr z 16) 255) (Z.land (Z.shiftr z 8) 255)
    (Z.land (Z.shiftr z 0) 255) = z.
Proof.
  intros Hz. unfold be32. apply Z.bits_inj'. intros n Hn.
  rewrite <- (Z.shiftl_0_r (Z.land (Z.shiftr z 0) 255)).
  rewrite !Z.lor_spec, !byte_bit by lia.
  destruct (Z.testbit z n) eqn:E; simpl; [|done].
  assert (n < 32); [|lia]. destruct (decide (n < 32)) as [|Hge]; [done|].
  rewrite <- (Z.mod_small z (2 ^ 32)), Z.mod_pow2_bits_high in E by lia. done.
Qed.

(** The first word of a digest is what its first four bytes say. *)
Lemma digest_bytes_h0 m :
  match digest_bytes (Sum m) with a :: b :: c :: d :: _ => be32 a b c d | _ => 0 end = h0 (Sum m).
Proof. simpl. apply be32_bytes, Sum_h0_range. Qed.

(** The padded message is a whole number of 64-byte blocks. *)
Lemma pad_length m : Z.of_nat (length (pad m)) mod 64 = 0.
Proof.
  unfold pad. rewrite !length_app, length_replicate. simpl. set (k := length m).
  pose proof (Z.mod_pos_bound (55 - Z.of_nat k) 64 ltac:(lia)) as Hb.
  pose proof (Z.div_mod (55 - Z.of_nat k) 64 ltac:(lia)) as Hd.
  symmetry. apply Z.mod_unique with (1 - (55 - Z.of_nat k) / 64); [lia|].
  set (z := (55 - Z.of_nat k) mod 64) in *. lia.
Qed.

(** ** Test vectors of the standard *)

Example sha1_empty : Sum (bytes_of "") =
  mkDigest 3661210606 1584089869 844480495 2506102928 2950170377.
Proof. vm_compute. reflexivity. Qed.

Example sha1_abc : Sum (bytes_of "abc") =
  mkDigest 2845392438 1191608682 3124634993 2018558572 2630932637.
Proof. vm_compute. reflexivity. Qed.

Example sha1_two_blocks :
  Sum (bytes_of "abcdbcdecdefdefgefghfghighijhijkijkljklmklmnlmnomnopnopq") =
  mkDigest 2224569924 473682542 3131984545 4182845925 3846598897.
Proof. vm_compute. reflexivity. Qed.
