(* ===== verification/HashRing.v ===== *)
(** * The client's consistent-hash ring

    internal/cacheclient/client.go: [hashString], [buildRing] and the routing
    half of [Lookup]. The published ring is the [Ring] of ring.go (the client
    mirrors that type). [sort.Slice] is any implementation of its contract:
    the theorems do not depend on how it breaks ties. *)

From S2P Require Import Prelude GoLib Json Sha1 Api Names Ring.

Local Open Scope Z_scope.

(** Virtual nodes per pod. *)
Definition vnodeCount : Z := 128.

(** [binary.BigEndian.Uint32(h[:4])] of the SHA-1 digest. *)
Definition hashString (s : string) : Z :=
  match digest_bytes (Sum (bytes_of s)) with
  | a :: b :: c :: d :: _ => be32 a b c d
  | _ => 0
  end.

(** [fmt.Sprintf("%s#%d", member, i)] *)
Definition vnodeName (member : string) (i : Z) : string := member +:+ "#" +:+ FormatInt i.

Record hashRing := mkHashRing { hr_version : Z; hashes : list Z; positions : list string }.

(** The two slices filled by the nested loop. *)
Definition vnodeHashes (members : list string) : list Z :=
  members ≫= λ m, (λ i, hashString (vnodeName m i)) <$> seqZ 0 vnodeCount.

Definition vnodeOwners (members : list string) : list string :=
  members ≫= λ m, (λ _, m) <$> seqZ 0 vnodeCount.

Section HashRing.
Context `{SS : SliceSort}.

Definition buildRing (r : Ring) : hashRing :=
  let hs := vnodeHashes (Members r) in
  let ps := vnodeOwners (Members r) in
  let idx := sort_Slice (λ a b, hs !!! a <? hs !!! b) (seq 0 (length hs)) in
  mkHashRing (Version r) ((λ j, hs !!! j) <$> idx) ((λ j, ps !!! j) <$> idx).

End HashRing.

(** [r.positions[i]] for the first [i] with [r.hashes[i] >= h], wrapping around;
    [None] is an index out of range. *)
Definition route (r : hashRing) (key : string) : option string :=
  let h := hashString key in
  let n := Z.of_nat (length (hashes r)) in
  let i := sort_Search n (λ i, h <=? hashes r !!! Z.to_nat i) in
  let i := if bool_decide (i = n) then 0 else i in
  positions r !! Z.to_nat i.

(** ** Specification: clockwise owner *)

(** The way round the circle from [h] to [x]. *)
Definition clockwise (h x : Z) : Z := (x - h) mod 2 ^ 32.

(** [pod] has the virtual node first met going clockwise from the key. *)
Definition owns (members : list string) (key pod : string) : Prop :=
  pod ∈ members ∧ ∃ i, 0 <= i < vnodeCount ∧ ∀ m j, m ∈ members → 0 <= j < vnodeCount →
    clockwise (hashString key) (hashString (vnodeName pod i)) <=
    clockwise (hashString key) (hashString (vnodeName m j)).

(** No two members share a point of the circle. *)
Definition collision_free (members : list string) : Prop :=
  ∀ m1 m2 i j, m1 ∈ members → m2 ∈ members → 0 <= i < vnodeCount → 0 <= j < vnodeCount →
    hashString (vnodeName m1 i) = hashString (vnodeName m2 j) → m1 = m2.

Lemma hashString_range s : 0 <= hashString s < 2 ^ 32.
Proof. unfold hashString. rewrite digest_bytes_h0. apply Sum_h0_range. Qed.

Lemma clockwise_ge h x : 0 <= h < 2 ^ 32 → 0 <= x < 2 ^ 32 → h <= x → clockwise h x = x - h.
Proof. intros. apply Z.mod_small. lia. Qed.

Lemma clockwise_lt h x : 0 <= h < 2 ^ 32 → 0 <= x < 2 ^ 32 → x < h → clockwise h x = x - h + 2 ^ 32.
Proof.
  intros. unfold clockwise. symmetry. apply Z.mod_unique with (-1); lia.
Qed.

Lemma clockwise_inj h x y :
  0 <= h < 2 ^ 32 → 0 <= x < 2 ^ 32 → 0 <= y < 2 ^ 32 → clockwise h x = clockwise h y → x = y.
Proof.
  intros Hh Hx Hy. destruct (decide (h <= x)), (decide (h <= y));
    rewrite ?(clockwise_ge h x), ?(clockwise_ge h y), ?(clockwise_lt h x), ?(clockwise_lt h y) by lia;
    lia.
Qed.

(** ** The arrays of a built ring *)

(** Hash and owner of every virtual node, in construction order. *)
Definition vnodes (members : list string) : list (Z * string) :=
  members ≫= λ m, (λ i, (hashString (vnodeName m i), m)) <$> seqZ 0 vnodeCount.

Lemma vnodes_hashes ms : (vnodes ms).*1 = vnodeHashes ms.
Proof.
  unfold vnodes, vnodeHashes. induction ms as [|m ms IH]; [done|].
  rewrite !bind_cons, fmap_app, IH, <- list_fmap_compose. done.
Qed.

Lemma vnodes_owners ms : (vnodes ms).*2 = vnodeOwners ms.
Proof.
  unfold vnodes, vnodeOwners. induction ms as [|m ms IH]; [done|].
  rewrite !bind_cons, fmap_app, IH, <- list_fmap_compose. done.
Qed.

Lemma elem_of_vnodes ms h m :
  (h, m) ∈ vnodes ms ↔ m ∈ ms ∧ ∃ i, 0 <= i < vnodeCount ∧ h = hashString (vnodeName m i).
Proof.
  unfold vnodes. rewrite list_elem_of_bind. split.
  - intros (m' & (i & [= -> ->] & Hi)%list_elem_of_fmap & Hm'). split; [done|].
    exists i. apply elem_of_seqZ in Hi. split; [lia|done].
  - intros (Hm & i & Hi & ->). exists m. split; [|done]. apply list_elem_of_fmap. exists i.
    split; [done|]. apply elem_of_seqZ. lia.
Qed.

Lemma length_vnodes ms : length (vnodes ms) = (length ms * 128)%nat.
Proof.
  unfold vnodes. induction ms as [|m ms IH]; [done|].
  rewrite bind_cons, length_app, IH, length_fmap, length_seqZ. simpl. lia.
Qed.

Lemma fmap_lookup_total_seq {A} `{Inhabited A} (l : list A) : (λ j, l !!! j) <$> seq 0 (length l) = l.
Proof.
  induction l as [|x l IH]; [done|]. simpl. f_equal. rewrite <- fmap_S_seq.
  rewrite <- list_fmap_compose. exact IH.
Qed.

Section Built.
Context `{SS : SliceSort}.

(** The sorted index list behind the arrays. *)
Lemma buildRing_entries r :
  ∃ es, es ≡ₚ vnodes (Members r) ∧ hashes (buildRing r) = es.*1 ∧ positions (buildRing r) = es.*2 ∧
    StronglySorted (λ a b : Z * string, a.1 <= b.1) es.
Proof.
  unfold buildRing. simpl. set (hs := vnodeHashes _). set (ps := vnodeOwners _).
  set (vs := vnodes (Members r)).
  set (idx := sort_Slice (λ a b, hs !!! a <? hs !!! b) (seq 0 (length hs))).
  assert (length hs = length vs) as Hlen by (unfold hs, vs; by rewrite <- vnodes_hashes, length_fmap).
  assert (idx ≡ₚ seq 0 (length vs)) as Hperm by (rewrite <- Hlen; apply sort_Slice_perm).
  assert (∀ j, j ∈ idx → hs !!! j = (vs !!! j).1 ∧ ps !!! j = (vs !!! j).2) as Hat.
  { intros j Hj. rewrite Hperm, elem_of_seq in Hj.
    destruct (lookup_lt_is_Some_2 vs j ltac:(lia)) as [[h m] Hv].
    rewrite (list_lookup_total_correct vs j (h, m)) by done. simpl.
    split; apply list_lookup_total_correct.
    - unfold hs. rewrite <- vnodes_hashes, list_lookup_fmap. fold vs. by rewrite Hv.
    - unfold ps. rewrite <- vnodes_owners, list_lookup_fmap. fold vs. by rewrite Hv. }
  exists ((λ j, vs !!! j) <$> idx). split_and!.
  - rewrite Hperm. by rewrite fmap_lookup_total_seq.
  - rewrite <- list_fmap_compose. apply list_fmap_ext. intros i j Hj%list_elem_of_lookup_2.
    by apply Hat.
  - rewrite <- list_fmap_compose. apply list_fmap_ext. intros i j Hj%list_elem_of_lookup_2.
    by apply Hat.
  - pose proof (sort_Slice_key (λ j, hs !!! j) (seq 0 (length hs))) as Hs.
    fold idx in Hs. clear Hperm. induction Hs as [|j js _ IH Hj]; simpl; constructor.
    + apply IH. intros k Hk. apply Hat. by right.
    + apply Forall_fmap, Forall_forall. intros k Hk.
      change ((vs !!! j).1 <= (vs !!! k).1). destruct (Hat j) as [<- _]; [left|]. destruct (Hat k) as [<- _]; [by right|].
      by eapply Forall_forall in Hj.
Qed.

(** Where the binary search lands in a sorted circle. *)
Lemma search_clockwise (es : list (Z * string)) h i :
  StronglySorted (λ a b : Z * string, a.1 <= b.1) es → es ≠ [] →
  0 <= h < 2 ^ 32 → (∀ v, v ∈ es → 0 <= v.1 < 2 ^ 32) → (i <= length es)%nat →
  (∀ a v, (a < i)%nat → es !! a = Some v → v.1 < h) →
  (∀ b v, (i <= b)%nat → es !! b = Some v → h <= v.1) →
  ∃ v, es !! (if bool_decide (i = length es) then 0%nat else i) = Some v ∧
       ∀ w, w ∈ es → clockwise h v.1 <= clockwise h w.1.
Proof.
  intros Hs Hne Hh Hr Hi Hlo Hhi. assert (0 < length es)%nat by (destruct es; simpl in *; [done|lia]).
  assert (∀ a b v w, (a <= b)%nat → es !! a = Some v → es !! b = Some w → v.1 <= w.1) as Hmono.
  { intros a b v w Hab Ha Hb. destruct (decide (a = b)) as [->|]; [by simplify_eq|].
    by apply (StronglySorted_lookup _ _ a b v w Hs Ha Hb); lia. }
  case_bool_decide as Hn.
  - destruct (lookup_lt_is_Some_2 es 0) as [v Hv]; [lia|]. exists v. split; [done|].
    intros w [k Hk]%list_elem_of_lookup. pose proof (lookup_lt_Some _ _ _ Hk).
    pose proof (Hr v (list_elem_of_lookup_2 _ _ _ Hv)). pose proof (Hr w (list_elem_of_lookup_2 _ _ _ Hk)).
    pose proof (Hlo 0%nat v ltac:(lia) Hv). pose proof (Hlo k w ltac:(lia) Hk).
    pose proof (Hmono 0%nat k v w ltac:(lia) Hv Hk). rewrite !clockwise_lt by lia. lia.
  - destruct (lookup_lt_is_Some_2 es i) as [v Hv]; [lia|]. exists v. split; [done|].
    intros w [k Hk]%list_elem_of_lookup.
    pose proof (Hr v (list_elem_of_lookup_2 _ _ _ Hv)). pose proof (Hr w (list_elem_of_lookup_2 _ _ _ Hk)).
    pose proof (Hhi i v ltac:(lia) Hv). rewrite (clockwise_ge h v.1) by lia.
    destruct (decide (k < i)%nat) as [Hlt|Hge].
    + pose proof (Hlo k w Hlt Hk). rewrite clockwise_lt by lia. lia.
    + pose proof (Hhi k w ltac:(lia) Hk). rewrite clockwise_ge by lia.
      pose proof (Hmono i k v w ltac:(lia) Hv Hk). lia.
Qed.

(** The pod [route] picks owns the key. *)
Lemma route_owner r key :
  Members r ≠ [] → ∃ pod, route (buildRing r) key = Some pod ∧ owns (Members r) key pod.
Proof.
  intros Hne. destruct (buildRing_entries r) as (es & Hperm & Hh & Hp & Hsort).
  unfold route. rewrite Hh, Hp, length_fmap. set (h := hashString key).
  assert (∀ v, v ∈ es ↔ v.2 ∈ Members r ∧ ∃ i, 0 <= i < vnodeCount ∧ v.1 = hashString (vnodeName v.2 i))
    as Hes by (intros [x m]; rewrite Hperm; apply elem_of_vnodes).
  assert (es ≠ []) as Hes_ne.
  { intros ->. apply (f_equal length) in Hh. apply Permutation_length in Hperm.
    rewrite length_vnodes in Hperm. destruct (Members r); [done|]. simpl in Hperm. lia. }
  set (f := λ i, h <=? es.*1 !!! Z.to_nat i).
  assert (∀ i v, es !! i = Some v → f (Z.of_nat i) = (h <=? v.1)) as Hf.
  { intros i v Hv. unfold f. rewrite Nat2Z.id. f_equal. apply list_lookup_total_correct.
    by rewrite list_lookup_fmap, Hv. }
  destruct (sort_Search_spec (Z.of_nat (length es)) f) as (Hb & Hlo & Hhi); [lia| |].
  { intros a b Hab Hb. destruct (lookup_lt_is_Some_2 es (Z.to_nat a)) as [v Hv]; [lia|].
    destruct (lookup_lt_is_Some_2 es (Z.to_nat b)) as [w Hw]; [lia|].
    rewrite <- (Z2Nat.id a), <- (Z2Nat.id b), (Hf _ _ Hv), (Hf _ _ Hw) by lia.
    destruct (decide (a = b)) as [->|]; [by simplify_eq|].
    pose proof (StronglySorted_lookup _ _ _ _ v w Hsort Hv Hw ltac:(lia)). simpl in *. lia. }
  set (i := sort_Search _ f) in *.
  destruct (search_clockwise es h (Z.to_nat i)) as (v & Hv & Hmin); [done|done|apply hashString_range| | | | |].
  { intros v (_ & j & _ & ->)%Hes. apply hashString_range. }
  { lia. }
  { intros a v Ha Hv. specialize (Hlo (Z.of_nat a) ltac:(lia)). rewrite (Hf _ _ Hv) in Hlo. lia. }
  { intros b v Hb' Hv. pose proof (lookup_lt_Some _ _ _ Hv).
    specialize (Hhi (Z.of_nat b) ltac:(lia)). rewrite (Hf _ _ Hv) in Hhi. lia. }
  exists v.2. split.
  - rewrite list_lookup_fmap.
    replace (Z.to_nat (if bool_decide (i = Z.of_nat (length es)) then 0 else i))
      with (if bool_decide (Z.to_nat i = length es) then 0%nat else Z.to_nat i); [by rewrite Hv|].
    repeat case_bool_decide; lia.
  - apply list_elem_of_lookup_2 in Hv. apply Hes in Hv as (Hm & j & Hj & Hvj).
    split; [done|]. exists j. split; [done|]. intros m k Hm' Hk. rewrite <- Hvj.
    apply (Hmin (hashString (vnodeName m k), m)). apply Hes. eauto.
Qed.

(** Under no collision the owner is unique. *)
Lemma owns_unique ms key p q :
  collision_free ms → owns ms key p → owns ms key q → p = q.
Proof.
  intros Hcf (Hp & i & Hi & Hpi) (Hq & j & Hj & Hqj). apply (Hcf p q i j); [done..|].
  apply (clockwise_inj (hashString key)); try apply hashString_range.
  pose proof (Hpi q j Hq Hj). pose proof (Hqj p i Hp Hi). lia.
Qed.

Lemma owns_subset ms ms' key p :
  (∀ m, m ∈ ms' → m ∈ ms) → p ∈ ms' → owns ms key p → owns ms' key p.
Proof. intros Hsub Hp (_ & i & Hi & H). split; [done|]. exists i. split; [done|]. eauto. Qed.

Lemma collision_free_subset ms ms' :
  (∀ m, m ∈ ms' → m ∈ ms) → collision_free ms → collision_free ms'.
Proof. intros Hsub Hcf m1 m2 i j H1 H2. apply Hcf; eauto. Qed.

(** Distinct points are enough. *)
Lemma collision_free_NoDup ms : NoDup (vnodeHashes ms) → collision_free ms.
Proof.
  rewrite <- vnodes_hashes. intros Hnd m1 m2 i j H1 H2 Hi Hj Heq.
  assert ((hashString (vnodeName m1 i), m1) ∈ vnodes ms) as [a Ha]%list_elem_of_lookup
    by (apply elem_of_vnodes; eauto).
  assert ((hashString (vnodeName m2 j), m2) ∈ vnodes ms) as [b Hb]%list_elem_of_lookup
    by (apply elem_of_vnodes; eauto).
  assert (a = b) as ->; [|naive_solver].
  eapply (NoDup_lookup (vnodes ms).*1); [done|rewrite list_lookup_fmap, Ha; done|].
  rewrite list_lookup_fmap, Hb. simpl. by rewrite Heq.
Qed.

End Built.

(** ** Claims *)

Section Claims.
Context `{SS : SliceSort}.

(** C23: the arrays of a built ring are consistent, whatever order the unstable
    sort leaves equal hashes in: 128 entries per member, hashes ascending, and
    paired index by index they are exactly the virtual nodes of the members with
    their owners. *)
Theorem buildRing_arrays_paired r :
  let b := buildRing r in
  hr_version b = Version r ∧ length (hashes b) = (128 * length (Members r))%nat ∧
  length (positions b) = length (hashes b) ∧ StronglySorted Z.le (hashes b) ∧
  zip (hashes b) (positions b) ≡ₚ vnodes (Members r).
Proof.
  cbv zeta. destruct (buildRing_entries r) as (es & Hp & Hh & Hpos & Hs).
  split; [done|]. rewrite Hh, Hpos, !length_fmap. split; [|split; [done|split]].
  - rewrite Hp, length_vnodes. lia.
  - clear -Hs. induction Hs as [|e es _ IH He]; simpl; constructor; [done|].
    by apply Forall_fmap.
  - by rewrite zip_fst_snd.
Qed.

(** C7: routing on a built, non-empty ring never indexes out of range and picks a
    member owning the virtual node first met clockwise from the key's hash on the
    2^32 circle, over all virtual nodes of all members: binary search with
    wrap-around is consistent hashing. *)
Theorem route_is_clockwise_owner r key :
  Members r ≠ [] → ∃ pod, route (buildRing r) key = Some pod ∧ owns (Members r) key pod.
Proof. apply route_owner. Qed.

End Claims.

(** Clients agree: two clients that built rings of the same member set - listed
    in any order, sorted by any two implementations of the sort - route every key
    to the same pod, unless two members' virtual nodes collide. *)
Theorem clients_agree (SS1 SS2 : SliceSort) r1 r2 key :
  (∀ m, m ∈ Members r1 ↔ m ∈ Members r2) → collision_free (Members r1) → Members r1 ≠ [] →
  route (buildRing (SS := SS1) r1) key = route (buildRing (SS := SS2) r2) key.
Proof.
  intros Hset Hcf Hne.
  assert (Members r2 ≠ []) as Hne2.
  { destruct (Members r1) as [|m ms]; [done|]. intros Heq. specialize (Hset m).
    rewrite Heq in Hset. set_solver. }
  destruct (route_owner (SS := SS1) r1 key Hne) as (p & -> & Hp).
  destruct (route_owner (SS := SS2) r2 key Hne2) as (q & -> & Hq). f_equal.
  eapply owns_unique; [done..|]. eapply owns_subset; [|by apply Hset, Hq|done]. naive_solver.
Qed.

(** C17: minimal disruption: if no virtual nodes of two different members hash to the
    same point ([collision_free]), then when members leave the ring (a scale-down, a
    crash), a key whose pod stays keeps its pod; read the other way round, when members
    join, a key moves only to a pod that joined. *)
Theorem leaving_members_move_only_their_keys (SS1 SS2 : SliceSort) r r' key pod :
  collision_free (Members r) → (∀ m, m ∈ Members r' → m ∈ Members r) →
  route (buildRing (SS := SS1) r) key = Some pod → pod ∈ Members r' →
  route (buildRing (SS := SS2) r') key = Some pod.
Proof.
  intros Hcf Hsub Hr Hpod. assert (Members r' ≠ []) as Hne' by (by intros Heq; rewrite Heq in Hpod; set_solver).
  assert (Members r ≠ []) as Hne by (intros Heq; apply Hsub in Hpod; rewrite Heq in Hpod; set_solver).
  destruct (route_owner (SS := SS1) r key Hne) as (p & Hp & Hown).
  destruct (route_owner (SS := SS2) r' key Hne') as (q & -> & Hq). f_equal. simplify_eq.
  eapply owns_unique; [by eapply collision_free_subset|exact Hq|].
  by eapply owns_subset.
Qed.
