(* ===== verification/Client.v ===== *)
(** * The reference client: polling and lookups

    internal/cacheclient/client.go: [New], [pollOnce], [Run], [Lookup] and
    [RingVersion]. The atomic pointer to the ring is the field [cl_ring]; a
    lookup reads it once, so it sees one of the states between polls. *)

From S2P Require Import Prelude GoLib Json Sha1 Api Kube Names Ring Cell RingPublish HashRing.

Local Open Scope Z_scope.

Record Config := mkConfig {
  cfg_RingConfigMap : NamespacedName; cfg_ServiceFQDN : string; cfg_PollInterval : Z
}.

Record Client := mkClient {
  cl_ringConfigMap : NamespacedName;
  cl_pollInterval : Z;
  cl_ring : option hashRing;
  cl_serviceFQDN : string
}.

Definition New (cfg : Config) : Client :=
  let interval := if bool_decide (cfg_PollInterval cfg = 0) then 10 * Second else cfg_PollInterval cfg in
  mkClient (cfg_RingConfigMap cfg) interval None (cfg_ServiceFQDN cfg).

(** [c.ring.Store(built)] *)
Definition store_ring (r : hashRing) (c : Client) : Client :=
  mkClient (cl_ringConfigMap c) (cl_pollInterval c) (Some r) (cl_serviceFQDN c).

(** Why a poll failed: the read, a payload that is not there, one that does not
    decode. Every caller drops the error. *)
Inductive pollError := GetFailed (e : goerror) | MissingPayload | UnparsablePayload.

(** [Errorf("ring is empty")] *)
Definition ErrRingEmpty : goerror := ApiError false "ring is empty".

(** [None]: an index out of range. *)
Definition Lookup (c : Client) (key : string) : option (goerror + string) :=
  match cl_ring c with
  | None => Some (inl ErrRingEmpty)
  | Some r =>
      if bool_decide (length (hashes r) = 0%nat) then Some (inl ErrRingEmpty)
      else match route r key with
           | Some pod => Some (inr (pod +:+ "." +:+ cl_serviceFQDN c))
           | None => None
           end
  end.

Definition RingVersion (c : Client) : Z :=
  match cl_ring c with None => 0 | Some r => hr_version r end.

Section Client.
Context `{KL : KubeLib} `{SS : SliceSort}.

(** What a poll does with the ConfigMap it read. *)
Definition pollConfigMap (c : Client) (cm : ConfigMap) : option pollError * Client :=
  match Data cm !! "ring.json" with
  | None => (Some MissingPayload, c)
  | Some raw =>
      match UnmarshalRing raw with
      | None => (Some UnparsablePayload, c)
      | Some (v, ms) =>
          match cl_ring c with
          | Some current => if bool_decide (hr_version current = v) then (None, c)
                            else (None, store_ring (buildRing (mkRing v ms)) c)
          | None => (None, store_ring (buildRing (mkRing v ms)) c)
          end
      end
  end.

Definition pollOnce (c : Client) : prog (option pollError * Client) :=
  got ← Get KConfigMap (cl_ringConfigMap c);
  match got with
  | inl e => mret (Some (GetFailed e), c)
  | inr cm => mret (pollConfigMap c cm)
  end.

(** [n] ticks of the loop before the context is cancelled. *)
Fixpoint pollLoop (n : nat) (c : Client) : prog Client :=
  match n with
  | O => mret c
  | S n => r ← pollOnce c; pollLoop n r.2
  end.

Definition Run (c : Client) (ticks : nat) : prog Client := r ← pollOnce c; pollLoop ticks r.2.

(** ** Invariant: a loaded ring was built from a decoded one *)

Definition client_ok (c : Client) : Prop :=
  ∀ hr, cl_ring c = Some hr → ∃ r, hr = buildRing r.

Lemma New_ok cfg : client_ok (New cfg).
Proof. by intros hr. Qed.

Lemma pollConfigMap_ok c cm : client_ok c → client_ok (pollConfigMap c cm).2.
Proof.
  intros Hok. unfold pollConfigMap. destruct (Data cm !! _) as [raw|]; [|done].
  destruct (UnmarshalRing raw) as [[v ms]|]; [|done].
  assert (client_ok (store_ring (buildRing (mkRing v ms)) c)) as Hnew.
  { intros hr [= <-]. eauto. }
  destruct (cl_ring c) as [cur|]; [|done]. by case_bool_decide.
Qed.

Lemma pollConfigMap_frame c cm :
  cl_ringConfigMap (pollConfigMap c cm).2 = cl_ringConfigMap c ∧
  cl_serviceFQDN (pollConfigMap c cm).2 = cl_serviceFQDN c.
Proof. unfold pollConfigMap. by repeat case_match. Qed.

Lemma pollOnce_runs c t res :
  runs (pollOnce c) t res → ∃ got, t = [ev (OGet KConfigMap (cl_ringConfigMap c)) got] ∧
    res = match got with inl e => (Some (GetFailed e), c) | inr cm => pollConfigMap c cm end.
Proof.
  unfold pollOnce, Get. intros (t1 & got & t2 & -> & Hg & H)%runs_bind.
  apply (runs_call (OGet KConfigMap _)) in Hg as ->. exists got.
  destruct got as [e|cm]; run_step H; done.
Qed.

Lemma pollOnce_ok c t res : client_ok c → runs (pollOnce c) t res → client_ok res.2.
Proof.
  intros Hok (got & -> & ->)%pollOnce_runs. destruct got; [done|]. by apply pollConfigMap_ok.
Qed.

Lemma pollLoop_ok n c t c' : client_ok c → runs (pollLoop n c) t c' → client_ok c'.
Proof.
  revert c t. induction n as [|n IH]; intros c t Hok H; cbn [pollLoop] in H.
  - by destruct H as [_ ->].
  - apply runs_bind in H as (t1 & r & t2 & -> & H1 & H2).
    eapply IH; [|exact H2]. by eapply pollOnce_ok.
Qed.

Lemma hashes_empty r : length (hashes (buildRing r)) = 0%nat ↔ Members r = [].
Proof.
  destruct (buildRing_entries r) as (es & Hp & -> & _ & _).
  rewrite length_fmap, Hp, length_vnodes. destruct (Members r); simpl; split; (done || lia).
Qed.

Lemma pollOnce_FQDN c t res : runs (pollOnce c) t res → cl_serviceFQDN res.2 = cl_serviceFQDN c.
Proof.
  intros (got & -> & ->)%pollOnce_runs. destruct got; [done|]. apply pollConfigMap_frame.
Qed.

Lemma pollLoop_FQDN n c t c' : runs (pollLoop n c) t c' → cl_serviceFQDN c' = cl_serviceFQDN c.
Proof.
  revert c t. induction n as [|n IH]; intros c t H; cbn [pollLoop] in H.
  - by destruct H as [_ ->].
  - apply runs_bind in H as (t1 & r & t2 & -> & H1 & H2). rewrite (IH _ _ H2).
    by eapply pollOnce_FQDN.
Qed.

Lemma Run_ok cfg n t c :
  runs (Run (New cfg) n) t c → client_ok c ∧ cl_serviceFQDN c = cfg_ServiceFQDN cfg.
Proof.
  unfold Run. intros (t1 & res & t2 & -> & H1 & H2)%runs_bind. split.
  - eapply pollLoop_ok; [|exact H2]. eapply pollOnce_ok; [|exact H1]. apply New_ok.
  - by rewrite (pollLoop_FQDN _ _ _ _ H2), (pollOnce_FQDN _ _ _ H1).
Qed.

Lemma Lookup_cases c key :
  client_ok c →
  (Lookup c key = Some (inl ErrRingEmpty) ∧ ∀ hr, cl_ring c = Some hr → hashes hr = []) ∨
  (∃ r pod, cl_ring c = Some (buildRing r) ∧ owns (Members r) key pod ∧
     Lookup c key = Some (inr (pod +:+ "." +:+ cl_serviceFQDN c))).
Proof.
  intros Hok. unfold Lookup. destruct (cl_ring c) as [hr|] eqn:E; [|by left].
  destruct (Hok hr E) as [r ->]. case_bool_decide as Hlen.
  - left. split; [done|]. intros ? [= <-]. by apply length_zero_iff_nil.
  - right. rewrite hashes_empty in Hlen. destruct (route_owner r key Hlen) as (pod & Hr & Ho).
    exists r, pod. by rewrite Hr.
Qed.

(** ** Following the operator *)

Definition readable (cm : ConfigMap) : Prop :=
  ∃ raw v ms, Data cm !! ringConfigMapKey = Some raw ∧ UnmarshalRing raw = Some (v, ms).

Lemma pollConfigMap_readable c cm :
  readable cm →
  (pollConfigMap c cm).1 = None ∧
  cl_ring (pollConfigMap c cm).2 =
    match cl_ring c with
    | Some cur => if bool_decide (hr_version cur = Version (currentRing (Data cm))) then Some cur
                  else Some (buildRing (currentRing (Data cm)))
    | None => Some (buildRing (currentRing (Data cm)))
    end.
Proof.
  intros (raw & v & ms & Hraw & Hu). unfold pollConfigMap, currentRing, ringConfigMapKey in *.
  rewrite Hraw, Hu. simpl. destruct (cl_ring c) as [cur|] eqn:E; [|done].
  case_bool_decide; [|done]. by split.
Qed.

(** The answers of successive reads while the operator publishes in between:
    failed reads, or the ConfigMap some publications after the last one read. *)
Inductive operatorFeed (cache : DistributedCache) : ConfigMap → list (goerror + ConfigMap) → ConfigMap → Prop :=
  | feed_nil cm : operatorFeed cache cm [] cm
  | feed_error cm e l cm' : operatorFeed cache cm l cm' → operatorFeed cache cm (inl e :: l) cm'
  | feed_read n cm cm1 l cm' :
      nsteps (ringWrite cache) n cm cm1 → Version (currentRing (Data cm)) + Z.of_nat n <= MaxInt64 →
      readable cm1 → operatorFeed cache cm1 l cm' → operatorFeed cache cm (inr cm1 :: l) cm'.

Lemma ring_eta r r' : Version r = Version r' → Members r = Members r' → r = r'.
Proof. destruct r, r'; simpl; congruence. Qed.

(** Skipping a ring of a known version loses nothing. *)
Lemma poll_follows cache n cm cm1 c :
  nsteps (ringWrite cache) n cm cm1 → Version (currentRing (Data cm)) + Z.of_nat n <= MaxInt64 →
  readable cm1 → cl_ring c = Some (buildRing (currentRing (Data cm))) →
  cl_ring (pollConfigMap c cm1).2 = Some (buildRing (currentRing (Data cm1))).
Proof.
  intros Hn Hv Hr Hc. destruct (pollConfigMap_readable c cm1 Hr) as [_ ->]. rewrite Hc. simpl.
  case_bool_decide as Heq; [|done]. do 2 f_equal. apply ring_eta; [done|].
  by apply (ringWrites_identify_members _ _ _ _ Hn Hv).
Qed.

Lemma pollLoop_follows cache cm l cm' c t c' :
  operatorFeed cache cm l cm' → cl_ring c = Some (buildRing (currentRing (Data cm))) →
  t = (λ r, ev (OGet KConfigMap (cl_ringConfigMap c)) r) <$> l →
  runs (pollLoop (length l) c) t c' → cl_ring c' = Some (buildRing (currentRing (Data cm'))).
Proof.
  intros Hfeed. revert c t. induction Hfeed as [cm|cm e l cm' _ IH|n cm cm1 l cm' Hn Hv Hr _ IH];
    intros c t Hc Ht H; cbn [pollLoop length] in H.
  - by destruct H as [_ ->].
  - apply runs_bind in H as (t1 & r & t2 & -> & (got & -> & ->)%pollOnce_runs & H).
    simpl in Ht. assert (got = inl e ∧ t2 = (λ r, ev (OGet KConfigMap (cl_ringConfigMap c)) r) <$> l)
      as [-> ->] by by apply get_events_inj.
    by eapply IH.
  - apply runs_bind in H as (t1 & r & t2 & -> & (got & -> & ->)%pollOnce_runs & H).
    simpl in Ht. assert (got = inr cm1 ∧ t2 = (λ r, ev (OGet KConfigMap (cl_ringConfigMap c)) r) <$> l)
      as [-> ->] by by apply get_events_inj.
    eapply IH; [by eapply poll_follows| |exact H].
    by rewrite (proj1 (pollConfigMap_frame c cm1)).
Qed.

(** ** Claims *)

(** One poll, on every branch: exactly one read of the ConfigMap; a failed
    read, a missing or an undecodable payload reports that and keeps the client as
    it was; a payload with the loaded version changes nothing; any other payload
    installs the ring built from it. *)
Theorem pollOnce_branches c t res :
  runs (pollOnce c) t res →
  ∃ got, t = [ev (OGet KConfigMap (cl_ringConfigMap c)) got] ∧
  match got with
  | inl e => res = (Some (GetFailed e), c)
  | inr cm =>
      match Data cm !! ringConfigMapKey with
      | None => res = (Some MissingPayload, c)
      | Some raw => match UnmarshalRing raw with
          | None => res = (Some UnparsablePayload, c)
          | Some (v, ms) =>
              (cl_ring c ≠ None ∧ RingVersion c = v ∧ res = (None, c)) ∨
              ((cl_ring c = None ∨ RingVersion c ≠ v) ∧
               res = (None, store_ring (buildRing (mkRing v ms)) c))
          end
      end
  end.
Proof.
  intros (got & -> & ->)%pollOnce_runs. exists got. split; [done|]. destruct got as [e|cm]; [done|].
  unfold pollConfigMap, ringConfigMapKey, RingVersion. destruct (Data cm !! _) as [raw|]; [|done].
  destruct (UnmarshalRing raw) as [[v ms]|]; [|done].
  destruct (cl_ring c) as [cur|]; [|by right; split; [left|]].
  case_bool_decide as Hv; [by left|]. right. split; [by right|done].
Qed.

(** Whatever a client has polled, a lookup never indexes out of range: it
    returns ErrRingEmpty exactly when no ring is loaded or the loaded one has no
    members, and otherwise the address, under the service name, of a member that
    owns the key. *)
Theorem Lookup_total cfg n t c key :
  runs (Run (New cfg) n) t c →
  (Lookup c key = Some (inl ErrRingEmpty) ∧
     ∀ hr, cl_ring c = Some hr → hashes hr = []) ∨
  (∃ r pod, cl_ring c = Some (buildRing r) ∧ owns (Members r) key pod ∧
     Lookup c key = Some (inr (pod +:+ "." +:+ cl_serviceFQDN c))).
Proof.
  intros [Hok _]%Run_ok. by apply Lookup_cases.
Qed.

(** The client follows the operator. If the first poll reads a readable
    ConfigMap and every later poll fails or reads what some number of publications
    of the operator made of it, then after all polls the client routes by the ring
    of the last ConfigMap it read - although it rebuilds only on a version change. *)
Theorem client_follows_operator cache cfg cm0 l cm' c' :
  readable cm0 → operatorFeed cache cm0 l cm' →
  runs (Run (New cfg) (length l))
    ((λ r, ev (OGet KConfigMap (cfg_RingConfigMap cfg)) r) <$> inr cm0 :: l) c' →
  cl_ring c' = Some (buildRing (currentRing (Data cm'))) ∧
  RingVersion c' = Version (currentRing (Data cm')).
Proof.
  intros Hr Hfeed (t1 & r & t2 & Ht & (got & -> & ->)%pollOnce_runs & H)%runs_bind.
  rewrite fmap_cons in Ht. apply get_events_inj in Ht as [<- <-].
  assert (cl_ring c' = Some (buildRing (currentRing (Data cm')))) as Hc.
  { eapply pollLoop_follows; [exact Hfeed| | |exact H].
    - by destruct (pollConfigMap_readable (New cfg) cm0 Hr) as [_ ->].
    - by rewrite (proj1 (pollConfigMap_frame (New cfg) cm0)). }
  split; [done|]. unfold RingVersion. by rewrite Hc.
Qed.

(** C38: the version counter restarts when the ConfigMap is deleted: the first
    publication of any non-empty membership has version 1, so a client that holds
    the first ring of a deleted ConfigMap takes the recreated one for unchanged and
    keeps routing to the old members. *)
Theorem recreated_ring_is_ignored cache ms1 ms2 cm2 c :
  ms1 ≠ [] → ms2 ≠ [] → Forall (λ s, ascii_string s = true) ms2 →
  mutateRingConfigMap cache (ringPayload (desiredRing ms2 (currentRing ∅)))
    (mkConfigMap (newMeta (ringConfigMapName cache) (targetNamespace cache)) ∅) = inr cm2 →
  cl_ring c = Some (buildRing (desiredRing ms1 (currentRing ∅))) →
  Members (currentRing (Data cm2)) = ms2 ∧ pollConfigMap c cm2 = (None, c).
Proof.
  intros H1 H2 Ha Hm Hc.
  assert (∀ ms, ms ≠ [] → desiredRing ms (currentRing ∅) = mkRing 1 ms) as Hfirst.
  { intros ms Hms. apply ring_eta; [|apply desiredRing_Members].
    by rewrite desiredRing_bump by (unfold currentRing; by rewrite lookup_empty). }
  rewrite Hfirst in Hm, Hc by done.
  assert (int64_ok (Version (mkRing 1 ms2))) as Hv by (simpl; go_int).
  rewrite (mutateRingConfigMap_currentRing _ _ _ _ Hv Ha Hm). split; [done|].
  unfold pollConfigMap. fold ringConfigMapKey. rewrite (mutateRingConfigMap_payload _ _ _ _ Hm).
  unfold ringPayload. rewrite Unmarshal_Marshal by done. simpl. rewrite Hc. simpl. done.
Qed.

End Client.
