(* ===== verification/System.v ===== *)
(** * The system: operator, StatefulSet controller, kubelets and clients

    A timed transition system around [Reconcile]: the clock ticks, the operator
    runs a pass, the user scales and deletes the cache, the StatefulSet controller creates
    the pods it is missing, kubelets report pod status, pods go away, clients
    join and poll. A pass is one step and the API server accepts its writes;
    everything else happens in any order in between. The file proves the invariant
    of the system; [Contract] draws the claims from it. *)

From S2P Require Import Prelude GoLib Json Api Kube KubeRef Names Ring Cell Workload Status.
From S2P Require Import RingPublish Drain Reconciler Stages Converge Teardown HashRing Client.

#[local] Existing Instance refKube.
Local Open Scope Z_scope.

(** A client and the time of its last successful poll. *)
Record System := mkSystem { cluster : Cluster; clients : gmap nat (Client * Time) }.

Definition t_le (t u : Time) : Prop :=
  t_sec t < t_sec u ∨ (t_sec t = t_sec u ∧ t_nsec t <= t_nsec u).

Section System.
Context `{SS : SliceSort}.

(** The cache as the user created it. *)
Variable c0 : DistributedCache.

Definition podKey (i : Z) : okey := (targetNamespace c0, podNameOf (dc_Name c0) i).

(** A pod as the StatefulSet controller creates it, before it runs. *)
Definition freshPod (i : Z) : Pod :=
  mkPod (om_set_Labels (λ _, podLabels c0) (newMeta (podNameOf (dc_Name c0) i) (targetNamespace c0)))
    "Pending" [].

Definition scaled (n : Z) (cache : DistributedCache) : DistributedCache :=
  mkCache (dc_meta cache)
    (mkSpec (Some n) (Image (Spec cache)) (MemoryPerPod (Spec cache)) (Drain (Spec cache))
       (Tenant (Spec cache))) (Status cache).

(** A deletion by the user: the API server removes an object without finalizers
    and stamps one that has some. *)
Definition deleteCache (cache : DistributedCache) (c : Cluster) : Cluster :=
  if bool_decide (om_Finalizers (dc_meta cache) = [])
  then remove KDistributedCache (dc_Namespace c0, dc_Name c0) c
  else @put KDistributedCache (map_meta (deleted (clock c)) KDistributedCache cache) c.

(** A poll that worked counts as contact with the operator's ring. *)
Definition polled (c : Cluster) (st : Client * Time) : Client * Time :=
  match (run (pollOnce st.1) c).2 with
  | (None, cl) => (cl, clock c)
  | (Some _, cl) => (cl, st.2)
  end.

Inductive step : System → System → Prop :=
  | step_tick c cls t :
      t_le (clock c) t → sane_time t → step (mkSystem c cls) (mkSystem (at_time t c) cls)
  | step_pass c cls :
      step (mkSystem c cls) (mkSystem (run (Reconcile (reqOf c0)) c).1 cls)
  | step_scale c cls cache n :
      store c KDistributedCache !! (dc_Namespace c0, dc_Name c0) = Some cache → 0 <= n <= MaxInt32 →
      step (mkSystem c cls) (mkSystem (@put KDistributedCache (scaled n cache) c) cls)
  | step_delete c cls cache :
      store c KDistributedCache !! (dc_Namespace c0, dc_Name c0) = Some cache →
      om_DeletionTimestamp (dc_meta cache) = None →
      step (mkSystem c cls) (mkSystem (deleteCache cache c) cls)
  | step_create c cls i r :
      replicasOf c0 c = Some r → 0 <= i < r → store c KPod !! podKey i = None →
      step (mkSystem c cls) (mkSystem (@put KPod (freshPod i) c) cls)
  | step_kubelet c cls key p phase conds :
      store c KPod !! key = Some p →
      step (mkSystem c cls) (mkSystem (@put KPod (mkPod (pod_meta p) phase conds) c) cls)
  | step_gone c cls key :
      step (mkSystem c cls) (mkSystem (remove KPod key c) cls)
  | step_join c cls id cl :
      cls !! id = None → cl_ring cl = None →
      cl_ringConfigMap cl = mkNN (targetNamespace c0) (ringConfigMapName c0) →
      step (mkSystem c cls) (mkSystem c (<[id := (cl, clock c)]> cls))
  | step_poll c cls id st :
      cls !! id = Some st → step (mkSystem c cls) (mkSystem c (<[id := polled c st]> cls)).

(** The cache has just been created; nothing of it runs yet. *)
Record initial (s : System) : Prop := {
  in_ready : ready c0 (cluster s);
  in_live : om_DeletionTimestamp (dc_meta c0) = None;
  in_name : ascii_string (dc_Name c0) = true;
  in_replicas : ∃ n, Replicas (Spec c0) = Some n ∧ 0 <= n <= MaxInt32;
  in_grace : int32_ok (GracePeriodSeconds (Drain (Spec c0)));
  in_clock : sane_time (clock (cluster s));
  in_pods : store (cluster s) KPod = ∅;
  in_sts : store (cluster s) KStatefulSet !! stsKey c0 = None;
  in_cm : store (cluster s) KConfigMap !! ringKey c0 = None;
  in_clients : clients s = ∅
}.

(** ** The stored cache

    It keeps its identity; only replicas, finalizers, status and the deletion
    timestamp change. *)
Record sameCache (cache : DistributedCache) : Prop := {
  sc_name : dc_Name cache = dc_Name c0;
  sc_ns : dc_Namespace cache = dc_Namespace c0;
  sc_uid : om_UID (dc_meta cache) = om_UID (dc_meta c0);
  sc_tenant : Tenant (Spec cache) = Tenant (Spec c0);
  sc_drain : Drain (Spec cache) = Drain (Spec c0);
  sc_replicas : ∃ n, Replicas (Spec cache) = Some n ∧ 0 <= n <= MaxInt32
}.

Lemma sameCache_target cache : sameCache cache → targetNamespace cache = targetNamespace c0.
Proof. intros []. unfold targetNamespace, isolated. by rewrite sc_tenant0, sc_name0, sc_ns0. Qed.

Lemma sameCache_keys cache :
  sameCache cache → stsKey cache = stsKey c0 ∧ ringKey cache = ringKey c0 ∧
    podLabels cache = podLabels c0 ∧ graceOf cache = graceOf c0 ∧ reqOf cache = reqOf c0 ∧
    isCrossNamespaceChild cache = isCrossNamespaceChild c0.
Proof.
  intros H. pose proof (sameCache_target cache H) as Ht. destruct H as [Hn Hns _ _ Hd _].
  unfold stsKey, ringKey, podLabels, graceOf, reqOf, ringConfigMapName, isCrossNamespaceChild.
  by rewrite Ht, Hn, Hns, Hd.
Qed.

Lemma sameCache_reads cache c :
  sameCache cache → replicasOf cache c = replicasOf c0 c ∧ ringOf cache c = ringOf c0 c ∧
    podsOf cache c = podsOf c0 c.
Proof.
  intros H. destruct (sameCache_keys cache H) as (H1 & H2 & H3 & _).
  unfold replicasOf, ringOf, ringData, podsOf. by rewrite H1, H2, H3, (sameCache_target cache H).
Qed.

(** The cluster around the cache, which need not be there any more: the server
    accepts writes, objects are stored under their names, no other controller owns
    the children and no pod is being deleted. *)
Record tidy (c : Cluster) : Prop := {
  td_writes : ∀ k, writes_fail c k = false;
  td_keys : ∀ k key o, store c k !! key = Some o → key_of o = key;
  td_children : children_ok c0 c;
  td_pods : ∀ key p, store c KPod !! key = Some p → om_DeletionTimestamp (pod_meta p) = None
}.

Lemma sameCache_children cache c : sameCache cache → children_ok cache c ↔ children_ok c0 c.
Proof.
  intros H. destruct (sameCache_keys cache H) as (_ & _ & _ & _ & _ & Hx).
  unfold children_ok, adoptable. by rewrite Hx, (sc_uid _ H).
Qed.

Lemma ready_tidy cache c :
  sameCache cache →
  ready cache c ↔ tidy c ∧ store c KDistributedCache !! (dc_Namespace c0, dc_Name c0) = Some cache.
Proof.
  intros H. pose proof (sameCache_children cache c H) as Hch. split.
  - intros [Hw Hk Hc Hca Hp]. rewrite (sc_name _ H), (sc_ns _ H) in Hca. split; [|done].
    by split; [..|apply Hch|].
  - intros [[Hw Hk Hc Hp] Hca]. split; [done..|by apply Hch| |done].
    by rewrite (sc_name _ H), (sc_ns _ H).
Qed.

(** ** The invariant *)

(** The pod started draining at [t0] and nobody in touch since routes to it:
    neither the published ring nor a client whose last poll is in a later
    second. *)
Definition retired (s : System) (p : Pod) (t0 : Time) : Prop :=
  pod_Annotations p !! drainAnnotation = Some (FormatInt (t_Unix t0)) ∧ sane_time t0 ∧
  t_sec t0 <= t_sec (clock (cluster s)) ∧
  (pod_Name p ∉ Members (ringOf c0 (cluster s))) ∧
  ∀ id cl last hr, clients s !! id = Some (cl, last) → cl_ring cl = Some hr →
    t_sec t0 < t_sec last → pod_Name p ∉ positions hr.

(** A client holds an older ring or exactly the published one. *)
Definition follows (c : Cluster) (cl : Client) (last : Time) : Prop :=
  cl_ringConfigMap cl = mkNN (targetNamespace c0) (ringConfigMapName c0) ∧
  (sane_time last ∧ t_le last (clock c)) ∧
  ∀ hr, cl_ring cl = Some hr →
    hr_version hr <= Version (ringOf c0 c) ∧
    (hr_version hr = Version (ringOf c0 c) → hr = buildRing (ringOf c0 c)).

(** The pod is pod [i] of the cache. *)
Definition isPod (i : Z) (p : Pod) : Prop :=
  pod_Name p = podNameOf (dc_Name c0) i ∧ om_Namespace (pod_meta p) = targetNamespace c0 ∧
  podLabels c0 ⊆ om_Labels (pod_meta p).

(** Pods the StatefulSet does not cover have been drained; without one there
    are no pods. *)
Definition covered (c : Cluster) : Prop :=
  match replicasOf c0 c with
  | Some r => 0 <= r ∧ ∀ i p, store c KPod !! podKey i = Some p → r <= i → drained (graceOf c0) (clock c) p
  | None => store c KPod = ∅
  end.

Record inv (n : nat) (s : System) : Prop := {
  iv_tidy : tidy (cluster s);
  iv_cache : ∀ cache, store (cluster s) KDistributedCache !! (dc_Namespace c0, dc_Name c0) = Some cache →
    sameCache cache;
  iv_clock : sane_time (clock (cluster s));
  iv_pods : ∀ key p, store (cluster s) KPod !! key = Some p → ∃ i, 0 <= i ∧ key = podKey i ∧ isPod i p;
  iv_retired : ∀ key p v, store (cluster s) KPod !! key = Some p →
    pod_Annotations p !! drainAnnotation = Some v → ∃ t0, retired s p t0;
  iv_covered : covered (cluster s);
  iv_version : 0 <= Version (ringOf c0 (cluster s)) <= Z.of_nat n;
  iv_cm : ∀ cm, store (cluster s) KConfigMap !! ringKey c0 = Some cm → decodable cm;
  iv_clients : ∀ id cl last, clients s !! id = Some (cl, last) → follows (cluster s) cl last
}.

(** Facts about the cache that never change. *)
Hypothesis Hname : ascii_string (dc_Name c0) = true.
Hypothesis Hgrace : int32_ok (GracePeriodSeconds (Drain (Spec c0))).

Lemma t_le_trans t u v : t_le t u → t_le u v → t_le t v.
Proof. unfold t_le. lia. Qed.

Lemma t_le_sec t u : t_le t u → t_sec t <= t_sec u.
Proof. unfold t_le. lia. Qed.

Lemma drained_later now now' p t0 :
  pod_Annotations p !! drainAnnotation = Some (FormatInt (t_Unix t0)) →
  sane_time t0 → sane_time now → sane_time now' → t_le now now' →
  drained (graceOf c0) now p → drained (graceOf c0) now' p.
Proof.
  intros Ha H0 H1 H2 Hle. rewrite !(drained_stamp c0 t0) by done.
  unfold t_le, sane_time, Second in *. lia.
Qed.

Lemma retired_tick c cls t p t0 :
  t_le (clock c) t → retired (mkSystem c cls) p t0 → retired (mkSystem (at_time t c) cls) p t0.
Proof.
  intros Ht%t_le_sec (H1 & H2 & H3 & H4 & H5). split_and!; [done|done|simpl in *; lia|exact H4|exact H5].
Qed.

Lemma inv_tick n c cls t :
  inv n (mkSystem c cls) → t_le (clock c) t → sane_time t → inv (S n) (mkSystem (at_time t c) cls).
Proof.
  intros [Htd Hca Hcl Hp Hr Hcov Hv Hcm Hcls] Ht Hs. split; simpl in *.
  - by destruct Htd.
  - exact Hca.
  - done.
  - exact Hp.
  - intros key p v Hl Ha. destruct (Hr key p v Hl Ha) as [t0 H]. exists t0. by apply retired_tick.
  - unfold covered in *. change (replicasOf c0 (at_time t c)) with (replicasOf c0 c).
    destruct (replicasOf c0 c) as [r|]; [|done]. destruct Hcov as [H0 H]. split; [done|].
    intros i p Hl Hi. pose proof (H i p Hl Hi) as Hd. pose proof Hd as (v & ts & Ha & _).
    destruct (Hr _ p v Hl Ha) as (t0 & Ha' & Ht0 & _).
    eapply drained_later; [exact Ha'|exact Ht0|exact Hcl|exact Hs|exact Ht|exact Hd].
  - change (ringOf c0 (at_time t c)) with (ringOf c0 c). lia.
  - exact Hcm.
  - intros id cl last Hid. destruct (Hcls id cl last Hid) as (H1 & H2 & H3).
    split_and!; [done|apply H2|eapply t_le_trans; [apply H2|done]|exact H3].
Qed.

(** Pods come, change their status and go: each pod of [c'] is one of [c] with
    the same metadata, or a fresh one the StatefulSet asks for. *)
Definition podChange (c c' : Cluster) : Prop :=
  keeps [KPod] c c' ∧ ∀ key (p' : Pod), store c' KPod !! key = Some p' →
    (∃ p, store c KPod !! key = Some p ∧ pod_meta p' = pod_meta p) ∨
    (∃ i r, key = podKey i ∧ p' = freshPod i ∧ replicasOf c0 c = Some r ∧ 0 <= i < r).

Lemma podKey_inj i j : podKey i = podKey j → i = j.
Proof. unfold podKey. intros [= H]. by apply podNameOf_inj in H. Qed.

Lemma tidy_podChange c c' : tidy c → podChange c c' → tidy c'.
Proof.
  intros [Hw Hkeys Hch Hp] [(Hc & Hwf & K) Hpods]. split.
  - intros k. by rewrite Hwf.
  - intros k key o Ho. destruct (decide (k = KPod)) as [->|Hne].
    + destruct (Hpods key o Ho) as [(p & Hl & Hm)|(i & r & -> & -> & _)]; [|done].
      rewrite <- (Hkeys KPod key p Hl). unfold key_of. cbn [obj_meta]. by rewrite Hm.
    + rewrite K in Ho by set_solver. by apply Hkeys.
  - intros k Hk key o Ho. rewrite K in Ho by set_solver. by eapply Hch.
  - intros key p' Hl. destruct (Hpods key p' Hl) as [(p & Hl' & ->)|(i & r & _ & -> & _)]; [|done].
    by eapply Hp.
Qed.

Lemma inv_podChange n c c' cls :
  inv n (mkSystem c cls) → podChange c c' → inv (S n) (mkSystem c' cls).
Proof.
  intros [Htd Hca Hcl Hp Hr Hcov Hv Hcm Hcls] Hch. pose proof Hch as [(Hc & _ & K) Hpods].
  assert (ringOf c0 c' = ringOf c0 c) as Hring by (apply ringOf_keeps, K; set_solver).
  assert (replicasOf c0 c' = replicasOf c0 c) as Hrep by (apply replicasOf_keeps, K; set_solver).
  split; simpl in *.
  - by eapply tidy_podChange.
  - rewrite K by set_solver. exact Hca.
  - by rewrite Hc.
  - intros key p' Hl. destruct (Hpods key p' Hl) as [(p & Hl' & Hm)|(i & r & -> & -> & _ & Hi)].
    + destruct (Hp key p Hl') as (i & Hi & -> & H). exists i. split_and!; [done|done|].
      unfold isPod, pod_Name in *. by rewrite Hm.
    + exists i. by split_and!; [lia|..].
  - intros key p' v Hl Ha. destruct (Hpods key p' Hl) as [(p & Hl' & Hm)|(i & r & -> & -> & _ & Hi)]; [|done].
    unfold pod_Annotations in Ha. rewrite Hm in Ha. destruct (Hr key p v Hl' Ha) as (t0 & H).
    exists t0. unfold retired, pod_Annotations, pod_Name in *. cbn [cluster clients] in *.
    by rewrite Hm, Hring, Hc.
  - unfold covered in *. rewrite Hrep, Hc. destruct (replicasOf c0 c) as [r|].
    + destruct Hcov as [H0 Hcov]. split; [done|]. intros i p' Hl Hi.
      destruct (Hpods _ p' Hl) as [(p & Hl' & Hm)|(j & r' & Hkey & -> & [= <-] & Hj)].
      * pose proof (Hcov i p Hl' Hi) as Hd. unfold drained, pod_Annotations in *. by rewrite Hm.
      * apply podKey_inj in Hkey. lia.
    + apply map_empty. intros key. destruct (store c' KPod !! key) as [p'|] eqn:Hl; [|done].
      destruct (Hpods _ p' Hl) as [(p & Hl' & Hm)|(j & r' & _ & _ & [=] & _)].
      by rewrite Hcov in Hl'.
  - rewrite Hring. lia.
  - intros cm. rewrite K by set_solver. apply Hcm.
  - intros id cl last Hid. destruct (Hcls id cl last Hid) as (H1 & H2 & H3).
    unfold follows. by rewrite Hring, Hc.
Qed.

Lemma podChange_create c i r :
  replicasOf c0 c = Some r → 0 <= i < r → podChange c (@put KPod (freshPod i) c).
Proof.
  intros Hr Hi. split; [apply (keeps_put (k := KPod))|]. intros key p'.
  rewrite (store_put (k := KPod)). change (@key_of KPod (freshPod i)) with (podKey i).
  destruct (decide (key = podKey i)) as [->|Hne].
  - rewrite lookup_insert_eq. intros [= <-]. right. by exists i, r.
  - rewrite lookup_insert_ne by done. left. eauto.
Qed.

Lemma podChange_kubelet c key p phase conds :
  tidy c → store c KPod !! key = Some p →
  podChange c (@put KPod (mkPod (pod_meta p) phase conds) c).
Proof.
  intros Htd Hl. split; [apply (keeps_put (k := KPod))|]. intros key' p'.
  rewrite (store_put (k := KPod)).
  change (@key_of KPod (mkPod (pod_meta p) phase conds)) with (@key_of KPod p).
  rewrite (td_keys _ Htd KPod _ _ Hl). destruct (decide (key' = key)) as [->|Hne].
  - rewrite lookup_insert_eq. intros [= <-]. left. by exists p.
  - rewrite lookup_insert_ne by done. left. eauto.
Qed.

Lemma podChange_gone c key : podChange c (remove KPod key c).
Proof.
  split; [apply keeps_remove|]. intros key' p' Hl. left. exists p'. split; [|done].
  change (delete key (store c KPod) !! key' = Some p') in Hl. by apply lookup_delete_Some in Hl as [_ ?].
Qed.

(** ** Clients *)

Lemma decodable_readable cm : decodable cm → readable cm.
Proof.
  unfold decodable, readable. destruct (Data cm !! ringConfigMapKey) as [raw|]; [|by intros [? [=]]].
  simpl. intros [[v ms] H]. by exists raw, v, ms.
Qed.

Lemma elem_of_positions r m : m ∈ positions (buildRing r) → m ∈ Members r.
Proof.
  destruct (buildRing_entries r) as (es & Hp & _ & -> & _). rewrite Hp.
  intros ([h m'] & -> & Hin)%list_elem_of_fmap. by apply elem_of_vnodes in Hin as [? _].
Qed.

Lemma run_pollOnce cl c :
  run (pollOnce cl) c =
    (c, match store c KConfigMap !! (nn_Namespace (cl_ringConfigMap cl), nn_Name (cl_ringConfigMap cl)) with
        | Some cm => pollConfigMap cl cm
        | None => (Some (GetFailed (ApiError true "not found")), cl)
        end).
Proof.
  unfold pollOnce. etransitivity; [apply (run_bind_Get KConfigMap)|]. by destruct (store c KConfigMap !! _).
Qed.

(** A poll either fails and changes nothing, or leaves the client with the
    published ring. *)
Lemma polled_cases n c cls id cl last :
  inv n (mkSystem c cls) → cls !! id = Some (cl, last) →
  polled c (cl, last) = (cl, last) ∨
  ∃ cl', polled c (cl, last) = (cl', clock c) ∧ cl_ringConfigMap cl' = cl_ringConfigMap cl ∧
    cl_ring cl' = Some (buildRing (ringOf c0 c)).
Proof.
  intros Hinv Hid. destruct (iv_clients _ _ Hinv id cl last Hid) as (Hkey & _ & Hf).
  cbn [fst snd cluster] in *. unfold polled. rewrite run_pollOnce. cbn [fst snd].
  rewrite Hkey. cbn [nn_Namespace nn_Name].
  fold (ringKey c0). destruct (@lookup okey ConfigMap _ _ (ringKey c0) (store c KConfigMap)) as [cm|] eqn:Hcm; [|by left].
  pose proof (iv_cm _ _ Hinv cm Hcm) as Hdec%decodable_readable.
  destruct (pollConfigMap_readable cl cm Hdec) as [He Hr].
  destruct (pollConfigMap_frame cl cm) as [Hfr _].
  destruct (pollConfigMap cl cm) as [e cl']. simpl in He, Hr, Hfr. subst e. right. exists cl'.
  split_and!; [done|congruence|]. rewrite Hr. rewrite (ringOf_stored _ _ _ Hcm) in *.
  destruct (cl_ring cl) as [cur|] eqn:Ecl; [|done]. case_bool_decide as Hv; [|done].
  f_equal. by apply (Hf cur).
Qed.

(** Replacing one client by one that follows and routes to no retired pod. *)
Lemma inv_client n c cls id cl last :
  inv n (mkSystem c cls) → follows c cl last →
  (∀ key p v t0 hr, store c KPod !! key = Some p → pod_Annotations p !! drainAnnotation = Some v →
     retired (mkSystem c cls) p t0 → cl_ring cl = Some hr → pod_Name p ∉ positions hr) →
  inv (S n) (mkSystem c (<[id := (cl, last)]> cls)).
Proof.
  intros [Htd Hca Hcl Hp Hr Hcov Hv Hcm Hcls] Hf Hret. split; simpl in *; try done.
  - intros key p v Hl Ha. destruct (Hr key p v Hl Ha) as (t0 & H). exists t0.
    pose proof H as (H1 & H2 & H3 & H4 & H5). split_and!; [done..|]. cbn [clients] in *.
    intros id' cl' last' hr. destruct (decide (id' = id)) as [->|Hne].
    + rewrite lookup_insert_eq. intros [= <- <-] Hring _. by eapply Hret.
    + rewrite lookup_insert_ne by done. apply H5.
  - lia.
  - intros id' cl' last'. destruct (decide (id' = id)) as [->|Hne].
    + rewrite lookup_insert_eq. by intros [= <- <-].
    + rewrite lookup_insert_ne by done. apply Hcls.
Qed.

Lemma inv_weaken n s : inv n s → inv (S n) s.
Proof. intros []. split; try done. lia. Qed.

Lemma inv_poll n c cls id st :
  inv n (mkSystem c cls) → cls !! id = Some st → inv (S n) (mkSystem c (<[id := polled c st]> cls)).
Proof.
  intros Hinv Hid. destruct st as [cl last].
  destruct (polled_cases n c cls id cl last Hinv Hid) as [-> | (cl' & -> & Hk & Hr)].
  - rewrite insert_id by done. by apply inv_weaken.
  - apply inv_client; [done| |].
    + destruct (iv_clients _ _ Hinv id cl last Hid) as (H1 & _ & _). unfold follows. rewrite Hk, Hr.
      split_and!; [done|apply (iv_clock _ _ Hinv)|right; lia|]. by intros hr [= <-].
    + intros key p v t0 hr _ _ (_ & _ & _ & Hnot & _) Hring Hin. rewrite Hr in Hring.
      injection Hring as <-. by apply elem_of_positions in Hin.
Qed.

Lemma inv_join n c cls id cl :
  inv n (mkSystem c cls) → cl_ring cl = None →
  cl_ringConfigMap cl = mkNN (targetNamespace c0) (ringConfigMapName c0) →
  inv (S n) (mkSystem c (<[id := (cl, clock c)]> cls)).
Proof.
  intros Hinv Hr Hk. apply inv_client; [done| |congruence].
  split_and!; [done|apply (iv_clock _ _ Hinv)|right; lia|congruence].
Qed.

(** ** The user *)

(** Changes to the cache and to namespaces leave the rest alone. *)
Definition rootKinds : list Kind := [KDistributedCache; KNamespace].

Lemma tidy_rootChange c c' :
  tidy c → keeps rootKinds c c' →
  (∀ k key o, k ∈ rootKinds → store c' k !! key = Some o → key_of o = key) → tidy c'.
Proof.
  intros [Hw Hkeys Hch Hp] (_ & Hwf & K) Hroot. unfold rootKinds in *. split.
  - intros k. by rewrite Hwf.
  - intros k key o Ho. destruct (decide (k ∈ [KDistributedCache; KNamespace])) as [Hin|Hn]; [by eapply Hroot|].
    rewrite K in Ho by done. by apply Hkeys.
  - intros k Hk key o Ho. rewrite K in Ho by set_solver. by eapply Hch.
  - by rewrite K by set_solver.
Qed.

Lemma keeps_root k c c' : k ∈ rootKinds → keeps [k] c c' → keeps rootKinds c c'.
Proof. intros Hk. apply keeps_mono. intros k' ->%list_elem_of_singleton. done. Qed.

Lemma tidy_put {k} (o : obj k) c : k ∈ rootKinds → tidy c → tidy (put o c).
Proof.
  intros Hk Htd. eapply tidy_rootChange; [done|by eapply keeps_root, keeps_put|]. intros k' key o' _.
  eapply (keys_insert (k := k)); [apply Htd|apply keeps_put|apply store_put|done].
Qed.

Lemma tidy_remove k key c : k ∈ rootKinds → tidy c → tidy (remove k key c).
Proof.
  intros Hk Htd. eapply tidy_rootChange; [done|by eapply keeps_root, keeps_remove|]. intros k' key' o' _ Ho.
  apply (td_keys _ Htd k'). unfold remove in Ho. simpl in Ho. case_decide; [|done].
  by apply lookup_delete_Some in Ho as [_ ?].
Qed.

Lemma inv_rootChange n c c' cls :
  inv n (mkSystem c cls) → keeps rootKinds c c' → tidy c' →
  (∀ cache, store c' KDistributedCache !! (dc_Namespace c0, dc_Name c0) = Some cache → sameCache cache) →
  inv n (mkSystem c' cls).
Proof.
  intros [_ _ Hcl Hp Hr Hcov Hv Hcm Hcls] (Hc & _ & K) Htd Hca. unfold rootKinds in *.
  cbn [cluster clients] in *.
  assert (ringOf c0 c' = ringOf c0 c) as Hring by (apply ringOf_keeps, K; set_solver).
  split; cbn [cluster clients] in *.
  - done.
  - done.
  - by rewrite Hc.
  - rewrite K by set_solver. done.
  - rewrite K by set_solver. intros key p v Hlp Ha. destruct (Hr key p v Hlp Ha) as (t0 & H).
    exists t0. unfold retired in *. cbn [cluster clients] in *. by rewrite Hring, Hc.
  - unfold covered in *. rewrite (replicasOf_keeps c0 c c'), K, Hc by (try apply K; set_solver). done.
  - by rewrite Hring.
  - rewrite K by set_solver. done.
  - intros id cl last Hid. destruct (Hcls id cl last Hid) as (H1 & H2 & H3). unfold follows.
    by rewrite Hring, Hc.
Qed.

(** The two ways the stored cache changes: replaced by one with its identity, or
    removed. *)
Lemma inv_putCache n c cls cache :
  inv n (mkSystem c cls) → sameCache cache → inv n (mkSystem (@put KDistributedCache cache c) cls).
Proof.
  intros Hinv Hsc. eapply inv_rootChange; [done| | |].
  - apply (keeps_root KDistributedCache); [left|apply (keeps_put (k := KDistributedCache))].
  - apply (tidy_put (k := KDistributedCache)); [left|]. apply (iv_tidy _ _ Hinv).
  - intros cache'. rewrite (store_put (k := KDistributedCache)).
    rewrite (key_of_cache cache cache eq_refl), (sc_name _ Hsc), (sc_ns _ Hsc), lookup_insert_eq.
    by intros [= <-].
Qed.

Lemma inv_removeCache n c cls :
  inv n (mkSystem c cls) →
  inv n (mkSystem (remove KDistributedCache (dc_Namespace c0, dc_Name c0) c) cls).
Proof.
  intros Hinv. eapply inv_rootChange; [done| | |].
  - apply (keeps_root KDistributedCache); [left|apply keeps_remove].
  - apply tidy_remove; [left|]. apply (iv_tidy _ _ Hinv).
  - intros cache Hl. change (delete (dc_Namespace c0, dc_Name c0) (store c KDistributedCache) !!
      (dc_Namespace c0, dc_Name c0) = Some cache) in Hl. by rewrite lookup_delete_eq in Hl.
Qed.

(** The cache the API server returns is the one of the invariant. *)
Lemma stored_cache n c cls cache :
  inv n (mkSystem c cls) → store c KDistributedCache !! (dc_Namespace c0, dc_Name c0) = Some cache →
  ready cache c ∧ sameCache cache.
Proof.
  intros Hinv Hl. pose proof (iv_cache _ _ Hinv cache Hl) as Hsc. split; [|done].
  apply ready_tidy; [done|]. split; [apply (iv_tidy _ _ Hinv)|done].
Qed.

Lemma inv_scale n c cls cache m :
  inv n (mkSystem c cls) → store c KDistributedCache !! (dc_Namespace c0, dc_Name c0) = Some cache →
  0 <= m <= MaxInt32 → inv (S n) (mkSystem (@put KDistributedCache (scaled m cache) c) cls).
Proof.
  intros Hinv Hl Hm. apply inv_weaken, inv_putCache; [done|].
  destruct (iv_cache _ _ Hinv cache Hl). split; try done. by exists m.
Qed.

Lemma inv_delete n c cls cache :
  inv n (mkSystem c cls) → store c KDistributedCache !! (dc_Namespace c0, dc_Name c0) = Some cache →
  inv (S n) (mkSystem (deleteCache cache c) cls).
Proof.
  intros Hinv Hl. apply inv_weaken. unfold deleteCache. case_bool_decide; [by apply inv_removeCache|].
  apply inv_putCache; [done|]. by destruct (iv_cache _ _ Hinv cache Hl).
Qed.

(** ** The operator *)

(** A pod after a pass: as before, or its drain has just started. *)
Definition startsDrains (c c' : Cluster) : Prop :=
  ∀ key p', store c' KPod !! key = Some p' → ∃ p, store c KPod !! key = Some p ∧
    (p' = p ∨ (p' = startDrain (clock c) p ∧ pod_Annotations p !! drainAnnotation = None)).

Lemma pod_after_pass n c c' cls cache :
  inv n (mkSystem c cls) → passed cache c c' → startsDrains c c'.
Proof.
  intros Hinv Hp key p'. rewrite (ps_pods _ _ _ Hp), fmap_Some. intros (p & Hl & ->). exists p. split; [done|].
  case_bool_decide; [|by left]. unfold stampPod. case_bool_decide; [|by left].
  destruct (pod_Annotations p !! drainAnnotation) as [v|] eqn:Ha; simpl; [|by right].
  destruct (iv_retired _ _ Hinv key p v Hl Ha) as (t0 & Ht & _). rewrite Ht in Ha. injection Ha as <-.
  rewrite ParseInt_stamp. by left.
Qed.

Lemma pod_after_marking cache c m : marked cache c m → startsDrains c m.
Proof.
  intros Hm key p'. rewrite (mk_pods _ _ _ Hm), fmap_Some. intros (p & Hl & ->). exists p. split; [done|].
  case_bool_decide; [|by left]. unfold markPod.
  destruct (pod_Annotations p !! drainAnnotation) as [v|]; [by left|by right].
Qed.

(** The published members are unannotated pods. *)
Lemma annotated_not_member cache c p v :
  ready cache c → sameCache cache → store c KPod !! (@key_of KPod p) = Some p →
  om_Namespace (pod_meta p) = targetNamespace c0 → pod_Annotations p !! drainAnnotation = Some v →
  pod_Name p ∉ computeMembers (podsOf cache c).
Proof.
  intros Hrd Hsc Hl Hns Ha (q & Hq & Hname' & Hserv)%elem_of_computeMembers.
  apply (elem_of_listing cache c) in Hq as (Hlq & Hnq & _); [|done].
  rewrite (sameCache_target _ Hsc) in Hnq.
  assert (@key_of KPod q = @key_of KPod p) as Hk.
  { unfold key_of. cbn [obj_meta]. unfold pod_Name in Hname'. by rewrite Hnq, Hns, Hname'. }
  rewrite Hk, Hl in Hlq. injection Hlq as <-. destruct Hserv as (_ & Hn & _). congruence.
Qed.

Lemma follows_pass c c' cl last ms :
  clock c' = clock c → ringOf c0 c' = desiredRing ms (ringOf c0 c) →
  Version (ringOf c0 c) < MaxInt64 → 0 <= Version (ringOf c0 c) →
  follows c cl last → follows c' cl last.
Proof.
  intros Hc Hring Hv H0 (H1 & H2 & H3). unfold follows. rewrite Hc. split; [done|]. split; [done|].
  intros hr Hhr. destruct (H3 hr Hhr) as [Hle Heq].
  destruct (decide (ms = Members (ringOf c0 c))) as [Hms|Hms].
  - rewrite desiredRing_same in Hring by done. by rewrite Hring.
  - rewrite Hring, desiredRing_bump, wrap64_id by (done || go_int). lia.
Qed.

Lemma version_pass c ms :
  0 <= Version (ringOf c0 c) < MaxInt64 →
  Version (ringOf c0 c) <= Version (desiredRing ms (ringOf c0 c)) <= Version (ringOf c0 c) + 1.
Proof.
  intros Hv. destruct (decide (ms = Members (ringOf c0 c))) as [Hms|Hms].
  - rewrite desiredRing_same by done. lia.
  - rewrite desiredRing_bump, wrap64_id by (done || go_int). lia.
Qed.

Lemma elem_of_doomedNames name d r i : d <= i < r → podNameOf name i ∈ doomedNames name d r.
Proof.
  intros Hi. unfold doomedNames. apply elem_of_list_to_set, list_elem_of_fmap. exists i.
  split; [done|]. apply elem_of_seqZ. lia.
Qed.

(** When the pass let the StatefulSet shrink, the pods it gives up are drained. *)
Lemma doomed_drained cache c i p r :
  ready cache c → sameCache cache → allDrained cache c = true → replicasOf c0 c = Some r →
  store c KPod !! podKey i = Some p → isPod i p → specReplicas cache <= i < r →
  drained (graceOf c0) (clock c) p.
Proof.
  intros Hrd Hsc Hall Hr Hl (Hn & Hns & Hlab) Hi.
  destruct (sameCache_keys _ Hsc) as (_ & _ & Hpl & Hg & _). destruct (sameCache_reads _ c Hsc) as (Hrep & _ & _).
  assert (p ∈ podsOf cache c) as Hin.
  { apply (elem_of_listing cache c); [done|]. rewrite (rd_keys _ _ Hrd KPod _ _ Hl).
    rewrite (sameCache_target _ Hsc), Hpl. done. }
  unfold allDrained in Hall. rewrite forallb_forall in Hall.
  specialize (Hall p ltac:(by apply list_elem_of_In)). unfold leaves, doomedOf in Hall.
  rewrite Hrep, Hr, (sc_name _ Hsc), Hg, Hn in Hall. simpl in Hall.
  rewrite bool_decide_true in Hall by by apply elem_of_doomedNames. by apply drainedB_spec.
Qed.

(** A pod that was drained stays so through a pass. *)
Lemma drained_kept c c' key p' :
  startsDrains c c' → clock c' = clock c → store c' KPod !! key = Some p' →
  (∀ p, store c KPod !! key = Some p → drained (graceOf c0) (clock c) p) →
  drained (graceOf c0) (clock c') p'.
Proof.
  intros Hsd Hc Hl Hdr. destruct (Hsd key p' Hl) as (p & Hlp & Hcase).
  rewrite Hc. pose proof (Hdr p Hlp) as Hdp. destruct Hcase as [->|[_ Hnone]]; [done|].
  destruct Hdp as (v & ts & Hv & _). congruence.
Qed.

Lemma covered_pass n c c' cls cache :
  inv n (mkSystem c cls) → ready cache c → sameCache cache → passed cache c c' → covered c'.
Proof.
  intros Hinv Hrd Hsc Hps. pose proof (ps_replicas _ _ _ Hps) as Hrep'.
  destruct (sameCache_reads _ c Hsc) as (Er & _ & _). destruct (sameCache_reads _ c' Hsc) as (Er' & _ & _).
  rewrite Er, Er' in Hrep'. destruct (sc_replicas _ Hsc) as (d & Hd & Hd0).
  pose proof (iv_covered _ _ Hinv) as Hcov. unfold covered in *. cbn [cluster] in *.
  pose proof (λ i p', drained_kept c c' (podKey i) p' (pod_after_pass n c c' cls cache Hinv Hps)
    (ps_clock _ _ _ Hps)) as Hkeep.
  rewrite Hrep'. unfold heldReplicas. rewrite Hd.
  destruct (replicasOf c0 c) as [r|] eqn:Hr.
  - destruct Hcov as [Hr0 Hcov]. destruct (negb (allDrained cache c) && (d <? r)) eqn:Hheld.
    + split; [done|]. intros i p' Hl Hi. apply (Hkeep i p' Hl). intros p Hp. by apply (Hcov i).
    + split; [lia|]. intros i p' Hl Hi. apply (Hkeep i p' Hl). intros p Hp.
      destruct (Z.le_gt_cases r i) as [Hge|Hlt]; [by apply (Hcov i)|].
      destruct (allDrained cache c) eqn:Hall; [|simpl in Hheld; lia].
      destruct (iv_pods _ _ Hinv _ p Hp) as (j & _ & Hj%podKey_inj & Hpod). subst j.
      eapply doomed_drained; [done..|]. unfold specReplicas. rewrite Hd. simpl. lia.
  - split; [lia|]. intros i p' Hl _. apply (Hkeep i p' Hl). intros p Hp. by rewrite Hcov in Hp.
Qed.

Lemma covered_marking n c m cls cache :
  inv n (mkSystem c cls) → marked cache c m → covered m.
Proof.
  intros Hinv Hm. pose proof (mk_keeps _ _ _ Hm) as (Hc & _ & K). pose proof (pod_after_marking _ _ _ Hm) as Hsd.
  pose proof (iv_covered _ _ Hinv) as Hcov. unfold covered in *. cbn [cluster] in *.
  rewrite (replicasOf_keeps c0 c m) by (apply K; set_solver). destruct (replicasOf c0 c) as [r|].
  - destruct Hcov as [Hr0 Hcov]. split; [done|]. intros i p' Hl Hi.
    eapply drained_kept; [exact Hsd|done|exact Hl|]. intros p Hp. by apply (Hcov i).
  - apply map_empty. intros key. destruct (store m KPod !! key) as [p'|] eqn:Hl; [|done].
    destruct (Hsd key p' Hl) as (p & Hlp & _). by rewrite Hcov in Hlp.
Qed.

Lemma sameCache_observed cache ring : sameCache cache → sameCache (observedStatus cache ring).
Proof. by intros []. Qed.

(** What both kinds of pass do, seen from the outside. *)
Record moved (c c' : Cluster) : Prop := {
  mv_cache : ∃ cache, ready cache c' ∧ sameCache cache;
  mv_clock : clock c' = clock c;
  mv_pods : startsDrains c c';
  mv_covered : covered c';
  mv_ring : ringOf c0 c' = desiredRing (computeMembers (podsOf c0 c')) (ringOf c0 c);
  mv_cm : ∃ cm, store c' KConfigMap !! ringKey c0 = Some cm ∧
            (decodable cm ∨ store c KConfigMap !! ringKey c0 = Some cm)
}.

Lemma passed_moved n c c' cls cache :
  inv n (mkSystem c cls) → ready cache c → sameCache cache → passed cache c c' → moved c c'.
Proof.
  intros Hinv Hrd Hsc Hps. pose proof (sameCache_observed cache (ringOf cache c') Hsc) as Hsc'.
  destruct (sameCache_reads _ c Hsc) as (_ & Er & _). destruct (sameCache_reads _ c' Hsc) as (_ & Er' & Ep').
  destruct (sameCache_keys _ Hsc) as (_ & Hk & _). split.
  - eexists. split; [apply Hps|done].
  - apply Hps.
  - by eapply pod_after_pass.
  - by eapply covered_pass.
  - rewrite <- Er, <- Er', <- Ep'. apply Hps.
  - destruct (ps_cm _ _ _ Hps) as (cm & H1 & _ & H2). rewrite Hk in *. eauto.
Qed.

Lemma marked_moved n c m cls cache :
  inv n (mkSystem c cls) → sameCache cache → marked cache c m → moved c m.
Proof.
  intros Hinv Hsc Hm. destruct (sameCache_reads _ c Hsc) as (_ & Er & _).
  destruct (sameCache_reads _ m Hsc) as (_ & Er' & Ep'). destruct (sameCache_keys _ Hsc) as (_ & Hk & _). split.
  - exists cache. split; [apply Hm|done].
  - apply (mk_keeps _ _ _ Hm).
  - by eapply pod_after_marking.
  - by eapply covered_marking.
  - rewrite <- Er, <- Er', <- Ep'. apply Hm.
  - destruct (mk_cm _ _ _ Hm) as (cm & H1 & _ & H2). rewrite Hk in *. eauto.
Qed.

Lemma inv_moved n c c' cls :
  inv n (mkSystem c cls) → Z.of_nat n < MaxInt64 → moved c c' → inv (S n) (mkSystem c' cls).
Proof.
  intros Hinv Hn Hmv. destruct (mv_cache _ _ Hmv) as (cache & Hrd & Hsc).
  pose proof (mv_clock _ _ Hmv) as Hc. pose proof (mv_ring _ _ Hmv) as Hring.
  pose proof (iv_version _ _ Hinv) as Hv. cbn [cluster] in Hv.
  assert (∀ key p', store c' KPod !! key = Some p' → ∃ i, 0 <= i ∧ key = podKey i ∧ isPod i p') as Hpods.
  { intros key p' Hl. destruct (mv_pods _ _ Hmv key p' Hl) as (p & Hlp & Hcase).
    destruct (iv_pods _ _ Hinv key p Hlp) as (i & Hi & -> & Hpod). exists i. split_and!; [done|done|].
    destruct Hcase as [->|[-> _]]; done. }
  pose proof Hrd as [Htd Hca]%ready_tidy; [|done].
  split; cbn [cluster clients].
  - done.
  - intros cache' Hl. rewrite Hca in Hl. by injection Hl as <-.
  - rewrite Hc. apply (iv_clock _ _ Hinv).
  - done.
  - intros key p' v Hl Ha.
    assert (pod_Name p' ∉ Members (ringOf c0 c')) as Hnot.
    { rewrite Hring, desiredRing_Members. destruct (Hpods key p' Hl) as (i & _ & _ & _ & Hns & _).
      destruct (sameCache_reads _ c' Hsc) as (_ & _ & <-).
      eapply annotated_not_member; [done|done| |done|done]. by rewrite (rd_keys _ _ Hrd KPod _ _ Hl). }
    destruct (mv_pods _ _ Hmv key p' Hl) as (p & Hlp & [->|[-> _]]).
    + destruct (iv_retired _ _ Hinv key p v Hlp Ha) as (t0 & H1 & H2 & H3 & _ & H5). exists t0.
      split_and!; [done|done|by cbn [cluster]; rewrite Hc|done|exact H5].
    + exists (clock c). split_and!; [apply startDrain_annotation|apply (iv_clock _ _ Hinv)| |done|].
      * cbn [cluster]. rewrite Hc. lia.
      * intros id cl last hr Hid _ Hlt. destruct (iv_clients _ _ Hinv id cl last Hid) as (_ & [_ Hle%t_le_sec] & _).
        cbn [cluster] in Hle. lia.
  - apply Hmv.
  - rewrite Hring. pose proof (version_pass c (computeMembers (podsOf c0 c')) ltac:(lia)). lia.
  - intros cm Hcm. destruct (mv_cm _ _ Hmv) as (cm' & Hcm' & Hdec).
    assert (cm' = cm) as -> by congruence. destruct Hdec as [|Hold]; [done|]. by apply (iv_cm _ _ Hinv).
  - intros id cl last Hid. eapply follows_pass; [done|done|lia|lia|]. by apply (iv_clients _ _ Hinv id).
Qed.

Lemma podName_ascii i : 0 <= i → ascii_string (podNameOf (dc_Name c0) i) = true.
Proof.
  intros Hi. unfold podNameOf, ascii_string. rewrite !str_forall_app. fold (ascii_string (FormatInt i)).
  rewrite FormatInt_ascii by done. unfold ascii_string in Hname. by rewrite Hname.
Qed.

Lemma inv_ascii n c cls : inv n (mkSystem c cls) → ascii_pods c.
Proof.
  intros Hinv key p Hl. destruct (iv_pods _ _ Hinv key p Hl) as (i & Hi & _ & -> & _). by apply podName_ascii.
Qed.

Lemma live_pass n c cls cache :
  inv n (mkSystem c cls) → Z.of_nat n < MaxInt64 → ready cache c → sameCache cache →
  om_DeletionTimestamp (dc_meta cache) = None → drainFinalizer ∈ om_Finalizers (dc_meta cache) →
  ∃ c', (run (Reconcile (reqOf c0)) c).1 = c' ∧ passed cache c c' ∧ inv (S n) (mkSystem c' cls).
Proof.
  intros Hinv Hn Hrd Hsc Hlive Hf. destruct (sameCache_keys _ Hsc) as (_ & _ & _ & _ & <- & _).
  destruct (Reconcile_pass cache c Hrd) as (c' & -> & Hps); [by eapply inv_ascii| |done|done|].
  - unfold specReplicas. destruct (sc_replicas _ Hsc) as (d & -> & Hd). simpl. lia.
  - exists c'. split_and!; [done|done|]. eapply inv_moved; [done|done|]. by eapply passed_moved.
Qed.

Lemma sameCache_released cache : sameCache cache → sameCache (released cache).
Proof. by intros []. Qed.

(** A pass over a cache that is being deleted. *)
Lemma deletion_pass n c cls cache :
  inv n (mkSystem c cls) → Z.of_nat n < MaxInt64 → ready cache c → sameCache cache →
  om_DeletionTimestamp (dc_meta cache) ≠ None → drainFinalizer ∈ om_Finalizers (dc_meta cache) →
  ∃ m, marked cache c m ∧ inv (S n) (mkSystem m cls) ∧
    (run (Reconcile (reqOf c0)) c).1 = (if allGone cache c then (letGo cache m).1 else m).
Proof.
  intros Hinv Hn Hrd Hsc Hdel Hf. destruct (sameCache_keys _ Hsc) as (_ & _ & _ & _ & <- & _).
  destruct (Reconcile_deletion cache c Hrd) as (m & Hm & ->); [by eapply inv_ascii|done|done|].
  exists m. split_and!; [done| |by destruct (allGone cache c)].
  eapply inv_moved; [done|done|]. by eapply marked_moved.
Qed.

(** Letting go of the cache keeps the invariant. *)
Lemma inv_letGo n c cls cache :
  inv n (mkSystem c cls) → sameCache cache → inv n (mkSystem (letGo cache c).1 cls).
Proof.
  intros Hinv Hsc.
  assert (inv n (mkSystem (release cache c) cls)) as Hrel.
  { unfold release. rewrite (sc_name _ Hsc), (sc_ns _ Hsc). case_bool_decide; [by apply inv_removeCache|].
    apply inv_putCache; [done|by apply sameCache_released]. }
  unfold letGo. destruct (isCrossNamespaceChild cache); [|done].
  destruct (store c KNamespace !! cellKey cache) as [ns|]; [|done]. cbn [fst].
  case_bool_decide; [|done]. eapply inv_rootChange; [exact Hinv| | |].
  - apply (keeps_root KNamespace); [right; left|apply (keeps_put (k := KNamespace))].
  - apply (tidy_put (k := KNamespace)); [right; left|]. apply (iv_tidy _ _ Hinv).
  - rewrite (store_put_ne (k := KNamespace)) by done. apply (iv_cache _ _ Hinv).
Qed.

Lemma inv_pass n c cls :
  inv n (mkSystem c cls) → Z.of_nat n < MaxInt64 →
  inv (S n) (mkSystem (run (Reconcile (reqOf c0)) c).1 cls).
Proof.
  intros Hinv Hn.
  destruct (store c KDistributedCache !! (dc_Namespace c0, dc_Name c0)) as [cache|] eqn:Hca; cycle 1.
  { rewrite Reconcile_absent by done. by apply inv_weaken. }
  destruct (stored_cache n c cls cache Hinv Hca) as [Hrd Hsc].
  destruct (sameCache_keys _ Hsc) as (_ & _ & _ & _ & Hreq & _).
  destruct (decide (om_DeletionTimestamp (dc_meta cache) = None)) as [Hlive|Hdel];
    destruct (decide (drainFinalizer ∈ om_Finalizers (dc_meta cache))) as [Hf|Hf].
  - by destruct (live_pass n c cls cache) as (c' & -> & _ & H).
  - rewrite <- Hreq. destruct (Reconcile_first_pass cache c Hrd Hlive Hf) as (c' & -> & Hrd' & Hk).
    apply inv_weaken. assert (sameCache (finalized cache)) as Hsc' by by destruct Hsc.
    apply ready_tidy in Hrd' as [Htd Hca']; [|done].
    eapply inv_rootChange; [done| |done|].
    + apply (keeps_root KDistributedCache); [left|done].
    + intros cache' Hl. by pose proof (eq_trans (eq_sym Hca') Hl) as [= <-].
  - destruct (deletion_pass n c cls cache) as (m & _ & Hm & ->); [done..|].
    destruct (allGone cache c); [by apply inv_letGo|done].
  - rewrite <- Hreq, Reconcile_deletion_done by done. by apply inv_weaken.
Qed.

Lemma inv_step n s s' : inv n s → Z.of_nat n < MaxInt64 → step s s' → inv (S n) s'.
Proof.
  intros Hinv Hn Hs. destruct Hs.
  - by apply inv_tick.
  - by apply inv_pass.
  - by apply inv_scale.
  - by apply inv_delete.
  - eapply inv_podChange; [done|]. by eapply podChange_create.
  - eapply inv_podChange; [done|]. eapply podChange_kubelet; [|done]. apply (iv_tidy _ _ Hinv).
  - eapply inv_podChange; [done|]. apply podChange_gone.
  - by apply inv_join.
  - by apply inv_poll.
Qed.

Lemma inv_initial s : initial s → inv 0 s.
Proof.
  intros [Hrd Hlive _ Hrep _ Hcl Hp Hsts Hcm Hcls].
  pose proof (ringOf_none _ _ Hcm) as Hring.
  split.
  - destruct Hrd. by split.
  - intros cache Hl. pose proof (rd_cache _ _ Hrd) as Hc. rewrite Hl in Hc. injection Hc as ->. by split.
  - done.
  - intros key p. by rewrite Hp.
  - intros key p v. by rewrite Hp.
  - unfold covered. by rewrite replicasOf_none.
  - by rewrite Hring.
  - intros cm Hcm'. by pose proof (eq_trans (eq_sym Hcm) Hcm').
  - intros id cl last. by rewrite Hcls.
Qed.

Lemma inv_reachable n s0 s :
  initial s0 → nsteps step n s0 s → Z.of_nat n <= MaxInt64 → inv n s.
Proof.
  intros H0 Hs. pose proof (inv_initial s0 H0) as Hinv. clear H0.
  assert (∀ m, inv m s0 → Z.of_nat (m + n) <= MaxInt64 → inv (m + n) s) as Hgo.
  { clear Hinv. induction Hs as [s|n s1 s2 s3 H12 _ IH]; intros m Hm Hle.
    - by rewrite Nat.add_0_r.
    - rewrite <- Nat.add_succ_comm. apply IH; [|lia]. eapply inv_step; [done|lia|done]. }
  by apply (Hgo 0%nat).
Qed.

End System.
