(* ===== verification/Contract.v ===== *)
(** * The drain contract

    What the system of [System] keeps to: the drain contract of DESIGN.md, section
    5, for scale-downs and for deletions, and that both complete. *)

From S2P Require Import Prelude GoLib Json Api Kube KubeRef Names Ring Cell Workload Status.
From S2P Require Import RingPublish Drain Reconciler Stages Converge Teardown HashRing Client System.

#[local] Existing Instance refKube.
Local Open Scope Z_scope.

Section Contract.
Context `{SS : SliceSort}.
Variable c0 : DistributedCache.

Local Abbreviation inv := (System.inv c0).
Local Abbreviation sameCache := (System.sameCache c0).
Local Abbreviation podKey := (System.podKey c0).
Local Abbreviation isPod := (System.isPod c0).

Hypothesis Hgrace : int32_ok (GracePeriodSeconds (Drain (Spec c0))).

(** Where a lookup can lead. *)
Lemma Lookup_positions cl key addr :
  Lookup cl key = Some (inr addr) →
  ∃ hr pod, cl_ring cl = Some hr ∧ pod ∈ positions hr ∧ addr = pod +:+ "." +:+ cl_serviceFQDN cl.
Proof.
  unfold Lookup. destruct (cl_ring cl) as [hr|]; [|done]. case_bool_decide; [done|].
  destruct (route hr key) as [pod|] eqn:Hr; [|done]. intros [= <-]. exists hr, pod.
  split_and!; [done| |done]. unfold route in Hr. by eapply list_elem_of_lookup_2.
Qed.

(** A client that has polled recently enough routes nothing to a drained pod. *)
Lemma drained_unrouted n s pkey p id cl last :
  inv n s → store (cluster s) KPod !! pkey = Some p → drained (graceOf c0) (clock (cluster s)) p →
  clients s !! id = Some (cl, last) → t_Sub (clock (cluster s)) last <= graceOf c0 - Second →
  ∀ key, Lookup cl key ≠ Some (inr (pod_Name p +:+ "." +:+ cl_serviceFQDN cl)).
Proof.
  intros Hinv Hp Hd Hid Hfresh key Hlook. pose proof Hd as (v & ts & Hv & _).
  destruct (iv_retired _ _ _ Hinv _ p v Hp Hv) as (t0 & Ht0 & Hsane & _ & _ & Hret).
  pose proof (iv_clock _ _ _ Hinv) as Hclk.
  apply (drained_stamp c0 t0) in Hd; [|done..].
  destruct (iv_clients _ _ _ Hinv id cl last Hid) as (_ & [Hls _] & _).
  apply Lookup_positions in Hlook as (hr & pod & Hhr & Hpos & Haddr).
  assert (pod_Name p = pod) as <- by (by eapply string_app_inj_r).
  apply (Hret id cl last hr Hid Hhr); [|done].
  rewrite graceOf_int32 in * by done. unfold t_Sub, clamp64, sane_time, Second in *. go_int.
Qed.

(** ** Completion of drains *)

(** An annotated pod is drained once the grace period has passed. *)
Lemma annotated_drained_later n c cls t key p v :
  inv n (mkSystem c cls) → store c KPod !! key = Some p → pod_Annotations p !! drainAnnotation = Some v →
  sane_time t → t_sec (clock c) + GracePeriodSeconds (Drain (Spec c0)) <= t_sec t →
  drained (graceOf c0) t p.
Proof.
  intros Hinv Hl Hv Hsane Hwait. destruct (iv_retired _ _ _ Hinv _ p v Hl Hv) as (t0 & Ht0 & Hs0 & Hpast & _).
  apply (drained_stamp c0 t0); [done..|]. rewrite graceOf_int32 by done. cbn [cluster] in *.
  unfold sane_time, Second in *. nia.
Qed.

(** A pass leaves no doomed pod unannotated. *)
Lemma doomed_annotated n c c' cls cache i r d p' :
  inv n (mkSystem c cls) → ready cache c → sameCache cache → passed cache c c' →
  replicasOf c0 c = Some r → Replicas (Spec cache) = Some d → d <= i < r →
  store c' KPod !! podKey i = Some p' → is_Some (pod_Annotations p' !! drainAnnotation).
Proof.
  intros Hinv Hrd Hsc Hps Hr Hd Hi Hl. rewrite (ps_pods _ _ _ Hps), fmap_Some in Hl.
  destruct Hl as (p & Hlp & ->).
  destruct (iv_pods _ _ _ Hinv _ p Hlp) as (j & _ & Hj%podKey_inj & Hn & Hns & Hlab). subst j.
  destruct (sameCache_keys _ _ Hsc) as (_ & _ & Hpl & _). destruct (sameCache_reads _ _ c Hsc) as (Hrep & _ & _).
  rewrite bool_decide_true.
  - unfold stampPod, doomedOf. rewrite Hrep, Hr, (sc_name _ _ Hsc), Hn. unfold specReplicas. rewrite Hd. simpl.
    rewrite bool_decide_true by by apply elem_of_doomedNames.
    destruct (pod_Annotations p !! drainAnnotation) as [v|] eqn:Ha; simpl.
    + destruct (ParseInt v); [by rewrite Ha|]. rewrite startDrain_annotation. by eexists.
    + rewrite startDrain_annotation. by eexists.
  - apply list_elem_of_fmap. exists p. rewrite (rd_keys _ _ Hrd KPod _ _ Hlp). split; [done|].
    apply (elem_of_listing cache c); [done|]. rewrite (rd_keys _ _ Hrd KPod _ _ Hlp).
    by rewrite (sameCache_target _ _ Hsc), Hpl.
Qed.

(** Once every pod the StatefulSet would give up is drained, a pass shrinks it. *)
Lemma pass_reaches_spec c c' cache r d :
  ready cache c → sameCache cache → passed cache c c' →
  (∀ key p, store c KPod !! key = Some p → ∃ i, 0 <= i ∧ key = podKey i ∧ isPod i p) →
  replicasOf c0 c = Some r → Replicas (Spec cache) = Some d →
  (∀ i p, d <= i < r → store c KPod !! podKey i = Some p → drained (graceOf c0) (clock c) p) →
  replicasOf c0 c' = Some d.
Proof.
  intros Hrd Hsc Hps Hpods Hr Hd Hdr. destruct (sameCache_reads _ _ c Hsc) as (Er & _ & _).
  destruct (sameCache_reads _ _ c' Hsc) as (Er' & _ & _). pose proof (ps_replicas _ _ _ Hps) as Hrep.
  rewrite Er, Er', Hr in Hrep. rewrite Hrep. unfold heldReplicas. rewrite Hd.
  assert (allDrained cache c = true) as ->; [|done].
  unfold allDrained, doomedOf. rewrite Er, Hr, (sc_name _ _ Hsc). unfold specReplicas. rewrite Hd. simpl.
  apply forallb_forall. intros p Hin%list_elem_of_In. unfold leaves.
  apply (elem_of_listing cache c) in Hin as (Hl & _); [|done].
  destruct (Hpods _ p Hl) as (i & _ & Hkey & Hn & _). rewrite Hkey in Hl.
  case_bool_decide as Hdoom; [|done]. simpl. apply drainedB_spec.
  destruct (sameCache_keys _ _ Hsc) as (_ & _ & _ & -> & _). apply (Hdr i p); [|done].
  unfold doomedNames in Hdoom. apply elem_of_list_to_set, list_elem_of_fmap in Hdoom as (j & Hj & Hin).
  rewrite Hn in Hj. apply podNameOf_inj in Hj as <-. apply elem_of_seqZ in Hin. lia.
Qed.

(** ** Completion of a deletion *)

Definition cacheAt (c : Cluster) : option DistributedCache :=
  store c KDistributedCache !! (dc_Namespace c0, dc_Name c0).

(** The cache is held back by our finalizer; its cell is going away. *)
Definition holdsFinalizer (c : Cluster) : bool :=
  match cacheAt c with
  | Some cache => bool_decide (drainFinalizer ∈ om_Finalizers (dc_meta cache))
  | None => false
  end.

Definition terminating (c : Cluster) : bool :=
  match store c KNamespace !! cellKey c0 with
  | Some ns => negb (bool_decide (om_DeletionTimestamp (ns_meta (ns : Namespace_)) = None))
  | None => false
  end.

(** Between the two states the operator has let go of the pods. *)
Definition letsGo (c c' : Cluster) : bool :=
  (holdsFinalizer c && negb (holdsFinalizer c')) || (negb (terminating c) && terminating c').

Lemma letsGo_keeps c c' :
  store c' KDistributedCache = store c KDistributedCache → store c' KNamespace = store c KNamespace →
  letsGo c c' = false.
Proof.
  intros H1 H2. unfold letsGo.
  assert (holdsFinalizer c' = holdsFinalizer c) as -> by (unfold holdsFinalizer, cacheAt; by rewrite H1).
  assert (terminating c' = terminating c) as -> by (unfold terminating; by rewrite H2).
  by rewrite andb_negb_r, andb_negb_l.
Qed.

Lemma letGo_keeps cache c : keeps rootKinds c (letGo cache c).1.
Proof.
  assert (keeps rootKinds c (release cache c)) as Hrel.
  { apply (keeps_root KDistributedCache); [left|]. unfold release.
    case_bool_decide; [apply keeps_remove|apply (keeps_put (k := KDistributedCache))]. }
  unfold letGo. destruct (isCrossNamespaceChild cache); [|done].
  destruct (store c KNamespace !! cellKey cache) as [ns|]; [|done]. cbn [fst]. case_bool_decide; [|apply keeps_refl].
  apply (keeps_root KNamespace); [right; left|apply (keeps_put (k := KNamespace))].
Qed.

(** Every pod there is belongs to the listing of the cache. *)
Lemma pod_listed n c cls cache key p :
  inv n (mkSystem c cls) → ready cache c → sameCache cache → store c KPod !! key = Some p →
  p ∈ podsOf cache c ∧ key = @key_of KPod p.
Proof.
  intros Hinv Hrd Hsc Hl. destruct (iv_pods _ _ _ Hinv key p Hl) as (i & _ & _ & _ & Hns & Hlab).
  destruct (sameCache_keys _ _ Hsc) as (_ & _ & Hpl & _). split; [|by rewrite (rd_keys _ _ Hrd KPod _ _ Hl)].
  apply (elem_of_listing cache c); [done|]. rewrite (rd_keys _ _ Hrd KPod _ _ Hl).
  by rewrite (sameCache_target _ _ Hsc), Hpl.
Qed.

(** When all listed pods are drained, so are all pods after the marking. *)
Lemma allGone_drained n c m cls cache key p :
  inv n (mkSystem c cls) → ready cache c → sameCache cache → marked cache c m → allGone cache c = true →
  store m KPod !! key = Some p → drained (graceOf c0) (clock m) p.
Proof.
  intros Hinv Hrd Hsc Hm Hall Hl. eapply drained_kept; [by eapply pod_after_marking|apply Hm|exact Hl|].
  intros q Hq. destruct (pod_listed n c cls cache key q) as [Hin _]; [done..|].
  unfold allGone in Hall. rewrite forallb_forall in Hall.
  destruct (sameCache_keys _ _ Hsc) as (_ & _ & _ & Hg & _). rewrite Hg in Hall.
  apply drainedB_spec, Hall. by apply list_elem_of_In.
Qed.

(** Then the ring that was published names nobody. *)
Lemma allGone_ring n c m cls cache :
  inv n (mkSystem c cls) → ready cache c → sameCache cache → marked cache c m → allGone cache c = true →
  Members (ringOf c0 m) = [].
Proof.
  intros Hinv Hrd Hsc Hm Hall. destruct (sameCache_reads _ _ m Hsc) as (_ & <- & _).
  rewrite (mk_ring _ _ _ Hm), desiredRing_Members. apply elem_of_nil_inv.
  intros x (q & Hq & _ & _ & Hnone & _)%elem_of_computeMembers.
  apply (elem_of_listing cache m) in Hq as (Hl & _); [|apply Hm].
  destruct (allGone_drained n c m cls cache _ q Hinv Hrd Hsc Hm Hall Hl) as (v & ts & Hv & _). congruence.
Qed.

(** A marking leaves no pod unannotated. *)
Lemma marking_annotates n c m cls cache key p :
  inv n (mkSystem c cls) → ready cache c → sameCache cache → marked cache c m →
  store m KPod !! key = Some p → is_Some (pod_Annotations p !! drainAnnotation).
Proof.
  intros Hinv Hrd Hsc Hm Hl. rewrite (mk_pods _ _ _ Hm), fmap_Some in Hl. destruct Hl as (q & Hq & ->).
  destruct (pod_listed n c cls cache key q) as [Hin ->]; [done..|].
  rewrite bool_decide_true by (apply list_elem_of_fmap; eauto). unfold markPod.
  destruct (pod_Annotations q !! drainAnnotation) as [v|] eqn:Ha; [by rewrite Ha|].
  rewrite startDrain_annotation. by eexists.
Qed.

(** What letting go leaves of a cache that only we hold back. *)
Definition goneOrTerminating (c : Cluster) : Prop :=
  cacheAt c = None ∨ (isCrossNamespaceChild c0 = true ∧ terminating c = true).

Lemma release_gone cache c :
  sameCache cache → om_Finalizers (dc_meta cache) = [drainFinalizer] → cacheAt (release cache c) = None.
Proof.
  intros Hsc Hf. unfold release, released. cbn [om_Finalizers dc_meta set_dc_Finalizers].
  rewrite Hf. rewrite bool_decide_true by done. rewrite (sc_name _ _ Hsc), (sc_ns _ _ Hsc).
  apply (lookup_delete_eq (store c KDistributedCache)).
Qed.

Lemma letGo_gone cache c :
  ready cache c → sameCache cache → om_Finalizers (dc_meta cache) = [drainFinalizer] →
  goneOrTerminating (letGo cache c).1.
Proof.
  intros Hrd Hsc Hf.
  pose proof (release_gone cache c Hsc Hf) as Hrel.
  unfold letGo, goneOrTerminating. destruct (sameCache_keys _ _ Hsc) as (_ & _ & _ & _ & _ & <-).
  assert (cellKey cache = cellKey c0) as Hk by (unfold cellKey; by rewrite (sameCache_target _ _ Hsc)).
  destruct (isCrossNamespaceChild cache) eqn:Hx; [|by left]. rewrite Hk.
  destruct (store c KNamespace !! cellKey c0) as [ns|] eqn:Hns; [|by left]. cbn [fst]. right.
  split; [done|]. unfold terminating.
  case_bool_decide as Hd.
  - rewrite (store_put (k := KNamespace)), key_of_map_meta, (rd_keys _ _ Hrd KNamespace _ _ Hns) by done.
    rewrite lookup_insert_eq. done.
  - rewrite Hns. by rewrite bool_decide_false.
Qed.

(** A deletion pass that does not remove the cache leaves it as it is, if only
    we hold it back. *)
Lemma letGo_cache cache c cache' :
  ready cache c → sameCache cache → om_Finalizers (dc_meta cache) = [drainFinalizer] →
  cacheAt (letGo cache c).1 = Some cache' → cache' = cache.
Proof.
  intros Hrd Hsc Hf Hl. pose proof Hrd as [_ Hca]%(ready_tidy c0); [|done].
  pose proof (release_gone cache c Hsc Hf) as Hrel.
  unfold letGo in Hl. destruct (isCrossNamespaceChild cache); cbn [fst] in Hl; [|congruence].
  destruct (store c KNamespace !! cellKey cache) as [ns|]; cbn [fst] in Hl; [|congruence].
  assert (cacheAt c = Some cache') as Hl' by (by case_bool_decide). unfold cacheAt in Hl'. congruence.
Qed.

(** The first of two deletion passes annotates every pod, and leaves the cache as
    it was if it does not remove it. *)
Lemma first_deletion_pass n c m c1 cls cache :
  inv n (mkSystem c cls) → ready cache c → sameCache cache →
  om_Finalizers (dc_meta cache) = [drainFinalizer] → marked cache c m →
  c1 = (if allGone cache c then (letGo cache m).1 else m) →
  clock c1 = clock c ∧
  (∀ key p, store c1 KPod !! key = Some p → is_Some (pod_Annotations p !! drainAnnotation)) ∧
  (∀ cache', cacheAt c1 = Some cache' → cache' = cache).
Proof.
  intros Hinv Hrd Hsc Hf Hm ->. pose proof (mk_keeps _ _ _ Hm) as (Hc & _ & K).
  pose proof (marking_annotates n c m cls cache) as Hann.
  destruct (allGone cache c).
  - destruct (letGo_keeps cache m) as (Hcl & _ & Kl). unfold rootKinds in Kl. split_and!; [congruence| |].
    + intros key p. rewrite Kl by set_solver. intros Hl. by eapply Hann.
    + intros cache'. apply letGo_cache; [apply Hm|done|done].
  - split_and!; [done|by intros key p; apply Hann|]. intros cache' Hl.
    pose proof (mk_ready _ _ _ Hm) as [_ Hca]%(ready_tidy c0); [|done]. unfold cacheAt in Hl. congruence.
Qed.

End Contract.

(** ** Claims *)

Section Claims.
Context `{SS : SliceSort}.

(** C1: the drain contract, over the whole system. In every state reachable from a
    freshly created cache, by passes of the operator, scalings, a deletion, pods coming, going
    and changing status, clients joining and polling and time passing in any order:
    if the StatefulSet no longer covers a pod, so that its controller may remove it
    at any moment, then no client whose last successful poll is more recent than
    the grace period less a second routes any key to that pod. *)
Theorem drain_contract c0 s0 n s i r p id cl last :
  initial c0 s0 → nsteps (step c0) n s0 s → Z.of_nat n <= MaxInt64 →
  replicasOf c0 (cluster s) = Some r → r <= i →
  store (cluster s) KPod !! podKey c0 i = Some p →
  clients s !! id = Some (cl, last) → t_Sub (clock (cluster s)) last <= graceOf c0 - Second →
  ∀ key, Lookup cl key ≠ Some (inr (pod_Name p +:+ "." +:+ cl_serviceFQDN cl)).
Proof.
  intros H0 Hs Hn Hr Hi Hp Hid Hfresh.
  pose proof (in_grace _ _ H0) as Hgrace. pose proof (in_name _ _ H0) as Hname.
  pose proof (inv_reachable c0 Hname Hgrace n s0 s H0 Hs Hn) as Hinv.
  pose proof (iv_covered _ _ _ Hinv) as Hcov. unfold covered in Hcov. rewrite Hr in Hcov.
  eapply drained_unrouted; [done|exact Hinv|exact Hp| |done|done]. by apply (proj2 Hcov i p).
Qed.

(** A draining pod is out of the ring: in every reachable state a pod that
    carries the drain annotation is not a member of the published ring, and the
    annotation is the stamp of a past moment. *)
Theorem draining_pods_unpublished c0 s0 n s key p v :
  initial c0 s0 → nsteps (step c0) n s0 s → Z.of_nat n <= MaxInt64 →
  store (cluster s) KPod !! key = Some p → pod_Annotations p !! drainAnnotation = Some v →
  (pod_Name p ∉ Members (ringOf c0 (cluster s))) ∧
  ∃ t0, v = FormatInt (t_Unix t0) ∧ sane_time t0 ∧ t_sec t0 <= t_sec (clock (cluster s)).
Proof.
  intros H0 Hs Hn Hp Hv.
  pose proof (inv_reachable c0 (in_name _ _ H0) (in_grace _ _ H0) n s0 s H0 Hs Hn) as Hinv.
  destruct (iv_retired _ _ _ Hinv key p v Hp Hv) as (t0 & Ha & Hsane & Hle & Hnot & _).
  split; [done|]. exists t0. split_and!; [congruence|done|done].
Qed.

(** C14: scaling down completes. From every reachable state where the cache is
    stored, live and carries the finalizer, a pass, the grace period and another pass leave the StatefulSet at the
    requested replica count, whatever drains were already under way. *)
Theorem scale_down_completes c0 s0 n c cls cache t :
  initial c0 s0 → nsteps (step c0) n s0 (mkSystem c cls) → Z.of_nat n + 2 < MaxInt64 →
  store c KDistributedCache !! (dc_Namespace c0, dc_Name c0) = Some cache →
  om_DeletionTimestamp (dc_meta cache) = None → drainFinalizer ∈ om_Finalizers (dc_meta cache) →
  t_le (clock c) t → sane_time t →
  t_sec (clock c) + GracePeriodSeconds (Drain (Spec c0)) <= t_sec t →
  let c1 := (run (Reconcile (reqOf c0)) c).1 in
  let c2 := (run (Reconcile (reqOf c0)) (at_time t c1)).1 in
  replicasOf c0 c2 = Replicas (Spec cache).
Proof.
  intros H0 Hs Hn Hca Hlive Hf Hle Hsane Hwait. cbv zeta.
  pose proof (in_grace _ _ H0) as Hgrace. pose proof (in_name _ _ H0) as Hname.
  assert (inv c0 n (mkSystem c cls)) as Hinv by (eapply inv_reachable; [done|done|done|done|lia]).
  destruct (stored_cache c0 n c cls cache Hinv Hca) as [Hrd Hsc].
  destruct (live_pass c0 Hname n c cls cache Hinv ltac:(lia) Hrd Hsc Hlive Hf) as (c1 & -> & Hps & Hinv1).
  rewrite <- (ps_clock _ _ _ Hps) in Hle, Hwait.
  pose proof (inv_tick c0 Hgrace _ _ _ t Hinv1 Hle Hsane) as Hinv2.
  pose proof (sameCache_observed c0 cache (ringOf cache c1) Hsc) as Hsc1.
  pose proof (ready_at_time _ _ t (ps_ready _ _ _ Hps)) as Hrd2.
  destruct (live_pass c0 Hname _ _ cls _ Hinv2 ltac:(lia) Hrd2 Hsc1 Hlive Hf) as (c2 & -> & Hps2 & _).
  destruct (sc_replicas _ _ Hsc) as (d & Hd & Hd0). rewrite Hd.
  pose proof (iv_covered _ _ _ Hinv1) as Hcov1. unfold covered in Hcov1. cbn [cluster] in Hcov1.
  destruct (sameCache_reads c0 _ c Hsc) as (Er & _ & _). destruct (sameCache_reads c0 _ c1 Hsc) as (Er1 & _ & _).
  pose proof (ps_replicas _ _ _ Hps) as Hrep. rewrite Er, Er1 in Hrep. unfold heldReplicas in Hrep. rewrite Hd in Hrep.
  assert (∃ r1, replicasOf c0 c1 = Some r1 ∧ (r1 = d ∨ replicasOf c0 c = Some r1)) as (r1 & Hr1 & Hcase).
  { rewrite Hrep. destruct (replicasOf c0 c) as [r|]; [|by eauto]. case_match; eauto. }
  eapply (pass_reaches_spec c0 (at_time t c1) c2 _ r1 d Hrd2 Hsc1 Hps2);
    [apply (iv_pods _ _ _ Hinv2)|exact Hr1|exact Hd|].
  intros i p Hi Hl. destruct Hcase as [->|Hr]; [lia|].
  destruct (doomed_annotated c0 n c c1 cls cache i r1 d p Hinv Hrd Hsc Hps Hr Hd Hi Hl) as [v Hv].
  by eapply (annotated_drained_later c0 Hgrace _ c1 cls t).
Qed.

(** C2: the drain contract of a deletion. When a pass over a cache that is being
    deleted, in any reachable state, lets go of its pods (it removes the finalizer or
    has the cell namespace deleted), then the published ring is empty, every pod
    there is has been drained for the whole grace period, and no client whose last
    successful poll is more recent than the grace period less a second routes any
    key to any of them. *)
Theorem deletion_contract c0 s0 n c cls cache c' :
  initial c0 s0 → nsteps (step c0) n s0 (mkSystem c cls) → Z.of_nat n < MaxInt64 →
  cacheAt c0 c = Some cache → om_DeletionTimestamp (dc_meta cache) ≠ None →
  (run (Reconcile (reqOf c0)) c).1 = c' → letsGo c0 c c' = true →
  Members (ringOf c0 c') = [] ∧
  ∀ pkey p, store c' KPod !! pkey = Some p →
    drained (graceOf c0) (clock c') p ∧
    ∀ id cl last key, cls !! id = Some (cl, last) → t_Sub (clock c') last <= graceOf c0 - Second →
      Lookup cl key ≠ Some (inr (pod_Name p +:+ "." +:+ cl_serviceFQDN cl)).
Proof.
  intros H0 Hs Hn Hca Hdel Hrun Hgo.
  pose proof (in_grace _ _ H0) as Hgrace. pose proof (in_name _ _ H0) as Hname.
  assert (inv c0 n (mkSystem c cls)) as Hinv by (eapply inv_reachable; [done|done|done|done|lia]).
  destruct (stored_cache c0 n c cls cache Hinv Hca) as [Hrd Hsc].
  destruct (decide (drainFinalizer ∈ om_Finalizers (dc_meta cache))) as [Hf|Hf]; cycle 1.
  { destruct (sameCache_keys c0 _ Hsc) as (_ & _ & _ & _ & Hreq & _).
    rewrite <- Hreq, Reconcile_deletion_done in Hrun by done. simpl in Hrun. subst c'.
    by rewrite letsGo_keeps in Hgo. }
  destruct (deletion_pass c0 Hname Hgrace n c cls cache) as (m & Hm & Hinvm & Hrun'); [done..|].
  rewrite Hrun in Hrun'. pose proof (mk_keeps _ _ _ Hm) as (_ & _ & K).
  destruct (allGone cache c) eqn:Hall; cycle 1.
  { rewrite Hrun' in Hgo. by rewrite letsGo_keeps in Hgo by (apply K; set_solver). }
  assert (inv c0 (S n) (mkSystem c' cls)) as Hinv' by (rewrite Hrun'; by apply inv_letGo).
  destruct (letGo_keeps cache m) as (Hc & _ & Kl). rewrite <- Hrun' in Hc, Kl. unfold rootKinds in Kl.
  split.
  - rewrite (ringOf_keeps c0 m c') by (apply Kl; set_solver).
    by apply (allGone_ring c0 n c m cls cache).
  - intros pkey p Hl.
    assert (drained (graceOf c0) (clock c') p) as Hd.
    { rewrite Hc. rewrite Kl in Hl by set_solver. by apply (allGone_drained c0 n c m cls cache pkey). }
    split; [done|]. intros id cl last key Hid Hfresh.
    by eapply (drained_unrouted c0 Hgrace _ (mkSystem c' cls)).
Qed.

(** C15: a deletion completes. From every reachable state in which the cache is being
    deleted and only the operator's finalizer holds it back, a pass, the grace period
    and another pass remove the cache or, when it lives in a cell, have the cell
    namespace deleted. *)
Theorem deletion_completes c0 s0 n c cls cache t :
  initial c0 s0 → nsteps (step c0) n s0 (mkSystem c cls) → Z.of_nat n + 2 < MaxInt64 →
  cacheAt c0 c = Some cache → om_DeletionTimestamp (dc_meta cache) ≠ None →
  om_Finalizers (dc_meta cache) = [drainFinalizer] →
  t_le (clock c) t → sane_time t →
  t_sec (clock c) + GracePeriodSeconds (Drain (Spec c0)) <= t_sec t →
  let c1 := (run (Reconcile (reqOf c0)) c).1 in
  let c2 := (run (Reconcile (reqOf c0)) (at_time t c1)).1 in
  cacheAt c0 c2 = None ∨ (isCrossNamespaceChild c0 = true ∧ terminating c0 c2 = true).
Proof.
  intros H0 Hs Hn Hca Hdel Hfs Hle Hsane Hwait. cbv zeta. fold (goneOrTerminating c0
    (run (Reconcile (reqOf c0)) (at_time t (run (Reconcile (reqOf c0)) c).1)).1).
  pose proof (in_grace _ _ H0) as Hgrace. pose proof (in_name _ _ H0) as Hname.
  assert (inv c0 n (mkSystem c cls)) as Hinv by (eapply inv_reachable; [done|done|done|done|lia]).
  destruct (stored_cache c0 n c cls cache Hinv Hca) as [Hrd Hsc].
  assert (drainFinalizer ∈ om_Finalizers (dc_meta cache)) as Hf by (rewrite Hfs; left).
  pose proof (inv_pass c0 Hname Hgrace n c cls Hinv ltac:(lia)) as Hinv1.
  destruct (deletion_pass c0 Hname Hgrace n c cls cache) as (m & Hm & Hinvm & Hrun); [done|lia|done..|].
  set (c1 := (run (Reconcile (reqOf c0)) c).1) in *.
  destruct (first_deletion_pass c0 Hgrace n c m c1 cls cache) as (Hc1 & Hann & Hsame); [done..|].
  destruct (cacheAt c0 c1) as [cache'|] eqn:Hca1; cycle 1.
  { left. by rewrite (Reconcile_absent c0 (at_time t c1)). }
  rewrite (Hsame cache') in Hca1 by done. rewrite <- Hc1 in Hle, Hwait.
  pose proof (inv_tick c0 Hgrace _ _ _ t Hinv1 Hle Hsane) as Hinv2.
  destruct (stored_cache c0 _ (at_time t c1) cls cache Hinv2 Hca1) as [Hrd2 _].
  destruct (deletion_pass c0 Hname Hgrace (S (S n)) (at_time t c1) cls cache) as (m2 & Hm2 & _ & ->); [done|lia|done..|].
  assert (allGone cache (at_time t c1) = true) as ->; [|apply letGo_gone; [apply Hm2|done|done]].
  apply forallb_forall. intros p Hp%list_elem_of_In. apply drainedB_spec.
  destruct (sameCache_keys c0 _ Hsc) as (_ & _ & _ & -> & _).
  apply (elem_of_listing cache (at_time t c1)) in Hp as (Hl & _); [|done].
  destruct (Hann _ p Hl) as [v Hv]. by eapply (annotated_drained_later c0 Hgrace _ c1).
Qed.

End Claims.
