(* ===== verification/Rely.v ===== *)
(** * Programs among other writers

    A rely-guarantee logic for [prog]. A program's calls reach the server one at a
    time; in between others act within a relation [rely]; a call may fail, with or
    without having taken effect. [rg p Q R]: started in [Q], every call of [p] stays
    within the guarantee, and when [p] returns [a] the cluster satisfies [R a]. *)

From S2P Require Import Prelude GoLib Api Kube KubeRef Stages Footprint.

#[local] Existing Instance refKube.

(** ** Calls that may fail *)

(** An error that does not claim the object is absent. *)
Definition failed {A} (r : goerror + A) : Prop := ∃ e, r = inl e ∧ IsNotFound e = false.

Definition failure (o : Op) : Resp o → Prop :=
  match o return Resp o → Prop with
  | OEvent _ _ _ | ONow => λ _, False
  | OGet _ _ | OListPods _ _ | OUpdate _ _ | OStatusUpdate _ | ODelete _ _ | OCreateOrUpdate _ _ _ => failed
  end.

(** A call takes effect and is answered; or it fails before it takes effect; or its
    answer is lost after it has. *)
Inductive outcome (o : Op) (c : Cluster) : Cluster → Resp o → Prop :=
  | answered : outcome o c (server o c).1 (server o c).2
  | refused_call r : failure o r → outcome o c c r
  | answer_lost r : failure o r → outcome o c (server o c).1 r.

(** ** The logic *)

Section Logic.
(** [known] is an invariant proved elsewhere, [sound] the one to be kept. *)
Variables (known sound : Cluster → Prop) (rely guar : Cluster → Cluster → Prop).

(** What a program may assume between two of its calls. *)
Record assertion (Q : Cluster → Prop) : Prop := {
  as_sound : ∀ c, Q c → sound c;
  as_stable : ∀ c c', rely c c' → Q c → Q c'
}.

Fixpoint rg {A} (p : prog A) (Q : Cluster → Prop) (R : A → Cluster → Prop) : Prop :=
  match p with
  | Ret a => ∀ c, Q c → R a c
  | Vis o k => ∃ Q' : Resp o → Cluster → Prop, (∀ r, assertion (Q' r)) ∧
      (∀ c c' r, known c → Q c → outcome o c c' r → guar c c' ∧ Q' r c') ∧ ∀ r, rg (k r) (Q' r) R
  end.

Lemma rg_mono {A} (p : prog A) (Q Q2 : Cluster → Prop) (R R2 : A → Cluster → Prop) :
  rg p Q R → (∀ c, Q2 c → Q c) → (∀ a c, R a c → R2 a c) → rg p Q2 R2.
Proof.
  revert Q Q2. induction p as [a|o k IH]; intros Q Q2; simpl; [by eauto|].
  intros (Q' & Ha & Ho & Hk) HQ HR. exists Q'. split_and!; [done|by eauto|]. intros r. by eapply IH.
Qed.

Lemma rg_ret {A} (a : A) (Q : Cluster → Prop) (R : A → Cluster → Prop) :
  (∀ c, Q c → R a c) → rg (mret a) Q R.
Proof. done. Qed.

Lemma rg_bind {A B} (p : prog A) (f : A → prog B) Q (P : A → Cluster → Prop) R :
  rg p Q P → (∀ a, rg (f a) (P a) R) → rg (p ≫= f) Q R.
Proof.
  intros Hp Hf. revert Q Hp. unfold mbind, prog_mbind. induction p as [a|o k IH]; intros Q; simpl.
  - intros HQ. eapply rg_mono; [apply Hf|exact HQ|done].
  - intros (Q' & Ha & Ho & Hk). exists Q'. split_and!; [done|done|]. intros r. by apply IH.
Qed.

(** The error branch of [ebind] ends the program. *)
Lemma rg_ebind {A B} (p : prog (goerror + A)) (f : A → prog (goerror + B)) Q (P : goerror + A → Cluster → Prop) R :
  rg p Q P → (∀ e c, P (inl e) c → R (inl e) c) → (∀ a, rg (f a) (P (inr a)) R) → rg (ebind p f) Q R.
Proof. intros Hp He Hf. eapply rg_bind; [exact Hp|]. intros [e|a]; [exact (He e)|apply Hf]. Qed.

Lemma rg_wrapf {A} ctx (p : prog (goerror + A)) Q (P : goerror + A → Cluster → Prop) R :
  rg p Q P → (∀ e c, P (inl e) c → R (inl (Wrapf ctx e)) c) → (∀ a c, P (inr a) c → R (inr a) c) →
  rg (wrapf ctx p) Q R.
Proof. intros Hp He Ha. eapply rg_bind; [exact Hp|]. intros [e|a]; [exact (He e)|exact (Ha a)]. Qed.

(** A program that works from each of a set of assertions works from their union. *)
Lemma rg_union {A} (p : prog A) (F : (Cluster → Prop) → Prop) R :
  (∀ Q, F Q → rg p Q R) → rg p (λ c, ∃ Q, F Q ∧ Q c) R.
Proof.
  revert F. induction p as [a|o k IH]; intros F; simpl.
  - intros H c (Q & HF & HQ). by apply (H Q).
  - intros H. set (next := λ (Q : Cluster → Prop) (Q' : Resp o → Cluster → Prop), (∀ r, assertion (Q' r)) ∧
      (∀ c c' r, known c → Q c → outcome o c c' r → guar c c' ∧ Q' r c') ∧ ∀ r, rg (k r) (Q' r) R).
    set (F' := λ r Q2, ∃ Q Q', F Q ∧ next Q Q' ∧ Q2 = Q' r).
    exists (λ r c, ∃ Q2, F' r Q2 ∧ Q2 c). split_and!.
    + intros r. split.
      * intros c (Q2 & (Q & Q' & _ & (Ha & _) & ->) & Hc). by eapply (as_sound _ (Ha r)).
      * intros c c' Hr (Q2 & HF' & Hc). exists Q2. split; [done|].
        destruct HF' as (Q & Q' & _ & (Ha & _) & ->). by eapply (as_stable _ (Ha r)).
    + intros c c' r Hkn (Q & HF & Hc) Hout. destruct (H Q HF) as (Q' & Ha & Ho & Hk).
      destruct (Ho c c' r Hkn Hc Hout) as [Hg Hc']. split; [done|]. exists (Q' r). split; [|done].
      by exists Q, Q'.
    + intros r. apply IH. by intros Q2 (Q & Q' & _ & (_ & _ & Hk) & ->).
Qed.

Lemma rg_exists {A X} (p : prog A) (Q : X → Cluster → Prop) R :
  (∀ x, rg p (Q x) R) → rg p (λ c, ∃ x, Q x c) R.
Proof.
  intros H. eapply rg_mono; [apply (rg_union p (λ Q', ∃ x, Q' = Q x))| |done].
  - by intros Q' [x ->].
  - intros c [x Hx]. exists (Q x). eauto.
Qed.

Lemma rg_call o Q (Q' : Resp o → Cluster → Prop) :
  (∀ r, assertion (Q' r)) → (∀ c c' r, known c → Q c → outcome o c c' r → guar c c' ∧ Q' r c') → rg (call o) Q Q'.
Proof. intros Ha Ho. exists Q'. split_and!; [done|done|]. by intros r c. Qed.

(** A read whose answer justifies an assertion. *)
Lemma outcome_read o c c' r :
  (server o c).1 = c → outcome o c c' r → c' = c ∧ (r = (server o c).2 ∨ failure o r).
Proof. intros Ho []; rewrite ?Ho; auto. Qed.

Lemma rg_read o (Q : Cluster → Prop) (Q' : Resp o → Cluster → Prop) :
  (∀ c, guar c c) → (∀ c, (server o c).1 = c) → (∀ r, assertion (Q' r)) →
  (∀ c, known c → Q c → Q' (server o c).2 c) → (∀ c r, Q c → failure o r → Q' r c) → rg (call o) Q Q'.
Proof.
  intros Hg Ho Ha H1 H2. apply rg_call; [exact Ha|]. intros c c' r Hkn Hc Hout.
  destruct (outcome_read o c c' r (Ho c) Hout) as [-> [->|Hf]]; (split; [apply Hg|]); auto.
Qed.

(** A fact about no cluster in particular. *)
Lemma rg_pure {A} (p : prog A) (P : Prop) Q R : (P → rg p Q R) → rg p (λ c, P ∧ Q c) R.
Proof. intros H. eapply rg_mono; [apply (rg_exists p (λ (_ : P), Q)), H|by intros c [HP HQ]; exists HP|done]. Qed.

(** A call that, whatever becomes of it, looks like a step of somebody else. *)
Definition quietly (Q : Cluster → Prop) (o : Op) : Prop :=
  ∀ c, Q c → rely c (server o c).1 ∧ guar c (server o c).1.

Lemma rg_quiet {A} Q (p : prog A) :
  (∀ c, guar c c) → assertion Q → safe (quietly Q) p → rg p Q (λ _, Q).
Proof.
  intros Hg HQ. induction p as [a|o k IH]; simpl; [done|]. intros [Ho Hk]. exists (λ _, Q).
  split_and!; [done| |by eauto]. intros c c' r _ Hc Hout. destruct (Ho c Hc) as [H1 H2].
  destruct Hout; (split; [done|]); try done; by eapply (as_stable _ HQ).
Qed.

End Logic.
