(* ===== verification/Interleave.v ===== *)
(** * A pass among other writers

    The stages of a pass in the rely-guarantee logic of [Rely]: while the operator is
    between two calls, time passes, kubelets report, pods go away, the user edits or
    deletes the cache, and the StatefulSet controller creates pods, though not those
    the pass is about to give up. The invariant is that every pod the StatefulSet
    does not cover is drained; the guarantee, that the operator lets go of a deleted
    cache only when all its pods are. *)

From S2P Require Import Prelude GoLib Json Api Kube KubeRef Names Ring Cell Workload Status.
From S2P Require Import RingPublish Drain Reconciler Stages Footprint Converge Teardown HashRing Client.
From S2P Require Import System Contract Rely.

#[local] Existing Instance refKube.
Local Open Scope Z_scope.
Local Open Scope prog_scope.

(** ** Time *)

(** What is drained stays drained. *)
Lemma drained_mono grace now now' p :
  drained grace now p → t_le now now' → sane_time now → sane_time now' → drained grace now' p.
Proof.
  intros (s & ts & Hs & Hts & Hle) Ht H1 H2. exists s, ts. split_and!; [done|done|].
  unfold t_Sub, clamp64, t_le, sane_time, Second in *. lia.
Qed.

Lemma drained_annotation grace now p q :
  pod_Annotations q !! drainAnnotation = pod_Annotations p !! drainAnnotation →
  drained grace now p → drained grace now q.
Proof. unfold drained. by intros ->. Qed.

Lemma t_le_refl t : t_le t t.
Proof. unfold t_le. lia. Qed.

(** The server stores every object under its own name. *)
Lemma put_keyed k (o : obj k) c : keyed c → keyed (put o c).
Proof. intros H. exact (keys_insert H (keeps_put o c) (store_put o c) eq_refl). Qed.

Lemma remove_keyed k key c : keyed c → keyed (remove k key c).
Proof.
  intros H k' key' o. unfold remove. cbn [store]. case_decide; [|apply H].
  intros [_ Hl]%lookup_delete_Some. by apply H.
Qed.

Lemma server_keyed o c : keyed c → keyed (server o c).1.
Proof.
  intros H. destruct o as [k key|ns sel|k o|d|k o|k o f|ty r m|]; cbn [server fst]; try done.
  - unfold server_update. repeat case_match; cbn [fst]; by try apply put_keyed; try apply remove_keyed.
  - case_match; cbn [fst]; [by apply (put_keyed KDistributedCache)|done].
  - case_match; cbn [fst]; [by apply put_keyed|done].
  - unfold server_cou. repeat case_match; cbn [fst]; by try apply put_keyed.
Qed.

(** ** Reconcile, after it has read the cache *)

Section Reading.
Context `{SS : SliceSort}.

Definition onCache (cache : DistributedCache) : prog (Result * option goerror) :=
  if negb (bool_decide (om_DeletionTimestamp (dc_meta cache) = None))
  then reconcileDeletion cache else reconcileLive cache.

Definition afterRead (got : goerror + DistributedCache) : prog (Result * option goerror) :=
  match got with
  | inl e => if IsNotFound e then mret (done_, None) else mret (done_, Some (Wrapf "get DistributedCache" e))
  | inr cache => onCache cache
  end.

Lemma Reconcile_reads req : Reconcile req = Vis (OGet KDistributedCache req) afterRead.
Proof. done. Qed.

End Reading.

Section Interleave.
Context `{SS : SliceSort}.
Variable c0 : DistributedCache.

Local Abbreviation podKey := (System.podKey c0).
Local Abbreviation isPod := (System.isPod c0).
Local Abbreviation sameCache := (System.sameCache c0).
Local Abbreviation cacheAt := (Contract.cacheAt c0).
Local Abbreviation letsGo := (Contract.letsGo c0).
Local Abbreviation covered := (System.covered c0).

(** ** The invariant *)

Record sound (c : Cluster) : Prop := {
  so_clock : sane_time (clock c);
  so_keyed : keyed c;
  so_cache : ∀ cache, cacheAt c = Some cache → sameCache cache;
  so_pods : ∀ key p, store c KPod !! key = Some p → ∃ i, 0 <= i ∧ key = podKey i ∧ isPod i p;
  so_covered : covered c
}.

Definition allPodsDrained (c : Cluster) : Prop :=
  ∀ key p, store c KPod !! key = Some p → drained (graceOf c0) (clock c) p.

(** The guarantee: the operator lets go only of drained pods. *)
Definition guarantee (c c' : Cluster) : Prop := letsGo c c' = true → allPodsDrained c'.

Section Pass.
(** The ordinals that may come up while the pass is under way. *)
Variable wanted : Z → Prop.

(** What others may do between two calls. *)
Record rely (c c' : Cluster) : Prop := {
  rl_clock : t_le (clock c) (clock c') ∧ sane_time (clock c');
  rl_keyed : keyed c';
  rl_sts : store c' KStatefulSet = store c KStatefulSet;
  rl_cache : ∀ cache, cacheAt c' = Some cache → sameCache cache;
  rl_pods : ∀ key (p' : Pod), store c' KPod !! key = Some p' →
    (∃ p, store c KPod !! key = Some p ∧ pod_meta p' = pod_meta p) ∨
    (∃ i r, key = podKey i ∧ p' = freshPod c0 i ∧ replicasOf c0 c = Some r ∧ 0 <= i < r ∧ wanted i)
}.

Lemma rely_refl c : sound c → rely c c.
Proof. intros []. split; try done; [split; [apply t_le_refl|done]|]. eauto. Qed.

(** A change that leaves pods, StatefulSets and the clock alone. *)
Lemma rely_elsewhere l c c' :
  sound c → keeps l c c' → KPod ∉ l → KStatefulSet ∉ l → keyed c' →
  (∀ cache, cacheAt c' = Some cache → sameCache cache) → rely c c'.
Proof.
  intros Hs (Hc & _ & K) H1 H2 Hk Hca. split; [| |by apply K|done|].
  - rewrite Hc. split; [apply t_le_refl|apply Hs].
  - done.
  - rewrite K by done. eauto.
Qed.

Lemma sound_rely c c' : rely c c' → sound c → sound c'.
Proof.
  intros [[Hle Hs'] Hk Hsts Hca Hp] [Hs _ _ Hpods Hcov]. split; [done|done|done| |].
  - intros key p' Hl. destruct (Hp key p' Hl) as [(p & Hl' & Hm)|(i & r & -> & -> & _ & Hi & _)].
    + destruct (Hpods key p Hl') as (i & Hi & -> & H). exists i. split_and!; [done|done|].
      unfold System.isPod, pod_Name in *. by rewrite Hm.
    + exists i. by split_and!; [lia|..].
  - unfold System.covered in *. rewrite (replicasOf_keeps c0 c c' Hsts).
    destruct (replicasOf c0 c) as [r|].
    + destruct Hcov as [H0 Hcov]. split; [done|]. intros i p' Hl Hi.
      destruct (Hp _ p' Hl) as [(p & Hl' & Hm)|(j & r' & Hkey & -> & [= <-] & Hj & _)].
      * apply (drained_mono _ (clock c)); [|done..]. apply (drained_annotation _ _ p); [|by apply (Hcov i)].
        unfold pod_Annotations. by rewrite Hm.
      * apply podKey_inj in Hkey. lia.
    + apply map_empty. intros key. destruct (store c' KPod !! key) as [p'|] eqn:Hl; [|done].
      destruct (Hp key p' Hl) as [(p & Hl' & _)|(j & r' & _ & _ & [=] & _)]. by rewrite Hcov in Hl'.
Qed.

Abbreviation assertion := (Rely.assertion sound rely).
Abbreviation rg := (Rely.rg (λ _, True) sound rely guarantee).

Lemma sound_assertion : assertion sound.
Proof. split; [done|]. intros c c'. apply sound_rely. Qed.

Lemma guarantee_refl c : guarantee c c.
Proof. unfold guarantee. by rewrite letsGo_keeps. Qed.

(** ** Calls that disturb nobody *)

Abbreviation quiet := (quietly rely guarantee sound).

Lemma cacheAt_keeps l c c' : keeps l c c' → KDistributedCache ∉ l → cacheAt c' = cacheAt c.
Proof. intros (_ & _ & K) Hl. unfold Contract.cacheAt. by rewrite K. Qed.

Lemma sameCache_keeps l c c' :
  sound c → keeps l c c' → KDistributedCache ∉ l → ∀ cache, cacheAt c' = Some cache → sameCache cache.
Proof. intros Hs Hk Hl cache. rewrite (cacheAt_keeps l c c') by done. apply Hs. Qed.

(** The kinds the invariant and the guarantee look at. *)
Definition watchedKinds : list Kind := [KPod; KStatefulSet; KDistributedCache; KNamespace].

Lemma quiet_elsewhere o (l : list Kind) :
  (∀ k, tag_kind (op_tag o) = Some k → k ∈ l) → bool_decide (Forall (λ k, k ∉ l) watchedKinds) = true → quiet o.
Proof.
  intros Ho Hl%bool_decide_eq_true c Hs. pose proof (server_keeps o c l Ho) as Hk.
  unfold watchedKinds in Hl. rewrite !Forall_cons in Hl. destruct Hl as (H1 & H2 & H3 & H4 & _). split.
  - apply (rely_elsewhere l); [done..| |]; [apply server_keyed, Hs|by eapply sameCache_keeps].
  - pose proof Hk as (_ & _ & K). unfold guarantee. by rewrite letsGo_keeps by (apply K; done).
Qed.

Definition quietTags : list tag :=
  [TGet KStatefulSet; TGet KConfigMap; TGet KNamespace; TListPods; TNow; TEvent; TStatusUpdate;
   TCreateOrUpdate KService; TCreateOrUpdate KConfigMap; TCreateOrUpdate KResourceQuota;
   TCreateOrUpdate KNetworkPolicy].

(** Replacing the stored cache by one of the same identity. *)
Lemma rely_putCache d c : sound c → sameCache d → rely c (@put KDistributedCache d c).
Proof.
  intros Hs Hd. apply (rely_elsewhere [KDistributedCache]); [done|apply (keeps_put (k := KDistributedCache))|set_solver..| |].
  - apply (put_keyed KDistributedCache), Hs.
  - intros cache. unfold Contract.cacheAt. rewrite (store_put (k := KDistributedCache)).
    rewrite (key_of_cache d d eq_refl), (sc_name _ _ Hd), (sc_ns _ _ Hd), lookup_insert_eq. by intros [= <-].
Qed.

Lemma rely_removeCache key c : sound c → rely c (remove KDistributedCache key c).
Proof.
  intros Hs. apply (rely_elsewhere [KDistributedCache]); [done|apply keeps_remove|set_solver..| |].
  - apply remove_keyed, Hs.
  - intros cache Hl. unfold Contract.cacheAt in Hl.
    change (delete key (store c KDistributedCache) !! (dc_Namespace c0, dc_Name c0) = Some cache) in Hl.
    apply lookup_delete_Some in Hl as [_ Hl]. by apply Hs.
Qed.

(** While the finalizer stays and the cell is not touched, nothing is let go. *)
Lemma guarantee_holds c c' :
  store c' KNamespace = store c KNamespace → (holdsFinalizer c0 c = true → holdsFinalizer c0 c' = true) →
  guarantee c c'.
Proof.
  intros Hn Hf. unfold guarantee, Contract.letsGo.
  assert (terminating c0 c' = terminating c0 c) as -> by (unfold terminating; by rewrite Hn).
  rewrite andb_negb_l, orb_false_r. intros [H1 H2]%andb_true_iff. by rewrite Hf in H2.
Qed.

Lemma quiet_StatusUpdate d : quiet (OStatusUpdate d).
Proof.
  intros c Hs. cbn [server]. destruct (store c KDistributedCache !! @key_of KDistributedCache d) as [d0|] eqn:Hd;
    [|split; [by apply rely_refl|apply guarantee_refl]]. cbn [fst].
  set (d' := mkCache (dc_meta d0) (Spec d0) (Status d)).
  pose proof (so_keyed _ Hs KDistributedCache _ _ Hd) as Hk.
  assert (@key_of KDistributedCache d' = @key_of KDistributedCache d) as Hk' by exact Hk.
  assert (∀ x, cacheAt (@put KDistributedCache d' c) = Some x →
    ∃ y, cacheAt c = Some y ∧ dc_meta x = dc_meta y ∧ Spec x = Spec y) as Hat.
  { intros x. unfold Contract.cacheAt. rewrite (store_put (k := KDistributedCache)), Hk'.
    destruct (decide ((dc_Namespace c0, dc_Name c0) = @key_of KDistributedCache d)) as [->|Hne].
    - rewrite lookup_insert_eq. intros [= <-]. by exists d0.
    - rewrite lookup_insert_ne by done. eauto. }
  split.
  - apply (rely_elsewhere [KDistributedCache]); [done|apply (keeps_put (k := KDistributedCache))|set_solver..| |].
    + apply (put_keyed KDistributedCache), Hs.
    + intros x (y & Hy & Hm & Hsp)%Hat. destruct (so_cache _ Hs y Hy) as [H1 H2 H3 H4 H5 H6].
      split; unfold dc_Name, dc_Namespace in *; by rewrite ?Hm, ?Hsp.
  - apply guarantee_holds; [by rewrite (store_put_ne (k := KDistributedCache))|].
    unfold holdsFinalizer, Contract.cacheAt. rewrite (store_put (k := KDistributedCache)), Hk'.
    destruct (decide ((dc_Namespace c0, dc_Name c0) = @key_of KDistributedCache d)) as [Heq|Hne].
    + rewrite Heq, lookup_insert_eq. destruct (@lookup okey DistributedCache _ _ _ (store c KDistributedCache))
        as [y|]; [|done]. by injection Hd as ->.
    + by rewrite lookup_insert_ne by done.
Qed.

Lemma quiet_tag o : only quietTags o → quiet o.
Proof.
  unfold only. intros Ho%bool_decide_eq_true. destruct o as [k key|ns sel|k o|d|k o|k o f|ty r m|];
    try (by apply (quiet_elsewhere _ [])); [exfalso; set_solver|by apply quiet_StatusUpdate|exfalso; set_solver|].
  apply (quiet_elsewhere _ [k]); [set_solver|]. cbn [op_tag] in Ho.
  destruct k; try reflexivity; exfalso; set_solver.
Qed.

(** The cell namespace is labelled, never terminated. *)
Lemma quiet_cellNamespace cache name :
  quiet (OCreateOrUpdate KNamespace (mkNamespace (newMeta name "")) (mutateCellNamespace cache)).
Proof.
  intros c Hs. set (o := mkNamespace (newMeta name "")). set (op := OCreateOrUpdate KNamespace o _).
  pose proof (server_keeps op c [KNamespace] ltac:(set_solver)) as Hk. split.
  - apply (rely_elsewhere [KNamespace]); [done|done|set_solver..| |].
    + apply server_keyed, Hs.
    + apply (sameCache_keeps [KNamespace] c); [done|done|set_solver].
  - unfold guarantee, Contract.letsGo.
    assert (holdsFinalizer c0 (server op c).1 = holdsFinalizer c0 c) as ->.
    { unfold holdsFinalizer. by rewrite (cacheAt_keeps [KNamespace] c) by (done || set_solver). }
    rewrite andb_negb_r, orb_false_l. intros [H1 H2]%andb_true_iff. exfalso.
    apply negb_true_iff in H1. revert H1 H2. unfold terminating. cbn [server op]. unfold server_cou.
    destruct (writes_fail c KNamespace); [cbn [fst]; congruence|].
    destruct (store c KNamespace !! @key_of KNamespace o) as [ns|] eqn:Hns; cbn [mutateCellNamespace].
    + pose proof (so_keyed _ Hs KNamespace _ _ Hns) as Hkey.
      case_bool_decide; [cbn [fst]; congruence|]. cbn [fst].
      set (ns' := mkNamespace _). assert (@key_of KNamespace ns' = @key_of KNamespace o) as Hkey' by exact Hkey.
      rewrite (store_put (k := KNamespace)), Hkey'.
      destruct (decide (cellKey c0 = @key_of KNamespace o)) as [->|Hne].
      * rewrite lookup_insert_eq. change (@lookup okey Namespace_) with (@lookup okey (obj KNamespace)).
        rewrite Hns. cbn. congruence.
      * rewrite lookup_insert_ne by done. intros H1 H2. by pose proof (eq_trans (eq_sym H1) H2).
    + cbn [fst]. rewrite (store_put (k := KNamespace)), key_of_map_meta by done.
      match goal with |- context [<[?key := ?v]> (store c KNamespace)] =>
        destruct (decide (cellKey c0 = key)) as [->|Hne] end.
      * rewrite lookup_insert_eq. done.
      * rewrite lookup_insert_ne by done. intros H1 H2. by pose proof (eq_trans (eq_sym H1) H2).
Qed.

Lemma server_update_cases k (o : obj k) c :
  (server (OUpdate k o) c).1 = c ∨ (server (OUpdate k o) c).1 = put o c ∨
  (om_Finalizers (obj_meta k o) = [] ∧ (server (OUpdate k o) c).1 = remove k (key_of o) c).
Proof.
  cbn [server]. unfold server_update. destruct (writes_fail c k); [by left|].
  destruct (store c k !! _); [|by left]. cbv zeta. right.
  destruct (_ && _) eqn:Hb; [|by left]. right. apply andb_true_iff in Hb as [_ Hb%bool_decide_eq_true]. done.
Qed.

(** The finalizer is added, or stays. *)
Lemma quiet_addFinalizer d :
  sameCache d → drainFinalizer ∈ om_Finalizers (dc_meta d) → quiet (OUpdate KDistributedCache d).
Proof.
  intros Hd Hf c Hs. destruct (server_update_cases KDistributedCache d c) as [->|[->|[He _]]].
  - split; [by apply rely_refl|apply guarantee_refl].
  - split; [by apply rely_putCache|]. apply guarantee_holds; [by rewrite (store_put_ne (k := KDistributedCache))|].
    intros _. unfold holdsFinalizer, Contract.cacheAt. rewrite (store_put (k := KDistributedCache)).
    rewrite (key_of_cache d d eq_refl), (sc_name _ _ Hd), (sc_ns _ _ Hd), lookup_insert_eq.
    by rewrite bool_decide_true.
  - change (om_Finalizers (dc_meta d) = []) in He. rewrite He in Hf. set_solver.
Qed.

Lemma rg_safe {A} Q (p : prog A) :
  assertion Q → safe quiet p → rg p Q (λ _, Q).
Proof.
  intros HQ Hp. apply rg_quiet; [apply guarantee_refl|done|]. eapply safe_mono; [|exact Hp].
  intros o Ho c Hc. by apply Ho, (as_sound _ _ _ HQ).
Qed.

Lemma rg_only {A} l Q (p : prog A) :
  bool_decide (Forall (λ g, g ∈ quietTags) l) = true → safe (only l) p → assertion Q →
  rg p Q (λ _, Q).
Proof.
  intros Hl%bool_decide_eq_true Hp HQ. apply rg_safe; [done|]. eapply safe_mono; [apply quiet_tag|].
  by eapply only_weaken.
Qed.

(** ** The cell *)

Lemma reconcileCell_rg cache : rg (reconcileCell cache) sound (λ _, sound).
Proof.
  apply rg_safe; [apply sound_assertion|]. unfold reconcileCell, reconcileCellNamespace, reconcileResourceQuota, reconcileNetworkPolicy, CreateOrUpdate.
  assert (∀ op reason msg, safe quiet (reportOp op reason msg)) as Hrep.
  { intros op reason msg. eapply safe_mono; [apply quiet_tag|]. by apply reportOp_only. }
  repeat (safe_step || apply Hrep); first [apply quiet_cellNamespace|by apply quiet_tag].
Qed.

(** ** Pods as listed *)

(** The drain annotation is missing or no number. *)
Definition unread (p : Pod) : Prop :=
  ∀ v, pod_Annotations p !! drainAnnotation = Some v → ParseInt v = None.

(** What a listing still says about the cluster: the pods on it are pods of the
    cache, those without a readable annotation are covered, and every pod that
    cannot have come up since is on it, with the annotation it had if that was
    readable. *)
Record mirror (rep : option Z) (pods : list Pod) (c : Cluster) : Prop := {
  mi_rep : replicasOf c0 c = rep;
  mi_own : ∀ p, p ∈ pods → ∃ i, 0 <= i ∧ @key_of KPod p = podKey i ∧ isPod i p ∧
    (unread p → ∃ r, rep = Some r ∧ i < r);
  mi_there : ∀ i q, ¬ wanted i → store c KPod !! podKey i = Some q →
    ∃ p, p ∈ pods ∧ pod_Name p = pod_Name q ∧ ∀ v ts, pod_Annotations p !! drainAnnotation = Some v →
      ParseInt v = Some ts → pod_Annotations q !! drainAnnotation = Some v
}.

Definition seen (rep : option Z) (pods : list Pod) (now : Time) (c : Cluster) : Prop :=
  sound c ∧ mirror rep pods c ∧ sane_time now ∧ t_le now (clock c).

Lemma mirror_rely rep pods c c' : rely c c' → mirror rep pods c → mirror rep pods c'.
Proof.
  intros Hr [H1 H2 H3]. split; [by rewrite (replicasOf_keeps c0 c c' (rl_sts _ _ Hr))|done|].
  intros i q' Hw Hl. destruct (rl_pods _ _ Hr _ q' Hl) as [(q & Hl' & Hm)|(j & r & Hk & _ & _ & _ & Hj)].
  - destruct (H3 i q Hw Hl') as (p & Hp & Hn & Ha). exists p. unfold pod_Name, pod_Annotations in *.
    by rewrite Hm.
  - apply podKey_inj in Hk. by subst j.
Qed.

Lemma seen_assertion rep pods now : assertion (seen rep pods now).
Proof.
  split; [by intros c []|]. intros c c' Hr (Hs & Hm & H1 & H2). split_and!.
  - by eapply sound_rely.
  - by eapply mirror_rely.
  - done.
  - eapply t_le_trans; [done|apply (rl_clock _ _ Hr)].
Qed.

Lemma listed_assertion rep pods : assertion (λ c, sound c ∧ mirror rep pods c).
Proof.
  split; [by intros c []|]. intros c c' Hr [Hs Hm]. split; [by eapply sound_rely|by eapply mirror_rely].
Qed.

(** A fresh listing. *)
Lemma mirror_listing cache c :
  sound c → sameCache cache →
  mirror (replicasOf c0 c) (listing (targetNamespace cache) (podLabels cache) c) c.
Proof.
  intros Hs Hsc. destruct (sameCache_keys _ _ Hsc) as (_ & _ & Hpl & _).
  rewrite (sameCache_target _ _ Hsc), Hpl. split; [done| |].
  - intros p (Hl & _)%elem_of_listing_keys; [|apply Hs].
    destruct (so_pods _ Hs _ p Hl) as (i & Hi & Hk & Hp). exists i. split_and!; [done|done|done|].
    intros Hu. pose proof (so_covered _ Hs) as Hcov. unfold System.covered in Hcov.
    destruct (replicasOf c0 c) as [r|]; [|by rewrite Hcov in Hl].
    exists r. split; [done|]. destruct (Z.lt_ge_cases i r) as [|Hge]; [done|]. rewrite Hk in Hl.
    destruct (proj2 Hcov i p Hl Hge) as (v & ts & Hv & Hts & _). by rewrite (Hu v Hv) in Hts.
  - intros i q _ Hl. destruct (so_pods _ Hs _ q Hl) as (j & _ & _ & _ & Hns & Hlab).
    pose proof (so_keyed _ Hs KPod _ _ Hl) as Hk. exists q. split_and!; [|done|done].
    apply elem_of_listing_keys; [apply Hs|]. by rewrite Hk.
Qed.

(** Starting the drain of a listed pod. *)
Lemma sound_startDrain rep pods now c (p : Pod) :
  sound c → mirror rep pods c → p ∈ pods → unread p → sound (@put KPod (startDrain now p) c).
Proof.
  intros [H1 H2 H3 H4 H5] Hm Hp Hu. destruct (mi_own _ _ _ Hm p Hp) as (i & Hi & Hk & Hpod & Hcov).
  destruct (Hcov Hu) as (r & Hr & Hlt). pose proof (mi_rep _ _ _ Hm) as Hrep. rewrite Hr in Hrep.
  pose proof (keeps_put (k := KPod) (startDrain now p) c) as (_ & _ & K).
  pose proof (store_put (k := KPod) (startDrain now p) c) as Hst.
  change (@key_of KPod (startDrain now p)) with (@key_of KPod p) in Hst. rewrite Hk in Hst. split.
  - done.
  - by apply (put_keyed KPod).
  - unfold Contract.cacheAt. by rewrite K by set_solver.
  - intros key q. rewrite Hst. destruct (decide (key = podKey i)) as [->|Hne].
    + rewrite lookup_insert_eq. intros [= <-]. by exists i.
    + rewrite lookup_insert_ne by done. apply H4.
  - unfold System.covered in *. rewrite (replicasOf_keeps c0 c) by (apply K; set_solver). rewrite Hrep in *.
    split; [apply H5|]. intros j q. rewrite Hst. destruct (decide (podKey j = podKey i)) as [Heq%podKey_inj|Hne].
    + intros _ Hj. lia.
    + rewrite lookup_insert_ne by done. apply H5.
Qed.

Lemma seen_startDrain rep pods now c (p : Pod) :
  seen rep pods now c → p ∈ pods → unread p → seen rep pods now (@put KPod (startDrain now p) c).
Proof.
  intros (Hs & Hm & H1 & H2) Hp Hu. split_and!; [by eapply sound_startDrain| |done|done].
  destruct Hm as [M1 M2 M3]. pose proof (keeps_put (k := KPod) (startDrain now p) c) as (_ & _ & K).
  split; [by rewrite (replicasOf_keeps c0 c) by (apply K; set_solver)|done|].
  intros i q Hw. rewrite (store_put (k := KPod)).
  change (@key_of KPod (startDrain now p)) with (@key_of KPod p).
  destruct (decide (podKey i = @key_of KPod p)) as [Heq|Hne].
  - rewrite Heq, lookup_insert_eq. intros [= <-]. exists p. split_and!; [done|done|].
    intros v ts Hv Hts. by rewrite (Hu v Hv) in Hts.
  - rewrite lookup_insert_ne by done. by apply M3.
Qed.

(** A pod goes away. *)
Lemma rely_removePod key c : sound c → rely c (remove KPod key c).
Proof.
  intros Hs. pose proof (keeps_remove KPod key c) as (Hc & _ & K). split.
  - split; [apply t_le_refl|apply Hs].
  - apply remove_keyed, Hs.
  - by apply K; set_solver.
  - unfold Contract.cacheAt. rewrite K by set_solver. apply Hs.
  - intros key' p' Hl. change (delete key (store c KPod) !! key' = Some p') in Hl.
    apply lookup_delete_Some in Hl as [_ Hl]. eauto.
Qed.

Lemma guarantee_elsewhere l c c' :
  keeps l c c' → KDistributedCache ∉ l → KNamespace ∉ l → guarantee c c'.
Proof. intros (_ & _ & K) H1 H2. unfold guarantee. by rewrite letsGo_keeps by (by apply K). Qed.

Lemma startDrain_rg ctx rep pods now (p : Pod) :
  p ∈ pods → unread p →
  rg (wrapf ctx (Update KPod (startDrain now p))) (seen rep pods now)
    (λ _, seen rep pods now).
Proof.
  intros Hp Hu.
  assert (rg (Update KPod (startDrain now p)) (seen rep pods now)
    (λ _, seen rep pods now)) as Hupd.
  { apply (rg_call _ _ _ _ (OUpdate KPod (startDrain now p))); [intros _; apply seen_assertion|].
    intros c c' r _ Hseen Hout.
    assert (guarantee c (server (OUpdate KPod (startDrain now p)) c).1 ∧
      seen rep pods now (server (OUpdate KPod (startDrain now p)) c).1) as Hdone.
    { split; [eapply (guarantee_elsewhere [KPod]); [apply server_keeps|..]; set_solver|].
      destruct (server_update_cases KPod (startDrain now p) c) as [->|[->|[_ ->]]]; [done|by apply seen_startDrain|].
      eapply (as_stable _ _ _ (seen_assertion rep pods now)); [|exact Hseen]. apply rely_removePod, Hseen. }
    destruct Hout; [done| |done]. split; [apply guarantee_refl|done]. }
  eapply rg_wrapf; [exact Hupd|done|done].
Qed.

(** ** The drain loops *)

Lemma unread_none p : pod_Annotations p !! drainAnnotation = None → unread p.
Proof. intros Ha v. by rewrite Ha. Qed.

Lemma unread_bad p v : pod_Annotations p !! drainAnnotation = Some v → ParseInt v = None → unread p.
Proof. intros Ha Hp v'. rewrite Ha. by intros [= <-]. Qed.

Lemma drainPods_rg grace now doomed gs rep pods ps b :
  (∀ p, p ∈ ps → p ∈ pods) →
  (b = true → ∀ p, p ∈ pods → pod_Name p ∈ doomed → p ∈ ps ∨ drained grace now p) →
  rg (drainPods grace now doomed gs ps b) (seen rep pods now) (λ res c,
    seen rep pods now c ∧ (res = inr true → ∀ p, p ∈ pods → pod_Name p ∈ doomed → drained grace now p)).
Proof.
  revert b. induction ps as [|p ps IH]; intros b Hin Hb; cbn [drainPods].
  { apply rg_ret. intros c Hc. split; [done|]. intros [= ->] p Hp Hd.
    by destruct (Hb eq_refl p Hp Hd) as [H%elem_of_nil|]. }
  assert (∀ q, q ∈ ps → q ∈ pods) as Hin' by (intros q Hq; apply Hin; by right).
  pose proof (Hin p ltac:(left)) as Hp.
  assert (rg (drainPods grace now doomed gs ps false) (seen rep pods now) (λ res c,
    seen rep pods now c ∧ (res = inr true → ∀ p, p ∈ pods → pod_Name p ∈ doomed → drained grace now p))) as Hfalse
    by (apply IH; [done|discriminate]).
  case_bool_decide as Hd; cbn [negb]; cycle 1.
  { apply IH; [done|]. intros Ht q Hq Hqd. destruct (Hb Ht q Hq Hqd) as [Hq'|]; [|by right].
    apply elem_of_cons in Hq' as [->|]; [done|by left]. }
  destruct (pod_Annotations p !! drainAnnotation) as [v|] eqn:Ha.
  - destruct (ParseInt v) as [ts|] eqn:Hv.
    + apply IH; [done|]. destruct (_ <? _) eqn:Hlt; [discriminate|]. intros Ht q Hq Hqd.
      destruct (Hb Ht q Hq Hqd) as [Hq'|]; [|by right]. apply elem_of_cons in Hq' as [->|]; [right|by left].
      exists v, ts. split_and!; [done|done|lia].
    + eapply rg_ebind; [apply startDrain_rg; [exact Hp|by eapply unread_bad]|done|]. by intros q.
  - eapply rg_ebind; [apply startDrain_rg; [exact Hp|by apply unread_none]|done|]. intros q.
    eapply rg_bind; [apply (rg_only [TEvent]); [done|unfold Eventf; footprint|apply seen_assertion]|]. intros _u. exact Hfalse.
Qed.

Lemma drainAll_rg grace now rep pods ps b :
  (∀ p, p ∈ ps → p ∈ pods) →
  (b = true → ∀ p, p ∈ pods → p ∈ ps ∨ drained grace now p) →
  rg (drainAll grace now ps b) (seen rep pods now) (λ res c,
    seen rep pods now c ∧ (res = inr true → ∀ p, p ∈ pods → drained grace now p)).
Proof.
  revert b. induction ps as [|p ps IH]; intros b Hin Hb; cbn [drainAll].
  { apply rg_ret. intros c Hc. split; [done|]. intros [= ->] p Hp.
    by destruct (Hb eq_refl p Hp) as [H%elem_of_nil|]. }
  assert (∀ q, q ∈ ps → q ∈ pods) as Hin' by (intros q Hq; apply Hin; by right).
  destruct (pod_Annotations p !! drainAnnotation) as [v|] eqn:Ha.
  - destruct (ParseInt v) as [ts|] eqn:Hv; [|by apply IH].
    apply IH; [done|]. destruct (_ <? _) eqn:Hlt; [discriminate|]. intros Ht q Hq.
    destruct (Hb Ht q Hq) as [Hq'|]; [|by right]. apply elem_of_cons in Hq' as [->|]; [right|by left].
    exists v, ts. split_and!; [done|done|lia].
  - eapply rg_ebind; [apply startDrain_rg; [apply Hin; left|by apply unread_none]|done|]. intros q.
    by apply IH.
Qed.

(** Drained as listed means drained now. *)
Lemma seen_drained rep pods now c i q :
  seen rep pods now c → ¬ wanted i → store c KPod !! podKey i = Some q →
  (∀ p, p ∈ pods → pod_Name p = pod_Name q → drained (graceOf c0) now p) →
  drained (graceOf c0) (clock c) q.
Proof.
  intros (Hs & Hm & H1 & H2) Hw Hl Hd. destruct (mi_there _ _ _ Hm i q Hw Hl) as (p & Hp & Hn & Ha).
  apply (drained_mono _ now); [|done|done|apply Hs].
  destruct (Hd p Hp Hn) as (v & ts & Hv & Hts & Hle). exists v, ts. split_and!; [by eapply Ha|done|done].
Qed.

(** ** Reads *)

(** The replica count as read. *)
Definition readReplicas (got : goerror + StatefulSet) (c : Cluster) : Prop :=
  match got with
  | inl e => IsNotFound e = true → replicasOf c0 c = None
  | inr sts => replicasOf c0 c = sts_Replicas (sts_Spec sts)
  end.

Lemma getStatefulSet_rg cache :
  sameCache cache →
  rg (Get KStatefulSet (mkNN (targetNamespace cache) (dc_Name cache))) sound
    (λ got c, sound c ∧ readReplicas got c).
Proof.
  intros Hsc. destruct (sameCache_keys _ _ Hsc) as (Hk & _). apply (rg_read _ _ _ _ (OGet KStatefulSet _)); [apply guarantee_refl|done| | |].
  - intros got. split; [by intros c []|]. intros c c' Hr [Hs Hg]. split; [by eapply sound_rely|].
    unfold readReplicas in *. by rewrite (replicasOf_keeps c0 c c' (rl_sts _ _ Hr)).
  - intros c _ Hs. split; [done|]. cbn [server snd nn_Namespace nn_Name]. fold (stsKey cache). rewrite Hk.
    destruct (store c KStatefulSet !! stsKey c0) as [sts|] eqn:Hl; simpl.
    + by apply replicasOf_stored.
    + intros _. by apply replicasOf_none.
  - intros c r Hs (e & -> & He). split; [done|]. simpl. congruence.
Qed.

Definition listedAs (rep : option Z) (listed : goerror + list Pod) (c : Cluster) : Prop :=
  sound c ∧ match listed with inl _ => True | inr pods => mirror rep pods c end.

Lemma listPods_rg cache rep :
  sameCache cache →
  rg (ListPods (targetNamespace cache) (podLabels cache))
    (λ c, sound c ∧ replicasOf c0 c = rep) (listedAs rep).
Proof.
  intros Hsc. apply (rg_read _ _ _ _ (OListPods _ _)); [apply guarantee_refl|done| | |].
  - intros [e|pods]; [|apply listed_assertion]. split; [by intros c []|].
    intros c c' Hr [Hs _]. split; [by eapply sound_rely|done].
  - intros c _ [Hs <-]. split; [done|]. by apply mirror_listing.
  - intros c r [Hs _] (e & -> & _). done.
Qed.

Lemma now_rg rep pods :
  rg Now (λ c, sound c ∧ mirror rep pods c) (λ now, seen rep pods now).
Proof.
  apply (rg_read _ _ _ _ ONow); [apply guarantee_refl|done|intros now; apply seen_assertion| |done].
  intros c _ [Hs Hm]. split_and!; [done|done|apply Hs|apply t_le_refl].
Qed.

(** ** Scale-down *)

(** Every pod that a StatefulSet of [d] replicas would give up is drained. *)
Definition doomedDrained (d : Z) (c : Cluster) : Prop :=
  ∀ r i q, replicasOf c0 c = Some r → d <= i < r → store c KPod !! podKey i = Some q →
    drained (graceOf c0) (clock c) q.

(** Others do not bring doomed pods back. *)
Lemma doomedDrained_rely d c c' :
  (∀ i, wanted i → i < d) → rely c c' → sound c → doomedDrained d c → doomedDrained d c'.
Proof.
  intros Hw Hr Hs Hd r i q'. rewrite (replicasOf_keeps c0 c c' (rl_sts _ _ Hr)). intros Hrep Hi Hl.
  destruct (rl_pods _ _ Hr _ q' Hl) as [(q & Hl' & Hm)|(j & r' & Hk & _ & _ & _ & Hj)].
  - apply (drained_mono _ (clock c)); [|apply (rl_clock _ _ Hr)|apply Hs|apply (rl_clock _ _ Hr)].
    apply (drained_annotation _ _ q); [unfold pod_Annotations; by rewrite Hm|]. by eapply (Hd r i).
  - apply podKey_inj in Hk. subst j. apply Hw in Hj. lia.
Qed.

Lemma doomedDrained_assertion d b :
  (∀ i, wanted i → i < d) → assertion (λ c, sound c ∧ (b = true → doomedDrained d c)).
Proof.
  intros Hw. split; [by intros c []|]. intros c c' Hr [Hs Hd]. split; [by eapply sound_rely|].
  intros Hb. eapply doomedDrained_rely; eauto.
Qed.

Lemma drainScaleDown_rg cache :
  sameCache cache → (∀ i, wanted i → i < specReplicas cache) →
  rg (drainScaleDown cache) sound
    (λ res c, sound c ∧ (res = inr true → doomedDrained (specReplicas cache) c)).
Proof.
  intros Hsc Hw. destruct (sameCache_keys _ _ Hsc) as (_ & _ & _ & Hg & _). unfold drainScaleDown.
  eapply rg_bind; [by apply getStatefulSet_rg|]. intros [e|sts].
  { destruct (IsNotFound e) eqn:He; apply rg_ret; intros c [Hs Hr]; (split; [done|]); [|discriminate].
    intros _ r i q. rewrite Hr by done. discriminate. }
  cbv zeta. set (rep := sts_Replicas (sts_Spec sts)). case_match eqn:Hle.
  { apply rg_ret. intros c [Hs Hr]. split; [done|]. intros _ r i q Hrep Hi.
    unfold readReplicas in Hr. fold rep in Hr. rewrite Hrep in Hr. rewrite <- Hr in Hle. cbn [from_option] in Hle. unfold id in Hle. lia. }
  eapply rg_ebind; [by apply (rg_wrapf _ _ _ _ _ _ _ _ (listedAs rep) (listPods_rg cache rep Hsc))| |].
  - intros e c [Hs _]. split; [done|discriminate].
  - intros pods. eapply rg_bind; [apply now_rg|]. intros now.
    eapply rg_mono; [by apply (drainPods_rg _ _ _ _ rep pods); [|intros _ p Hp _; left]|done|].
    intros res c [Hseen Hres]. split; [apply Hseen|]. intros Hr r i q Hrep Hi Hl.
    pose proof (mi_rep _ _ _ (proj1 (proj2 Hseen))) as Hrep'. rewrite Hrep in Hrep'.
    eapply seen_drained; [exact Hseen| |exact Hl|].
    + intros Hi'%Hw. lia.
    + intros p Hp Hn. rewrite <- Hg. apply Hres; [done|done|]. rewrite Hn.
      destruct (so_pods _ (proj1 Hseen) _ q Hl) as (j & _ & Hj%podKey_inj & Hq & _). subst j.
      rewrite Hq, (sc_name _ _ Hsc). apply elem_of_doomedNames. by rewrite <- Hrep'.
Qed.

(** The StatefulSet is written with the replica count held back until the pods it
    would give up are drained. *)
Lemma heldReplicas_shrinks cache b r :
  sameCache cache → (∃ n, heldReplicas cache b r = Some n ∧ 0 <= n ∧ ∀ old, r = Some old →
    n < old → b = true ∧ n = specReplicas cache).
Proof.
  intros Hsc. destruct (sc_replicas _ _ Hsc) as (d & Hd & Hd0). unfold heldReplicas, specReplicas.
  rewrite Hd. simpl. destruct r as [r|]; [|exists d; split_and!; [done|lia|done]].
  destruct b; simpl; [|case_match]; eexists; (split_and!; [done|lia|]); intros old [= <-]; split; lia.
Qed.

Lemma sound_putStatefulSet cache b c (sts : StatefulSet) :
  sound c → sameCache cache → (b = true → doomedDrained (specReplicas cache) c) →
  @key_of KStatefulSet sts = stsKey c0 →
  sts_Replicas (sts_Spec sts) = heldReplicas cache b (replicasOf c0 c) →
  sound (@put KStatefulSet sts c).
Proof.
  intros [H1 H2 H3 H4 H5] Hsc Hb Hk Hrep.
  pose proof (keeps_put (k := KStatefulSet) sts c) as (_ & _ & K). split; [done|by apply (put_keyed KStatefulSet)|..].
  - unfold Contract.cacheAt. rewrite K by set_solver. exact H3.
  - rewrite K by set_solver. exact H4.
  - assert (replicasOf c0 (@put KStatefulSet sts c) = heldReplicas cache b (replicasOf c0 c)) as Hrep'.
    { rewrite <- Hrep. apply replicasOf_stored. rewrite (store_put (k := KStatefulSet)), Hk. apply lookup_insert_eq. }
    destruct (heldReplicas_shrinks cache b (replicasOf c0 c) Hsc) as (n & Hn & Hn0 & Hlt).
    unfold System.covered in *. rewrite Hrep', Hn, K by set_solver. split; [done|]. intros i p Hl Hi.
    destruct (replicasOf c0 c) as [r|] eqn:Hr; [|by rewrite H5 in Hl].
    destruct (Z.le_gt_cases r i) as [Hri|Hri]; [by apply (proj2 H5 i)|].
    destruct (Hlt r eq_refl ltac:(lia)) as [-> ->]. by apply (Hb eq_refl r i p).
Qed.

Lemma mutateStatefulSet_replicas cache b o o' :
  mutateStatefulSet cache b o = inr o' →
  sts_Replicas (sts_Spec o') = heldReplicas cache b (sts_Replicas (sts_Spec o)).
Proof. unfold mutateStatefulSet. case_match; [done|]. by intros [= <-]. Qed.

Lemma sound_reconcileStatefulSet cache b c :
  sound c → sameCache cache → (b = true → doomedDrained (specReplicas cache) c) →
  sound (server (OCreateOrUpdate KStatefulSet (newStatefulSet cache) (mutateStatefulSet cache b)) c).1.
Proof.
  intros Hs Hsc Hb. destruct (sameCache_keys _ _ Hsc) as (Hk & _). cbn [server]. unfold server_cou.
  change (@key_of KStatefulSet (newStatefulSet cache)) with (stsKey cache). rewrite Hk.
  destruct (writes_fail c KStatefulSet); [done|].
  destruct (store c KStatefulSet !! stsKey c0) as [old|] eqn:Hold.
  - destruct (mutateStatefulSet cache b old) as [e|sts] eqn:Hm; [done|]. case_bool_decide; [done|]. cbn [fst].
    apply (sound_putStatefulSet cache b); [done..| |].
    + rewrite <- (so_keyed _ Hs KStatefulSet _ _ Hold). apply mutateStatefulSet_meta, childMeta_key in Hm. exact Hm.
    + by rewrite (mutateStatefulSet_replicas _ _ _ _ Hm), (replicasOf_stored _ _ _ Hold).
  - destruct (mutateStatefulSet cache b _) as [e|sts] eqn:Hm; [done|]. cbn [fst].
    apply (sound_putStatefulSet cache b); [done..| |].
    + rewrite key_of_map_meta by done. rewrite <- Hk. apply mutateStatefulSet_meta, childMeta_key in Hm. exact Hm.
    + change (sts_Replicas (sts_Spec sts) = heldReplicas cache b (replicasOf c0 c)).
      by rewrite (mutateStatefulSet_replicas _ _ _ _ Hm), (replicasOf_none _ _ Hold).
Qed.

Lemma reconcileStatefulSet_rg cache b :
  sameCache cache →
  rg (reconcileStatefulSet cache b)
    (λ c, sound c ∧ (b = true → doomedDrained (specReplicas cache) c)) (λ _, sound).
Proof.
  intros Hsc. unfold reconcileStatefulSet. eapply (rg_ebind _ _ _ _ _ _ _ (λ _, sound)); [|done|].
  - eapply (rg_wrapf _ _ _ _ _ _ _ (λ _, sound)); [|done|done].
    apply (rg_call _ _ _ _ (OCreateOrUpdate KStatefulSet _ _)); [intros _; apply sound_assertion|].
    intros c c' r _ [Hs Hb] Hout.
    pose proof (sound_reconcileStatefulSet cache b c Hs Hsc Hb) as Hs'.
    assert (guarantee c (server (OCreateOrUpdate KStatefulSet (newStatefulSet cache) (mutateStatefulSet cache b)) c).1)
      as Hg by (eapply (guarantee_elsewhere [KStatefulSet]); [apply server_keeps|..]; set_solver).
    destruct Hout; [done| |done]. split; [apply guarantee_refl|done].
  - intros [op sts]. by apply (rg_only [TEvent]); [|apply reportOp_only|apply sound_assertion].
Qed.

(** ** A pass over a live cache *)


Lemma failDegraded_rg cache reason ctx err :
  rg (failDegraded cache reason ctx err) sound (λ _, sound).
Proof. eapply rg_only; [|apply failDegraded_only|apply sound_assertion]. done. Qed.

Lemma finishPass_rg cache ring b : rg (finishPass cache ring b) sound (λ _, sound).
Proof. eapply rg_only; [|apply finishPass_only|apply sound_assertion]. done. Qed.

Lemma reconcileService_rg cache : rg (reconcileService cache) sound (λ _, sound).
Proof. eapply rg_only; [|apply reconcileService_only|apply sound_assertion]. done. Qed.

Lemma reconcileRing_rg Q cache : assertion Q → rg (reconcileRing cache) Q (λ _, Q).
Proof. intros HQ. eapply rg_only; [|apply reconcileRing_only|exact HQ]. done. Qed.

Lemma reconcileChildren_rg cache :
  sameCache cache → (∀ i, wanted i → i < specReplicas cache) →
  rg (reconcileChildren cache) sound (λ _, sound).
Proof.
  intros Hsc Hw. unfold reconcileChildren. eapply rg_bind; [apply reconcileService_rg|]. intros svc1.
  eapply (rg_bind _ _ _ _ _ _ _ (λ _, sound)); [destruct svc1; [apply reconcileService_rg|by apply rg_ret]|].
  intros [err|_u]; [apply failDegraded_rg|].
  eapply rg_bind; [by apply drainScaleDown_rg|]. intros [err|b].
  { eapply rg_mono; [apply failDegraded_rg|by intros c []|done]. }
  eapply rg_bind; [eapply rg_mono; [by apply (reconcileStatefulSet_rg cache b)| |]|].
  - intros c [Hs Hd]. split; [done|]. intros ->. by apply Hd.
  - intros a c H. exact H.
  - intros [err|_u2]; [apply failDegraded_rg|].
    eapply rg_bind; [apply reconcileRing_rg, sound_assertion|]. intros [err|ring]; [apply failDegraded_rg|].
    apply finishPass_rg.
Qed.

Lemma reconcileLive_rg cache :
  sameCache cache → (∀ i, wanted i → i < specReplicas cache) →
  rg (reconcileLive cache) sound (λ _, sound).
Proof.
  intros Hsc Hw. unfold reconcileLive.
  destruct (AddFinalizer _ _) as [fs added] eqn:Hadd. set (cache' := set_dc_Finalizers fs cache).
  assert (sameCache cache') as Hsc' by (by destruct Hsc).
  assert (drainFinalizer ∈ fs) as Hf.
  { pose proof (AddFinalizer_elem (om_Finalizers (dc_meta cache)) drainFinalizer drainFinalizer) as H.
    rewrite Hadd in H. apply H. by right. }
  destruct added.
  - apply rg_safe; [apply sound_assertion|]. unfold Update. repeat safe_step. by apply quiet_addFinalizer.
  - eapply rg_bind; [apply reconcileCell_rg|]. intros [err|_u]; [apply failDegraded_rg|].
    by apply reconcileChildren_rg.
Qed.

(** ** A pass over a deleted cache *)

Lemma allPodsDrained_kept l c c' :
  keeps l c c' → KPod ∉ l → allPodsDrained c → allPodsDrained c'.
Proof. intros (Hc & _ & K) Hl Hd key p. rewrite K, Hc by done. apply Hd. Qed.

(** Nothing comes up while the cache is being deleted. *)
Hypothesis Hnone : ∀ i, ¬ wanted i.

Definition over (b : bool) (c : Cluster) : Prop := sound c ∧ (b = true → allPodsDrained c).

Lemma over_assertion b : assertion (over b).
Proof.
  split; [by intros c []|]. intros c c' Hr [Hs Hd]. split; [by eapply sound_rely|]. intros Hb key p' Hl.
  destruct (rl_pods _ _ Hr _ p' Hl) as [(p & Hl' & Hm)|(j & r & _ & _ & _ & _ & Hj)]; [|by apply Hnone in Hj].
  apply (drained_mono _ (clock c)); [|apply (rl_clock _ _ Hr)|apply Hs|apply (rl_clock _ _ Hr)].
  apply (drained_annotation _ _ p); [unfold pod_Annotations; by rewrite Hm|]. by eapply Hd.
Qed.

Lemma rg_over {A} (p : prog A) :
  safe (quietly rely guarantee (over true)) p → rg p (over true) (λ _, sound).
Proof.
  intros Hp. eapply rg_mono; [apply rg_quiet; [apply guarantee_refl|apply (over_assertion true)|exact Hp]|done|].
  by intros a c [].
Qed.

Lemma quiet_over o : quiet o → quietly rely guarantee (over true) o.
Proof. intros Ho c [Hs _]. by apply Ho. Qed.

Lemma guarantee_over l c c' : over true c → keeps l c c' → KPod ∉ l → guarantee c c'.
Proof. intros [_ Hd] Hk Hl _. by eapply allPodsDrained_kept; [..|apply Hd]. Qed.

Lemma quiet_deleteNamespace (ns : Namespace_) : quietly rely guarantee (over true) (ODelete KNamespace ns).
Proof.
  intros c Ho. pose proof (server_keeps (ODelete KNamespace ns) c [KNamespace] ltac:(set_solver)) as Hk. split.
  - apply (rely_elsewhere [KNamespace]); [apply Ho|done|set_solver..| |].
    + apply server_keyed, Ho.
    + apply (sameCache_keeps [KNamespace] c); [apply Ho|done|set_solver].
  - apply (guarantee_over [KNamespace]); [done|done|set_solver].
Qed.

Lemma quiet_release d : sameCache d → quietly rely guarantee (over true) (OUpdate KDistributedCache d).
Proof.
  intros Hd c Ho. split; [|apply (guarantee_over [KDistributedCache]); [done|apply server_keeps|]; set_solver].
  destruct (server_update_cases KDistributedCache d c) as [->|[->|[_ ->]]].
  - apply rely_refl, Ho.
  - apply rely_putCache; [apply Ho|done].
  - apply rely_removeCache, Ho.
Qed.

Lemma releaseCache_rg cache :
  sameCache cache → rg (releaseCache cache) (over true) (λ _, sound).
Proof.
  intros Hsc. apply rg_over. unfold releaseCache, Update, Eventf. repeat safe_step.
  - apply quiet_release. by destruct Hsc.
  - by apply quiet_over, quiet_tag.
Qed.

Lemma deleteCellNamespace_rg cache :
  rg (deleteCellNamespace cache) (over true) (λ _, over true).
Proof.
  apply rg_quiet; [apply guarantee_refl|apply over_assertion|]. unfold deleteCellNamespace, Get, Delete, Eventf.
  repeat safe_step; first [apply quiet_deleteNamespace|by apply quiet_over, quiet_tag].
Qed.

Lemma reconcileDeletion_rg cache :
  sameCache cache → rg (reconcileDeletion cache) sound (λ _, sound).
Proof.
  intros Hsc. destruct (sameCache_keys _ _ Hsc) as (_ & _ & _ & Hg & _).
  unfold reconcileDeletion. destruct (negb _); [by apply rg_ret|].
  apply (rg_mono _ _ _ _ _ (λ c, ∃ rep, sound c ∧ replicasOf c0 c = rep) _ (λ _, sound)); [|by eauto|done].
  apply rg_exists. intros rep. eapply rg_bind; [by apply listPods_rg|].
  intros [e|pods]; [apply rg_ret; by intros c []|]. eapply rg_bind; [apply now_rg|]. intros now.
  eapply rg_bind; [by apply (drainAll_rg _ _ rep pods); [|intros _ p; left]|]. intros [e|b].
  { apply rg_ret. by intros c [[]]. }
  apply (rg_mono _ _ _ _ _ (over b) _ (λ _, sound)); [| |done].
  - eapply rg_bind; [apply reconcileRing_rg, over_assertion|]. intros _u. destruct b; cbn [negb].
    + destruct (isCrossNamespaceChild cache); [|by apply releaseCache_rg].
      eapply rg_bind; [apply deleteCellNamespace_rg|]. intros [e|[]]; [|by apply releaseCache_rg|]; apply rg_ret; by intros c [].
    + apply rg_ret. by intros c [].
  - intros c [Hseen Hd]. split; [apply Hseen|]. intros -> key q Hl.
    destruct (so_pods _ (proj1 Hseen) key q Hl) as (i & _ & -> & _).
    eapply seen_drained; [exact Hseen|apply Hnone|exact Hl|]. intros p Hp _. rewrite <- Hg. by apply Hd.
Qed.

End Pass.

(** ** A whole pass *)

(** The ordinals a pass over this cache does not give up. *)
Definition wantedBy (cache : DistributedCache) (i : Z) : Prop :=
  om_DeletionTimestamp (dc_meta cache) = None ∧ i < specReplicas cache.

(** Once the cache has been read, the rest of a pass keeps the invariant and the
    guarantee, whoever else acts in between. *)
Lemma pass_rg cache :
  sameCache cache →
  Rely.rg (λ _, True) sound (rely (wantedBy cache)) guarantee (onCache cache) sound (λ _, sound).
Proof.
  intros Hsc. unfold onCache. case_bool_decide as Hd; cbn [negb].
  - apply reconcileLive_rg; [done|]. by intros i [].
  - apply reconcileDeletion_rg; [|done]. by intros i [].
Qed.

End Interleave.
