(* ===== verification/Concurrent.v ===== *)
(** * The operator among other writers

    The system of [System] with the passes taken apart: a pass is a sequence of
    calls, each of which may fail before or after it took effect, the operator may
    crash between any two of them, and in between the rest of the cluster acts.
    Two parts of the drain contract hold here too: a pod the StatefulSet no longer
    covers is drained, and a deleted cache is let go only when all its pods are. *)

From S2P Require Import Prelude GoLib Json Api Kube KubeRef Names Ring Cell Workload Status.
From S2P Require Import RingPublish Drain Reconciler Stages Footprint Converge Teardown HashRing Client.
From S2P Require Import System Contract Rely Interleave.

#[local] Existing Instance refKube.
Local Open Scope Z_scope.

(** The cluster, and what is left of the pass under way with the cache it works on,
    if it found one. *)
Record World := mkWorld {
  at_server : Cluster;
  pass : option (option DistributedCache * prog (Result * option goerror))
}.

Section Concurrent.
Context `{SS : SliceSort}.
Variable c0 : DistributedCache.

Local Abbreviation cacheAt := (Contract.cacheAt c0).
Local Abbreviation sound := (Interleave.sound c0).
Local Abbreviation rely := (Interleave.rely c0).
Local Abbreviation guarantee := (Interleave.guarantee c0).

(** What is promised about the others, beyond [env]. *)
Variable others : Cluster → Cluster → Prop.

(** What others do: time passes; the server starts or stops refusing writes; the
    user edits the spec (within the bounds of [sameCache]) or deletes the cache; the
    StatefulSet controller creates a wanted pod; kubelets report; pods go away; and
    anything at all happens to Services, ConfigMaps, quotas and policies. *)
Inductive env (wanted : Z → Prop) (c : Cluster) : Cluster → Prop :=
  | env_tick t : t_le (clock c) t → sane_time t → env wanted c (at_time t c)
  | env_outage f : env wanted c (failing f c)
  | env_edit cache cache' :
      cacheAt c = Some cache → sameCache c0 cache' → dc_meta cache' = dc_meta cache →
      env wanted c (@put KDistributedCache cache' c)
  | env_delete cache :
      cacheAt c = Some cache → om_DeletionTimestamp (dc_meta cache) = None →
      env wanted c (deleteCache c0 cache c)
  | env_create i r :
      wanted i → replicasOf c0 c = Some r → 0 <= i < r → store c KPod !! podKey c0 i = None →
      env wanted c (@put KPod (freshPod c0 i) c)
  | env_kubelet key p phase conds :
      store c KPod !! key = Some p → env wanted c (@put KPod (mkPod (pod_meta p) phase conds) c)
  | env_gone key : env wanted c (remove KPod key c)
  | env_other c' :
      keeps [KService; KConfigMap; KResourceQuota; KNetworkPolicy] c c' → keyed c' → env wanted c c'.

(** While a pass works on a cache the StatefulSet controller does not bring back
    pods the pass is giving up. *)
Definition wantedNow (w : World) : Z → Prop :=
  match pass w with Some (Some cache, _) => wantedBy cache | _ => λ _, True end.

Definition cacheRead (got : goerror + DistributedCache) : option DistributedCache :=
  match got with inr cache => Some cache | inl _ => None end.

Inductive move : World → World → Prop :=
  | move_begin c c' got :
      outcome (OGet KDistributedCache (reqOf c0)) c c' got →
      move (mkWorld c None) (mkWorld c' (Some (cacheRead got, afterRead got)))
  | move_call c c' read o k r :
      outcome o c c' r → move (mkWorld c (Some (read, Vis o k))) (mkWorld c' (Some (read, k r)))
  | move_return c read a : move (mkWorld c (Some (read, Ret a))) (mkWorld c None)
  | move_crash c rest : move (mkWorld c (Some rest)) (mkWorld c None)
  | move_others c c' p : env (wantedNow (mkWorld c p)) c c' → others c c' → move (mkWorld c p) (mkWorld c' p).

(** ** The invariant *)

Definition okWorld (w : World) : Prop :=
  sound (at_server w) ∧
  match pass w with
  | None => True
  | Some (read, p) => ∃ Q, assertion sound (rely (wantedNow w)) Q ∧ Q (at_server w) ∧
      rg (λ _, True) sound (rely (wantedNow w)) guarantee p Q (λ _, sound)
  end.

Lemma env_rely wanted c c' : env wanted c c' → sound c → rely wanted c c'.
Proof.
  intros He Hs. pose proof (rely_refl c0 wanted c Hs) as [Hc Hk _ Hca Hp].
  destruct He as [t Hle Ht|f|cache cache' Hl Hsc Hm|cache Hl Hd|i r Hw Hr Hi Hl|key p phase conds Hl|key|c' Hkp Hk'].
  - by split; [split|exact Hk|..].
  - by split; [exact Hc|exact Hk|..].
  - apply rely_putCache; [exact Hs|exact Hsc].
  - unfold deleteCache. case_bool_decide; [by apply rely_removeCache|].
    apply rely_putCache; [done|]. by destruct (so_cache _ _ Hs _ Hl).
  - destruct (podChange_create c0 c i r Hr Hi) as [(_ & _ & K) Hpods]. split; [done| | | |].
    + by apply (put_keyed KPod).
    + apply K. set_solver.
    + unfold Contract.cacheAt. rewrite K by set_solver. exact Hca.
    + intros key p'. rewrite (store_put (k := KPod)). change (@key_of KPod (freshPod c0 i)) with (podKey c0 i).
      destruct (decide (key = podKey c0 i)) as [->|Hne].
      * rewrite lookup_insert_eq. intros [= <-]. right. by exists i, r.
      * rewrite lookup_insert_ne by done. left. eauto.
  - pose proof (keeps_put (k := KPod) (mkPod (pod_meta p) phase conds) c) as (_ & _ & K). split; [done| | | |].
    + by apply (put_keyed KPod).
    + apply K. set_solver.
    + unfold Contract.cacheAt. rewrite K by set_solver. exact Hca.
    + intros key' p'. rewrite (store_put (k := KPod)).
      change (@key_of KPod (mkPod (pod_meta p) phase conds)) with (@key_of KPod p).
      rewrite (so_keyed _ _ Hs KPod _ _ Hl). destruct (decide (key' = key)) as [->|Hne].
      * rewrite lookup_insert_eq. intros [= <-]. left. by exists p.
      * rewrite lookup_insert_ne by done. left. eauto.
  - by apply rely_removePod.
  - eapply rely_elsewhere; [done|exact Hkp|set_solver..|done|].
    unfold Contract.cacheAt. destruct Hkp as (_ & _ & K). rewrite K by set_solver. apply Hs.
Qed.

(** None of this takes the finalizer off or terminates the cell. *)
Lemma env_letsGo wanted c c' : env wanted c c' → sound c → letsGo c0 c c' = false.
Proof.
  intros He Hs.
  assert (∀ k (o : obj k), k ∉ [KDistributedCache; KNamespace] → letsGo c0 c (put o c) = false) as Hput.
  { intros k o Hk. apply letsGo_keeps; apply store_put_ne; set_solver. }
  assert (∀ cache cache', cacheAt c = Some cache → sameCache c0 cache' →
    om_Finalizers (dc_meta cache') = om_Finalizers (dc_meta cache) →
    letsGo c0 c (@put KDistributedCache cache' c) = false) as Hcache.
  { intros cache cache' Hl Hsc Hf. unfold letsGo.
    assert (terminating c0 (@put KDistributedCache cache' c) = terminating c0 c) as ->
      by (unfold terminating; by rewrite (store_put_ne (k := KDistributedCache))).
    assert (holdsFinalizer c0 (@put KDistributedCache cache' c) = holdsFinalizer c0 c) as ->.
    { unfold holdsFinalizer. rewrite Hl. unfold Contract.cacheAt.
      rewrite (store_put (k := KDistributedCache)), (key_of_cache cache' cache' eq_refl), (sc_name _ _ Hsc), (sc_ns _ _ Hsc).
      by rewrite lookup_insert_eq, Hf. }
    by rewrite andb_negb_r, andb_negb_l. }
  destruct He as [t Hle Ht|f|cache cache' Hl Hsc Hm|cache Hl Hd|i r Hw Hr Hi Hl|key p phase conds Hl|key|c' Hkp Hk'].
  - by apply letsGo_keeps.
  - by apply letsGo_keeps.
  - apply (Hcache cache); [done|done|]. by rewrite Hm.
  - unfold deleteCache. case_bool_decide as Hf.
    + unfold letsGo. assert (holdsFinalizer c0 c = false) as ->.
      { unfold holdsFinalizer. rewrite Hl, Hf. done. }
      by rewrite andb_negb_l.
    + apply (Hcache cache); [done| |done]. by destruct (so_cache _ _ Hs _ Hl).
  - apply (Hput KPod). set_solver.
  - apply (Hput KPod). set_solver.
  - by apply letsGo_keeps.
  - destruct Hkp as (_ & _ & K). apply letsGo_keeps; apply K; set_solver.
Qed.

(** A pass may begin in any sound cluster. *)
Lemma begin_ok c got :
  sound c → (∀ cache, got = inr cache → sameCache c0 cache) →
  okWorld (mkWorld c (Some (cacheRead got, afterRead got))).
Proof.
  intros Hs Hgot. split; [done|]. exists sound. split_and!; [apply sound_assertion|done|].
  destruct got as [e|cache]; simpl.
  - by destruct (IsNotFound e); apply rg_ret.
  - by apply pass_rg, Hgot.
Qed.

(** What a pass reads when it begins. *)
Lemma read_same c c' got :
  sound c → outcome (OGet KDistributedCache (reqOf c0)) c c' got →
  c' = c ∧ ∀ cache, got = inr cache → sameCache c0 cache.
Proof.
  intros Hs Hout.
  destruct (outcome_read (OGet KDistributedCache (reqOf c0)) c c' got eq_refl Hout) as [-> Hgot].
  split; [done|]. intros cache ->. destruct Hgot as [Heq|(e & [=] & _)].
  cbn [server snd reqOf nn_Namespace nn_Name] in Heq.
  destruct (store c KDistributedCache !! _) as [d|] eqn:Hl; [|done]. injection Heq as ->.
  by apply (so_cache _ _ Hs).
Qed.

(** Every move keeps the invariant and lets go only of drained pods. *)
Lemma move_ok w w' :
  move w w' → okWorld w → okWorld w' ∧ guarantee (at_server w) (at_server w').
Proof.
  intros Hm [Hs Hp]. destruct Hm as [c c' got Hout|c c' read o k r Hout|c read a|c rest|c c' p He _]; simpl in *.
  - destruct (read_same c c' got Hs Hout) as [-> Hgot]. split; [by apply begin_ok|apply guarantee_refl].
  - destruct Hp as (Q & _ & HQ & Q' & Ha & Ho & Hk). destruct (Ho c c' r I HQ Hout) as [Hg HQ'].
    split; [|done]. split; [by eapply as_sound|]. by exists (Q' r).
  - split; [done|apply guarantee_refl].
  - split; [done|apply guarantee_refl].
  - pose proof (env_rely _ c c' He Hs) as Hr. split.
    + split; [by eapply sound_rely|]. destruct p as [[read p]|]; [|done]. simpl.
      destruct Hp as (Q & Ha & HQ & Hrg). exists Q. split_and!; [done| |done]. by eapply as_stable.
    + unfold Interleave.guarantee. by rewrite (env_letsGo _ c c' He Hs).
Qed.

Lemma reachable_ok w w' : rtc move w w' → okWorld w → okWorld w'.
Proof. induction 1 as [|w1 w2 w3 Hm _ IH]; [done|]. intros H. by apply IH, (move_ok w1 w2). Qed.

Lemma initial_ok c : initial c0 (mkSystem c ∅) → okWorld (mkWorld c None).
Proof.
  intros [Hrd _ _ Hrep _ Hcl Hpods Hsts _ _]. simpl in *. split; [|done]. simpl.
  split; [done|exact (rd_keys _ _ Hrd)| | |].
  - intros cache. unfold Contract.cacheAt. pose proof (rd_cache _ _ Hrd) as Hc. intros Hl.
    pose proof (eq_trans (eq_sym Hc) Hl) as Heq. injection Heq as <-. by split.
  - intros key p. rewrite Hpods. done.
  - unfold covered. by rewrite (replicasOf_none _ _ Hsts).
Qed.

(** ** Undisturbed passes

    The histories of [System] are histories here, if nothing more is promised. *)

Lemma run_moves read (p : prog (Result * option goerror)) c :
  rtc move (mkWorld c (Some (read, p))) (mkWorld (run p c).1 None).
Proof.
  revert c. induction p as [a|o k IH]; intros c.
  - apply rtc_once, move_return.
  - eapply rtc_l; [apply move_call, answered|]. etransitivity; [apply IH|].
    unfold run. cbn [interp]. destruct (server o c) as [c1 r]. cbn [fst snd].
    by destruct (interp server (k r) c1) as [[c2 t] a].
Qed.

Lemma pass_moves c : rtc move (mkWorld c None) (mkWorld (run (Reconcile (reqOf c0)) c).1 None).
Proof.
  eapply rtc_l; [apply move_begin, answered|]. etransitivity; [apply run_moves|]. rewrite Reconcile_reads.
  unfold run. cbn [interp]. destruct (server (OGet KDistributedCache (reqOf c0)) c) as [c1 r]. cbn [fst snd].
  by destruct (interp server (afterRead r) c1) as [[c2 t] a].
Qed.

Lemma sameCache_scaled cache n : sameCache c0 cache → 0 <= n <= MaxInt32 → sameCache c0 (scaled n cache).
Proof. intros [] Hn. split; try done. by exists n. Qed.

Lemma step_moves s s' :
  (∀ c c', others c c') → step c0 s s' → sound (cluster s) → rtc move (mkWorld (cluster s) None) (mkWorld (cluster s') None).
Proof.
  intros Hoth Hst Hs. destruct Hst as [c cls t Ht Hsane|c cls|c cls cache n Hl Hn|c cls cache Hl Hd|c cls i r Hr Hi Hl
    |c cls key p phase conds Hl|c cls key|c cls id cl _ _ _|c cls id st _]; simpl in *; try reflexivity;
    [|apply pass_moves|..]; (apply rtc_once, move_others; [|apply Hoth]).
  - by apply env_tick.
  - eapply env_edit; [exact Hl| |done]. apply sameCache_scaled; [by apply (so_cache _ _ Hs)|done].
  - by apply env_delete.
  - by eapply env_create.
  - by eapply env_kubelet.
  - apply env_gone.
Qed.

Lemma history_moves n s s' :
  (∀ c c', others c c') → nsteps (step c0) n s s' → sound (cluster s) → rtc move (mkWorld (cluster s) None) (mkWorld (cluster s') None).
Proof.
  intros Hoth. induction 1 as [|n s1 s2 s3 Hst _ IH]; [reflexivity|]. intros Hs.
  pose proof (step_moves s1 s2 Hoth Hst Hs) as Hm.
  etransitivity; [exact Hm|]. apply IH. by destruct (reachable_ok _ _ Hm (conj Hs I)).
Qed.

End Concurrent.

(** ** Claims *)

Section Claims.
Context `{SS : SliceSort}.

(** Nothing is promised. *)
Definition anything (c c' : Cluster) : Prop := True.

(** C3: the operator among other writers, with failures and crashes. However passes
    are interleaved call by call with time, spec edits (that keep the tenant, the drain
    settings and a replica count), a deletion, pods coming (though not those the pass
    under way gives up), going and changing status, outages, and arbitrary changes to
    the other objects, whichever calls fail, before or after they took effect, and
    wherever passes crash: a pod that the StatefulSet does not cover has been drained
    for the whole grace period. *)
Theorem uncovered_pods_always_drained c0 c w r i p :
  initial c0 (mkSystem c ∅) → rtc (move c0 anything) (mkWorld c None) w →
  replicasOf c0 (at_server w) = Some r → r <= i → store (at_server w) KPod !! podKey c0 i = Some p →
  drained (graceOf c0) (clock (at_server w)) p.
Proof.
  intros H0 Hw Hr Hi Hl.
  destruct (reachable_ok c0 anything _ _ Hw (initial_ok c0 c H0)) as [Hs _].
  pose proof (so_covered _ _ Hs) as Hcov. unfold covered in Hcov. rewrite Hr in Hcov.
  by apply (proj2 Hcov i p).
Qed.

(** C4: and the operator lets go of a deleted cache only when it may. In the same
    system, at the very call (and at every other move) at which the cache loses its
    finalizer or its cell namespace starts to terminate, every pod there is has been
    drained for the whole grace period. *)
Theorem lets_go_only_of_drained_pods c0 c w w' :
  initial c0 (mkSystem c ∅) → rtc (move c0 anything) (mkWorld c None) w → move c0 anything w w' →
  letsGo c0 (at_server w) (at_server w') = true →
  ∀ key p, store (at_server w') KPod !! key = Some p → drained (graceOf c0) (clock (at_server w')) p.
Proof.
  intros H0 Hw Hm Hgo.
  destruct (move_ok c0 anything w w' Hm (reachable_ok c0 anything _ _ Hw (initial_ok c0 c H0))) as [_ Hg]. exact (Hg Hgo).
Qed.

End Claims.
