(* ===== verification/RingRely.v ===== *)
(** * Ring versions among other writers

    A second instance of the logic of [Rely], for the ring ConfigMap: the operator
    reads it, computes the next ring and writes it in three separate calls. As long
    as nobody else writes that ConfigMap, each of its writes continues the version
    numbering, whichever calls fail and wherever a pass crashes. The invariant of
    [Concurrent] is what is [known] here. *)

From S2P Require Import Prelude GoLib Json Api Kube KubeRef Names Ring Cell Workload Status.
From S2P Require Import RingPublish Drain Reconciler Stages Footprint Converge Teardown HashRing Client.
From S2P Require Import System Contract Rely Interleave Concurrent.

#[local] Existing Instance refKube.
Local Open Scope Z_scope.
Local Open Scope prog_scope.

Section RingRely.
Context `{SS : SliceSort}.
Variable c0 : DistributedCache.
Hypothesis Hname : ascii_string (dc_Name c0) = true.

Local Abbreviation sound := (Interleave.sound c0).

(** The ring ConfigMap as stored. *)
Definition ringMap (c : Cluster) : option ConfigMap := store c KConfigMap !! ringKey c0.

Definition ringKept (c c' : Cluster) : Prop := ringMap c' = ringMap c.

(** The ring stays, or becomes the ring of some members under the versioning rule,
    for everyone to read. *)
Definition ringStep (c c' : Cluster) : Prop :=
  ringKept c c' ∨ ∃ ms cm, ringMap c' = Some cm ∧ decodable cm ∧ ringOf c0 c' = desiredRing ms (ringOf c0 c).

Local Abbreviation anywhere := (λ _ : Cluster, True).
Local Abbreviation assertion := (Rely.assertion anywhere ringKept).
Local Abbreviation rg := (Rely.rg sound anywhere ringKept ringStep).

Lemma ringKept_ringOf c c' : ringKept c c' → ringOf c0 c' = ringOf c0 c.
Proof. unfold ringKept, ringMap, ringOf, ringData. intros H. by rewrite H. Qed.

Lemma ringStep_refl c : ringStep c c.
Proof. by left. Qed.

Lemma anywhere_assertion : assertion anywhere.
Proof. done. Qed.

(** What the pass read of the ConfigMap. *)
Definition readRing (data : gmap string string) (c : Cluster) : Prop := ringData c0 c = data.

Lemma readRing_assertion data : assertion (readRing data).
Proof.
  split; [done|]. intros c c' H. unfold readRing, ringData. unfold ringKept, ringMap in H. by rewrite H.
Qed.

(** Calls that write no ConfigMap. *)
Lemma rg_elsewhere {A} l (p : prog A) Q :
  bool_decide (KConfigMap ∉ kinds_of l) = true → safe (only l) p → assertion Q → rg p Q (λ _, Q).
Proof.
  intros Hl%bool_decide_eq_true Hp HQ. apply rg_quiet; [apply ringStep_refl|done|]. eapply safe_mono; [|exact Hp].
  intros o Ho c _. assert (ringKept c (server o c).1) as Hk.
  { assert (keeps (kinds_of l) c (server o c).1) as (_ & _ & K); [|unfold ringKept, ringMap; by rewrite K].
    apply server_keeps. intros k Hk. apply list_elem_of_omap. exists (op_tag o).
    split; [|done]. by apply bool_decide_eq_true in Ho. }
  split; [done|]. by left.
Qed.

(** ** Publication *)

Local Abbreviation ascii_names := (Forall (λ s, ascii_string s = true)).

(** What becomes of the ring when the ConfigMap is written. *)
Lemma ringStep_publish cache ms c :
  sound c → sameCache c0 cache → ascii_names ms →
  ringStep c (server (OCreateOrUpdate KConfigMap (mkConfigMap (newMeta (ringConfigMapName cache) (targetNamespace cache)) ∅)
    (mutateRingConfigMap cache (ringPayload (desiredRing ms (ringOf c0 c))))) c).1.
Proof.
  intros Hs Hsc Hms. destruct (sameCache_keys _ _ Hsc) as (_ & Hk & _). cbn [server]. unfold server_cou.
  match goal with |- context [@key_of KConfigMap ?o] => change (@key_of KConfigMap o) with (ringKey cache) end.
  rewrite Hk. destruct (writes_fail c KConfigMap); [by left|]. set (r := desiredRing ms (ringOf c0 c)).
  assert (int64_ok (Version r) ∧ ascii_names (Members r)) as [Hv Hm]
    by (split; [apply desiredRing_ok, currentRing_ok|unfold r; by rewrite desiredRing_Members]).
  assert (∀ cm cm' cm2 : ConfigMap, mutateRingConfigMap cache (ringPayload r) cm = inr cm' → Data cm2 = Data cm' →
    @key_of KConfigMap cm2 = ringKey c0 → ringStep c (@put KConfigMap cm2 c)) as Hput.
  { intros cm cm' cm2 Hmut Hd Hkey. right. exists ms, cm2. fold r.
    assert (ringMap (@put KConfigMap cm2 c) = Some cm2) as Hl.
    { unfold ringMap. rewrite (store_put (k := KConfigMap)), Hkey. apply lookup_insert_eq. }
    split_and!; [done| |].
    - unfold decodable. rewrite Hd, (mutateRingConfigMap_payload _ _ _ _ Hmut). simpl.
      by rewrite ringPayload_decodes.
    - by rewrite (ringOf_stored _ _ _ Hl), Hd, (mutateRingConfigMap_currentRing _ _ _ _ Hv Hm Hmut). }
  assert (∀ cm cm' : ConfigMap, mutateRingConfigMap cache (ringPayload r) cm = inr cm' →
    metaKey (cm_meta cm') = metaKey (cm_meta cm)) as Hkeys.
  { intros cm cm'. by apply (mutate_key cache "ring" cm_meta
      (λ cm m, mkConfigMap m (<[ringConfigMapKey := ringPayload r]> (Data cm)))). }
  destruct (store c KConfigMap !! ringKey c0) as [old|] eqn:Hold.
  - destruct (mutateRingConfigMap cache _ old) as [e|cm'] eqn:Hmut; [by left|]. case_bool_decide; [by left|].
    apply (Hput old cm'); [done|done|]. rewrite <- (so_keyed _ _ Hs KConfigMap _ _ Hold). exact (Hkeys _ _ Hmut).
  - destruct (mutateRingConfigMap cache _ _) as [e|cm'] eqn:Hmut; [by left|]. cbn [fst].
    eapply Hput; [exact Hmut|done|]. rewrite key_of_map_meta by done. rewrite <- Hk. exact (Hkeys _ _ Hmut).
Qed.

Lemma publishRing_ring cache ms data :
  sameCache c0 cache → ascii_names ms → rg (publishRing cache ms data) (readRing data) (λ _, anywhere).
Proof.
  intros Hsc Hms. unfold publishRing. destruct (_ && _); [by apply rg_ret|].
  eapply (rg_ebind _ _ _ _ _ _ _ (λ _, anywhere)); [|done|].
  - apply (rg_wrapf _ _ _ _ _ _ _ (λ _, anywhere)); [|done|done].
    apply (rg_call _ _ _ _ (OCreateOrUpdate KConfigMap _ _)); [intros _; apply anywhere_assertion|].
    intros c c' r Hs Hread Hout. split; [|done].
    assert (currentRing data = ringOf c0 c) as Heq by (unfold ringOf; by rewrite Hread). rewrite Heq in Hout.
    pose proof (ringStep_publish cache ms c Hs Hsc Hms) as Hst. inversion Hout; subst; [exact Hst|by left|exact Hst].
  - intros [op cm]. eapply (rg_ebind _ _ _ _ _ _ _ (λ _, anywhere)); [|done|].
    + apply (rg_elsewhere [TEvent]); [done|by apply reportOp_only|apply anywhere_assertion].
    + intros _u. by apply rg_ret.
Qed.

(** The members of a listing have the names of pods of the cache. *)
Lemma listed_names cache c :
  sound c → ascii_names (computeMembers (listing (targetNamespace cache) (podLabels cache) c)).
Proof.
  intros Hs. apply Forall_forall. intros m (p & Hp & <- & _)%elem_of_computeMembers.
  apply elem_of_listing_keys in Hp as (Hl & _); [|apply Hs].
  destruct (so_pods _ _ Hs _ p Hl) as (i & Hi & _ & -> & _). by apply podName_ascii.
Qed.

Lemma reconcileRing_ring cache : sameCache c0 cache → rg (reconcileRing cache) anywhere (λ _, anywhere).
Proof.
  intros Hsc. destruct (sameCache_keys _ _ Hsc) as (_ & Hk & _). unfold reconcileRing.
  set (named := λ listed : goerror + list Pod,
    match listed with inl _ => True | inr pods => ascii_names (computeMembers pods) end).
  eapply (rg_ebind _ _ _ _ _ _ _ (λ listed _, named listed)); [|done|].
  - apply (rg_wrapf _ _ _ _ _ _ _ (λ listed _, named listed)); [|done|done].
    apply (rg_read _ _ _ _ (OListPods _ _)); [apply ringStep_refl|done|done| |].
    + intros c Hs _. by apply (listed_names cache).
    + by intros c r _ (e & -> & _).
  - intros pods. cbv zeta. apply (rg_mono _ _ _ _ _ (λ c, named (inr pods) ∧ anywhere c) _ (λ _, anywhere)); [|done|done].
    apply rg_pure. intros Hms.
    set (got_ := λ (got : goerror + ConfigMap) (c : Cluster), match got with
      | inl e => IsNotFound e = true → readRing ∅ c | inr cm => readRing (Data cm) c end).
    eapply (rg_bind _ _ _ _ _ _ _ got_).
    + apply (rg_read _ _ _ _ (OGet KConfigMap _)); [apply ringStep_refl|done| | |].
      * intros [e|cm]; [|apply readRing_assertion]. split; [done|]. intros c c' Hr H He.
        by eapply (as_stable _ _ _ (readRing_assertion ∅)); [|apply H].
      * intros c _ _. cbn [server snd nn_Namespace nn_Name]. fold (ringKey cache). rewrite Hk.
        unfold got_, readRing, ringData.
        destruct (store c KConfigMap !! ringKey c0) as [cm|]; done.
      * intros c r _ (e & -> & He). simpl. congruence.
    + intros [e|cm]; [|by apply publishRing_ring]. destruct (IsNotFound e) eqn:He; cbn [negb]; [|by apply rg_ret].
      eapply rg_mono; [by apply (publishRing_ring cache (computeMembers pods) ∅)| |done].
      intros c H. by apply H.
Qed.

(** ** A whole pass *)

Lemma reconcileChildren_ring cache :
  sameCache c0 cache → rg (reconcileChildren cache) anywhere (λ _, anywhere).
Proof.
  intros Hsc. pose proof anywhere_assertion as Ha.
  assert (∀ reason ctx err, rg (failDegraded cache reason ctx err) anywhere (λ _, anywhere)) as Hfail.
  { intros. eapply rg_elsewhere; [|apply failDegraded_only|done]. done. }
  assert (rg (reconcileService cache) anywhere (λ _, anywhere)) as Hsvc.
  { eapply rg_elsewhere; [|apply reconcileService_only|done]. done. }
  unfold reconcileChildren. eapply rg_bind; [exact Hsvc|]. intros svc1.
  eapply (rg_bind _ _ _ _ _ _ _ (λ _, anywhere)); [destruct svc1; [done|by apply rg_ret]|].
  intros [err|_u]; [apply Hfail|].
  eapply rg_bind; [eapply rg_elsewhere; [|apply drainScaleDown_only|exact Ha]; done|]. intros [err|b]; [apply Hfail|].
  eapply rg_bind; [eapply rg_elsewhere; [|apply reconcileStatefulSet_only|exact Ha]; done|].
  intros [err|_u2]; [apply Hfail|].
  eapply rg_bind; [by apply reconcileRing_ring|]. intros [err|ring]; [apply Hfail|].
  eapply rg_elsewhere; [|apply finishPass_only|exact Ha]. done.
Qed.

Lemma reconcileLive_ring cache : sameCache c0 cache → rg (reconcileLive cache) anywhere (λ _, anywhere).
Proof.
  intros Hsc. pose proof anywhere_assertion as Ha. unfold reconcileLive.
  destruct (AddFinalizer _ _) as [fs added]. set (cache' := set_dc_Finalizers fs cache).
  assert (sameCache c0 cache') as Hsc' by (by destruct Hsc). destruct added.
  - apply (rg_elsewhere [TUpdate KDistributedCache]); [done| |done]. unfold Update. footprint.
  - eapply rg_bind; [eapply rg_elsewhere; [|apply reconcileCell_only|exact Ha]; done|]. intros [err|_u].
    + eapply rg_elsewhere; [|apply failDegraded_only|exact Ha]. done.
    + by apply reconcileChildren_ring.
Qed.

Lemma reconcileDeletion_ring cache : sameCache c0 cache → rg (reconcileDeletion cache) anywhere (λ _, anywhere).
Proof.
  intros Hsc. pose proof anywhere_assertion as Ha.
  assert (rg (releaseCache cache) anywhere (λ _, anywhere)) as Hrel.
  { apply (rg_elsewhere [TUpdate KDistributedCache; TEvent]); [done| |done]. unfold releaseCache, Update, Eventf. footprint. }
  unfold reconcileDeletion. destruct (negb _); [by apply rg_ret|].
  eapply rg_bind; [apply (rg_elsewhere [TListPods]); [|unfold ListPods; footprint|exact Ha]; done|].
  intros [e|pods]; [by apply rg_ret|].
  eapply rg_bind; [apply (rg_elsewhere [TNow]); [|unfold Now; footprint|exact Ha]; done|]. intros now.
  eapply rg_bind; [eapply rg_elsewhere; [|apply drainAll_only|exact Ha]; done|]. intros [e|b]; [by apply rg_ret|].
  eapply rg_bind; [by apply reconcileRing_ring|]. intros _u. destruct b; cbn [negb]; [|by apply rg_ret].
  destruct (isCrossNamespaceChild cache); [|done].
  eapply rg_bind; [eapply rg_elsewhere; [|apply deleteCellNamespace_only|exact Ha]; done|].
  intros [e|[]]; [by apply rg_ret|done|by apply rg_ret].
Qed.

Lemma pass_ring got :
  (∀ cache, got = inr cache → sameCache c0 cache) → rg (afterRead got) anywhere (λ _, anywhere).
Proof.
  intros Hgot. destruct got as [e|cache]; simpl; [by destruct (IsNotFound e); apply rg_ret|].
  pose proof (Hgot cache eq_refl). unfold onCache. case_bool_decide; cbn [negb];
    [by apply reconcileLive_ring|by apply reconcileDeletion_ring].
Qed.

(** ** Histories *)

Definition ringWorld (w : World) : Prop :=
  okWorld c0 w ∧
  match pass w with
  | None => True
  | Some (_, p) => ∃ Q, assertion Q ∧ Q (at_server w) ∧ rg p Q (λ _, anywhere)
  end.

Lemma move_ring w w' :
  move c0 ringKept w w' → ringWorld w → ringWorld w' ∧ ringStep (at_server w) (at_server w').
Proof.
  intros Hm [Hok Hp]. destruct (move_ok c0 ringKept w w' Hm Hok) as [Hok' _]. pose proof Hok as [Hs _].
  unfold ringWorld. destruct Hm as [c c' got Hout|c c' read o k r Hout|c read a|c rest|c c' p He Hr]; simpl in *.
  - destruct (read_same c0 c c' got Hs Hout) as [-> Hgot]. split; [|apply ringStep_refl]. split; [done|].
    exists anywhere. split_and!; [apply anywhere_assertion|done|by apply pass_ring].
  - destruct Hp as (Q & _ & HQ & Q' & Ha & Ho & Hk). destruct (Ho c c' r Hs HQ Hout) as [Hg HQ'].
    split; [|done]. split; [done|]. by exists (Q' r).
  - split; [done|apply ringStep_refl].
  - split; [done|apply ringStep_refl].
  - split; [|by left]. split; [done|]. destruct p as [[read p]|]; [|done].
    destruct Hp as (Q & Ha & HQ & Hrg). exists Q. split_and!; [done| |done]. by eapply as_stable.
Qed.

Lemma ringStep_succeeds c c' :
  ringStep c c' → Version (ringOf c0 c) < MaxInt64 → succeeds (ringOf c0 c) (ringOf c0 c').
Proof.
  intros [Hk|(ms & cm & _ & _ & ->)] Hlt; [rewrite (ringKept_ringOf _ _ Hk); apply succeeds_refl|]. apply desiredRing_succeeds; [apply currentRing_ok|done].
Qed.

Lemma ring_history n w w' :
  nsteps (move c0 ringKept) n w w' → ringWorld w →
  Version (ringOf c0 (at_server w)) + Z.of_nat n <= MaxInt64 →
  ringWorld w' ∧ Version (ringOf c0 (at_server w)) <= Version (ringOf c0 (at_server w')) <=
    Version (ringOf c0 (at_server w)) + Z.of_nat n ∧
  (Version (ringOf c0 (at_server w)) = Version (ringOf c0 (at_server w')) →
   Members (ringOf c0 (at_server w)) = Members (ringOf c0 (at_server w'))).
Proof.
  apply (history_versions ringWorld (λ w, ringOf c0 (at_server w))). intros a a' Hm Ha Hlt.
  destruct (move_ring a a' Hm Ha) as [Ha' Hst]. split; [done|]. by apply ringStep_succeeds.
Qed.

(** ** A polling client

    One client among all this; a poll that fails leaves it as it is. *)

Inductive observed : World * Client → World * Client → Prop :=
  | obs_move w w' cl : move c0 ringKept w w' → observed (w, cl) (w', cl)
  | obs_poll w cl : observed (w, cl) (w, (run (pollOnce cl) (at_server w)).2.2).

(** The ConfigMap can be read, and the client holds an older ring or the current
    one. *)
Record watches (w : World) (cl : Client) : Prop := {
  wa_world : ringWorld w;
  wa_read : ∀ cm, ringMap (at_server w) = Some cm → decodable cm;
  wa_key : cl_ringConfigMap cl = mkNN (targetNamespace c0) (ringConfigMapName c0);
  wa_ring : ∀ hr, cl_ring cl = Some hr → hr_version hr <= Version (ringOf c0 (at_server w)) ∧
    (hr_version hr = Version (ringOf c0 (at_server w)) → hr = buildRing (ringOf c0 (at_server w)))
}.

Lemma buildRing_version r : hr_version (buildRing r) = Version r.
Proof. done. Qed.

Lemma watches_move w w' cl :
  move c0 ringKept w w' → watches w cl → Version (ringOf c0 (at_server w)) < MaxInt64 → watches w' cl.
Proof.
  intros Hm [Hw Hread Hkey Hring] Hlt. destruct (move_ring w w' Hm Hw) as [Hw' Hst].
  destruct (ringStep_succeeds _ _ Hst Hlt) as [Hv Hmem]. split; [done| |done|].
  - destruct Hst as [Hk|(ms & cm & Hcm & Hd & _)]; [by rewrite Hk|]. rewrite Hcm. by intros cm2 [= <-].
  - intros hr Hhr. destruct (Hring hr Hhr) as [Hle Heq]. split; [lia|]. intros Hv'.
    rewrite (Heq ltac:(lia)). f_equal. apply ring_eta; [lia|]. apply Hmem. lia.
Qed.

(** What a poll makes of the client. *)
Lemma watches_poll w cl :
  watches w cl →
  (run (pollOnce cl) (at_server w)).2.2 = cl ∧ ringMap (at_server w) = None ∨
  (run (pollOnce cl) (at_server w)).2.1 = None ∧
  cl_ringConfigMap (run (pollOnce cl) (at_server w)).2.2 = cl_ringConfigMap cl ∧
  cl_ring (run (pollOnce cl) (at_server w)).2.2 = Some (buildRing (ringOf c0 (at_server w))).
Proof.
  intros [_ Hread Hkey Hring]. rewrite run_pollOnce, Hkey. cbn [nn_Namespace nn_Name snd]. fold (ringKey c0).
  unfold ringMap in Hread.
  destruct (@lookup okey ConfigMap _ _ (ringKey c0) (store (at_server w) KConfigMap)) as [cm|] eqn:Hcm.
  - right. pose proof (decodable_readable cm (Hread cm eq_refl)) as Hr.
    destruct (pollConfigMap_readable cl cm Hr) as [He Hc]. destruct (pollConfigMap_frame cl cm) as [Hf _].
    split_and!; [exact He|by rewrite Hf|]. rewrite Hc. rewrite (ringOf_stored _ _ _ Hcm) in *.
    destruct (cl_ring cl) as [cur|] eqn:Hcl; [|done]. case_bool_decide as Hv; [|done].
    f_equal. by apply (Hring cur eq_refl).
  - by left.
Qed.

Lemma watches_polled w cl : watches w cl → watches w (run (pollOnce cl) (at_server w)).2.2.
Proof.
  intros Hw. pose proof Hw as [H1 H2 H3 H4]. destruct (watches_poll w cl Hw) as [[-> _]|(_ & Hk & Hr)]; [done|].
  split; [done|done|by rewrite Hk|]. rewrite Hr. intros hr [= <-]. rewrite buildRing_version. split; [lia|done].
Qed.

Lemma observed_watches n w cl w' cl' :
  nsteps observed n (w, cl) (w', cl') → watches w cl →
  Version (ringOf c0 (at_server w)) + Z.of_nat n <= MaxInt64 → watches w' cl'.
Proof.
  intros Hn Hw Hle.
  destruct (history_versions (λ s, watches s.1 s.2) (λ s, ringOf c0 (at_server s.1)) observed n (w, cl) (w', cl'))
    as [H _]; [|done..].
  intros a a' Hst Ha Hlt. destruct Hst as [w1 w2 cl1 Hm|w1 cl1]; simpl in *.
  - split; [by eapply watches_move|]. apply ringStep_succeeds; [|done]. by apply move_ring, Ha.
  - split; [by apply watches_polled|apply succeeds_refl].
Qed.

End RingRely.

(** ** Claims *)

Section Claims.
Context `{SS : SliceSort}.

(** C10: ring versions survive interleaving, failures and crashes. Let passes be
    interleaved with everything else call by call, fail and crash anywhere, as long
    as nobody but the operator writes the ring ConfigMap: from any moment to any
    later one the published version never decreases, and if it is the same, so are
    the published members - which is what lets a client skip a ring whose version it
    already has. (Fewer moves than [int64] has values.) *)
Theorem ring_versions_survive_interleaving c0 c n m w w' :
  initial c0 (mkSystem c ∅) → nsteps (move c0 (ringKept c0)) n (mkWorld c None) w →
  nsteps (move c0 (ringKept c0)) m w w' → Z.of_nat n + Z.of_nat m <= MaxInt64 →
  0 <= Version (ringOf c0 (at_server w)) <= Version (ringOf c0 (at_server w')) ∧
  (Version (ringOf c0 (at_server w)) = Version (ringOf c0 (at_server w')) →
   Members (ringOf c0 (at_server w)) = Members (ringOf c0 (at_server w'))).
Proof.
  intros H0 Hn Hm Hle. pose proof (in_name _ _ H0) as Hname.
  assert (ringOf c0 c = mkRing 0 []) as Hr by (apply ringOf_none, (in_cm _ _ H0)).
  destruct (ring_history c0 Hname n _ w Hn) as (Hw & Hv & _).
  - split; [by apply initial_ok|done].
  - cbn [at_server]. rewrite Hr. simpl. lia.
  - cbn [at_server] in Hv. rewrite Hr in Hv. simpl in Hv.
    destruct (ring_history c0 Hname m w w' Hm Hw) as (_ & Hv' & Hmem); [lia|]. split; [lia|done].
Qed.

(** C16: clients follow the operator through interleaving, failures and crashes. In
    the same world, nobody else writing the ring ConfigMap, let a new client poll at any moments, any number of times: once
    the operator has published a ring, each poll succeeds and leaves the client with
    exactly the ring that is published at that moment, although it rebuilds its ring
    only on a version change. *)
Theorem clients_follow_through_failures c0 c n w cfg cl cm :
  initial c0 (mkSystem c ∅) → cfg_RingConfigMap cfg = mkNN (targetNamespace c0) (ringConfigMapName c0) →
  nsteps (observed c0) n (mkWorld c None, New cfg) (w, cl) → Z.of_nat n <= MaxInt64 →
  store (at_server w) KConfigMap !! ringKey c0 = Some cm →
  (run (pollOnce cl) (at_server w)).2.1 = None ∧
  cl_ring (run (pollOnce cl) (at_server w)).2.2 = Some (buildRing (ringOf c0 (at_server w))).
Proof.
  intros H0 Hcfg Hn Hle Hcm.
  assert (ringOf c0 c = mkRing 0 []) as Hr by (apply ringOf_none, (in_cm _ _ H0)).
  assert (watches c0 w cl) as Hw.
  { apply (observed_watches c0 (in_name _ _ H0) n (mkWorld c None) (New cfg) w cl Hn).
    - split; [split; [by apply initial_ok|done]| |done|done].
      intros cm0 Hl. by pose proof (eq_trans (eq_sym (in_cm _ _ H0)) Hl).
    - cbn [at_server]. rewrite Hr. simpl. lia. }
  destruct (watches_poll c0 w cl Hw) as [[_ Hnone]|(He & _ & Hc)]; [|done].
  by pose proof (eq_trans (eq_sym Hcm) Hnone).
Qed.

End Claims.
