(* ===== verification/Store.v ===== *)
(** * The key-value store of tiny-cache

    internal/cache/store.go over hashicorp's expirable LRU. The LRU is third
    party code: [LRU] is the interface the store relies on, with its documented
    behaviour as laws, and [refLRU] an implementation that meets them. Times are
    nanoseconds of a monotonic clock; a value is a byte string. *)

From S2P Require Import Prelude GoLib.

Local Open Scope Z_scope.

(** ** expirable.LRU[string, []byte]

    [live now l] are the entries a reader at [now] can see; [keys l] those held,
    expired ones included until they are purged in the background. *)
Class LRU := {
  lru : Type;
  NewLRU : Z → Z → lru;
  lru_Get : Z → lru → string → option string * lru;
  lru_Add : Z → lru → string → string → bool * lru;
  lru_Remove : lru → string → bool * lru;
  lru_Len : lru → Z;
  lru_purge : Z → lru → lru;

  live : Z → lru → gmap string string;
  keys : lru → gset string;
  (** size and time to live the LRU was made with *)
  bounds : lru → Z * Z;

  live_keys : ∀ now l k, is_Some (live now l !! k) → k ∈ keys l;
  live_mono : ∀ now now' l k v, now <= now' → live now' l !! k = Some v → live now l !! k = Some v;
  NewLRU_empty : ∀ size ttl, keys (NewLRU size ttl) = ∅;
  NewLRU_bounds : ∀ size ttl, bounds (NewLRU size ttl) = (size, ttl);

  (** Get returns the visible value and changes recency only *)
  Get_value : ∀ now l k, (lru_Get now l k).1 = live now l !! k;
  Get_live : ∀ now l k now', live now' (lru_Get now l k).2 = live now' l;
  Get_keys : ∀ now l k, keys (lru_Get now l k).2 = keys l;
  Get_bounds : ∀ now l k, bounds (lru_Get now l k).2 = bounds l;

  (** Add makes the entry visible for the time to live; others may be evicted
      (reported by the result) but never change *)
  Add_live : ∀ now l k v now', 0 < (bounds l).1 → now <= now' <= now + (bounds l).2 →
    live now' (lru_Add now l k v).2 !! k = Some v;
  Add_live_inv : ∀ now l k v now' w, live now' (lru_Add now l k v).2 !! k = Some w →
    w = v ∧ now' <= now + (bounds l).2;
  Add_other : ∀ now l k v now' k' w, k' ≠ k →
    live now' (lru_Add now l k v).2 !! k' = Some w → live now' l !! k' = Some w;
  Add_kept : ∀ now l k v now' k', k' ≠ k → (lru_Add now l k v).1 = false →
    live now' (lru_Add now l k v).2 !! k' = live now' l !! k';
  Add_size : ∀ now l k v, 0 < (bounds l).1 → Z.of_nat (size (keys l)) <= (bounds l).1 →
    Z.of_nat (size (keys (lru_Add now l k v).2)) <= (bounds l).1;
  Add_bounds : ∀ now l k v, bounds (lru_Add now l k v).2 = bounds l;
  (** overwriting a held key evicts nothing *)
  Add_overwrite : ∀ now l k v, 0 < (bounds l).1 → Z.of_nat (size (keys l)) <= (bounds l).1 →
    k ∈ keys l → (lru_Add now l k v).1 = false;

  Remove_value : ∀ l k, (lru_Remove l k).1 = bool_decide (k ∈ keys l);
  Remove_live : ∀ l k now, live now (lru_Remove l k).2 = delete k (live now l);
  Remove_keys : ∀ l k, keys (lru_Remove l k).2 = keys l ∖ {[k]};
  Remove_bounds : ∀ l k, bounds (lru_Remove l k).2 = bounds l;

  Len_keys : ∀ l, lru_Len l = Z.of_nat (size (keys l));

  purge_live : ∀ now l now', now <= now' → live now' (lru_purge now l) = live now' l;
  purge_keys : ∀ now l, keys (lru_purge now l) ⊆ keys l;
  purge_bounds : ∀ now l, bounds (lru_purge now l) = bounds l
}.

(** ** Store *)

Section Store.
Context `{L : LRU}.

Record Store := mkStore { st_lru : lru; st_defaultTTL : Z }.

(** [None]: the panic. *)
Definition NewStore (capacity defaultTTL : Z) : option Store :=
  if capacity <=? 0 then None
  else let ttl := if defaultTTL <=? 0 then 60 * Second else defaultTTL in
       Some (mkStore (NewLRU capacity ttl) ttl).

Definition set_lru (l : lru) (s : Store) : Store := mkStore l (st_defaultTTL s).

Definition Store_Get (now : Z) (s : Store) (key : string) : option string * Store :=
  let '(v, l) := lru_Get now (st_lru s) key in (v, set_lru l s).

Definition Store_Put (now : Z) (s : Store) (key value : string) : bool * Store :=
  let '(evicted, l) := lru_Add now (st_lru s) key value in (evicted, set_lru l s).

Definition Store_Delete (s : Store) (key : string) : bool * Store :=
  let '(existed, l) := lru_Remove (st_lru s) key in (existed, set_lru l s).

Definition Store_Len (s : Store) : Z := lru_Len (st_lru s).

(** The background cleanup of the LRU. *)
Definition Store_purge (now : Z) (s : Store) : Store := set_lru (lru_purge now (st_lru s)) s.

(** ** Invariant: a positive capacity and time to live, never exceeded *)

Definition store_ok (s : Store) : Prop :=
  let '(size_, ttl) := bounds (st_lru s) in
  0 < size_ ∧ 0 < ttl ∧ ttl = st_defaultTTL s ∧ Z.of_nat (size (keys (st_lru s))) <= size_.

Lemma NewStore_ok capacity ttl s : NewStore capacity ttl = Some s → store_ok s.
Proof.
  unfold NewStore, store_ok. destruct (capacity <=? 0) eqn:Hc; [done|]. intros [= <-]. simpl.
  rewrite NewLRU_bounds, NewLRU_empty, size_empty. unfold Second.
  destruct (ttl <=? 0) eqn:Ht; split_and!; lia.
Qed.

Lemma Store_Get_ok now s k : store_ok s → store_ok (Store_Get now s k).2.
Proof.
  unfold store_ok, Store_Get. pose proof (Get_bounds now (st_lru s) k) as Hb.
  pose proof (Get_keys now (st_lru s) k) as Hk. destruct (lru_Get _ _ _) as [v l]. simpl in *.
  by rewrite Hb, Hk.
Qed.

Lemma Store_Put_ok now s k v : store_ok s → store_ok (Store_Put now s k v).2.
Proof.
  unfold store_ok, Store_Put. pose proof (Add_bounds now (st_lru s) k v) as Hb.
  pose proof (Add_size now (st_lru s) k v) as Hs. destruct (lru_Add _ _ _ _) as [e l]. simpl in *.
  rewrite Hb. destruct (bounds (st_lru s)) as [n ttl]. simpl in Hs. naive_solver.
Qed.

Lemma Store_Delete_ok s k : store_ok s → store_ok (Store_Delete s k).2.
Proof.
  unfold store_ok, Store_Delete. pose proof (Remove_bounds (st_lru s) k) as Hb.
  pose proof (Remove_keys (st_lru s) k) as Hk. destruct (lru_Remove _ _) as [e l]. simpl in *.
  rewrite Hb, Hk. destruct (bounds (st_lru s)) as [n ttl]. intros (? & ? & ? & Hs).
  split_and!; [done..|]. pose proof (subseteq_size (keys (st_lru s) ∖ {[k]}) (keys (st_lru s))
    ltac:(set_solver)). lia.
Qed.

Lemma Store_purge_ok now s : store_ok s → store_ok (Store_purge now s).
Proof.
  unfold store_ok, Store_purge. simpl. rewrite purge_bounds. destruct (bounds (st_lru s)) as [n ttl].
  intros (? & ? & ? & Hs). split_and!; [done..|].
  pose proof (subseteq_size _ _ (purge_keys now (st_lru s))). lia.
Qed.

(** ** Reads and writes *)

Definition visible (now : Z) (s : Store) : gmap string string := live now (st_lru s).

Lemma Store_Get_value now s k : (Store_Get now s k).1 = visible now s !! k.
Proof.
  unfold Store_Get. pose proof (Get_value now (st_lru s) k) as H.
  by destruct (lru_Get _ _ _).
Qed.

Lemma Store_Get_visible now s k now' : visible now' (Store_Get now s k).2 = visible now' s.
Proof.
  unfold Store_Get, visible. pose proof (Get_live now (st_lru s) k now') as H.
  by destruct (lru_Get _ _ _).
Qed.

Lemma Store_Put_other now s k v now' k' w :
  k' ≠ k → visible now' (Store_Put now s k v).2 !! k' = Some w → visible now' s !! k' = Some w.
Proof.
  unfold Store_Put, visible. pose proof (Add_other now (st_lru s) k v now' k' w) as H.
  by destruct (lru_Add _ _ _ _).
Qed.

Lemma Store_Put_same now s k v now' w :
  visible now' (Store_Put now s k v).2 !! k = Some w → w = v.
Proof.
  unfold Store_Put, visible. pose proof (Add_live_inv now (st_lru s) k v now' w) as H.
  destruct (lru_Add _ _ _ _). simpl in *. intros Hl. by apply H.
Qed.

Lemma Store_Delete_visible s k now : visible now (Store_Delete s k).2 = delete k (visible now s).
Proof.
  unfold Store_Delete, visible. pose proof (Remove_live (st_lru s) k now) as H.
  by destruct (lru_Remove _ _).
Qed.

Lemma Store_purge_visible now s now' : now <= now' → visible now' (Store_purge now s) = visible now' s.
Proof. apply purge_live. Qed.

(** ** Claims *)

(** What is put can be read back under its key, unchanged, at every moment of
    the store's time to live, and not after; other keys keep their value or lose it,
    and lose it only if the put reports an eviction. *)
Theorem Put_then_Get s k v now now' :
  store_ok s → now <= now' →
  let s' := (Store_Put now s k v).2 in
  (now' <= now + st_defaultTTL s → (Store_Get now' s' k).1 = Some v) ∧
  (now + st_defaultTTL s < now' → (Store_Get now' s' k).1 = None) ∧
  (∀ k', k' ≠ k → (Store_Get now' s' k').1 = None ∨ (Store_Get now' s' k').1 = (Store_Get now' s k').1) ∧
  ((Store_Put now s k v).1 = false →
     ∀ k', k' ≠ k → (Store_Get now' s' k').1 = (Store_Get now' s k').1).
Proof.
  cbv zeta. unfold store_ok. intros Hok Hle. rewrite !Store_Get_value. setoid_rewrite Store_Get_value.
  unfold Store_Put, visible.
  pose proof (Add_live now (st_lru s) k v now') as H1. pose proof (Add_live_inv now (st_lru s) k v now') as H2.
  pose proof (Add_other now (st_lru s) k v now') as H3. pose proof (Add_kept now (st_lru s) k v now') as H4.
  destruct (bounds (st_lru s)) as [n ttl]. destruct Hok as (Hn & Ht & <- & _).
  destruct (lru_Add _ _ _ _) as [e l]. simpl in *. split_and!; [by intros; apply H1| |intros k' Hk'|].
  - intros Hlt. destruct (live now' l !! k) as [w|] eqn:E; [|done].
    destruct (H2 w eq_refl). lia.
  - destruct (live now' l !! k') as [w|] eqn:E; [|by left]. right. symmetry. by apply H3.
  - intros -> k' Hk'. by apply H4.
Qed.

(** C25: the constructor panics exactly on a capacity that is not positive, replaces
    a time to live that is not positive by sixty seconds, and from then on no
    operation - reads, writes, deletes, background cleanup - ever exceeds the
    capacity. *)
Theorem store_never_exceeds_capacity capacity ttl :
  (NewStore capacity ttl = None ↔ capacity <= 0) ∧
  ∀ s, NewStore capacity ttl = Some s →
    st_defaultTTL s = (if ttl <=? 0 then 60 * Second else ttl) ∧
    ∀ s', rtc (λ a b, (∃ now k, b = (Store_Get now a k).2) ∨ (∃ now k v, b = (Store_Put now a k v).2) ∨
                      (∃ k, b = (Store_Delete a k).2) ∨ (∃ now, b = Store_purge now a)) s s' →
      0 <= Store_Len s' <= capacity.
Proof.
  split; [unfold NewStore; destruct (capacity <=? 0) eqn:E; split; (done || lia)|].
  intros s Hs. split; [unfold NewStore in Hs; by destruct (capacity <=? 0); simplify_eq|].
  assert (store_ok s ∧ (bounds (st_lru s)).1 = capacity) as H0.
  { split; [by eapply NewStore_ok|]. unfold NewStore in Hs. destruct (capacity <=? 0); simplify_eq/=.
    by rewrite NewLRU_bounds. }
  clear Hs. intros s' Hr. revert H0. induction Hr as [a|a b c Hstep _ IH]; intros [Hok Hcap].
  - unfold Store_Len. rewrite Len_keys. unfold store_ok in Hok.
    destruct (bounds (st_lru a)) as [n t]. simpl in Hcap. lia.
  - apply IH. destruct Hstep as [(now & k & ->)|[(now & k & v & ->)|[(k & ->)|(now & ->)]]].
    + split; [by apply Store_Get_ok|]. unfold Store_Get.
      pose proof (Get_bounds now (st_lru a) k). destruct (lru_Get _ _ _). simpl in *. congruence.
    + split; [by apply Store_Put_ok|]. unfold Store_Put.
      pose proof (Add_bounds now (st_lru a) k v). destruct (lru_Add _ _ _ _). simpl in *. congruence.
    + split; [by apply Store_Delete_ok|]. unfold Store_Delete.
      pose proof (Remove_bounds (st_lru a) k). destruct (lru_Remove _ _). simpl in *. congruence.
    + split; [by apply Store_purge_ok|]. simpl. by rewrite purge_bounds.
Qed.

(** Overwriting a held key reports no eviction, although the previous value is
    gone: Put's result does not tell an overwrite from a fresh insert. *)
Theorem overwrite_reports_no_eviction now now0 s k v w :
  store_ok s → visible now0 s !! k = Some w → (Store_Put now s k v).1 = false.
Proof.
  unfold store_ok, visible, Store_Put. intros Hok Hk.
  pose proof (Add_overwrite now (st_lru s) k v) as H.
  destruct (bounds (st_lru s)) as [n ttl]. destruct Hok as (Hn & _ & _ & Hs).
  destruct (lru_Add _ _ _ _) as [e l]. simpl in *. apply H; [done|done|].
  apply (live_keys now0). by rewrite Hk.
Qed.

End Store.
