(* ===== verification/StoreRef.v ===== *)
(** * A reference expirable LRU

    An implementation of the [LRU] interface, to run the store and to show that
    its laws can be met: entries carry their expiry and a recency stamp; a full
    cache evicts the entry with the oldest stamp. *)

From S2P Require Import Prelude GoLib Store.

Local Open Scope Z_scope.

Record entry := mkEntry { e_value : string; e_expiry : Z; e_recency : Z }.

Record reflru := mkRefLru {
  rl_size : Z; rl_ttl : Z; rl_tick : Z; rl_entries : gmap string entry
}.

Definition unexpired (now : Z) (e : entry) : Prop := now <= e_expiry e.
#[global] Instance unexpired_dec now e : Decision (unexpired now e).
Proof. unfold unexpired. apply _. Defined.

Definition rl_live (now : Z) (l : reflru) : gmap string string :=
  e_value <$> filter (λ p, unexpired now p.2) (rl_entries l).

Definition older (p q : string * entry) : string * entry :=
  if e_recency p.2 <? e_recency q.2 then p else q.

Definition oldest (m : gmap string entry) : option string :=
  match map_to_list m with [] => None | p :: ps => Some (foldr older p ps).1 end.

Definition rl_Get (now : Z) (l : reflru) (k : string) : option string * reflru :=
  match rl_entries l !! k with
  | Some e => if decide (unexpired now e) then
                (Some (e_value e), mkRefLru (rl_size l) (rl_ttl l) (rl_tick l + 1)
                   (<[k := mkEntry (e_value e) (e_expiry e) (rl_tick l)]> (rl_entries l)))
              else (None, l)
  | None => (None, l)
  end.

Definition rl_evict (size_ : Z) (k : string) (m : gmap string entry) : bool * gmap string entry :=
  if (0 <? size_) && (size_ <? Z.of_nat (size m)) then
    match oldest (delete k m) with Some k0 => (true, delete k0 m) | None => (false, m) end
  else (false, m).

Definition rl_Add (now : Z) (l : reflru) (k v : string) : bool * reflru :=
  let m := <[k := mkEntry v (now + rl_ttl l) (rl_tick l)]> (rl_entries l) in
  let '(evicted, m) := rl_evict (rl_size l) k m in
  (evicted, mkRefLru (rl_size l) (rl_ttl l) (rl_tick l + 1) m).

Definition rl_Remove (l : reflru) (k : string) : bool * reflru :=
  (bool_decide (k ∈ dom (rl_entries l)),
   mkRefLru (rl_size l) (rl_ttl l) (rl_tick l) (delete k (rl_entries l))).

Definition rl_purge (now : Z) (l : reflru) : reflru :=
  mkRefLru (rl_size l) (rl_ttl l) (rl_tick l) (filter (λ p, unexpired now p.2) (rl_entries l)).

(** ** The laws *)

Lemma rl_live_Some now l k v :
  rl_live now l !! k = Some v ↔ ∃ e, rl_entries l !! k = Some e ∧ now <= e_expiry e ∧ e_value e = v.
Proof.
  unfold rl_live. rewrite lookup_fmap_Some. setoid_rewrite map_lookup_filter_Some.
  unfold unexpired. simpl. naive_solver.
Qed.

(** Views agree when they show the same values. *)
Lemma rl_live_ext now l now' l' k k' :
  (∀ v, rl_live now l !! k = Some v ↔ rl_live now' l' !! k' = Some v) →
  rl_live now l !! k = rl_live now' l' !! k'.
Proof. intros H. apply option_eq. exact H. Qed.

Lemma oldest_elem m k : oldest m = Some k → k ∈ dom m.
Proof.
  unfold oldest. destruct (map_to_list m) as [|p ps] eqn:E; [done|]. intros [= <-].
  assert (foldr older p ps ∈ p :: ps) as Hin.
  { clear E. induction ps as [|q ps IH]; simpl; [left|]. unfold older at 1.
    destruct (_ <? _); set_solver. }
  rewrite <- E in Hin. destruct (foldr older p ps) as [k e]. apply elem_of_map_to_list in Hin.
  by eapply elem_of_dom_2.
Qed.

Lemma oldest_None m : oldest m = None → m = ∅.
Proof.
  unfold oldest. destruct (map_to_list m) eqn:E; [|done]. intros _. by apply map_to_list_empty_iff.
Qed.

(** What eviction does: nothing, or the removal of another key from a full map. *)
Lemma rl_evict_cases n k m :
  ((rl_evict n k m = (false, m)) ∧ (0 < n → is_Some (m !! k) → Z.of_nat (size m) <= n)) ∨
  (∃ k0, rl_evict n k m = (true, delete k0 m) ∧ k0 ≠ k ∧ is_Some (m !! k0) ∧ 0 < n < Z.of_nat (size m)).
Proof.
  unfold rl_evict. destruct ((0 <? n) && (n <? Z.of_nat (size m))) eqn:E.
  - apply andb_true_iff in E as [E1 E2]. destruct (oldest (delete k m)) as [k0|] eqn:E0.
    + right. exists k0. apply oldest_elem in E0. rewrite dom_delete in E0. split_and!; [done| | |lia|lia].
      * set_solver.
      * apply elem_of_dom. set_solver.
    + left. split; [done|]. intros Hn [e He]. apply oldest_None in E0.
      assert (size m <= 1)%nat; [|lia].
      rewrite <- (insert_delete_id m k e), E0, insert_empty, map_size_singleton by done. lia.
  - left. split; [done|]. intros Hn _. apply andb_false_iff in E. lia.
Qed.

Lemma rl_Add_cases now l k v :
  let m := <[k := mkEntry v (now + rl_ttl l) (rl_tick l)]> (rl_entries l) in
  ∃ m', rl_entries (rl_Add now l k v).2 = m' ∧
  (((rl_Add now l k v).1 = false ∧ m' = m ∧ (0 < rl_size l → Z.of_nat (size m) <= rl_size l)) ∨
   (∃ k0, (rl_Add now l k v).1 = true ∧ m' = delete k0 m ∧ k0 ≠ k ∧ is_Some (m !! k0) ∧
          0 < rl_size l < Z.of_nat (size m))).
Proof.
  cbv zeta. unfold rl_Add.
  destruct (rl_evict_cases (rl_size l) k (<[k := mkEntry v (now + rl_ttl l) (rl_tick l)]> (rl_entries l)))
    as [[-> Hn]|(k0 & -> & H)]; eexists; (split; [done|]).
  - left. split_and!; [done..|]. intros H. apply Hn; [done|]. by rewrite lookup_insert_eq.
  - right. exists k0. naive_solver.
Qed.

Lemma rl_Add_bounds now l k v :
  rl_size (rl_Add now l k v).2 = rl_size l ∧ rl_ttl (rl_Add now l k v).2 = rl_ttl l.
Proof. unfold rl_Add. by destruct (rl_evict _ _ _). Qed.

#[refine] Definition refLRU : LRU := {|
  lru := reflru;
  NewLRU size_ ttl := mkRefLru size_ ttl 0 ∅;
  lru_Get := rl_Get; lru_Add := rl_Add; lru_Remove := rl_Remove;
  lru_Len l := Z.of_nat (size (rl_entries l));
  lru_purge := rl_purge;
  live := rl_live; keys l := dom (rl_entries l); bounds l := (rl_size l, rl_ttl l)
|}.
Proof.
  - intros now l k [v (e & He & _)%rl_live_Some]. by eapply elem_of_dom_2.
  - intros now now' l k v Hle (e & He & Hx & Hv)%rl_live_Some. apply rl_live_Some. exists e.
    split_and!; [done|lia|done].
  - intros. apply dom_empty_L.
  - done.
  - intros now l k. unfold rl_Get. symmetry. destruct (rl_entries l !! k) as [e|] eqn:E.
    + case_decide as Hx; simpl.
      * apply rl_live_Some. eauto.
      * apply eq_None_not_Some. intros [v (e' & He & Hle & _)%rl_live_Some]. simplify_eq. done.
    + apply eq_None_not_Some. intros [v (e' & He & _)%rl_live_Some]. congruence.
  - intros now l k now'. unfold rl_Get. destruct (rl_entries l !! k) as [e|] eqn:E; [|done].
    case_decide; [|done]. simpl. apply map_eq. intros k'. apply rl_live_ext. intros v.
    rewrite !rl_live_Some. simpl. destruct (decide (k' = k)) as [->|Hne].
    + rewrite lookup_insert_eq, E. naive_solver.
    + by rewrite lookup_insert_ne by done.
  - intros now l k. unfold rl_Get. destruct (rl_entries l !! k) as [e|] eqn:E; [|done].
    case_decide; [|done]. simpl. apply dom_insert_lookup_L. by rewrite E.
  - intros now l k. unfold rl_Get. by repeat case_match.
  - intros now l k v now' Hn Ht. simpl in *. apply rl_live_Some. exists (mkEntry v (now + rl_ttl l) (rl_tick l)).
    destruct (rl_Add_cases now l k v) as (m' & -> & [(_ & -> & _)|(k0 & _ & -> & Hk0 & _)]);
      rewrite ?lookup_delete_ne, lookup_insert_eq by done; simpl; split_and!; (done || lia).
  - intros now l k v now' w (e & He & Hx & <-)%rl_live_Some. revert He.
    destruct (rl_Add_cases now l k v) as (m' & -> & [(_ & -> & _)|(k0 & _ & -> & Hk0 & _)]);
      rewrite ?lookup_delete_ne, lookup_insert_eq by done; intros [= <-]; simpl in *; split; (done || lia).
  - intros now l k v now' k' w Hne (e & He & Hx & <-)%rl_live_Some. apply rl_live_Some. exists e.
    split; [|done]. revert He.
    destruct (rl_Add_cases now l k v) as (m' & -> & [(_ & -> & _)|(k0 & _ & -> & Hk0 & _)]).
    + by rewrite lookup_insert_ne.
    + intros [_ He]%lookup_delete_Some. by rewrite lookup_insert_ne in He.
  - intros now l k v now' k' Hne Hfalse. apply rl_live_ext. intros w. rewrite !rl_live_Some.
    destruct (rl_Add_cases now l k v) as (m' & -> & [(_ & -> & _)|(k0 & Htrue & _)]); [|congruence].
    by rewrite lookup_insert_ne.
  - intros now l k v Hn Hs. simpl in *. rewrite size_dom in *.
    destruct (rl_Add_cases now l k v) as (m' & -> & [(_ & -> & Hle)|(k0 & _ & -> & Hk0 & Hin & Hlt)]).
    + by apply Hle.
    + rewrite map_size_delete. destruct Hin as [e He]. rewrite He.
      pose proof (map_size_insert k (mkEntry v (now + rl_ttl l) (rl_tick l)) (rl_entries l)) as Hi.
      rewrite Hi. destruct (rl_entries l !! k); simpl; lia.
  - intros now l k v. simpl. by destruct (rl_Add_bounds now l k v) as [-> ->].
  - intros now l k v Hn Hs [e He]%elem_of_dom. simpl in *. rewrite size_dom in Hs.
    destruct (rl_Add_cases now l k v) as (m' & _ & [(-> & _)|(k0 & _ & _ & _ & _ & Hlt)]); [done|].
    rewrite map_size_insert, He in Hlt. simpl in Hlt. lia.
  - done.
  - intros l k now. apply map_eq. intros k'. apply option_eq. intros w.
    rewrite lookup_delete_Some, !rl_live_Some. simpl. setoid_rewrite lookup_delete_Some. naive_solver.
  - intros l k. simpl. apply dom_delete_L.
  - done.
  - intros l. simpl. by rewrite size_dom.
  - intros now l now' Hle. apply map_eq. intros k'. apply rl_live_ext. intros w.
    rewrite !rl_live_Some. simpl. setoid_rewrite map_lookup_filter_Some. unfold unexpired. simpl.
    naive_solver lia.
  - intros now l. simpl. apply dom_filter_subseteq.
  - done.
Defined.
