(* ===== verification/Http.v ===== *)
(** * net/http as tiny-cache uses it

    Requests, responses, [http.Error], and the path handling of the standard
    [ServeMux] (Go 1.22 and later) for patterns without methods or hosts:
    path cleaning, the redirects to the cleaned path and to the path with a
    trailing slash, and the segment-wise match. A response has the headers its
    handler sets. Left out: the special request target [*], header parsing, the
    redirect's HTML body. *)

From S2P Require Import Prelude GoLib Json.

Local Open Scope Z_scope.

Definition slash : Ascii.ascii := "/"%char.

(** A body delivers its bytes and then ends, or fails with an error. *)
Record Body := mkBody { b_bytes : string; b_err : option string }.

Record Request := mkRequest {
  rq_Method : string;
  rq_Path : string;          (* decoded *)
  rq_EscapedPath : string;
  rq_Body : Body
}.

Record Response := mkResponse {
  rs_Code : Z; rs_Header : gmap string string; rs_Body : string
}.

Definition nl : string := String "010"%char "".

(** [http.Error] *)
Definition http_Error (msg : string) (code : Z) : Response :=
  mkResponse code {[ "Content-Type" := "text/plain; charset=utf-8";
                     "X-Content-Type-Options" := "nosniff" ]} (msg +:+ nl).

Definition http_NotFound : Response := http_Error "404 page not found" 404.

(** [io.ReadAll(io.LimitReader(body, n))]: at most [n] bytes are read, so an
    error behind them is not seen. *)
Definition readLimited (b : Body) (n : Z) : string + string :=
  if n <=? Z.of_nat (len (b_bytes b)) then inr (String.substring 0 (Z.to_nat n) (b_bytes b))
  else match b_err b with Some e => inl e | None => inr (b_bytes b) end.

(** ** Paths *)

(** [strings.Split(s, "/")] *)
Fixpoint split_slash (s : string) : list string :=
  match s with
  | EmptyString => [""]
  | String c s => if bool_decide (c = slash) then "" :: split_slash s
                  else match split_slash s with
                       | x :: xs => String c x :: xs
                       | [] => [ch1 c]
                       end
  end.

(** The segment loop of [path.Clean] on a rooted path; the accumulator is the
    cleaned path so far, last segment first. *)
Fixpoint clean_segments (acc segs : list string) : list string :=
  match segs with
  | [] => rev acc
  | x :: segs =>
      if bool_decide (x = "") || bool_decide (x = ".") then clean_segments acc segs
      else if bool_decide (x = "..") then clean_segments (tail acc) segs
      else clean_segments (x :: acc) segs
  end.

Definition path_Clean (p : string) : string :=
  String slash (join "/" (clean_segments [] (split_slash p))).

Definition ends_slash (p : string) : bool :=
  bool_decide (LastIndex p slash = Z.of_nat (len p) - 1) && negb (bool_decide (p = "")).

(** net/http's [cleanPath] *)
Definition cleanPath (p : string) : string :=
  match p with
  | EmptyString => "/"
  | String c _ =>
      let p := if bool_decide (c = slash) then p else String slash p in
      let np := path_Clean p in
      if ends_slash p && negb (bool_decide (np = "/")) then np +:+ "/" else np
  end.

(** [url.PathUnescape]; [None] for a malformed escape. *)
Fixpoint PathUnescape (s : string) : option string :=
  match s with
  | EmptyString => Some ""
  | String c s' =>
      if bool_decide (c = "%"%char) then
        match s' with
        | String a (String b s'') =>
            match hex_val a, hex_val b with
            | Some x, Some y => String (chr (16 * x + y)) <$> PathUnescape s''
            | _, _ => None
            end
        | _ => None
        end
      else String c <$> PathUnescape s'
  end.

Fixpoint until_slash (s : string) : string * string :=
  match s with
  | EmptyString => ("", "")
  | String c s' => if bool_decide (c = slash) then ("", s)
                   else let '(x, r) := until_slash s' in (String c x, r)
  end.

(** [firstSegment]: the first segment, unescaped, and the rest. *)
Definition firstSegment (p : string) : string * string :=
  match p with
  | EmptyString => ("", "")
  | String _ EmptyString => ("/", "")
  | String _ p' => let '(x, r) := until_slash p' in (default x (PathUnescape x), r)
  end.

Inductive muxOutcome (H : Type) :=
  | MHandler (h : H)
  | MRedirect (path : string)
  | MNotFound.
#[global] Arguments MHandler {H} h.
#[global] Arguments MRedirect {H} path.
#[global] Arguments MNotFound {H}.

Section Mux.
(** The registered patterns: [exact seg] for ["/seg"], [subtree seg] for
    ["/seg/"]. *)
Context {H : Type} (exact subtree : string → option H).

Definition mux_match (path : string) : option H :=
  match path with
  | EmptyString => None
  | _ => let '(seg, rest) := firstSegment path in
         if bool_decide (rest = "") then exact seg else subtree seg
  end.

(** The path with a slash appended is exactly a registered subtree root. *)
Definition slash_redirect (path : string) : bool :=
  match mux_match path with
  | Some _ => false
  | None => negb (ends_slash path) &&
            (let '(seg, rest) := firstSegment (path +:+ "/") in
             bool_decide (rest = "/") && bool_decide (is_Some (subtree seg)))
  end.

(** [ServeMux.findHandler] *)
Definition findHandler (r : Request) : muxOutcome H :=
  let escaped := rq_EscapedPath r in
  let connect := bool_decide (rq_Method r = "CONNECT") in
  let path := if connect then escaped else cleanPath escaped in
  if slash_redirect path then MRedirect (cleanPath (rq_Path r) +:+ "/")
  else if negb connect && negb (bool_decide (path = escaped)) then MRedirect path
  else match mux_match path with Some h => MHandler h | None => MNotFound end.

End Mux.

(** ** Facts about clean paths *)

Lemma no_byte_cons c x s : no_byte c (String x s) = true ↔ x ≠ c ∧ no_byte c s = true.
Proof. unfold no_byte. simpl. rewrite andb_true_iff, negb_true_iff, bool_decide_eq_false. done. Qed.

Lemma split_slash_no s : no_byte slash s = true → split_slash s = [s].
Proof.
  induction s as [|c s IH]; [done|]. intros [Hc Hs]%no_byte_cons. simpl.
  rewrite bool_decide_false by done. by rewrite IH.
Qed.

Lemma split_slash_app s t : no_byte slash s = true → split_slash (s +:+ String slash t) = s :: split_slash t.
Proof.
  induction s as [|c s IH]; [done|]. intros [Hc Hs]%no_byte_cons. rewrite string_app_cons. simpl.
  rewrite bool_decide_false by done. by rewrite IH.
Qed.

Lemma PathUnescape_plain s : no_byte "%"%char s = true → PathUnescape s = Some s.
Proof.
  induction s as [|c s IH]; [done|]. intros [Hc Hs]%no_byte_cons. simpl.
  rewrite bool_decide_false by done. by rewrite IH.
Qed.

Lemma until_slash_no s : no_byte slash s = true → until_slash s = (s, "").
Proof.
  induction s as [|c s IH]; [done|]. intros [Hc Hs]%no_byte_cons. simpl.
  rewrite bool_decide_false by done. by rewrite IH.
Qed.

Lemma until_slash_app s t : no_byte slash s = true → until_slash (s +:+ String slash t) = (s, String slash t).
Proof.
  induction s as [|c s IH]; [done|]. intros [Hc Hs]%no_byte_cons. rewrite string_app_cons. simpl.
  rewrite bool_decide_false by done. by rewrite IH.
Qed.

(** A path of two plain segments below the root. *)
Lemma cleanPath_two a b :
  a ∉ [""; "."; ".."] → b ∉ [""; "."; ".."] → no_byte slash a = true → no_byte slash b = true →
  cleanPath (String slash (a +:+ String slash b)) = String slash (a +:+ String slash b).
Proof.
  intros Ha Hb Na Nb. unfold cleanPath. rewrite bool_decide_true by done.
  assert (ends_slash (String slash (a +:+ String slash b)) = false) as ->.
  { unfold ends_slash. apply andb_false_iff. left. apply bool_decide_eq_false.
    change (String slash (a +:+ String slash b)) with (String slash a +:+ String slash b).
    rewrite LastIndex_app, string_length_app by done. destruct b; [set_solver|]. simpl. lia. }
  simpl. unfold path_Clean. change (split_slash (String slash (a +:+ String slash b)))
    with ("" :: split_slash (a +:+ String slash b)).
  rewrite split_slash_app, split_slash_no by done. simpl.
  rewrite !bool_decide_false by set_solver. done.
Qed.

Lemma firstSegment_two a b :
  no_byte slash a = true → no_byte "%"%char a = true → a ≠ "" →
  firstSegment (String slash (a +:+ String slash b)) = (a, String slash b).
Proof.
  intros Na Pa Hne. destruct a as [|c a]; [done|]. unfold firstSegment.
  rewrite string_app_cons. rewrite <- string_app_cons, until_slash_app, PathUnescape_plain by done. done.
Qed.
