(* ===== verification/Url.v ===== *)
(** * net/url as cache-cli uses it

    Whether [url.Parse], and with it [http.NewRequest], accepts an [http://] URL: the
    split into authority, path, query and fragment and the check of each part. *)

From S2P Require Import Prelude GoLib Json Http.

Local Open Scope Z_scope.

(** What net/netip says about the text between the brackets of an IP literal, with
    its zone. *)
Class NetIP := { bracketed : string → bool }.

(** ** Splitting *)

(** The longest prefix before a byte with [stop], and the rest. *)
Fixpoint until (stop : Ascii.ascii → bool) (s : string) : string * string :=
  match s with
  | EmptyString => ("", "")
  | String c s' => if stop c then ("", s) else let '(x, r) := until stop s' in (String c x, r)
  end.

(** [strings.Cut(s, "<c>")]: before and after the first [c]. *)
Definition cutAt (c : Ascii.ascii) (s : string) : string * string :=
  let '(x, r) := until (λ b, bool_decide (b = c)) s in
  (x, match r with EmptyString => "" | String _ r' => r' end).

(** Before and after the last [c]. *)
Fixpoint cutLast (c : Ascii.ascii) (s : string) : option (string * string) :=
  match s with
  | EmptyString => None
  | String x s' =>
      match cutLast c s' with
      | Some (a, b) => Some (String x a, b)
      | None => if bool_decide (x = c) then Some ("", s') else None
      end
  end.

(** ** Checks *)

(** [stringContainsCTLByte] *)
Definition controlByte (c : Ascii.ascii) : bool := (code c <? 32) || (code c =? 127).

Definition alphanumeric (c : Ascii.ascii) : bool :=
  (97 <=? code c) && (code c <=? 122) || (65 <=? code c) && (code c <=? 90) ||
  (48 <=? code c) && (code c <=? 57).

(** [!shouldEscape(c, encodeHost)] *)
Definition hostPlain (c : Ascii.ascii) : bool :=
  alphanumeric c || bool_decide (c ∈ String.list_ascii_of_string "-_.~!$&'()*+,;=:[]<>") ||
  bool_decide (c = chr 34).

(** The checks of [unescape]: every percent sign starts an escape that [esc] accepts,
    every other byte is one that [plain] accepts. *)
Fixpoint unescapes (esc : Ascii.ascii → Ascii.ascii → bool) (plain : Ascii.ascii → bool) (s : string) : bool :=
  match s with
  | EmptyString => true
  | String c s' =>
      if bool_decide (c = "%"%char) then
        match s' with
        | String a (String b s'') =>
            bool_decide (is_Some (hex_val a)) && bool_decide (is_Some (hex_val b)) && esc a b &&
            unescapes esc plain s''
        | _ => false
        end
      else plain c && unescapes esc plain s'
  end.

Definition percent25 (a b : Ascii.ascii) : bool := bool_decide (a = "2"%char) && bool_decide (b = "5"%char).

(** Paths, fragments and user names; hosts. *)
Definition unescapesPart : string → bool := unescapes (λ _ _, true) (λ _, true).

Definition hostOrHigh (c : Ascii.ascii) : bool := (128 <=? code c) || hostPlain c.

Definition unescapesHost : string → bool :=
  unescapes (λ a b, (8 <=? default 0 (hex_val a)) || percent25 a b) hostOrHigh.

(** [validOptionalPort] *)
Definition validOptionalPort (port : string) : bool :=
  match port with
  | EmptyString => true
  | String c ds => bool_decide (c = ":"%char) && str_forall is_digit ds
  end.

(** [parseHost] *)
Definition parseHost `{NI : NetIP} (host : string) : bool :=
  match cutLast "["%char host with
  | Some (_, inside) =>
      match cutLast "]"%char host with
      | None => false
      | Some (_, port) =>
          validOptionalPort port && unescapesHost port &&
          match cutLast "]"%char inside with
          | None => false
          | Some (literal, _) => bracketed literal
          end
      end
  | None =>
      match cutLast ":"%char host with
      | Some (_, port) => validOptionalPort (String ":"%char port)
      | None => true
      end && unescapesHost host
  end.

(** [validUserinfo] *)
Definition userinfoByte (c : Ascii.ascii) : bool :=
  alphanumeric c || bool_decide (c ∈ String.list_ascii_of_string "-._:~!$&'()*+,;=%@").

(** [parseAuthority] *)
Definition parseAuthority `{NI : NetIP} (authority : string) : bool :=
  match cutLast "@"%char authority with
  | None => parseHost authority
  | Some (userinfo, host) =>
      let '(user, password) := cutAt ":"%char userinfo in
      parseHost host && str_forall userinfoByte userinfo && unescapesPart user && unescapesPart password
  end.

(** [url.Parse] of ["http://" ++ ...] succeeds. *)
Definition urlParses `{NI : NetIP} (url : string) : bool :=
  let '(u, fragment) := cutAt "#"%char url in
  let '(rest, _) := cutAt "?"%char (TrimPrefix u "http://") in
  let '(authority, path) := until (λ c, bool_decide (c = slash)) rest in
  str_forall (λ c, negb (controlByte c)) u && parseAuthority authority && unescapesPart path &&
  unescapesPart fragment.

(** ** Facts *)

Lemma until_app stop s t :
  str_forall (λ c, negb (stop c)) s = true → (t = "" ∨ ∃ c t', t = String c t' ∧ stop c = true) →
  until stop (s +:+ t) = (s, t).
Proof.
  intros Hs Ht. induction s as [|c s IH].
  - destruct Ht as [->|(c & t' & -> & Hc)]; [done|]. simpl. by rewrite Hc.
  - rewrite string_app_cons. simpl in *. apply andb_true_iff in Hs as [Hc Hs].
    apply negb_true_iff in Hc. by rewrite Hc, IH.
Qed.

Lemma cutAt_none c s : no_byte c s = true → cutAt c s = (s, "").
Proof.
  intros Hs. unfold cutAt. rewrite <- (string_app_nil_r s) at 1. rewrite until_app; [done|done|by left].
Qed.

Lemma cutLast_none c s : no_byte c s = true → cutLast c s = None.
Proof.
  induction s as [|x s IH]; [done|]. intros [Hx Hs]%no_byte_cons. simpl. rewrite IH by done.
  by rewrite bool_decide_false.
Qed.

Lemma cutLast_app c s t : no_byte c t = true → cutLast c (s +:+ String c t) = Some (s, t).
Proof.
  intros Ht. induction s as [|x s IH].
  - change ("" +:+ String c t) with (String c t). simpl. rewrite cutLast_none by done. by rewrite bool_decide_true.
  - rewrite string_app_cons. simpl. by rewrite IH.
Qed.

(** Nothing to unescape. *)
Lemma unescapes_plain esc plain s :
  no_byte "%"%char s = true → str_forall plain s = true → unescapes esc plain s = true.
Proof.
  induction s as [|c s IH]; [done|]. intros [Hc Hs]%no_byte_cons. simpl. rewrite andb_true_iff.
  intros [-> Hp]. rewrite bool_decide_false by done. by apply IH.
Qed.

(** A percent sign that starts no escape. *)
Lemma unescapes_bad esc plain s t :
  no_byte "%"%char s = true →
  (∀ a b t', t = String a (String b t') → hex_val a = None ∨ hex_val b = None) →
  unescapes esc plain (s +:+ "%" +:+ t) = false.
Proof.
  intros Hs Ht. induction s as [|c s IH].
  - change ("" +:+ "%" +:+ t) with (String "%"%char t). simpl. destruct t as [|a [|b t']]; [done|done|].
    destruct (Ht a b t' eq_refl) as [-> | ->]; [done|]. by rewrite andb_false_r.
  - apply no_byte_cons in Hs as [Hc Hs]. rewrite string_app_cons. simpl.
    rewrite bool_decide_false by done. rewrite IH by done. apply andb_false_r.
Qed.
