(* ===== verification/Server.v ===== *)
(** * The tiny-cache server

    internal/cache/handlers.go and server.go: the three key-value handlers, the
    routes, and the life of [Run] as a step relation over the requests and
    signals the process gets. *)

From S2P Require Import Prelude GoLib Json Store Http.

Local Open Scope Z_scope.

(** [1 << 20] *)
Definition maxValueBytes : Z := Z.shiftl 1 20.

Definition MethodGet : string := "GET".
Definition MethodPut : string := "PUT".
Definition MethodDelete : string := "DELETE".

(** [w.WriteHeader(http.StatusNoContent)] *)
Definition noContent : Response := mkResponse 204 ∅ "".

Record Config := mkServerConfig {
  Listen : string; HasLogger : bool; Capacity : Z; DefaultTTL : Z
}.

Inductive handler := HHealthz | HReadyz | HKv.

(** [mux.HandleFunc("/healthz", ...)] and the two others. *)
Definition exactRoute (seg : string) : option handler :=
  if bool_decide (seg = "healthz") then Some HHealthz
  else if bool_decide (seg = "readyz") then Some HReadyz else None.

Definition subtreeRoute (seg : string) : option handler :=
  if bool_decide (seg = "kv") then Some HKv else None.

(** What the client gets: a response, or a redirect of the mux. *)
Inductive served := Answer (r : Response) | Redirect (path : string).

Section Server.
Context `{L : LRU}.

Record server := mkServer { sv_store : Store; sv_ready : bool }.

(** ** Handlers *)

Definition handleGet (now : Z) (s : server) (key : string) : Response * server :=
  let '(value, st) := Store_Get now (sv_store s) key in
  let s := mkServer st (sv_ready s) in
  match value with
  | None => (http_Error "not found" 404, s)
  | Some v => (mkResponse 200 {[ "Content-Type" := "application/octet-stream" ]} v, s)
  end.

Definition handlePut (now : Z) (s : server) (r : Request) (key : string) : Response * server :=
  match readLimited (rq_Body r) (maxValueBytes + 1) with
  | inl err => (http_Error ("read body: " +:+ err) 400, s)
  | inr body =>
      if maxValueBytes <? Z.of_nat (len body) then (http_Error "value too large" 413, s)
      else let '(_, st) := Store_Put now (sv_store s) key body in
           (noContent, mkServer st (sv_ready s))
  end.

Definition handleDelete (s : server) (key : string) : Response * server :=
  let '(existed, st) := Store_Delete (sv_store s) key in
  let s := mkServer st (sv_ready s) in
  if negb existed then (http_Error "not found" 404, s) else (noContent, s).

Definition methodNotAllowed : Response :=
  let e := http_Error "method not allowed" 405 in
  mkResponse (rs_Code e) (<["Allow" := "GET, PUT, DELETE"]> (rs_Header e)) (rs_Body e).

Definition kvHandler (now : Z) (s : server) (r : Request) : Response * server :=
  if negb (HasPrefix (rq_Path r) "/kv/") then (http_NotFound, s)
  else
    let key := TrimPrefix (rq_Path r) "/kv/" in
    if bool_decide (key = "") || ContainsByte key slash then (http_Error "invalid key" 400, s)
    else if bool_decide (rq_Method r = MethodGet) then handleGet now s key
    else if bool_decide (rq_Method r = MethodPut) then handlePut now s r key
    else if bool_decide (rq_Method r = MethodDelete) then handleDelete s key
    else (methodNotAllowed, s).

Definition healthz : Response := mkResponse 200 ∅ ("ok" +:+ nl).

Definition readyz (s : server) : Response :=
  if negb (sv_ready s) then mkResponse 503 ∅ ("not ready" +:+ nl)
  else mkResponse 200 ∅ ("ready" +:+ nl).

(** A request through the mux of [routes]. *)
Definition serve (now : Z) (s : server) (r : Request) : served * server :=
  match findHandler exactRoute subtreeRoute r with
  | MRedirect p => (Redirect p, s)
  | MNotFound => (Answer http_NotFound, s)
  | MHandler HHealthz => (Answer healthz, s)
  | MHandler HReadyz => (Answer (readyz s), s)
  | MHandler HKv => let '(resp, s') := kvHandler now s r in (Answer resp, s')
  end.

(** ** Run *)

(** [None]: NewStore's panic. *)
Definition newServer (cfg : Config) : option server :=
  st ← NewStore (Capacity cfg) (DefaultTTL cfg); Some (mkServer st true).

Definition markNotReady (s : server) : server := mkServer (sv_store s) false.

(** Serving; shutting down; returned, with the error if any. *)
Inductive phase := Serving (s : server) | Draining (s : server) | Returned (err : option goerror).

(** The checks at the start, then the server. *)
Definition startRun (cfg : Config) : option phase :=
  if negb (HasLogger cfg) then Some (Returned (Some (ApiError false "Config.Logger is required")))
  else if bool_decide (Listen cfg = "") then
    Some (Returned (Some (ApiError false "Config.Listen is required")))
  else if Capacity cfg <=? 0 then
    Some (Returned (Some (ApiError false "Config.Capacity must be > 0")))
  else s ← newServer cfg; Some (Serving s).

Inductive label :=
  | LRequest (now : Z) (r : Request) (a : served)
  | LPurge (now : Z)
  | LSignal
  | LListen (err : option goerror)
  | LShutdown (err listenErr : option goerror).

(** Requests are served until Run returns; a signal starts the shutdown, after
    which the result of Shutdown and then that of the listener decide the
    return value. *)
Inductive sstep : phase → label → phase → Prop :=
  | step_request s now r : sstep (Serving s) (LRequest now r (serve now s r).1) (Serving (serve now s r).2)
  | step_request_draining s now r :
      sstep (Draining s) (LRequest now r (serve now s r).1) (Draining (serve now s r).2)
  | step_purge s now :
      sstep (Serving s) (LPurge now) (Serving (mkServer (Store_purge now (sv_store s)) (sv_ready s)))
  | step_purge_draining s now :
      sstep (Draining s) (LPurge now) (Draining (mkServer (Store_purge now (sv_store s)) (sv_ready s)))
  | step_listen_failed s e : sstep (Serving s) (LListen (Some e)) (Returned (Some (Wrapf "listen" e)))
  | step_listen_closed s : sstep (Serving s) (LListen None) (Returned None)
  | step_signal s : sstep (Serving s) LSignal (Draining (markNotReady s))
  | step_shutdown_failed s e le :
      sstep (Draining s) (LShutdown (Some e) le) (Returned (Some (Wrapf "shutdown" e)))
  | step_shutdown_ok s le : sstep (Draining s) (LShutdown None le) (Returned le).

Inductive steps : phase → list label → phase → Prop :=
  | steps_nil p : steps p [] p
  | steps_snoc p l p1 a p2 : steps p l p1 → sstep p1 a p2 → steps p (l ++ [a]) p2.

(** ** Specification: what a history of requests means for a key

    The cache is a hint: it may forget, but it answers with what was last
    written. *)

(** The key a request addresses, when it reaches the key-value handler. *)
Definition kvKey (r : Request) : option string :=
  match findHandler exactRoute subtreeRoute r with
  | MHandler HKv =>
      if negb (HasPrefix (rq_Path r) "/kv/") then None
      else let key := TrimPrefix (rq_Path r) "/kv/" in
           if bool_decide (key = "") || ContainsByte key slash then None else Some key
  | _ => None
  end.

(** The value a PUT stores, if it is accepted. *)
Definition acceptedBody (r : Request) : option string :=
  match readLimited (rq_Body r) (maxValueBytes + 1) with
  | inr body => if maxValueBytes <? Z.of_nat (len body) then None else Some body
  | inl _ => None
  end.

Definition specRequest (m : gmap string string) (r : Request) : gmap string string :=
  match kvKey r with
  | None => m
  | Some k =>
      if bool_decide (rq_Method r = MethodPut) then
        match acceptedBody r with Some b => <[k := b]> m | None => m end
      else if bool_decide (rq_Method r = MethodDelete) then delete k m
      else m
  end.

Definition specHistory (l : list label) : gmap string string :=
  foldl (λ m a, match a with LRequest _ r _ => specRequest m r | _ => m end) ∅ l.

(** Time stamps of a history do not go back. *)
Definition label_time (a : label) : option Z :=
  match a with LRequest now _ _ | LPurge now => Some now | _ => None end.

(** ** Requests *)

Lemma serve_kv now s r k :
  kvKey r = Some k →
  serve now s r = let '(resp, s') :=
    (if bool_decide (rq_Method r = MethodGet) then handleGet now s k
     else if bool_decide (rq_Method r = MethodPut) then handlePut now s r k
     else if bool_decide (rq_Method r = MethodDelete) then handleDelete s k
     else (methodNotAllowed, s)) in (Answer resp, s').
Proof.
  unfold kvKey, serve, kvHandler. destruct (findHandler _ _ r) as [[]| |]; try done.
  destruct (negb (HasPrefix _ _)); [done|]. destruct (_ || _); [done|]. by intros [= <-].
Qed.

Lemma serve_not_kv now s r : kvKey r = None → (serve now s r).2 = s.
Proof.
  unfold kvKey, serve, kvHandler. destruct (findHandler _ _ r) as [[]| |]; try done.
  destruct (negb (HasPrefix _ _)); [done|]. by destruct (_ || _).
Qed.

Lemma serve_ready now s r : sv_ready (serve now s r).2 = sv_ready s.
Proof.
  destruct (kvKey r) as [k|] eqn:E; [|by rewrite serve_not_kv].
  rewrite (serve_kv _ _ _ _ E). unfold handleGet, handlePut, handleDelete.
  repeat case_match; by simplify_eq/=.
Qed.

(** Reads a later reader could make are backed by [m]. *)
Definition backed (now : Z) (s : server) (m : gmap string string) : Prop :=
  ∀ now' k v, now <= now' → visible now' (sv_store s) !! k = Some v → m !! k = Some v.

Lemma backed_later now now' s m : now <= now' → backed now s m → backed now' s m.
Proof. intros Hle H t k v Ht. apply H. lia. Qed.

Lemma serve_backed now s r m : backed now s m → backed now (serve now s r).2 (specRequest m r).
Proof.
  intros H. unfold specRequest. destruct (kvKey r) as [k|] eqn:E; [|by rewrite serve_not_kv].
  rewrite (serve_kv _ _ _ _ E). unfold handleGet, handlePut, handleDelete, acceptedBody.
  case_bool_decide as Hget.
  { rewrite Hget. simpl. intros t k' v Ht. pose proof (Store_Get_visible now (sv_store s) k t) as Hv.
    destruct (Store_Get now (sv_store s) k) as [[w|] st]; simpl in *; rewrite Hv; by apply H. }
  case_bool_decide as Hput.
  { destruct (readLimited _ _) as [e|b]; [done|]. destruct (_ <? _); [done|]. simpl.
    intros t k' v Ht. pose proof (Store_Put_other now (sv_store s) k b t k' v) as Ho.
    pose proof (Store_Put_same now (sv_store s) k b t v) as Hs.
    destruct (Store_Put now (sv_store s) k b) as [ev st]. simpl in *. intros Hv.
    destruct (decide (k' = k)) as [->|Hne].
    - rewrite lookup_insert_eq. by rewrite (Hs Hv).
    - rewrite lookup_insert_ne by done. apply (H t); [done|]. by apply Ho. }
  case_bool_decide as Hdel; [|done]. simpl.
  intros t k' v Ht. pose proof (Store_Delete_visible (sv_store s) k t) as Hv.
  destruct (Store_Delete (sv_store s) k) as [[] st]; simpl in *; rewrite Hv;
    intros [Hne Hl]%lookup_delete_Some; rewrite lookup_delete_ne by done; by apply (H t).
Qed.

(** ** Histories *)

Definition server_of (p : phase) : option server :=
  match p with Serving s | Draining s => Some s | Returned _ => None end.

Lemma specHistory_snoc l a :
  specHistory (l ++ [a]) =
    match a with LRequest _ r _ => specRequest (specHistory l) r | _ => specHistory l end.
Proof. unfold specHistory. by rewrite foldl_app. Qed.

Lemma StronglySorted_snoc (l : list Z) x :
  StronglySorted Z.le (l ++ [x]) → StronglySorted Z.le l ∧ Forall (λ y, y <= x) l.
Proof.
  induction l as [|y l IH]; simpl; [by repeat constructor|].
  intros [Hs Hy]%StronglySorted_inv. apply IH in Hs as [Hs Hx].
  apply Forall_app in Hy as [Hy Hyx]. inversion Hyx; subst. by repeat constructor.
Qed.

(** A step at time [t] keeps the view of later readers backed by the history. *)
Lemma sstep_backed p a p' s s' m :
  sstep p a p' → server_of p = Some s → server_of p' = Some s' →
  ∀ t, (match label_time a with Some t' => t' = t | None => True end) → backed t s m →
  backed t s' (match a with LRequest _ r _ => specRequest m r | _ => m end).
Proof.
  intros Hstep Hs Hs' t Ht Hb.
  inversion Hstep; simplify_eq/=; [by apply serve_backed..| | |exact Hb];
    intros t' k v Hle; simpl; rewrite Store_purge_visible by done; by apply Hb.
Qed.

Lemma steps_server p l p' s' : steps p l p' → server_of p' = Some s' → ∃ s, server_of p = Some s.
Proof.
  intros H. revert s'. induction H as [p|p l p1 a p2 H1 IH H2]; intros s' Hs'; [eauto|].
  inversion H2; simplify_eq/=; eauto.
Qed.

Lemma history_backed p0 s0 l p s now :
  steps p0 l p → server_of p0 = Some s0 → (∀ t, visible t (sv_store s0) = ∅) →
  server_of p = Some s → StronglySorted Z.le (omap label_time l) →
  Forall (λ t, t <= now) (omap label_time l) → backed now s (specHistory l).
Proof.
  intros Hsteps Hs0 Hempty. revert s now.
  induction Hsteps as [p|p l p1 a p2 H1 IH H2]; intros s now Hs Hsort Hnow.
  { simplify_eq. intros t k v _. by rewrite Hempty. }
  assert (∃ s1, server_of p1 = Some s1) as [s1 Hs1] by (inversion H2; simplify_eq/=; eauto).
  rewrite specHistory_snoc. rewrite omap_app in Hsort, Hnow. simpl in Hsort, Hnow.
  destruct (label_time a) as [t|] eqn:Hlt.
  - apply StronglySorted_snoc in Hsort as [Hsort Hle]. apply Forall_app in Hnow as [_ Hnow].
    inversion Hnow; subst. apply (backed_later t); [done|].
    eapply sstep_backed; [exact H2|exact Hs1|done|by rewrite Hlt|]. by apply IH.
  - rewrite app_nil_r in Hsort, Hnow.
    eapply sstep_backed; [exact H2|exact Hs1|done|by rewrite Hlt|]. by apply IH.
Qed.

Lemma startRun_serving cfg p s :
  startRun cfg = Some p → server_of p = Some s → p = Serving s ∧ newServer cfg = Some s.
Proof.
  unfold startRun. intros H Hs. repeat (case_match; [by simplify_eq/=|]).
  destruct (newServer cfg) as [s'|]; by simplify_eq/=.
Qed.

Lemma newServer_empty cfg s t : newServer cfg = Some s → visible t (sv_store s) = ∅.
Proof.
  unfold newServer, NewStore. case_match; [done|]. simpl. intros [= <-]. unfold visible. simpl.
  apply map_eq. intros k. rewrite lookup_empty. apply eq_None_not_Some. intros Hk%live_keys.
  by rewrite NewLRU_empty in Hk.
Qed.

Lemma acceptedBody_bound r b : acceptedBody r = Some b → Z.of_nat (len b) <= maxValueBytes.
Proof.
  unfold acceptedBody. case_match; [done|]. destruct (_ <? _) eqn:E; [done|]. intros [= <-]. lia.
Qed.

Lemma specHistory_bound l k v : specHistory l !! k = Some v → Z.of_nat (len v) <= maxValueBytes.
Proof.
  revert k v. induction l as [|a l IH] using rev_ind; intros k v; [done|].
  rewrite specHistory_snoc. destruct a as [now r a| | | |]; eauto.
  unfold specRequest. destruct (kvKey r) as [k'|]; [|eauto]. case_bool_decide.
  - destruct (acceptedBody r) as [b|] eqn:Hb; [|eauto].
    intros [[_ <-]|[_ H']]%lookup_insert_Some; [by eapply acceptedBody_bound|eauto].
  - case_bool_decide; [|eauto]. intros [_ H']%lookup_delete_Some. eauto.
Qed.

Lemma length_substring s n : (n <= len s)%nat → len (String.substring 0 n s) = n.
Proof.
  revert n. induction s as [|c s IH]; intros [|n] Hn; simpl in *; [done|lia|done|].
  by rewrite IH by lia.
Qed.

(** The key of a request for a plain key. *)
Lemma kvKey_plain r k :
  rq_Method r ≠ "CONNECT" → rq_Path r = "/kv/" +:+ k → rq_EscapedPath r = "/kv/" +:+ k →
  no_byte slash k = true → no_byte "%"%char k = true → k ≠ "" →
  kvKey r = if bool_decide (k ∈ ["."; ".."]) then None else Some k.
Proof.
  intros Hm Hp He Hs Hpc Hne. case_bool_decide as Hdots; unfold kvKey, findHandler;
    rewrite (bool_decide_false (rq_Method r = _)), He, Hp by done.
  { rewrite !elem_of_cons, elem_of_nil in Hdots. by destruct Hdots as [->|[->|[]]]. }
  rewrite HasPrefix_app, TrimPrefix_app, (bool_decide_false (k = "")), (proj2 (ContainsByte_false k slash)) by done.
  change ("/kv/" +:+ k) with (String slash ("kv" +:+ String slash k)).
  rewrite !not_elem_of_cons in Hdots.
  rewrite cleanPath_two; [|by apply (bool_decide_unpack _)|rewrite !not_elem_of_cons; naive_solver|done|done].
  unfold slash_redirect, mux_match. rewrite firstSegment_two by done.
  rewrite (bool_decide_false (String slash k = "")), (bool_decide_true (String slash _ = _)) by done. done.
Qed.

(** The probes reach their handlers, whatever the method. *)
Lemma serve_probes now s method body :
  serve now s (mkRequest method "/readyz" "/readyz" body) = (Answer (readyz s), s) ∧
  serve now s (mkRequest method "/healthz" "/healthz" body) = (Answer healthz, s).
Proof.
  unfold serve, findHandler. cbn [rq_Method rq_EscapedPath rq_Path].
  by destruct (bool_decide (method = "CONNECT")).
Qed.

(** The server is ready exactly as long as no signal came. *)
Lemma ready_until_signal cfg p0 l p s :
  startRun cfg = Some p0 → steps p0 l p → server_of p = Some s →
  (sv_ready s = true ∧ LSignal ∉ l) ∨ (sv_ready s = false ∧ LSignal ∈ l).
Proof.
  intros Hstart Hsteps Hs. destruct (steps_server _ _ _ _ Hsteps Hs) as [s0 Hs0].
  destruct (startRun_serving _ _ _ Hstart Hs0) as [-> Hn].
  assert (sv_ready s0 = true) as Hr.
  { unfold newServer in Hn. destruct (NewStore _ _); by simplify_eq/=. }
  assert (match p with Serving s => sv_ready s = true ∧ LSignal ∉ l
                     | Draining s => sv_ready s = false ∧ LSignal ∈ l | Returned _ => True end) as H.
  { clear Hs. remember (Serving s0) as p0 eqn:Hp0. induction Hsteps as [p|p l p1 a p2 H1 IH H2].
    - subst p. split; [done|set_solver].
    - specialize (IH Hp0 Hs0 Hstart). inversion H2; subst; try done; simpl;
        rewrite ?serve_ready; destruct IH; split; (done || set_solver). }
  destruct p; simplify_eq/=; auto.
Qed.

(** ** Claims *)

(** C9: the cache never lies. Along any history of a running server - requests,
    background cleanup, the shutdown signal, with a clock that does not go back - a
    GET answered 200 returns exactly the body of the last PUT accepted for that key
    with no DELETE of the key since, and never more than a mebibyte. *)
Theorem cache_never_lies cfg p0 l p s now r k resp :
  startRun cfg = Some p0 → steps p0 l p → server_of p = Some s →
  StronglySorted Z.le (omap label_time l ++ [now]) →
  kvKey r = Some k → rq_Method r = MethodGet →
  (serve now s r).1 = Answer resp → rs_Code resp = 200 →
  specHistory l !! k = Some (rs_Body resp) ∧ Z.of_nat (len (rs_Body resp)) <= maxValueBytes.
Proof.
  intros Hstart Hsteps Hs [Hsort Hle]%StronglySorted_snoc Hk Hm Hserve Hcode.
  assert (specHistory l !! k = Some (rs_Body resp)) as Hspec; [|eauto using specHistory_bound].
  destruct (steps_server _ _ _ _ Hsteps Hs) as [s0 Hs0].
  destruct (startRun_serving _ _ _ Hstart Hs0) as [-> Hnew].
  pose proof (history_backed _ s0 _ _ s now Hsteps Hs0 (λ t, newServer_empty _ _ t Hnew) Hs Hsort Hle)
    as Hb.
  rewrite (serve_kv _ _ _ _ Hk), bool_decide_true in Hserve by done. unfold handleGet in Hserve.
  pose proof (Store_Get_value now (sv_store s) k) as Hv.
  destruct (Store_Get now (sv_store s) k) as [[v|] st]; simplify_eq/=.
  by apply (Hb now).
Qed.

(** A PUT on every branch: a body over one mebibyte is refused with 413 even if
    reading on would fail, a read error within the limit gives 400, and both leave
    the server unchanged; otherwise the answer is 204 and the whole body can be read
    back under the key at once. *)
Theorem put_branches now s r k :
  store_ok (sv_store s) → kvKey r = Some k → rq_Method r = MethodPut →
  let n := Z.of_nat (len (b_bytes (rq_Body r))) in
  (maxValueBytes < n → serve now s r = (Answer (http_Error "value too large" 413), s)) ∧
  (n <= maxValueBytes → ∀ e, b_err (rq_Body r) = Some e →
     serve now s r = (Answer (http_Error ("read body: " +:+ e) 400), s)) ∧
  (n <= maxValueBytes → b_err (rq_Body r) = None →
     (serve now s r).1 = Answer noContent ∧
     visible now (sv_store (serve now s r).2) !! k = Some (b_bytes (rq_Body r))).
Proof.
  intros Hok Hk Hm. cbv zeta. rewrite (serve_kv _ _ _ _ Hk), Hm. simpl. unfold handlePut, readLimited.
  assert (0 <= maxValueBytes) as HM by done. revert HM. generalize maxValueBytes as M. intros M HM.
  split_and!; [intros Hn|intros Hn e He|intros Hn He].
  - rewrite (proj2 (Z.leb_le _ _)) by lia. rewrite length_substring by lia.
    by rewrite (proj2 (Z.ltb_lt _ _)) by lia.
  - rewrite (proj2 (Z.leb_gt _ _)) by lia. by rewrite He.
  - rewrite (proj2 (Z.leb_gt _ _)) by lia. rewrite He, (proj2 (Z.ltb_ge _ _)) by lia.
    pose proof (Add_live now (st_lru (sv_store s)) k (b_bytes (rq_Body r)) now) as Ha.
    unfold Store_Put. destruct (lru_Add _ _ _ _) as [ev l]. simpl in *. split; [done|].
    unfold store_ok in Hok. destruct (bounds _) as [cap ttl]. simpl in *. apply Ha; lia.
Qed.

(** Only a 204 changes what the cache holds: after any request answered
    otherwise - a redirect, a read, an error of any kind - every later reader sees
    exactly what it would have seen without the request. *)
Theorem only_no_content_changes_contents now s r now' :
  (∀ resp, (serve now s r).1 = Answer resp → rs_Code resp ≠ 204) →
  visible now' (sv_store (serve now s r).2) = visible now' (sv_store s).
Proof.
  destruct (kvKey r) as [k|] eqn:E; [|by rewrite serve_not_kv].
  rewrite (serve_kv _ _ _ _ E). unfold handleGet, handlePut, handleDelete. intros H.
  case_bool_decide.
  { pose proof (Store_Get_visible now (sv_store s) k now').
    by destruct (Store_Get _ _ _) as [[v|] st]. }
  case_bool_decide.
  { destruct (readLimited _ _); [done|]. destruct (_ <? _); [done|].
    destruct (Store_Put _ _ _ _). by destruct (H noContent). }
  case_bool_decide; [|done]. pose proof (Store_Delete_visible (sv_store s) k now') as Hv.
  unfold Store_Delete in *. pose proof (Remove_value (st_lru (sv_store s)) k) as Hr.
  destruct (lru_Remove _ _) as [[] l]; simpl in *; [by destruct (H noContent)|].
  rewrite Hv. apply delete_id. apply eq_None_not_Some. intros Hk%live_keys.
  symmetry in Hr. by apply bool_decide_eq_false_1 in Hr.
Qed.

(** C26: readiness and shutdown. Run refuses a missing logger, an empty address and
    a capacity that is not positive, and otherwise starts without panicking. From then
    on a request for /readyz, by any method, is answered 200 as long as no signal came
    and 503 from the signal until Run returns, while one for /healthz is answered 200
    throughout; neither changes the server. *)
Theorem readyz_follows_shutdown cfg :
  (∃ p, startRun cfg = Some p ∧
     ((∃ e, p = Returned (Some e)) ↔ HasLogger cfg = false ∨ Listen cfg = "" ∨ Capacity cfg <= 0)) ∧
  ∀ p0 l p s now method body, startRun cfg = Some p0 → steps p0 l p → server_of p = Some s →
    (∃ resp, serve now s (mkRequest method "/readyz" "/readyz" body) = (Answer resp, s) ∧
       ((LSignal ∉ l) ∧ rs_Code resp = 200 ∨ LSignal ∈ l ∧ rs_Code resp = 503)) ∧
    (∃ resp, serve now s (mkRequest method "/healthz" "/healthz" body) = (Answer resp, s) ∧
       rs_Code resp = 200).
Proof.
  split.
  - unfold startRun, newServer, NewStore. destruct (HasLogger cfg); simpl; [|eexists; split; [done|]; naive_solver].
    case_bool_decide; [eexists; split; [done|]; naive_solver|].
    destruct (Capacity cfg <=? 0) eqn:Hc; [eexists; split; [done|]; split; [|naive_solver lia]; eauto with lia|].
    simpl. eexists. split; [done|]. split; [by intros [e He]|]. naive_solver lia.
  - intros p0 l p s now method body Hstart Hsteps Hs.
    destruct (serve_probes now s method body) as [-> ->]. split; [|by eexists].
    exists (readyz s). split; [done|]. unfold readyz.
    destruct (ready_until_signal cfg p0 l p s Hstart Hsteps Hs) as [[-> Hl]|[-> Hl]]; auto.
Qed.

(** The routes give every plain key its handler. A request for
    ["/kv/" ++ key] reaches the handlers with exactly that key whenever the key is
    not empty, has no slash and no percent sign, and is neither "." nor ".."; those
    two are redirected by the path cleaning and can never be stored. *)
Theorem plain_keys_are_routed r k :
  rq_Method r ≠ "CONNECT" → rq_Path r = "/kv/" +:+ k → rq_EscapedPath r = "/kv/" +:+ k →
  no_byte slash k = true → no_byte "%"%char k = true → k ≠ "" →
  kvKey r = if bool_decide (k ∈ ["."; ".."]) then None else Some k.
Proof. apply kvKey_plain. Qed.

End Server.
