(* ===== verification/Cli.v ===== *)
(** * The command-line programs: decisions

    cmd/cache-cli/main.go up to the HTTP request it sends or the text it prints,
    and the default configuration of cmd/tiny-cache/main.go. The flags are a record
    (parsing them is the flag package's), the kube client is a parameter, and the
    poller running in the background is the sequence of client states the program's
    accesses see. [CliRun] has what is around these decisions. *)

From S2P Require Import Prelude GoLib Json Sha1 Api Kube Names Ring Cell RingPublish HashRing.
From S2P Require Import Client Store Http Url Server.

Local Open Scope Z_scope.

Record cliFlags := mkFlags {
  fl_ns : string; fl_name : string; fl_port : Z; fl_poll : Z; fl_args : list string
}.

(** [types.NamespacedName{Namespace: *ns, Name: *name + "-ring"}] *)
Definition cliRingConfigMap (f : cliFlags) : NamespacedName := mkNN (fl_ns f) (fl_name f +:+ "-ring").

Definition cliServiceFQDN (f : cliFlags) : string :=
  fl_name f +:+ "." +:+ fl_ns f +:+ ".svc.cluster.local".

Definition cliConfig (f : cliFlags) : Client.Config :=
  mkConfig (cliRingConfigMap f) (cliServiceFQDN f) (fl_poll f).

(** How the program ends: [fatalf], a printout, one HTTP request, or a panic. *)
Inductive cliOutcome :=
  | Fatal (msg : string)
  | Printed (lines : list string)
  | Sent (method url : string) (body : option string)
  | Panicked.

(** ["%-15s"] *)
Definition padTo (n : nat) (s : string) : string :=
  s +:+ String.concat "" (replicate (n - len s) " ").

Definition sampleKeys : list string := ["foo"; "bar"; "baz"; "user-1234"; "session-abcd"; "orders-99"].

(** One line of the sample lookups; [None] if the lookup panics. *)
Definition infoLine (c : Client) (k : string) : option string :=
  match Lookup c k with
  | None => None
  | Some (inl e) => Some ("  " +:+ padTo 15 k +:+ " → ERROR " +:+ Error e)
  | Some (inr pod) => Some ("  " +:+ padTo 15 k +:+ " → " +:+ pod)
  end.

Definition cliInfo (f : cliFlags) (snap : nat → Client) : cliOutcome :=
  match mapM (λ p : nat * string, infoLine (snap p.1) p.2) (imap (λ i k, (S i, k)) sampleKeys) with
  | None => Panicked
  | Some ls => Printed (("ring version: " +:+ FormatInt (RingVersion (snap 0%nat))) ::
                        ("service FQDN: " +:+ cliServiceFQDN f) :: "sample lookups:" :: ls)
  end.

Definition cliUrl (f : cliFlags) (pod key : string) : string :=
  "http://" +:+ pod +:+ ":" +:+ FormatInt (fl_port f) +:+ "/kv/" +:+ key.

(** The switch over the operations. For a put and a delete the error of
    [http.NewRequest] is dropped, so that a URL that does not parse leaves a nil
    request, on which [Do] panics; for a get the URL is [http.Get]'s. *)
Definition keyRequest `{NI : NetIP} (op url : string) (vals : list string) : cliOutcome :=
  if bool_decide (op = "get") then Sent MethodGet url None
  else if bool_decide (op = "put") then
    match vals with
    | [] => Fatal "usage: cache-cli [flags] put <key> <value>"
    | v :: _ => if urlParses url then Sent MethodPut url (Some v) else Panicked
    end
  else if bool_decide (op = "delete") then if urlParses url then Sent MethodDelete url None else Panicked
  else Fatal ("unknown op: " +:+ op).

(** [kube]: loading the configuration and making the client, the error wrapped with
    which of the two failed; [snap i]: the state
    of the polling client at the program's [i]th access to it. *)
Definition cliMain `{NI : NetIP} (f : cliFlags) (kube : goerror + unit) (snap : nat → Client) : cliOutcome :=
  if bool_decide (fl_name f = "") then Fatal "--name is required"
  else match fl_args f with
  | [] => Fatal "usage: cache-cli [flags] {get|put|delete|info} <key> [value]"
  | op :: rest =>
      match kube with
      | inl e => Fatal (Error e)
      | inr _ =>
          if bool_decide (op = "info") then cliInfo f snap
          else match rest with
          | [] => Fatal "usage: cache-cli [flags] {get|put|delete} <key> [value]"
          | key :: vals =>
              match Lookup (snap 0%nat) key with
              | None => Panicked
              | Some (inl e) => Fatal ("lookup: " +:+ Error e)
              | Some (inr pod) => keyRequest op (cliUrl f pod key) vals
              end
          end
      end
  end.

(** cmd/tiny-cache: the flags' defaults. *)
Definition tinyCacheDefaults : Server.Config :=
  mkServerConfig ":8080" true 100000 (5 * 60 * Second).

Section Cli.
Context `{KL : KubeLib} `{SS : SliceSort} `{NI : NetIP}.

(** ** Claims *)

(** C28: given the namespace and name of a DistributedCache, the command-line client
    polls the ConfigMap the operator publishes and addresses pods under the Service
    the operator creates exactly when the cache's children live in its own
    namespace; for a cache in a cell it looks in the wrong namespace. *)
Theorem cli_finds_ring_unless_in_cell (cache : DistributedCache) f :
  fl_ns f = dc_Namespace cache → fl_name f = dc_Name cache →
  (cliRingConfigMap f = mkNN (targetNamespace cache) (ringConfigMapName cache) ↔
     isCrossNamespaceChild cache = false) ∧
  (isCrossNamespaceChild cache = false →
     cliServiceFQDN f = dc_Name cache +:+ "." +:+ targetNamespace cache +:+ ".svc.cluster.local").
Proof.
  intros Hns Hname. unfold cliRingConfigMap, cliServiceFQDN, ringConfigMapName, isCrossNamespaceChild.
  rewrite Hns, Hname, negb_false_iff, bool_decide_eq_true. split; [|by intros <-].
  split; [by intros [= <-]|by intros <-].
Qed.

Lemma cliInfo_prints f snap : (∀ i, client_ok (snap i)) → cliInfo f snap ≠ Panicked.
Proof.
  intros Hok. unfold cliInfo.
  assert (is_Some (mapM (λ p : nat * string, infoLine (snap p.1) p.2)
                     (imap (λ i k, (S i, k)) sampleKeys))) as [ls ->]; [|done].
  apply mapM_is_Some_2, Forall_forall. intros [i k] _. simpl. unfold infoLine.
  destruct (Lookup_cases _ k (Hok i)) as [[-> _]|(r & pod & _ & _ & ->)]; eauto.
Qed.

Lemma keyRequest_panics op url vals :
  keyRequest op url vals = Panicked ↔ (op = "put" ∧ vals ≠ [] ∨ op = "delete") ∧ urlParses url = false.
Proof.
  unfold keyRequest. destruct (urlParses url); repeat case_bool_decide; subst; destruct vals; naive_solver.
Qed.

Lemma keyRequest_sends op url vals method u body :
  keyRequest op url vals = Sent method u body →
  u = url ∧ (method = MethodPut ↔ op = "put") ∧ body = (if bool_decide (op = "put") then head vals else None).
Proof.
  unfold keyRequest. destruct (urlParses url); repeat case_bool_decide; subst; destruct vals; naive_solver.
Qed.


End Cli.
