(* ===== verification/CliRun.v ===== *)
(** * The command-line programs, from start to exit

    cmd/cache-cli/main.go around the decisions of [Cli]: loading the kube
    configuration, the bounded wait for the first poll, the HTTP exchange and what is
    printed of it; and cmd/tiny-cache/main.go. The kube libraries are parameters; a
    URL becomes a request the way net/url and net/http do it for the URLs the program
    forms. *)

From S2P Require Import Prelude GoLib Json Sha1 Api Kube Names Ring Cell RingPublish HashRing.
From S2P Require Import Client Store Http Url Server Cli.

Local Open Scope Z_scope.

(** ** time.Time *)

(** [t.Add(d)] and [t.Before(u)] *)
Definition t_Add (t : Time) (d : Z) : Time :=
  let ns := t_nsec t + d in mkTime (t_sec t + ns / Second) (ns mod Second).

Definition t_Before (t u : Time) : bool :=
  (t_sec t <? t_sec u) || ((t_sec t =? t_sec u) && (t_nsec t <? t_nsec u)).

Definition Millisecond : Z := 1000000.

(** ** loadRestConfig *)

(** In-cluster credentials first; else the kubeconfig at the given path, or at
    [~/.kube/config] when none is given. *)
Definition loadRestConfig {C} (inCluster : goerror + C) (userHomeDir : goerror + string)
    (buildConfig : string → goerror + C) (kubeconfigPath : string) : goerror + C :=
  match inCluster with
  | inr cfg => inr cfg
  | inl _ =>
      let build path := match buildConfig path with
                        | inl e => inl (Wrapf ("kubeconfig " +:+ path) e)
                        | inr cfg => inr cfg
                        end in
      if bool_decide (kubeconfigPath = "") then
        match userHomeDir with
        | inl e => inl (Wrapf "home dir" e)
        | inr home => build (home +:+ "/.kube/config")
        end
      else build kubeconfigPath
  end.

(** The configuration and the client made from it; scheme registration cannot fail
    for client-go's own kinds. *)
Definition cliKube {C} (cfg : goerror + C) (newClient : C → goerror + unit) : goerror + unit :=
  match cfg with
  | inl e => inl (Wrapf "kube config" e)
  | inr c => match newClient c with
             | inl e => inl (Wrapf "k8s client" e)
             | inr k8s => inr k8s
             end
  end.

(** ** The wait for the first poll *)

(** [for c.RingVersion() == 0 && time.Now().Before(deadline) { sleep }]: [snap i] and
    [now i] are the client and the clock at the [i]th test. The number of sleeps, or
    [None] when the fuel is used up. *)
Fixpoint waitLoop (fuel i : nat) (deadline : Time) (snap : nat → Client) (now : nat → Time) :
    option nat :=
  match fuel with
  | O => None
  | S fuel => if bool_decide (RingVersion (snap i) = 0) && t_Before (now i) deadline
              then waitLoop fuel (S i) deadline snap now else Some i
  end.

(** The deadline is five seconds after [start]. *)
Definition waitFirstPoll (fuel : nat) (start : Time) (snap : nat → Client) (now : nat → Time) : option nat :=
  waitLoop fuel 0 (t_Add start (5 * Second)) snap now.

(** ** The HTTP exchange *)

(** [http.StatusText] *)
Definition StatusText (code : Z) : string :=
  match code with
  | 100 => "Continue" | 101 => "Switching Protocols" | 102 => "Processing" | 103 => "Early Hints"
  | 200 => "OK" | 201 => "Created" | 202 => "Accepted" | 203 => "Non-Authoritative Information"
  | 204 => "No Content" | 205 => "Reset Content" | 206 => "Partial Content" | 207 => "Multi-Status"
  | 208 => "Already Reported" | 226 => "IM Used"
  | 300 => "Multiple Choices" | 301 => "Moved Permanently" | 302 => "Found" | 303 => "See Other"
  | 304 => "Not Modified" | 305 => "Use Proxy" | 307 => "Temporary Redirect" | 308 => "Permanent Redirect"
  | 400 => "Bad Request" | 401 => "Unauthorized" | 402 => "Payment Required" | 403 => "Forbidden"
  | 404 => "Not Found" | 405 => "Method Not Allowed" | 406 => "Not Acceptable"
  | 407 => "Proxy Authentication Required" | 408 => "Request Timeout" | 409 => "Conflict" | 410 => "Gone"
  | 411 => "Length Required" | 412 => "Precondition Failed" | 413 => "Request Entity Too Large"
  | 414 => "Request URI Too Long" | 415 => "Unsupported Media Type"
  | 416 => "Requested Range Not Satisfiable" | 417 => "Expectation Failed" | 418 => "I'm a teapot"
  | 421 => "Misdirected Request" | 422 => "Unprocessable Entity" | 423 => "Locked"
  | 424 => "Failed Dependency" | 425 => "Too Early" | 426 => "Upgrade Required"
  | 428 => "Precondition Required" | 429 => "Too Many Requests"
  | 431 => "Request Header Fields Too Large" | 451 => "Unavailable For Legal Reasons"
  | 500 => "Internal Server Error" | 501 => "Not Implemented" | 502 => "Bad Gateway"
  | 503 => "Service Unavailable" | 504 => "Gateway Timeout" | 505 => "HTTP Version Not Supported"
  | 506 => "Variant Also Negotiates" | 507 => "Insufficient Storage" | 508 => "Loop Detected"
  | 510 => "Not Extended" | 511 => "Network Authentication Required"
  | _ => EmptyString
  end.

(** What a process leaves: the lines on its standard output, the one on its standard
    error, its exit code. *)
Record exit := mkExit { stdout : list string; stderr : option string; code : Z }.

Definition fatalf (msg : string) : exit := mkExit [] (Some msg) 2.

(** The last part of [main]: send, and print the answer. [http] is [http.Get] for a
    get, an unparsable URL being one of its errors, and [http.DefaultClient.Do] of a
    request otherwise. [GET], [PUT] and [DELETE] are also the prefixes of the error
    messages. *)
Definition cliFinish (http : string → string → option string → goerror + Response) (o : cliOutcome) : exit :=
  match o with
  | Fatal msg => fatalf msg
  | Printed ls => mkExit ls None 0
  | Panicked => mkExit [] (Some "panic") 2
  | Sent method url body =>
      match http method url body with
      | inl e => fatalf (method +:+ ": " +:+ Error e)
      | inr resp =>
          mkExit (("→ " +:+ url) :: (FormatInt (rs_Code resp) +:+ " " +:+ StatusText (rs_Code resp)) ::
                  (if bool_decide (method = MethodGet) then [rs_Body resp] else [])) None 0
      end
  end.

(** *** From URL to request *)

(** The path of an [http://] URL: after the host, up to a query or fragment. *)
Definition urlPath (url : string) : string :=
  let '(_, rest) := until (λ c, bool_decide (c = slash)) (TrimPrefix url "http://") in
  (until (λ c, bool_decide (c = "?"%char) || bool_decide (c = "#"%char)) rest).1.

(** Bytes a host name is made of, and bytes net/url leaves as they are in a path
    segment. *)
Definition hostByte (c : Ascii.ascii) : bool :=
  let n := Z.of_nat (Ascii.nat_of_ascii c) in
  (97 <=? n) && (n <=? 122) || (65 <=? n) && (n <=? 90) || (48 <=? n) && (n <=? 57) ||
  bool_decide (c = "-"%char) || bool_decide (c = "."%char).

Definition pathByte (c : Ascii.ascii) : bool :=
  hostByte c || bool_decide (c ∈ ["_"; "~"; "$"; "&"; "+"; ","; ":"; ";"; "="; "@"]%char).

(** The request a client sends for an [http://] URL whose host and path are made of
    such bytes: nothing is escaped. *)
Definition requestOf (method url : string) (body : option string) : Request :=
  mkRequest method (urlPath url) (urlPath url) (mkBody (default "" body) None).

(** ** tiny-cache *)

Definition tinyConfig (listen : string) (capacity ttl : Z) : Server.Config :=
  mkServerConfig listen true capacity ttl.

(** [main] once [cache.Run] has returned. *)
Definition tinyMain (run : option goerror) : exit :=
  match run with
  | Some e => mkExit [] (Some ("tiny-cache: " +:+ Error e)) 1
  | None => mkExit [] None 0
  end.

(** ** Time *)

Definition t_ns (t : Time) : Z := t_sec t * Second + t_nsec t.
Definition normal (t : Time) : Prop := 0 <= t_nsec t < Second.

Lemma t_ns_Add t d : t_ns (t_Add t d) = t_ns t + d ∧ normal (t_Add t d).
Proof.
  unfold t_ns, t_Add, normal, Second. simpl.
  pose proof (Z.div_mod (t_nsec t + d) 1000000000 ltac:(lia)).
  pose proof (Z.mod_pos_bound (t_nsec t + d) 1000000000 ltac:(lia)). lia.
Qed.

Lemma t_Before_ns t u : normal t → normal u → t_Before t u = true ↔ t_ns t < t_ns u.
Proof. unfold t_Before, t_ns, normal, Second. intros. lia. Qed.

Lemma waitLoop_stops start snap now k i fuel :
  (∀ j, normal (now j) ∧ t_ns start + Z.of_nat j * (50 * Millisecond) <= t_ns (now j)) →
  (i + k = 100)%nat → (k < fuel)%nat →
  ∃ n, waitLoop fuel i (t_Add start (5 * Second)) snap now = Some n ∧ (i <= n <= 100)%nat ∧
    (RingVersion (snap n) ≠ 0 ∨ t_Before (now n) (t_Add start (5 * Second)) = false).
Proof.
  intros Hnow. revert i fuel. induction k as [|k IH]; intros i [|fuel] Hik Hf; try lia; simpl.
  - destruct (t_ns_Add start (5 * Second)) as [Hd Hn]. destruct (Hnow i) as [Hi Hge].
    assert (t_Before (now i) (t_Add start (5 * Second)) = false) as Hb.
    { apply not_true_is_false. rewrite t_Before_ns, Hd by done. assert (i = 100%nat) as -> by lia.
      unfold Millisecond, Second in *. lia. }
    rewrite Hb, andb_false_r. exists i. split_and!; [done|lia|lia|by right].
  - case_bool_decide as Hv; simpl; [|by exists i; split_and!; [done|lia|lia|left]].
    destruct (t_Before _ _) eqn:Hb; [|by exists i; split_and!; [done|lia|lia|right]].
    destruct (IH (S i) fuel) as (n & H1 & H2 & H3); [lia|lia|]. exists n. split_and!; [done|lia|lia|done].
Qed.

(** ** URLs *)

Definition no_query (k : string) : bool :=
  str_forall (λ c, negb (bool_decide (c = "?"%char) || bool_decide (c = "#"%char))) k.

(** The bytes with a meaning in URLs are not among them. *)
Lemma hostByte_no_slash s : str_forall hostByte s = true → no_byte slash s = true.
Proof. apply str_forall_impl. by intros [[][][][][][][][]]. Qed.

Lemma pathByte_plain s :
  str_forall pathByte s = true → no_byte slash s = true ∧ no_byte "%"%char s = true ∧ no_query s = true.
Proof. intros Hs. split_and!; (apply (str_forall_impl pathByte); [|done]); by intros [[][][][][][][][]]. Qed.

Lemma FormatInt_no_slash n : 0 <= n → no_byte slash (FormatInt n) = true.
Proof.
  intros Hn. apply (str_forall_impl is_digit); [|by apply FormatInt_digits]. by intros [[][][][][][][][]].
Qed.

Lemma urlPath_cliUrl f pod k rest :
  str_forall hostByte pod = true → 0 <= fl_port f → no_query k = true →
  (rest = "" ∨ ∃ c r, rest = String c r ∧ (c = "?"%char ∨ c = "#"%char)) →
  urlPath (cliUrl f pod (k +:+ rest)) = "/kv/" +:+ k.
Proof.
  intros Hpod%hostByte_no_slash Hport Hk Hrest. unfold urlPath, cliUrl. rewrite TrimPrefix_app.
  assert (pod +:+ ":" +:+ FormatInt (fl_port f) +:+ "/kv/" +:+ (k +:+ rest) =
    (pod +:+ ":" +:+ FormatInt (fl_port f)) +:+ (("/kv/" +:+ k) +:+ rest)) as ->.
  { by rewrite !string_app_assoc. }
  rewrite until_app; cycle 1.
  - rewrite !str_forall_app. unfold no_byte in Hpod. rewrite Hpod.
    pose proof (FormatInt_no_slash _ Hport) as Hp. unfold no_byte in Hp. by rewrite Hp.
  - right. by eexists slash, _.
  - rewrite until_app; [done| |].
    + rewrite str_forall_app. unfold no_query in Hk. by rewrite Hk.
    + destruct Hrest as [->|(c & r & -> & [->| ->])]; [by left|right; by eexists _, _..].
Qed.

(** *** URLs that parse *)

Definition authorityByte (c : Ascii.ascii) : bool := hostByte c || bool_decide (c = ":"%char).

Lemma bytes_impl (P Q : Ascii.ascii → bool) s :
  (∀ c, implb (P c) (Q c) = true) → str_forall P s = true → str_forall Q s = true.
Proof. intros H. apply str_forall_impl. intros c Hc. specialize (H c). by rewrite Hc in H. Qed.

Lemma authority_bytes f pod :
  str_forall hostByte pod = true → 0 <= fl_port f →
  str_forall authorityByte (pod +:+ ":" +:+ FormatInt (fl_port f)) = true.
Proof.
  intros Hpod Hport. rewrite !str_forall_app. apply andb_true_iff. split; [|apply andb_true_iff; split; [done|]].
  - revert Hpod. apply bytes_impl. by intros [[][][][][][][][]].
  - pose proof (FormatInt_digits _ Hport) as Hd. revert Hd. apply bytes_impl. by intros [[][][][][][][][]].
Qed.

Lemma parseAuthority_plain `{NI : NetIP} f pod :
  str_forall hostByte pod = true → 0 <= fl_port f →
  parseAuthority (pod +:+ ":" +:+ FormatInt (fl_port f)) = true.
Proof.
  intros Hpod Hport. pose proof (authority_bytes f pod Hpod Hport) as Ha. unfold parseAuthority.
  assert (∀ c, bool_decide (c ∈ ["@"; "["; "%"]%char) = true →
    no_byte c (pod +:+ ":" +:+ FormatInt (fl_port f)) = true) as Hno.
  { intros c Hc%bool_decide_eq_true. revert Ha. apply bytes_impl. rewrite !elem_of_cons, elem_of_nil in Hc.
    destruct Hc as [->|[->|[->|[]]]]; by intros [[][][][][][][][]]. }
  rewrite cutLast_none by by apply Hno. unfold parseHost. rewrite cutLast_none by by apply Hno.
  change (":" +:+ FormatInt (fl_port f)) with (String ":"%char (FormatInt (fl_port f))) at 1.
  pose proof (FormatInt_digits _ Hport) as Hd. rewrite cutLast_app; cycle 1.
  { revert Hd. apply bytes_impl. by intros [[][][][][][][][]]. }
  cbn [validOptionalPort]. rewrite Hd. apply unescapes_plain; [by apply Hno|].
  revert Ha. apply bytes_impl. by intros [[][][][][][][][]].
Qed.

Lemma cliUrl_split f pod k :
  cliUrl f pod k = "http://" +:+ ((pod +:+ ":" +:+ FormatInt (fl_port f)) +:+ ("/kv/" +:+ k)).
Proof. unfold cliUrl. by rewrite !string_app_assoc. Qed.

(** The path is what decides, as long as it has no query and no fragment. *)
Lemma urlParses_path `{NI : NetIP} f pod k :
  str_forall hostByte pod = true → 0 <= fl_port f → no_query k = true →
  str_forall (λ c, negb (controlByte c)) k = true →
  urlParses (cliUrl f pod k) = unescapesPart ("/kv/" +:+ k).
Proof.
  intros Hpod Hport Hq Hc. rewrite cliUrl_split. unfold urlParses.
  pose proof (authority_bytes f pod Hpod Hport) as Ha. set (a := pod +:+ ":" +:+ FormatInt (fl_port f)) in *.
  assert (∀ c, bool_decide (c ∈ ["#"; "?"]%char) = true → no_byte c a = true ∧ no_byte c k = true) as Hno.
  { intros c Hin%bool_decide_eq_true. rewrite !elem_of_cons, elem_of_nil in Hin. unfold no_query in Hq.
    split; [revert Ha|revert Hq]; apply bytes_impl; destruct Hin as [->|[->|[]]]; by intros [[][][][][][][][]]. }
  assert (∀ c p, bool_decide (c ∈ ["#"; "?"]%char) = true → no_byte c p = true →
    no_byte c (p +:+ (a +:+ ("/kv/" +:+ k))) = true) as Hnoall.
  { intros c p Hin Hp. destruct (Hno c Hin) as [H1 H2]. unfold no_byte in *. rewrite !str_forall_app, Hp, H1, H2.
    apply bool_decide_eq_true in Hin. rewrite !elem_of_cons, elem_of_nil in Hin. by destruct Hin as [->|[->|[]]]. }
  rewrite cutAt_none by by apply Hnoall. rewrite TrimPrefix_app. rewrite cutAt_none by by apply (Hnoall _ "").
  rewrite until_app; cycle 1.
  - revert Ha. apply bytes_impl. by intros [[][][][][][][][]].
  - right. by eexists slash, _.
  - unfold a at 2. rewrite parseAuthority_plain by done. rewrite !str_forall_app, Hc.
    assert (str_forall (λ c, negb (controlByte c)) a = true) as ->
      by (revert Ha; apply bytes_impl; by intros [[][][][][][][][]]).
    by rewrite andb_true_r.
Qed.

Lemma urlParses_plain `{NI : NetIP} f pod k :
  str_forall hostByte pod = true → 0 <= fl_port f → str_forall pathByte k = true →
  urlParses (cliUrl f pod k) = true.
Proof.
  intros Hpod Hport Hk. pose proof (pathByte_plain k Hk) as (_ & Hp & Hq). rewrite urlParses_path; [|done..|].
  - apply unescapes_plain; [unfold no_byte in *; by rewrite str_forall_app, Hp|].
    apply (str_forall_impl (λ _, true)); [done|]. induction ("/kv/" +:+ k); [done|]. done.
  - revert Hk. apply bytes_impl. by intros [[][][][][][][][]].
Qed.

(** A percent sign in the key that starts no escape. *)
Lemma urlParses_bad_escape `{NI : NetIP} f pod a t :
  str_forall hostByte pod = true → 0 <= fl_port f → no_byte "%"%char a = true →
  no_query (a +:+ "%" +:+ t) = true → str_forall (λ c, negb (controlByte c)) (a +:+ "%" +:+ t) = true →
  (∀ x y t', t = String x (String y t') → hex_val x = None ∨ hex_val y = None) →
  urlParses (cliUrl f pod (a +:+ "%" +:+ t)) = false.
Proof.
  intros Hpod Hport Ha Hq Hc Ht. rewrite urlParses_path by done.
  rewrite string_app_assoc. apply unescapes_bad; [|done]. unfold no_byte in *. by rewrite str_forall_app, Ha.
Qed.

(** A key the server stores under its own name. *)
Record plainKey (k : string) : Prop := {
  pk_bytes : str_forall pathByte k = true;
  pk_named : k ∉ [""; "."; ".."]
}.

Section CliServer.
Context `{L : LRU} `{NI : NetIP}.

(** The requests of the program, as the server reads them. *)
Lemma cli_request_key f pod k method body rest :
  str_forall hostByte pod = true → 0 <= fl_port f → plainKey k → method ≠ "CONNECT" →
  (rest = "" ∨ ∃ c r, rest = String c r ∧ (c = "?"%char ∨ c = "#"%char)) →
  kvKey (requestOf method (cliUrl f pod (k +:+ rest)) body) = Some k.
Proof.
  intros Hpod Hport [(Hs & Hp & Hq)%pathByte_plain Hn] Hm Hrest. rewrite !not_elem_of_cons in Hn.
  pose proof (urlPath_cliUrl f pod k rest Hpod Hport Hq Hrest) as Hu.
  rewrite (kvKey_plain _ k); [|done|exact Hu|exact Hu|done|done|naive_solver].
  rewrite bool_decide_false; [done|]. rewrite !elem_of_cons, elem_of_nil. naive_solver.
Qed.

(** The answer as the program's HTTP client sees it; the paths it asks for are not
    redirected. *)
Definition answerOf (a : served) : goerror + Response :=
  match a with
  | Answer r => inr r
  | Redirect p => inl (ApiError false ("unexpected redirect to " +:+ p))
  end.

Lemma serve_put now s f pod k v :
  str_forall hostByte pod = true → 0 <= fl_port f → plainKey k → Z.of_nat (len v) <= maxValueBytes →
  serve now s (requestOf MethodPut (cliUrl f pod k) (Some v)) =
    (Answer noContent, mkServer (Store_Put now (sv_store s) k v).2 (sv_ready s)).
Proof.
  intros Hpod Hport Hk Hv.
  pose proof (cli_request_key f pod k MethodPut (Some v) "" Hpod Hport Hk ltac:(done) ltac:(by left)) as Hkey.
  rewrite string_app_nil_r in Hkey. rewrite (serve_kv _ _ _ k Hkey).
  change (rq_Method (requestOf MethodPut _ _)) with MethodPut.
  rewrite bool_decide_false, bool_decide_true by done. unfold handlePut, readLimited. cbn [requestOf rq_Body b_bytes b_err from_option id].
  rewrite (proj2 (Z.leb_gt (maxValueBytes + 1) (Z.of_nat (len v)))), (proj2 (Z.ltb_ge maxValueBytes (Z.of_nat (len v)))) by lia.
  by destruct (Store_Put now (sv_store s) k v).
Qed.

Lemma serve_get now s f pod k :
  str_forall hostByte pod = true → 0 <= fl_port f → plainKey k →
  serve now s (requestOf MethodGet (cliUrl f pod k) None) =
    (Answer (handleGet now s k).1, (handleGet now s k).2).
Proof.
  intros Hpod Hport Hk.
  pose proof (cli_request_key f pod k MethodGet None "" Hpod Hport Hk ltac:(done) ltac:(by left)) as Hkey.
  rewrite string_app_nil_r in Hkey. rewrite (serve_kv _ _ _ k Hkey).
  change (rq_Method (requestOf MethodGet _ _)) with MethodGet.
  rewrite bool_decide_true by done. by destruct (handleGet now s k).
Qed.

(** ** Claims *)

(** C31: from command to command: a put of a plain key ([plainKey]: letters, digits and
    a few signs) and a value of at most 1 MiB through cache-cli, answered by a running
    tiny-cache, followed within the time to live by a get through
    cache-cli against the same server, prints "204 No Content" and then "200 OK"
    with exactly the value, and both programs exit with 0 - provided both runs see a
    ring that sends the key to that server's pod. *)
Theorem cli_put_then_get f1 f2 snap1 snap2 pod k v s now now' :
  fl_name f1 ≠ "" → fl_name f2 ≠ "" → fl_args f1 = ["put"; k; v] → fl_args f2 = ["get"; k] →
  0 <= fl_port f1 → 0 <= fl_port f2 →
  Lookup (snap1 0%nat) k = Some (inr pod) → Lookup (snap2 0%nat) k = Some (inr pod) →
  str_forall hostByte pod = true → plainKey k → Z.of_nat (len v) <= maxValueBytes →
  store_ok (sv_store s) → now <= now' <= now + st_defaultTTL (sv_store s) →
  let s1 := (serve now s (requestOf MethodPut (cliUrl f1 pod k) (Some v))).2 in
  let http t srv := λ method url body, answerOf (serve t srv (requestOf method url body)).1 in
  cliFinish (http now s) (cliMain f1 (inr tt) snap1) =
    mkExit ["→ " +:+ cliUrl f1 pod k; "204 No Content"] None 0 ∧
  cliFinish (http now' s1) (cliMain f2 (inr tt) snap2) =
    mkExit ["→ " +:+ cliUrl f2 pod k; "200 OK"; v] None 0.
Proof.
  intros Hn1 Hn2 Ha1 Ha2 Hp1 Hp2 Hl1 Hl2 Hpod Hk Hv Hok Hle. cbv zeta.
  assert (cliMain f1 (inr tt) snap1 = Sent MethodPut (cliUrl f1 pod k) (Some v)) as ->.
  { unfold cliMain. rewrite Ha1, (bool_decide_false (fl_name f1 = "")) by done. simpl. rewrite Hl1.
    unfold keyRequest. simpl. by rewrite (urlParses_plain f1 pod k Hpod Hp1 (pk_bytes _ Hk)). }
  assert (cliMain f2 (inr tt) snap2 = Sent MethodGet (cliUrl f2 pod k) None) as ->.
  { unfold cliMain. rewrite Ha2, (bool_decide_false (fl_name f2 = "")) by done. simpl. by rewrite Hl2. }
  cbn [cliFinish]. rewrite serve_put by done. split; [done|].
  cbn [snd]. rewrite serve_get by done. cbn [fst answerOf].
  assert ((Store_Get now' (Store_Put now (sv_store s) k v).2 k).1 = Some v) as Hget.
  { rewrite Store_Get_value. unfold Store_Put, visible. unfold store_ok in Hok.
    pose proof (Add_live now (st_lru (sv_store s)) k v now') as H.
    destruct (bounds (st_lru (sv_store s))) as [n ttl]. destruct Hok as (Hn & _ & Httl & _).
    destruct (lru_Add _ _ _ _) as [e l]. simpl in *. apply H; [done|lia]. }
  unfold handleGet. cbn [sv_store]. destruct (Store_Get now' _ k) as [o st]. simpl in Hget. by rewrite Hget.
Qed.

(** C40: the key is not escaped. cache-cli sends a plain key to the handler of that
    very key; but of a key that contains a question mark or a hash sign only the part
    before it reaches the server, so the value is stored under, and read from, another
    key than the one the pod was chosen for. *)
Theorem cli_key_cut_at_query f pod k rest method body :
  str_forall hostByte pod = true → 0 <= fl_port f → plainKey k → str_forall pathByte rest = true →
  method ≠ "CONNECT" →
  kvKey (requestOf method (cliUrl f pod k) body) = Some k ∧
  kvKey (requestOf method (cliUrl f pod (k +:+ "?" +:+ rest)) body) = Some k ∧
  kvKey (requestOf method (cliUrl f pod (k +:+ "#" +:+ rest)) body) = Some k.
Proof.
  intros Hpod Hport Hk _ Hm. split_and!.
  - pose proof (cli_request_key f pod k method body "" Hpod Hport Hk Hm ltac:(by left)) as H.
    by rewrite string_app_nil_r in H.
  - apply cli_request_key; [done..|]. right. eexists _, rest. split; [reflexivity|by left].
  - apply cli_request_key; [done..|]. right. eexists _, rest. split; [reflexivity|by right].
Qed.

(** C32: the wait for the first poll is bounded: with a clock that a sleep of fifty
    milliseconds moves forward by at least that much, the loop ends after at most a
    hundred sleeps for any fuel above that, and when it ends either a ring is loaded
    or five seconds have passed. *)
Theorem cli_wait_terminates fuel start snap now :
  normal (now 0%nat) → t_ns start <= t_ns (now 0%nat) →
  (∀ i, normal (now (S i)) ∧ t_ns (now i) + 50 * Millisecond <= t_ns (now (S i))) → (100 < fuel)%nat →
  ∃ n, waitFirstPoll fuel start snap now = Some n ∧ (n <= 100)%nat ∧
    (RingVersion (snap n) ≠ 0 ∨ t_ns start + 5 * Second <= t_ns (now n)).
Proof.
  intros H0 Hs Hi Hf.
  assert (∀ j, normal (now j) ∧ t_ns start + Z.of_nat j * (50 * Millisecond) <= t_ns (now j)) as Hnow.
  { intros j. induction j as [|j [_ IH]]; [by split; [|lia]|]. destruct (Hi j) as [H1 H2]. split; [done|lia]. }
  destruct (waitLoop_stops start snap now 100 0 fuel Hnow) as (n & H1 & H2 & H3); [done|done|].
  exists n. split_and!; [done|lia|]. destruct H3 as [H3|H3]; [by left|right].
  destruct (t_ns_Add start (5 * Second)) as [Hd Hn]. apply not_true_iff_false in H3.
  rewrite t_Before_ns, Hd in H3 by (done || apply Hnow). lia.
Qed.

(** Where the kube configuration comes from. In-cluster credentials win; without
    them a given path is used as it is and an empty one means the file below the
    home directory; every failure names its cause and nothing else is tried. *)
Theorem loadRestConfig_order {C} (inCluster : goerror + C) home build path :
  match inCluster with
  | inr cfg => loadRestConfig inCluster home build path = inr cfg
  | inl _ =>
      (path ≠ "" → ∀ cfg, loadRestConfig inCluster home build path = inr cfg ↔ build path = inr cfg) ∧
      (path = "" → ∀ cfg, loadRestConfig inCluster home build path = inr cfg ↔
         ∃ h, home = inr h ∧ build (h +:+ "/.kube/config") = inr cfg) ∧
      (path = "" → ∀ e, home = inl e → loadRestConfig inCluster home build path = inl (Wrapf "home dir" e))
  end.
Proof.
  unfold loadRestConfig. destruct inCluster as [e0|cfg0]; [|done]. split_and!.
  - intros Hp cfg. rewrite bool_decide_false by done. destruct (build path); split; congruence.
  - intros -> cfg. rewrite bool_decide_true by done. destruct home as [e|h].
    + split; [done|]. by intros (h & [=] & _).
    + destruct (build _) eqn:E; split.
      * done.
      * intros (h' & [= <-] & H). congruence.
      * intros [= ->]. eauto.
      * intros (h' & [= <-] & H). congruence.
  - intros -> e ->. by rewrite bool_decide_true.
Qed.

(** Without a client the program ends before any lookup, naming what failed. *)
Lemma cli_without_kube {C} f (cfg : goerror + C) newClient snap http e :
  fl_name f ≠ "" → fl_args f ≠ [] → cliKube cfg newClient = inl e →
  cliFinish http (cliMain f (cliKube cfg newClient) snap) = mkExit [] (Some (Error e)) 2 ∧
  ∃ e', e = Wrapf "kube config" e' ∧ cfg = inl e' ∨ e = Wrapf "k8s client" e' ∧ ∃ c, cfg = inr c ∧ newClient c = inl e'.
Proof.
  intros Hn Ha He. rewrite He. unfold cliMain. rewrite bool_decide_false by done.
  destruct (fl_args f); [done|]. split; [done|]. unfold cliKube in He.
  destruct cfg as [e0|c]; [injection He as <-; eauto|].
  destruct (newClient c) as [e0|] eqn:Hc; [injection He as <-|done]. eauto 10.
Qed.

(** tiny-cache with its default flags serves; with a capacity that is not positive,
    or no listen address, it exits with 1 and says why. *)
Lemma tiny_cache_exit listen capacity ttl e :
  startRun (tinyConfig listen capacity ttl) = Some (Returned (Some e)) →
  (listen = "" ∨ capacity <= 0) ∧ code (tinyMain (Some e)) = 1.
Proof.
  unfold startRun, tinyConfig. simpl. case_bool_decide; [by split; [left|]|].
  destruct (capacity <=? 0) eqn:Hc; [split; [right; lia|done]|].
  by destruct (newServer _).
Qed.

End CliServer.
