(* ===== verification/Scenario.v ===== *)
(** * Concrete runs

    A sample cache in the in-memory cluster of [KubeRef]: the witnesses of the
    theorems about whole passes, and the runs behind the findings. *)

From S2P Require Import Prelude GoLib Json Api Kube KubeRef Names Ring Cell Workload Status.
From S2P Require Import RingPublish Drain Reconciler Passes.

#[local] Existing Instance refKube.
#[local] Existing Instance merge_SliceSort.
Local Open Scope Z_scope.

(** ** A sample cluster *)

(** [s] seconds into the scenario. *)
Definition clockAt (s : Z) : Time := mkTime (unixToInternal + 1000 + s) 0.

Definition sampleSpec (n : Z) (iso : bool) : DistributedCacheSpec :=
  mkSpec (Some n) "tiny-cache:dev" (134217728 : Z) (mkDrainSpec 30) (Some (mkTenantSpec iso)).

Definition sampleMeta : ObjectMeta := newMeta "orders-cache" "default".

Definition sampleCache (n : Z) (iso : bool) : DistributedCache :=
  mkCache sampleMeta (sampleSpec n iso) (mkStatus [] 0 0 (mkRingStatus 0 [] "")).

Definition samplePod (ns : string) (i : Z) : Pod :=
  mkPod (om_set_Labels (λ _, podLabels (sampleCache 3 false))
           (newMeta (podNameOf "orders-cache" i) ns))
    PodRunning [mkPodCondition PodReady ConditionTrue].

Definition sampleReq : NamespacedName := mkNN "default" "orders-cache".

Definition pass (c : Cluster) : Cluster := (run (Reconcile sampleReq) c).1.
Definition passResult (c : Cluster) : Result * option goerror := (run (Reconcile sampleReq) c).2.
Definition passTrace (c : Cluster) : list event := (interp server (Reconcile sampleReq) c).1.2.

Definition addPods (ns : string) (idx : list Z) (c : Cluster) : Cluster :=
  foldr (λ i c, @put KPod (samplePod ns i) c) c idx.

(** Edit the stored cache. *)
Definition editCache (f : DistributedCache → DistributedCache) (c : Cluster) : Cluster :=
  match store c KDistributedCache !! ("default", "orders-cache") with
  | Some d => @put KDistributedCache (f d) c
  | None => c
  end.

Definition scaleTo (n : Z) : Cluster → Cluster :=
  editCache (λ d, mkCache (dc_meta d) (sampleSpec n false) (Status d)).

Definition markDeleted (at_ : Time) : Cluster → Cluster :=
  editCache (λ d, mkCache (deleted at_ (dc_meta d)) (Spec d) (Status d)).

(** Three ready pods, ring at version 1. *)
Definition steady : Cluster :=
  pass (addPods "default" [0; 1; 2]
    (pass (pass (@put KDistributedCache (sampleCache 3 false) (emptyCluster (clockAt 0)))))).

Definition publishedRing (c : Cluster) : option Ring :=
  (λ cm : ConfigMap, currentRing (Data cm)) <$> store c KConfigMap !! ("default", "orders-cache-ring").

Definition stsReplicas (c : Cluster) : option Z :=
  store c KStatefulSet !! ("default", "orders-cache") ≫= λ s : StatefulSet, sts_Replicas (sts_Spec s).

Example steady_ring : publishedRing steady =
  Some (mkRing 1 ["orders-cache-0"; "orders-cache-1"; "orders-cache-2"]) ∧ stsReplicas steady = Some 3.
Proof. vm_compute. done. Qed.

(** A scale-down to one replica at second 10, drained at second 40. *)
Definition draining : Cluster := pass (at_time (clockAt 10) (scaleTo 1 steady)).
Definition drainedOut : Cluster := at_time (clockAt 40) draining.

Example draining_ring : publishedRing draining = Some (mkRing 2 ["orders-cache-0"]) ∧
  stsReplicas draining = Some 3 ∧
  passResult (at_time (clockAt 39) draining) = (requeueAfter 2, None) ∧
  stsReplicas (pass (at_time (clockAt 39) draining)) = Some 3 ∧
  stsReplicas (pass drainedOut) = Some 1.
Proof. vm_compute. done. Qed.

(** ** Witnesses *)

Definition eventAt (c : Cluster) (n : nat) : event := default (ev ONow (clock c)) (passTrace c !! n).

Lemma passTrace_split c n :
  (n <? length (passTrace c))%nat = true →
  passTrace c = take n (passTrace c) ++ eventAt c n :: drop (S n) (passTrace c).
Proof.
  intros H%Nat.ltb_lt. destruct (lookup_lt_is_Some_2 _ _ H) as [e He].
  unfold eventAt. rewrite He. simpl. by rewrite take_drop_middle.
Qed.

Definition threeReplicas : StatefulSet :=
  mkStatefulSet sampleMeta (mkStatefulSetSpec (Some 3) "" None "" ∅ None []).

Lemma scale_down_only_after_drain_witness :
  lowersReplicas (projT1 (eventAt drainedOut 5)) ∧
  ∃ cache : DistributedCache,
    ev (OGet KDistributedCache sampleReq) (inr cache) ∈ take 5 (passTrace drainedOut) ∧
    scaleDownEvidence cache (take 5 (passTrace drainedOut)) ∧
    ∀ key (sts : StatefulSet), ev (OGet KStatefulSet key) (inr sts) ∈ take 5 (passTrace drainedOut) →
      lowersOn (projT1 (eventAt drainedOut 5)) sts = true →
      doomedSeenDrained cache (default 0 (sts_Replicas (sts_Spec sts))) (take 5 (passTrace drainedOut)).
Proof.
  assert (lowersReplicas (projT1 (eventAt drainedOut 5))) as Hlow.
  { apply (lowersOn_sound _ threeReplicas). vm_compute. reflexivity. }
  split; [exact Hlow|].
  apply (scale_down_only_after_drain sampleReq (passTrace drainedOut)
    (interp server (Reconcile sampleReq) drainedOut).2 _ (eventAt drainedOut 5)
    (drop 6 (passTrace drainedOut))); [apply runs_interp| |exact Hlow].
  apply passTrace_split. vm_compute. reflexivity.
Defined.

(** A deletion, drained and then released. *)
Definition deletedDrained : Cluster :=
  at_time (clockAt 40) (pass (at_time (clockAt 10) (markDeleted (clockAt 10) steady))).

Example deletion_run :
  passResult (at_time (clockAt 10) (markDeleted (clockAt 10) steady)) = (requeueAfter 2, None) ∧
  passResult deletedDrained = (done_, None) ∧
  bool_decide (store (pass deletedDrained) KDistributedCache = ∅) = true.
Proof. vm_compute. done. Qed.

Lemma finalizer_released_only_after_drain_witness :
  releasesFinalizer (projT1 (eventAt deletedDrained 5)) ∧
  ∃ cache : DistributedCache,
    ev (OGet KDistributedCache sampleReq) (inr cache) ∈ take 5 (passTrace deletedDrained) ∧
    om_DeletionTimestamp (dc_meta cache) ≠ None ∧
    releaseEvidence cache (take 5 (passTrace deletedDrained)).
Proof.
  assert (releasesFinalizer (projT1 (eventAt deletedDrained 5))) as Hrel.
  { apply (bool_decide_unpack _). vm_compute. exact I. }
  split; [exact Hrel|].
  apply (finalizer_released_only_after_drain sampleReq (passTrace deletedDrained)
    (interp server (Reconcile sampleReq) deletedDrained).2 _ (eventAt deletedDrained 5)
    (drop 6 (passTrace deletedDrained))); [apply runs_interp| |exact Hrel].
  apply passTrace_split. vm_compute. reflexivity.
Defined.

(** ** Witnesses for the parts *)

Definition samplePods : list Pod := samplePod "default" <$> [0; 1; 2].

Definition cell : DistributedCache := sampleCache 3 true.

Lemma computeMembers_selects_servable_pods_witness :
  "orders-cache-1" ∈ computeMembers samplePods ∧ NoDup (computeMembers samplePods).
Proof.
  assert (NoDup (pod_Name <$> samplePods)) as Hnd by (apply (bool_decide_unpack _); vm_compute; exact I).
  destruct (computeMembers_selects_servable_pods samplePods Hnd) as (_ & H & _).
  split; [|exact H]. apply (bool_decide_unpack _). vm_compute. exact I.
Defined.

Lemma members_independent_of_listing_order_witness :
  computeMembers samplePods = computeMembers (reverse samplePods).
Proof.
  apply (members_independent_of_listing_order merge_SliceSort merge_SliceSort "orders-cache").
  - symmetry. apply reverse_Permutation.
  - intros p Hp. unfold samplePods in Hp. apply list_elem_of_fmap in Hp as (i & -> & Hi).
    exists i. split; [|reflexivity]. rewrite !elem_of_cons, elem_of_nil in Hi.
    destruct Hi as [->|[->|[->|[]]]]; split; vm_compute; done.
Defined.

Lemma quota_covers_requested_pods_witness :
  q_Value (quotaMemory cell) = 503316480 ∧ quotaPods cell = 4.
Proof.
  destruct (quota_covers_requested_pods cell) as (H1 & _ & H2);
    [vm_compute; discriminate|split; vm_compute; done|vm_compute; discriminate|].
  rewrite H1, H2. split; vm_compute; reflexivity.
Defined.

Definition otherCell : DistributedCache :=
  mkCache (newMeta "orders-cache" "staging") (sampleSpec 3 true) (Status cell).

Lemma same_named_cells_collide_witness : targetNamespace cell = targetNamespace otherCell.
Proof.
  destruct (same_named_cells_collide cell otherCell) as (H & _);
    [reflexivity|reflexivity|reflexivity|vm_compute; discriminate|exact H].
Defined.

(** A run of [p] from cluster [c]: trace and result. *)
Definition traceOf {A} (p : prog A) (c : Cluster) : list event := (interp server p c).1.2.
Definition resultOf {A} (p : prog A) (c : Cluster) : A := (interp server p c).2.

Lemma traceOf_runs {A} (p : prog A) c : runs p (traceOf p c) (resultOf p c).
Proof. apply runs_interp. Qed.

Lemma runs_result {A} (p : prog A) c a : resultOf p c = a → runs p (traceOf p c) a.
Proof. intros <-. apply traceOf_runs. Qed.

Lemma reconcileCell_builds_cell_in_order_witness :
  length (calls (traceOf (reconcileCell cell) (emptyCluster (clockAt 0)))) = 3%nat.
Proof.
  pose proof (reconcileCell_builds_cell_in_order cell (traceOf (reconcileCell cell) (emptyCluster (clockAt 0))))
    as H.
  destruct H as (o1 & r1 & o2 & r2 & o3 & r3 & -> & _); [|reflexivity].
  apply runs_result. vm_compute. reflexivity.
Defined.

(** The StatefulSet of the sample, created. *)
Definition sampleSts : StatefulSet :=
  mkStatefulSet (created (clockAt 0) (newMeta "orders-cache" "default"))
    (mkStatefulSetSpec (Some 5) "orders-cache" (Some (podLabels cell)) ParallelPodManagement
       (podLabels cell) (Some 40) []).

Definition rewritten (b : bool) : StatefulSet :=
  match mutateStatefulSet (sampleCache 3 false) b sampleSts with inr o => o | inl _ => sampleSts end.

Lemma mutateStatefulSet_respects_existing_witness :
  sts_Replicas (sts_Spec (rewritten false)) = Some 5 ∧ sts_Replicas (sts_Spec (rewritten true)) = Some 3.
Proof.
  split.
  - destruct (mutateStatefulSet_respects_existing (sampleCache 3 false) false sampleSts (rewritten false))
      as (_ & _ & _ & _ & H & _); [reflexivity|discriminate|exact (H 5 3 eq_refl eq_refl)].
  - destruct (mutateStatefulSet_respects_existing (sampleCache 3 false) true sampleSts (rewritten true))
      as (_ & _ & _ & _ & H & _); [reflexivity|discriminate|exact (H 5 3 eq_refl eq_refl)].
Defined.

Lemma termination_outlasts_drain_witness : terminationGrace cell = 40.
Proof.
  destruct (termination_outlasts_drain cell) as [H _]; [apply (bool_decide_unpack _); vm_compute; exact I|].
  exact H.
Defined.

Definition sampleRing : Ring := mkRing 1 ["orders-cache-0"; "orders-cache-1"; "orders-cache-2"].

Lemma observedStatus_reports_ring_witness :
  ReadyReplicas (Status (observedStatus cell sampleRing)) = 3.
Proof.
  destruct (observedStatus_reports_ring cell sampleRing) as (_ & _ & _ & _ & _ & _ & H & _);
    [vm_compute; discriminate|exact H].
Defined.

(** ** Ring publication *)

Definition emptyCM : ConfigMap := mkConfigMap (newMeta "orders-cache-ring" "default") ∅.

Definition written (members : list string) (cm : ConfigMap) : ConfigMap :=
  match mutateRingConfigMap (sampleCache 3 false)
          (ringPayload (desiredRing members (currentRing (Data cm)))) cm with
  | inr cm' => cm' | inl _ => cm end.

Definition firstCM : ConfigMap := written ["orders-cache-0"; "orders-cache-1"] emptyCM.
Definition secondCM : ConfigMap := written ["orders-cache-0"] firstCM.

Lemma written_ringWrite members cm :
  forallb ascii_string members = true →
  match mutateRingConfigMap (sampleCache 3 false)
          (ringPayload (desiredRing members (currentRing (Data cm)))) cm with
  | inl _ => false | inr _ => true end = true →
  ringWrite (sampleCache 3 false) cm (written members cm).
Proof.
  intros Hm Hok. exists members. split.
  - apply Forall_forall. intros s Hs. apply list_elem_of_In in Hs.
    by eapply forallb_forall in Hm.
  - unfold written. by destruct (mutateRingConfigMap _ _ cm).
Qed.

Lemma ring_versions_identify_members_witness :
  0 <= Version (currentRing (Data secondCM)) <= 2.
Proof.
  destruct (ring_versions_identify_members (sampleCache 3 false) 2 emptyCM secondCM) as [H _];
    [|vm_compute; discriminate|exact H].
  apply nsteps_l with firstCM; [apply written_ringWrite; vm_compute; reflexivity|].
  apply nsteps_l with secondCM; [apply written_ringWrite; vm_compute; reflexivity|constructor].
Defined.

Lemma published_ring_reads_back_witness : currentRing (Data firstCM) = mkRing 1 ["orders-cache-0"; "orders-cache-1"].
Proof.
  apply (published_ring_reads_back (sampleCache 3 false) (mkRing 1 ["orders-cache-0"; "orders-cache-1"])
           emptyCM firstCM).
  - apply (bool_decide_unpack _). vm_compute. exact I.
  - repeat constructor.
  - vm_compute. reflexivity.
Defined.

Lemma reconcileRing_publishes_servable_pods_witness :
  ∃ pods, resultOf (reconcileRing (sampleCache 3 false)) steady =
            inr (desiredRing (computeMembers pods) sampleRing).
Proof.
  assert (resultOf (reconcileRing (sampleCache 3 false)) steady = inr sampleRing) as Hres
    by (vm_compute; reflexivity).
  destruct (reconcileRing_publishes_servable_pods (sampleCache 3 false)
    (traceOf (reconcileRing (sampleCache 3 false)) steady) sampleRing (runs_result _ _ _ Hres))
    as (pods & got & rest & _ & _ & _ & _).
  exists samplePods. rewrite Hres. vm_compute. reflexivity.
Defined.

Definition corruptData : gmap string string := {[ ringConfigMapKey := "{oops" ]}.

Lemma corrupt_ring_left_in_place_witness :
  publishRing (sampleCache 3 false) [] corruptData = mret (inr (mkRing 0 [])).
Proof. apply (corrupt_ring_left_in_place _ _ "{oops"); vm_compute; reflexivity. Defined.

(** ** Draining *)

Definition stampedPod : Pod := startDrain (clockAt 10) (samplePod "default" 2).

Lemma sane_clockAt s : (0 <=? s) && (s <? 1000000) = true → sane_time (clockAt s).
Proof.
  intros [H1%Z.leb_le H2%Z.ltb_lt]%andb_true_iff.
  unfold sane_time, clockAt, unixToInternal, Second. simpl. lia.
Qed.

Lemma drain_lasts_grace_period_witness : drained (graceOf cell) (clockAt 40) stampedPod.
Proof.
  destruct (drain_lasts_grace_period cell (clockAt 10) (clockAt 40) (samplePod "default" 2)) as [H _];
    [by apply sane_clockAt|by apply sane_clockAt|apply (bool_decide_unpack _); vm_compute; exact I|].
  apply H. vm_compute. discriminate.
Defined.

(** The last second can be cut: 29.000000001 s pass for a 30 s drain. *)
Definition lateInSecond : Time := mkTime (t_sec (clockAt 10)) 999999999.

Example grace_cut_short :
  t_Sub (clockAt 40) lateInSecond = 29000000001 ∧ graceOf cell = 30 * Second ∧
  resultOf (drainPods (graceOf cell) (clockAt 40) {["orders-cache-2"]} "30s"
    [startDrain lateInSecond (samplePod "default" 2)] true) (emptyCluster (clockAt 40)) = inr true.
Proof. split_and!; vm_compute; reflexivity. Qed.

Lemma drains_complete_after_grace_witness :
  drainPods (graceOf cell) (clockAt 40) {["orders-cache-2"]} "30s" [stampedPod] true = mret (inr true).
Proof.
  destruct (drains_complete_after_grace cell (clockAt 40) (clockAt 10) {["orders-cache-2"]} "30s" [stampedPod])
    as [H _]; [by apply sane_clockAt|by apply sane_clockAt|apply (bool_decide_unpack _); vm_compute; exact I|
               |vm_compute; discriminate|exact H].
  intros p Hp _. apply list_elem_of_singleton in Hp as ->. vm_compute. reflexivity.
Defined.

Definition malformedPod : Pod := pod_annotate drainAnnotation "soon" (samplePod "default" 2).

Lemma unreadable_annotation_blocks_deletion_witness :
  resultOf (drainAll 0 (clockAt 10) [malformedPod] true) steady ≠ inr true.
Proof.
  apply (unreadable_annotation_blocks_deletion 0 (clockAt 10) [malformedPod] true malformedPod "soon"
    (traceOf (drainAll 0 (clockAt 10) [malformedPod] true) steady)).
  - left.
  - vm_compute. reflexivity.
  - vm_compute. reflexivity.
  - apply traceOf_runs.
Defined.

(** ** Whole passes *)

Lemma pass_runs c : runs (Reconcile sampleReq) (passTrace c) (passResult c).
Proof.
  unfold passResult, run. pose proof (runs_interp server (Reconcile sampleReq) c) as H.
  unfold passTrace. by destruct (interp server (Reconcile sampleReq) c) as [[c' t] a].
Qed.

Definition scalingDown : Cluster := at_time (clockAt 10) (scaleTo 1 steady).

(** The pod a pod update writes. *)
Definition podWritten (e : event) : option Pod :=
  match projT1 e with
  | OUpdate k p => match k return obj k → option Pod with KPod => Some | _ => λ _, None end p
  | _ => None
  end.

Lemma podWritten_Some e p : podWritten e = Some p → ∃ r, e = ev (OUpdate KPod p) r.
Proof.
  destruct e as [[| |[] q| | | | |] r]; unfold podWritten; simpl; try done.
  intros [= ->]. by exists r.
Qed.

Lemma pod_updates_only_start_drains_witness :
  ∃ p' now pods, podWritten (eventAt scalingDown 5) = Some p' ∧ startsDrain now pods p'.
Proof.
  assert (match podWritten (eventAt scalingDown 5) with Some _ => true | None => false end = true) as Hw
    by (vm_compute; reflexivity).
  destruct (podWritten (eventAt scalingDown 5)) as [p'|] eqn:Hp'; [|discriminate].
  destruct (podWritten_Some _ _ Hp') as [r Hr].
  destruct (pod_updates_only_start_drains sampleReq (passTrace scalingDown) (passResult scalingDown)
    (take 5 (passTrace scalingDown)) p' r (drop 6 (passTrace scalingDown))) as (ns & sel & pods & now & _ & _ & H).
  - apply pass_runs.
  - rewrite <- Hr. apply passTrace_split. vm_compute. reflexivity.
  - exists p', now, pods. split; [reflexivity|exact H].
Defined.

Lemma children_written_only_under_finalizer_witness :
  ∃ cache : DistributedCache, ev (OGet KDistributedCache sampleReq) (inr cache) ∈ take 1 (passTrace steady) ∧
    drainFinalizer ∈ om_Finalizers (dc_meta cache).
Proof.
  apply (children_written_only_under_finalizer sampleReq (passTrace steady) (passResult steady) _
    (eventAt steady 1) (drop 2 (passTrace steady))).
  - apply pass_runs.
  - apply passTrace_split. vm_compute. reflexivity.
  - vm_compute. reflexivity.
Defined.

(** The stored cache, with its finalizer. *)
Definition steadyCache : DistributedCache :=
  default (sampleCache 3 false) (store steady KDistributedCache !! ("default", "orders-cache")).

Lemma passTrace_read c d :
  store c KDistributedCache !! ("default", "orders-cache") = Some d →
  passTrace c = ev (OGet KDistributedCache sampleReq) (inr d) :: tail (passTrace c).
Proof.
  intros H. assert (server (OGet KDistributedCache sampleReq) c = (c, inr d)) as Hs.
  { unfold server. change (nn_Namespace sampleReq, nn_Name sampleReq) with ("default", "orders-cache").
    by rewrite H. }
  unfold passTrace, Reconcile, Get, call, mbind, prog_mbind. cbn [prog_bind interp]. rewrite Hs.
  by destruct (interp server _ c) as [[c' t] a].
Qed.

Lemma steadyCache_stored :
  store steady KDistributedCache !! ("default", "orders-cache") = Some steadyCache.
Proof.
  assert (match store steady KDistributedCache !! ("default", "orders-cache") with
          | Some _ => true | None => false end = true) as H by (vm_compute; reflexivity).
  unfold steadyCache. destruct (store steady KDistributedCache !! _); [reflexivity|discriminate].
Qed.

Lemma live_pass_ends_reported_witness : passEnd steadyCache (tail (passTrace steady)) (passResult steady).
Proof.
  apply (live_pass_ends_reported sampleReq).
  - rewrite <- passTrace_read by apply steadyCache_stored. apply pass_runs.
  - vm_compute. reflexivity.
  - apply (bool_decide_unpack _). vm_compute. exact I.
Defined.

(** ** Runs behind the findings *)

(** Scale 3 -> 1, then back to 3 before the drain ends. *)
Definition aborted : Cluster := pass (at_time (clockAt 20) (scaleTo 3 draining)).

Example aborted_run :
  stsReplicas aborted = Some 3 ∧ publishedRing aborted = Some (mkRing 2 ["orders-cache-0"]) ∧
  passResult aborted = (done_, None) ∧
  publishedRing (pass (at_time (clockAt 86400) aborted)) = Some (mkRing 2 ["orders-cache-0"]).
Proof. vm_compute. done. Qed.
