(* ===== verification/ClientScenario.v ===== *)
(** * Concrete client and command-line runs

    The rings of the documentation, built with real SHA-1: the lookups printed in
    README.md are recomputed here, and the theorems of [HashRing], [Client] and
    [Cli] are applied to them. *)

From S2P Require Import Prelude GoLib Json Sha1 Api Kube KubeRef Names Ring Cell RingPublish.
From S2P Require Import HashRing Client Store Http Url Server Cli Scenario.

#[local] Existing Instance refKube.
#[local] Existing Instance merge_SliceSort.
Local Open Scope Z_scope.

Definition docFlags (args : list string) : cliFlags :=
  mkFlags "default" "orders-cache" 8080 (2 * Second) args.

(** No IP literals. *)
Definition noLiterals : NetIP := {| bracketed _ := false |}.
#[local] Existing Instance noLiterals.

(** The client of the flags after it loaded [r]. *)
Definition loaded (r : Ring) : Client := store_ring (buildRing r) (New (cliConfig (docFlags []))).

(** The six lookups README.md shows, through SHA-1 and the built ring. *)
Lemma readme_routes : route (buildRing sampleRing) <$> sampleKeys =
  [Some "orders-cache-0"; Some "orders-cache-1"; Some "orders-cache-2"; Some "orders-cache-2";
   Some "orders-cache-2"; Some "orders-cache-1"].
Proof. vm_compute. reflexivity. Qed.

Lemma fmap_at {A B} (f : A → B) (l : list A) (l' : list B) (i : nat) x y :
  f <$> l = l' → l !! i = Some x → l' !! i = Some y → f x = y.
Proof. intros <- Hx. rewrite list_lookup_fmap, Hx. by intros [= <-]. Qed.

Definition readme_route i key pod :=
  fmap_at (route (buildRing sampleRing)) sampleKeys _ i key (Some pod) readme_routes.

Lemma Lookup_loaded key pod :
  route (buildRing sampleRing) key = Some pod →
  Lookup (loaded sampleRing) key = Some (inr (pod +:+ ".orders-cache.default.svc.cluster.local")).
Proof.
  intros H. unfold Lookup, loaded, store_ring. cbn [cl_ring cl_serviceFQDN].
  rewrite bool_decide_false, H; [done|]. rewrite hashes_empty. discriminate.
Qed.

(** The output documented in README.md for [cache-cli info]. *)
Example readme_info : cliMain (docFlags ["info"]) (inr tt) (λ _, loaded sampleRing) = Printed
  ["ring version: 1";
   "service FQDN: orders-cache.default.svc.cluster.local";
   "sample lookups:";
   "  foo             → orders-cache-0.orders-cache.default.svc.cluster.local";
   "  bar             → orders-cache-1.orders-cache.default.svc.cluster.local";
   "  baz             → orders-cache-2.orders-cache.default.svc.cluster.local";
   "  user-1234       → orders-cache-2.orders-cache.default.svc.cluster.local";
   "  session-abcd    → orders-cache-2.orders-cache.default.svc.cluster.local";
   "  orders-99       → orders-cache-1.orders-cache.default.svc.cluster.local"].
Proof.
  pose proof (Lookup_loaded _ _ (readme_route 0 "foo" "orders-cache-0" eq_refl eq_refl)) as H1.
  pose proof (Lookup_loaded _ _ (readme_route 1 "bar" "orders-cache-1" eq_refl eq_refl)) as H2.
  pose proof (Lookup_loaded _ _ (readme_route 2 "baz" "orders-cache-2" eq_refl eq_refl)) as H3.
  pose proof (Lookup_loaded _ _ (readme_route 3 "user-1234" "orders-cache-2" eq_refl eq_refl)) as H4.
  pose proof (Lookup_loaded _ _ (readme_route 4 "session-abcd" "orders-cache-2" eq_refl eq_refl)) as H5.
  pose proof (Lookup_loaded _ _ (readme_route 5 "orders-99" "orders-cache-1" eq_refl eq_refl)) as H6.
  assert (RingVersion (loaded sampleRing) = 1) as Hv by reflexivity.
  unfold cliMain, cliInfo. revert H1 H2 H3 H4 H5 H6 Hv. generalize (loaded sampleRing) as c.
  intros c H1 H2 H3 H4 H5 H6 Hv. rewrite Hv. unfold sampleKeys, infoLine.
  cbn. rewrite H1, H2, H3, H4, H5, H6. reflexivity.
Qed.

(** ** Hash ring *)

Lemma sample_collision_free : collision_free (Members sampleRing).
Proof. apply collision_free_NoDup. apply (bool_decide_unpack _). vm_compute. exact I. Qed.

Lemma route_is_clockwise_owner_witness : ∃ pod, route (buildRing sampleRing) "foo" = Some pod ∧
  owns (Members sampleRing) "foo" pod.
Proof. apply (route_is_clockwise_owner sampleRing "foo"). discriminate. Defined.

Definition reversedRing : Ring := mkRing 7 (reverse (Members sampleRing)).

Lemma clients_agree_witness : route (buildRing sampleRing) "foo" = route (buildRing reversedRing) "foo".
Proof.
  apply (clients_agree merge_SliceSort merge_SliceSort sampleRing reversedRing "foo").
  - intros m. unfold reversedRing. simpl Members. by rewrite elem_of_reverse.
  - apply sample_collision_free.
  - discriminate.
Defined.

(** "bar" stays on orders-cache-1 when orders-cache-2 leaves. *)
Definition shrunkRing : Ring := mkRing 2 ["orders-cache-0"; "orders-cache-1"].

Lemma leaving_members_move_only_their_keys_witness :
  route (buildRing shrunkRing) "bar" = Some "orders-cache-1".
Proof.
  apply (leaving_members_move_only_their_keys merge_SliceSort merge_SliceSort sampleRing shrunkRing).
  - apply sample_collision_free.
  - intros m Hm. simpl Members in *. rewrite !elem_of_cons in *. tauto.
  - exact (readme_route 1 "bar" "orders-cache-1" eq_refl eq_refl).
  - right. left.
Defined.

(** ** Polling *)

(** An environment that answers the successive reads with the given ConfigMaps. *)
Definition feed (o : Op) : list (goerror + ConfigMap) → list (goerror + ConfigMap) * Resp o :=
  match o return list (goerror + ConfigMap) → list (goerror + ConfigMap) * Resp o with
  | OGet k _ => λ l,
      match k return list (goerror + ConfigMap) * (goerror + obj k) with
      | KConfigMap => match l with r :: l => (l, r) | [] => ([], notFound) end
      | _ => (l, notFound)
      end
  | OListPods _ _ => λ l, (l, inr [])
  | OUpdate _ o => λ l, (l, inr o)
  | OStatusUpdate d => λ l, (l, inr d)
  | ODelete _ _ => λ l, (l, inr tt)
  | OCreateOrUpdate _ o _ => λ l, (l, inr ("unchanged", o))
  | OEvent _ _ _ => λ l, (l, tt)
  | ONow => λ l, (l, clockAt 0)
  end.

Definition docConfig : Client.Config := cliConfig (docFlags []).
Definition answers : list (goerror + ConfigMap) := [inl (ApiError false "timeout"); inr secondCM].

Definition polled : Client := (interp feed (Run (New docConfig) 2) (inr firstCM :: answers)).2.

Lemma interp_pollOnce c r l :
  interp feed (pollOnce c) (r :: l) =
    (l, [ev (OGet KConfigMap (cl_ringConfigMap c)) r],
     match r with inl e => (Some (GetFailed e), c) | inr cm => pollConfigMap c cm end).
Proof. by destruct r. Qed.

Lemma pollLoop_trace l c :
  (interp feed (pollLoop (length l) c) l).1.2 =
  (λ r, ev (OGet KConfigMap (cl_ringConfigMap c)) r) <$> l.
Proof.
  revert c. induction l as [|r l IH]; intros c; [done|]. cbn [length pollLoop].
  rewrite interp_bind, interp_pollOnce.
  match goal with |- context [pollLoop _ ?x.2] => set (res := x) end.
  specialize (IH res.2). assert (cl_ringConfigMap res.2 = cl_ringConfigMap c) as Heq.
  { subst res. destruct r; [done|]. apply pollConfigMap_frame. }
  destruct (interp feed (pollLoop (length l) res.2) l) as [[w t] b]. simpl in *. rewrite IH, Heq. done.
Qed.

Lemma polled_trace :
  (interp feed (Run (New docConfig) 2) (inr firstCM :: answers)).1.2 =
  (λ r, ev (OGet KConfigMap (cfg_RingConfigMap docConfig)) r) <$> inr firstCM :: answers.
Proof. exact (pollLoop_trace (inr firstCM :: answers) (New docConfig)). Qed.

Lemma readable_by cm v ms :
  (Data cm !! ringConfigMapKey ≫= UnmarshalRing) = Some (v, ms) → readable cm.
Proof.
  intros H. destruct (Data cm !! ringConfigMapKey) as [raw|] eqn:E; [|done].
  exists raw, v, ms. by split.
Qed.

Lemma Lookup_total_witness : Lookup polled "foo" ≠ None.
Proof.
  destruct (Lookup_total docConfig 2 _ polled "foo" (runs_interp feed _ (inr firstCM :: answers)))
    as [[-> _]|(r & pod & _ & _ & ->)]; discriminate.
Defined.

Lemma client_follows_operator_witness : RingVersion polled = 2.
Proof.
  destruct (client_follows_operator (sampleCache 3 false) docConfig firstCM answers secondCM polled)
    as [_ H].
  - apply (readable_by _ 1 ["orders-cache-0"; "orders-cache-1"]). vm_compute. reflexivity.
  - apply feed_error. apply feed_read with 1%nat; [|vm_compute; discriminate| |apply feed_nil].
    + apply nsteps_once. apply written_ringWrite; vm_compute; reflexivity.
    + apply (readable_by _ 2 ["orders-cache-0"]). vm_compute. reflexivity.
  - rewrite <- polled_trace. apply runs_interp.
  - rewrite H. vm_compute. reflexivity.
Defined.

Lemma recreated_ring_is_ignored_witness :
  pollConfigMap (loaded (mkRing 1 ["orders-cache-0"])) firstCM = (None, loaded (mkRing 1 ["orders-cache-0"])).
Proof.
  apply (recreated_ring_is_ignored (sampleCache 3 false) ["orders-cache-0"]
    ["orders-cache-0"; "orders-cache-1"]).
  - discriminate.
  - discriminate.
  - repeat constructor.
  - vm_compute. reflexivity.
  - reflexivity.
Defined.

(** ** Command line *)

Lemma cli_finds_ring_unless_in_cell_witness :
  cliRingConfigMap (docFlags []) ≠ mkNN (targetNamespace cell) (ringConfigMapName cell).
Proof.
  destruct (cli_finds_ring_unless_in_cell cell (docFlags []) eq_refl eq_refl) as [[H _] _].
  intros Heq. specialize (H Heq). vm_compute in H. discriminate.
Defined.

Definition podOf (c : Client) (key : string) : string :=
  match Lookup c key with Some (inr pod) => pod | _ => "" end.

Lemma podOf_Lookup c key :
  match Lookup c key with Some (inr _) => true | _ => false end = true → Lookup c key = Some (inr (podOf c key)).
Proof. unfold podOf. by destruct (Lookup c key) as [[]|]. Qed.

