(* ===== verification/ServerScenario.v ===== *)
(** * Concrete tiny-cache runs

    The server over the reference LRU: a put, a read, a delete, an expiry and the
    refusals, and the theorems of [Store] and [Server] applied to them. *)

From S2P Require Import Prelude GoLib Json Store StoreRef Http Server.

#[local] Existing Instance refLRU.
Local Open Scope Z_scope.

Definition sampleConfig : Config := mkServerConfig ":8080" true 2 (300 * Second).

Definition req (method path body : string) : Request :=
  mkRequest method path path (mkBody body None).

Definition fresh : server :=
  default (mkServer (mkStore (mkRefLru 1 1 0 ∅) 1) true) (newServer sampleConfig).

Definition afterPut : server := (serve 0 fresh (req "PUT" "/kv/foo" "hello")).2.

Definition codeOf (a : served) : Z := match a with Answer r => rs_Code r | Redirect _ => 301 end.
Definition bodyOf (a : served) : string := match a with Answer r => rs_Body r | Redirect p => p end.

(** Status codes of a session: the routes, the refusals and the expiry. *)
Example session :
  codeOf (serve 0 fresh (req "PUT" "/kv/foo" "hello")).1 = 204 ∧
  bodyOf (serve 1 afterPut (req "GET" "/kv/foo" "")).1 = "hello" ∧
  codeOf (serve (301 * Second) afterPut (req "GET" "/kv/foo" "")).1 = 404 ∧
  codeOf (serve 1 afterPut (req "DELETE" "/kv/foo" "")).1 = 204 ∧
  codeOf (serve 1 afterPut (req "DELETE" "/kv/bar" "")).1 = 404 ∧
  codeOf (serve 1 afterPut (req "POST" "/kv/foo" "")).1 = 405 ∧
  codeOf (serve 1 afterPut (req "GET" "/kv/" "")).1 = 400 ∧
  codeOf (serve 1 afterPut (req "GET" "/kv/a/b" "")).1 = 400 ∧
  bodyOf (serve 1 afterPut (req "GET" "/kv" "")).1 = "/kv/" ∧
  bodyOf (serve 1 afterPut (req "GET" "/kv//foo" "")).1 = "/kv/foo" ∧
  bodyOf (serve 1 afterPut (req "GET" "/kv/.." "")).1 = "/" ∧
  codeOf (serve 1 afterPut (req "GET" "/readyz" "")).1 = 200 ∧
  codeOf (serve 1 (markNotReady afterPut) (req "GET" "/readyz" "")).1 = 503 ∧
  codeOf (serve 1 afterPut (req "GET" "/nope" "")).1 = 404.
Proof. vm_compute. split_and!; reflexivity. Qed.

Lemma fresh_ok : store_ok (sv_store fresh).
Proof. apply (NewStore_ok 2 (300 * Second)). reflexivity. Qed.

Lemma Put_then_Get_witness :
  (Store_Get 5 (Store_Put 0 (sv_store fresh) "foo" "hello").2 "foo").1 = Some "hello".
Proof.
  destruct (Put_then_Get (sv_store fresh) "foo" "hello" 0 5 fresh_ok) as [H _]; [lia|].
  apply H. vm_compute. discriminate.
Defined.

Lemma put_branches_witness :
  (serve 0 fresh (req "PUT" "/kv/foo" "hello")).1 = Answer noContent.
Proof.
  destruct (put_branches 0 fresh (req "PUT" "/kv/foo" "hello") "foo" fresh_ok) as (_ & _ & H);
    [vm_compute; reflexivity|reflexivity|].
  apply H; [vm_compute; discriminate|reflexivity].
Defined.

Lemma only_no_content_changes_contents_witness :
  visible 9 (sv_store (serve 1 afterPut (req "DELETE" "/kv/bar" "")).2) = visible 9 (sv_store afterPut).
Proof.
  apply only_no_content_changes_contents. intros resp Hr.
  apply (f_equal codeOf) in Hr. simpl codeOf in Hr at 2. rewrite <- Hr. vm_compute. discriminate.
Defined.

Lemma plain_keys_are_routed_witness : kvKey (req "GET" "/kv/foo" "") = Some "foo".
Proof.
  apply (plain_keys_are_routed (req "GET" "/kv/foo" "") "foo");
    [discriminate|reflexivity|reflexivity|vm_compute; reflexivity|vm_compute; reflexivity|discriminate].
Defined.

Definition putFoo : Request := req "PUT" "/kv/foo" "hello".
Definition history : list label := [LRequest 0 putFoo (serve 0 fresh putFoo).1].

Lemma cache_never_lies_witness : specHistory history !! "foo" = Some "hello".
Proof.
  apply (cache_never_lies sampleConfig (Serving fresh) history (Serving afterPut) afterPut 1
    (req "GET" "/kv/foo" "") "foo"
    (mkResponse 200 {[ "Content-Type" := "application/octet-stream" ]} "hello")).
  - reflexivity.
  - change history with ([] ++ [LRequest 0 putFoo (serve 0 fresh putFoo).1]).
    eapply steps_snoc; [apply steps_nil|apply step_request].
  - reflexivity.
  - vm_compute. repeat constructor; discriminate.
  - vm_compute. reflexivity.
  - reflexivity.
  - vm_compute. reflexivity.
  - reflexivity.
Defined.

(** After the signal the probe fails. *)
Lemma readyz_follows_shutdown_witness :
  ∃ resp, (serve 1 (markNotReady fresh) (mkRequest "GET" "/readyz" "/readyz" (mkBody "" None))).1 = Answer resp ∧
    rs_Code resp = 503.
Proof.
  destruct (readyz_follows_shutdown sampleConfig) as [_ H].
  destruct (H (Serving fresh) [LSignal] (Draining (markNotReady fresh)) (markNotReady fresh) 1 "GET" (mkBody "" None))
    as [(resp & Hs & Hc) _].
  - exact eq_refl.
  - apply (steps_snoc _ [] (Serving fresh)); [apply steps_nil|apply step_signal].
  - reflexivity.
  - exists resp. rewrite Hs. split; [reflexivity|]. destruct Hc as [[Hno _]|[_ Hc]]; [|exact Hc].
    destruct Hno. left.
Defined.
