(* ===== verification/CliScenario.v ===== *)
(** * Concrete command-line sessions

    cache-cli against a tiny-cache over the reference LRU, on the ring of the
    documentation, and the theorems of [CliRun] applied to them. *)

From S2P Require Import Prelude GoLib Json Sha1 Api Kube KubeRef Names Ring Cell RingPublish.
From S2P Require Import HashRing Client Store StoreRef Http Url Server Cli CliRun Scenario.
From S2P Require Import ClientScenario ServerScenario.

#[local] Existing Instance refKube.
#[local] Existing Instance merge_SliceSort.
#[local] Existing Instance refLRU.
#[local] Existing Instance noLiterals.
Local Open Scope Z_scope.

Definition fooPod : string := "orders-cache-0.orders-cache.default.svc.cluster.local".

Lemma foo_is_plain : plainKey "foo".
Proof. split; [reflexivity|]. rewrite !elem_of_cons, elem_of_nil. naive_solver. Qed.

Lemma foo_owner : Lookup (loaded sampleRing) "foo" = Some (inr fooPod).
Proof. apply (Lookup_loaded "foo" "orders-cache-0"). exact (readme_route 0 "foo" "orders-cache-0" eq_refl eq_refl). Qed.

Lemma cli_put_then_get_witness :
  let put := docFlags ["put"; "foo"; "hello"] in let get := docFlags ["get"; "foo"] in
  let s1 := (serve 0 fresh (requestOf MethodPut (cliUrl put fooPod "foo") (Some "hello"))).2 in
  cliFinish (λ method url body, answerOf (serve 5 s1 (requestOf method url body)).1)
    (cliMain get (inr tt) (λ _, loaded sampleRing)) =
    mkExit ["→ " +:+ cliUrl get fooPod "foo"; "200 OK"; "hello"] None 0.
Proof.
  cbv zeta.
  refine (proj2 (cli_put_then_get (docFlags ["put"; "foo"; "hello"]) (docFlags ["get"; "foo"])
    (λ _, loaded sampleRing) (λ _, loaded sampleRing) fooPod "foo" "hello" fresh 0 5 _ _ _ _ _ _ _ _ _ _ _ _ _)).
  - discriminate.
  - discriminate.
  - reflexivity.
  - reflexivity.
  - discriminate.
  - discriminate.
  - exact foo_owner.
  - exact foo_owner.
  - reflexivity.
  - exact foo_is_plain.
  - vm_compute. discriminate.
  - exact fresh_ok.
  - vm_compute. split; discriminate.
Defined.

(** The key "foo?v=2" is looked up by that name and stored as "foo". *)
Lemma cli_key_cut_at_query_witness :
  kvKey (requestOf MethodPut (cliUrl (docFlags []) fooPod "foo?v=2") (Some "x")) = Some "foo".
Proof.
  destruct (cli_key_cut_at_query (docFlags []) fooPod "foo" "v=2" MethodPut (Some "x")) as (_ & H & _).
  - reflexivity.
  - discriminate.
  - exact foo_is_plain.
  - reflexivity.
  - discriminate.
  - exact H.
Defined.

(** A client that never sees a ring, with a clock of fifty milliseconds per sleep. *)
Definition tick (i : nat) : Time := t_Add (mkTime 0 0) (Z.of_nat i * (50 * Millisecond)).

Lemma cli_wait_terminates_witness :
  ∃ n, waitFirstPoll 101 (mkTime 0 0) (λ _, New docConfig) tick = Some n ∧ (n <= 100)%nat.
Proof.
  destruct (cli_wait_terminates 101 (mkTime 0 0) (λ _, New docConfig) tick) as (n & H1 & H2 & _).
  - vm_compute. split; [discriminate|reflexivity].
  - vm_compute. discriminate.
  - intros i. unfold tick.
    destruct (t_ns_Add (mkTime 0 0) (Z.of_nat (S i) * (50 * Millisecond))) as [H1 H2].
    destruct (t_ns_Add (mkTime 0 0) (Z.of_nat i * (50 * Millisecond))) as [H3 _].
    split; [exact H2|]. rewrite H1, H3. unfold Millisecond. lia.
  - lia.
  - exists n. split; assumption.
Defined.

(** It gives up after a hundred sleeps, and at once when a ring is there. *)
Example wait_runs :
  waitFirstPoll 101 (mkTime 0 0) (λ _, New docConfig) tick = Some 100%nat ∧
  waitFirstPoll 101 (mkTime 0 0) (λ i, if (3 <=? i)%nat then loaded sampleRing else New docConfig) tick = Some 3%nat.
Proof. split; vm_compute; reflexivity. Qed.

Lemma loadRestConfig_order_witness :
  loadRestConfig (inl (ApiError false "not in a cluster")) (inr "/home/dev")
    (λ p, if bool_decide (p = "/home/dev/.kube/config") then inr 7 else inl (ApiError false "no such file")) "" = inr 7.
Proof.
  destruct (loadRestConfig_order (inl (ApiError false "not in a cluster")) (inr "/home/dev")
    (λ p, if bool_decide (p = "/home/dev/.kube/config") then inr 7 else inl (ApiError false "no such file")) "")
    as (_ & H & _).
  apply (H eq_refl 7). exists "/home/dev". split; reflexivity.
Defined.
