(* ===== verification/SystemScenario.v ===== *)
(** * A concrete history of the system

    A cache of two pods is scaled down to one while a client polls: the witnesses
    of the claims of [Contract], [Converge], [Recover] and [Footprint]. *)

From S2P Require Import Prelude GoLib Json Api Kube KubeRef Names Ring Cell Workload Status.
From S2P Require Import RingPublish Drain Reconciler Stages Footprint Converge Gaps Interrupt Teardown Recover HashRing Client Setup.
From S2P Require Import System Contract Scenario.

#[local] Existing Instance refKube.
#[local] Existing Instance merge_SliceSort.
Local Open Scope Z_scope.

Definition demo : DistributedCache := sampleCache 2 false.

Definition demoPass (c : Cluster) : Cluster := (run (Reconcile (reqOf demo)) c).1.
Definition demoReady : list PodCondition := [mkPodCondition PodReady ConditionTrue].
Definition runPod (i : Z) (c : Cluster) : Cluster :=
  @put KPod (mkPod (pod_meta (freshPod demo i)) PodRunning demoReady) c.
Definition demoCache (c : Cluster) : DistributedCache :=
  default demo (store c KDistributedCache !! (dc_Namespace demo, dc_Name demo)).

(** The clusters along the way. *)
Definition d0 : Cluster := @put KDistributedCache demo (emptyCluster (clockAt 0)).
Definition d1 : Cluster := demoPass (demoPass d0).
Definition d2 : Cluster := @put KPod (freshPod demo 1) (@put KPod (freshPod demo 0) d1).
Definition d3 : Cluster := demoPass (runPod 1 (runPod 0 d2)).
Definition d4 : Cluster := @put KDistributedCache (scaled 1 (demoCache d3)) d3.
Definition d5 : Cluster := at_time (clockAt 12) (demoPass d4).
Definition d6 : Cluster := demoPass (at_time (clockAt 30) d5).

Definition demoClient : Client :=
  New (mkConfig (mkNN "default" "orders-cache-ring") "orders-cache.default.svc.cluster.local" 0).

Definition demoClients : gmap nat (Client * Time) :=
  <[0%nat := polled d5 (demoClient, clock d5)]> (<[0%nat := (demoClient, clock d5)]> ∅).

(** The pod is drained, out of the ring, and no longer covered. *)
Example demo_run :
  ringOf demo d3 = mkRing 1 ["orders-cache-0"; "orders-cache-1"] ∧
  ringOf demo d5 = mkRing 2 ["orders-cache-0"] ∧
  replicasOf demo d5 = Some 2 ∧ replicasOf demo d6 = Some 1.
Proof. vm_compute. done. Qed.

(** A cluster that holds nothing but a cache is ready for it. *)
Lemma ready_fresh cache now : ready cache (@put KDistributedCache cache (emptyCluster now)).
Proof.
  split; try done.
  - intros [] key o; try done. intros Hl. change (({[key_of (k := KDistributedCache) cache := cache]} :
      gmap okey (obj KDistributedCache)) !! key = Some o) in Hl.
    by apply lookup_singleton_Some in Hl as [<- <-].
  - intros k Hk key o Ho. destruct k; try done. set_solver.
  - rewrite (store_put (k := KDistributedCache)). apply lookup_insert_eq.
Qed.

Lemma demo_initial : initial demo (mkSystem d0 ∅).
Proof.
  split; simpl; try done; [apply ready_fresh|]. exists 2. split; [done|]. vm_compute. split; discriminate.
Qed.

(** Each elementary step of the history. *)
Lemma demo_pass c cls : step demo (mkSystem c cls) (mkSystem (demoPass c) cls).
Proof. apply step_pass. Qed.

Lemma demo_runPod i c cls :
  store c KPod !! podKey demo i = Some (freshPod demo i) →
  step demo (mkSystem c cls) (mkSystem (runPod i c) cls).
Proof. intros H. exact (step_kubelet demo c cls _ _ PodRunning demoReady H). Qed.

Lemma demo_tick t c cls :
  (t_sec (clock c) <? t_sec t) = true → sane_time t →
  step demo (mkSystem c cls) (mkSystem (at_time t c) cls).
Proof. intros Ht Hs. apply step_tick; [left; lia|done]. Qed.

Definition stores (c : Cluster) : bool :=
  match store c KDistributedCache !! (dc_Namespace demo, dc_Name demo) with Some _ => true | None => false end.

Lemma demo_stored c :
  stores c = true → store c KDistributedCache !! (dc_Namespace demo, dc_Name demo) = Some (demoCache c).
Proof. unfold stores, demoCache. by destruct (store c KDistributedCache !! _). Qed.

Lemma clockAt_sane s : 0 <= s < 1000 → sane_time (clockAt s).
Proof. intros Hs. unfold sane_time, clockAt, unixToInternal, Second. simpl. lia. Qed.

Lemma demo_up : nsteps (step demo) 7 (mkSystem d0 ∅) (mkSystem d3 ∅).
Proof.
  eapply nsteps_l; [apply demo_pass|]. eapply nsteps_l; [apply demo_pass|].
  eapply nsteps_l; [apply (step_create demo _ _ 0 2); [vm_compute; done|lia|vm_compute; done]|].
  eapply nsteps_l; [apply (step_create demo _ _ 1 2); [vm_compute; done|lia|vm_compute; done]|].
  eapply nsteps_l; [apply (demo_runPod 0); vm_compute; reflexivity|].
  eapply nsteps_l; [apply (demo_runPod 1); vm_compute; reflexivity|].
  eapply nsteps_l; [apply demo_pass|]. apply nsteps_O.
Qed.

Lemma demo_down : nsteps (step demo) 7 (mkSystem d3 ∅) (mkSystem d6 demoClients).
Proof.
  eapply nsteps_l; [apply (step_scale demo _ _ (demoCache d3) 1); [apply demo_stored; vm_compute; reflexivity|lia]|].
  eapply nsteps_l; [apply demo_pass|].
  eapply nsteps_l; [apply (demo_tick (clockAt 12)); [vm_compute; done|by apply clockAt_sane]|].
  eapply nsteps_l; [apply (step_join demo _ _ 0 demoClient); done|].
  eapply nsteps_l; [apply (step_poll demo _ _ 0 (demoClient, clock d5)); apply lookup_insert_eq|].
  eapply nsteps_l; [apply (demo_tick (clockAt 30)); [vm_compute; done|by apply clockAt_sane]|].
  eapply nsteps_l; [apply demo_pass|]. apply nsteps_O.
Qed.

Lemma demo_history : nsteps (step demo) 14 (mkSystem d0 ∅) (mkSystem d6 demoClients).
Proof. apply (nsteps_trans 7 7) with (mkSystem d3 ∅); [apply demo_up|apply demo_down]. Qed.

(** ** Witnesses *)

Definition podIn (c : Cluster) (i : Z) : Pod := default (freshPod demo i) (store c KPod !! podKey demo i).
Definition hasPod (c : Cluster) (i : Z) : bool :=
  match store c KPod !! podKey demo i with Some _ => true | None => false end.

Lemma podIn_stored c i : hasPod c i = true → store c KPod !! podKey demo i = Some (podIn c i).
Proof. unfold hasPod, podIn. by destruct (store c KPod !! _). Qed.

Lemma polled_time c st : st.2 = clock c → (polled c st).2 = clock c.
Proof. intros H. unfold polled. by destruct (run _ c).2 as [[]]. Qed.

Lemma drain_contract_witness :
  replicasOf demo d6 = Some 1 ∧
  ∀ key, Lookup (polled d5 (demoClient, clock d5)).1 key ≠
    Some (inr (pod_Name (podIn d6 1) +:+ "." +:+ cl_serviceFQDN (polled d5 (demoClient, clock d5)).1)).
Proof.
  assert (replicasOf demo d6 = Some 1) as Hr by (vm_compute; reflexivity). split; [exact Hr|].
  apply (drain_contract demo (mkSystem d0 ∅) 14 (mkSystem d6 demoClients) 1 1 (podIn d6 1) 0
    (polled d5 (demoClient, clock d5)).1 (polled d5 (demoClient, clock d5)).2).
  - exact demo_initial.
  - exact demo_history.
  - vm_compute. discriminate.
  - exact Hr.
  - reflexivity.
  - apply podIn_stored. vm_compute. reflexivity.
  - cbn [clients]. unfold demoClients. rewrite lookup_insert_eq. f_equal.
  - rewrite polled_time by reflexivity. vm_compute. discriminate.
Defined.

Lemma draining_pods_unpublished_witness :
  pod_Name (podIn d6 1) = "orders-cache-1" ∧ pod_Name (podIn d6 1) ∉ Members (ringOf demo d6).
Proof.
  split; [vm_compute; reflexivity|].
  apply (draining_pods_unpublished demo (mkSystem d0 ∅) 14 (mkSystem d6 demoClients) (podKey demo 1)
    (podIn d6 1) (FormatInt 1000)).
  - exact demo_initial.
  - exact demo_history.
  - vm_compute. discriminate.
  - apply podIn_stored. vm_compute. reflexivity.
  - vm_compute. reflexivity.
Defined.

(** The scaled cluster is one a pass can work on. *)
Lemma d4_history : nsteps (step demo) 8 (mkSystem d0 ∅) (mkSystem d4 ∅).
Proof.
  apply (nsteps_trans 7 1) with (mkSystem d3 ∅); [apply demo_up|]. eapply nsteps_l; [|apply nsteps_O].
  apply (step_scale demo _ _ (demoCache d3) 1); [apply demo_stored; vm_compute; reflexivity|lia].
Qed.

Lemma scale_down_completes_witness :
  replicasOf demo (run (Reconcile (reqOf demo))
    (at_time (clockAt 30) (run (Reconcile (reqOf demo)) d4).1)).1 = Some 1.
Proof.
  assert (Replicas (Spec (demoCache d4)) = Some 1) as <- by (vm_compute; reflexivity).
  apply (scale_down_completes demo (mkSystem d0 ∅) 8 d4 ∅ (demoCache d4) (clockAt 30)).
  - exact demo_initial.
  - exact d4_history.
  - vm_compute. reflexivity.
  - apply demo_stored. vm_compute. reflexivity.
  - vm_compute. reflexivity.
  - apply (bool_decide_unpack _). vm_compute. exact I.
  - left. vm_compute. reflexivity.
  - by apply clockAt_sane.
  - vm_compute. discriminate.
Defined.

(** Every cluster of a history holds a cache a pass can work on. *)
Lemma reachable_ready n c :
  nsteps (step demo) n (mkSystem d0 ∅) (mkSystem c ∅) → Z.of_nat n < MaxInt64 → stores c = true →
  ready (demoCache c) c ∧ ascii_pods c.
Proof.
  intros Hh Hn Hc. assert (inv demo n (mkSystem c ∅)) as Hinv.
  { apply (inv_reachable demo eq_refl) with (mkSystem d0 ∅); [done|exact demo_initial|done|lia]. }
  split.
  - eapply stored_cache; [exact Hinv|]. by apply demo_stored.
  - intros key p Hl. destruct (iv_pods _ _ _ Hinv key p Hl) as (i & Hi & _ & Hp & _).
    rewrite Hp. apply podName_ascii; [reflexivity|exact Hi].
Qed.

Lemma d4_ready : ready (demoCache d4) d4 ∧ ascii_pods d4.
Proof.
  apply (reachable_ready 8); [exact d4_history|vm_compute; reflexivity|vm_compute; reflexivity].
Qed.

Lemma pass_succeeds_witness :
  ∃ c', run (Reconcile (reqOf demo)) d4 = (c', (requeueAfter 2, None)) ∧
    replicasOf (demoCache d4) c' = Some 2.
Proof.
  destruct d4_ready as [Hrd Ha].
  destruct (pass_succeeds (demoCache d4) d4 Hrd Ha) as (c' & Hr & _ & Hrep & _).
  - vm_compute. discriminate.
  - vm_compute. reflexivity.
  - apply (bool_decide_unpack _). vm_compute. exact I.
  - exists c'. assert (reqOf (demoCache d4) = reqOf demo) as Hreq by (vm_compute; reflexivity).
    assert (allDrained (demoCache d4) d4 = false) as Hall by (vm_compute; reflexivity).
    rewrite Hreq, Hall in Hr. rewrite Hall in Hrep. split; [|rewrite Hrep; vm_compute; reflexivity].
    rewrite Hr. reflexivity.
Defined.

Lemma second_pass_changes_nothing_witness :
  ∃ c'', run (Reconcile (reqOf (demoCache d4))) (run (Reconcile (reqOf (demoCache d4))) d4).1 =
    (c'', (run (Reconcile (reqOf (demoCache d4))) d4).2) ∧
    ∀ k, store c'' k = store (run (Reconcile (reqOf (demoCache d4))) d4).1 k.
Proof.
  destruct d4_ready as [Hrd Ha].
  apply (second_pass_changes_nothing (demoCache d4) d4 _ _ 1 Hrd Ha).
  - vm_compute. reflexivity.
  - discriminate.
  - vm_compute. reflexivity.
  - apply (bool_decide_unpack _). vm_compute. exact I.
  - apply (clockAt_sane 0). lia.
  - vm_compute. done.
  - vm_compute. discriminate.
  - apply surjective_pairing.
Defined.

(** The scale-down to one replica is taken back while the second pod drains. *)
Definition d5back : Cluster := @put KDistributedCache (scaled 2 (demoCache d5)) d5.

Lemma d5back_ready : ready (demoCache d5back) d5back ∧ ascii_pods d5back.
Proof.
  apply (reachable_ready 11).
  - apply (nsteps_trans 8 3) with (mkSystem d4 ∅); [apply d4_history|].
    eapply nsteps_l; [apply demo_pass|].
    eapply nsteps_l; [apply (demo_tick (clockAt 12)); [vm_compute; done|by apply clockAt_sane]|].
    eapply nsteps_l; [|apply nsteps_O].
    apply (step_scale demo _ _ (demoCache d5) 2); [apply demo_stored; vm_compute; reflexivity|lia].
  - vm_compute. reflexivity.
  - vm_compute. reflexivity.
Qed.

Lemma aborted_scale_down_strands_pods_witness :
  ∃ c', run (Reconcile (reqOf (demoCache d5back)))
      (at_time (clockAt 900) (passesAt (reqOf (demoCache d5back)) [clockAt 13; clockAt 60] d5back)) =
      (c', (done_, None)) ∧
    replicasOf (demoCache d5back) c' = Some 2 ∧
    (pod_Name (podIn d5back 1) ∉ Members (ringOf (demoCache d5back) c')).
Proof.
  destruct d5back_ready as [Hrd Ha].
  destruct (aborted_scale_down_strands_pods (demoCache d5back) d5back 2 2 (pod_Name (podIn d5back 1))
    (podIn d5back 1) [clockAt 13; clockAt 60] (clockAt 900) Hrd Ha) as (c' & Hrun & _ & Hr & Hn).
  - vm_compute. reflexivity.
  - apply (bool_decide_unpack _). vm_compute. exact I.
  - vm_compute. reflexivity.
  - discriminate.
  - vm_compute. reflexivity.
  - discriminate.
  - assert ((targetNamespace (demoCache d5back), pod_Name (podIn d5back 1)) = podKey demo 1) as ->
      by (vm_compute; reflexivity). apply podIn_stored. vm_compute. reflexivity.
  - eexists. vm_compute. reflexivity.
  - exists c'. split; [|exact (conj Hr Hn)]. rewrite Hrun.
    assert (Converge.passResult (demoCache d5back) true = done_) as -> by (vm_compute; reflexivity). reflexivity.
Defined.

Definition refusedPass (c : Cluster) : Cluster := (run (Reconcile (reqOf (demoCache d4))) c).1.

Lemma shrinks_before_ring_is_published_witness :
  let c2 := refusedPass (at_time (clockAt 30) (refusedPass (failing ringRefused d4))) in
  replicasOf (demoCache d4) c2 = Some 1 ∧
  ringOf (demoCache d4) c2 = mkRing 1 ["orders-cache-0"; "orders-cache-1"].
Proof.
  destruct d4_ready as [Hrd Ha]. cbv zeta.
  destruct (shrinks_before_ring_is_published (demoCache d4) d4 1 (clockAt 30)
    (refusedPass (failing ringRefused d4))
    (run (Reconcile (reqOf (demoCache d4))) (failing ringRefused d4)).2
    (refusedPass (at_time (clockAt 30) (refusedPass (failing ringRefused d4))))
    (run (Reconcile (reqOf (demoCache d4))) (at_time (clockAt 30) (refusedPass (failing ringRefused d4)))).2 Hrd)
    as (Hr & _ & Hring).
  - vm_compute. reflexivity.
  - apply (bool_decide_unpack _). vm_compute. exact I.
  - vm_compute. reflexivity.
  - discriminate.
  - vm_compute. done.
  - assert (Forall (λ p, pod_Annotations p !! drainAnnotation ≫= ParseInt = None) (podsOf (demoCache d4) d4)) as H
      by (apply (bool_decide_unpack _); vm_compute; exact I). apply Forall_forall. exact H.
  - apply (clockAt_sane 0). lia.
  - apply (clockAt_sane 30). lia.
  - vm_compute. discriminate.
  - apply surjective_pairing.
  - apply surjective_pairing.
  - split; [exact Hr|]. rewrite Hring. vm_compute. reflexivity.
Defined.

Lemma interrupted_pass_leaves_no_trace_witness :
  (run (Reconcile (reqOf (demoCache d4))) (runFor 6 (Reconcile (reqOf (demoCache d4))) d4)).2 =
    (run (Reconcile (reqOf (demoCache d4))) d4).2 ∧
  ∀ k, store (run (Reconcile (reqOf (demoCache d4))) (runFor 6 (Reconcile (reqOf (demoCache d4))) d4)).1 k =
    store (run (Reconcile (reqOf (demoCache d4))) d4).1 k.
Proof.
  destruct d4_ready as [Hrd Ha].
  apply (interrupted_pass_leaves_no_trace (demoCache d4) d4 1 6 Hrd Ha).
  - vm_compute. reflexivity.
  - discriminate.
  - intros _. apply (bool_decide_unpack _). vm_compute. exact I.
  - apply (clockAt_sane 0). lia.
  - vm_compute. done.
  - vm_compute. discriminate.
Defined.

(** Recovery is about the time the pass was cut short. If the operator stays away for
    longer than the grace period between annotating the pod and publishing the ring,
    the next pass finds the pod drained and gives it up while the ring that clients
    have just polled still names it. *)
Definition crashed : Cluster := at_time (clockAt 30) (runFor 6 (Reconcile (reqOf demo)) d4).

Example crash_shrinks_before_ring :
  ringOf demo crashed = mkRing 1 ["orders-cache-0"; "orders-cache-1"] ∧
  replicasOf demo crashed = Some 2 ∧
  pod_Annotations (podIn crashed 1) !! drainAnnotation = Some "1000" ∧
  replicasOf demo (demoPass crashed) = Some 1.
Proof. vm_compute. done. Qed.

(** ** Deletion *)

(** The cache is deleted instead of scaled down. *)
Definition e0 : Cluster := deleteCache demo (demoCache d3) d3.
Definition e1 : Cluster := at_time (clockAt 12) (demoPass e0).
Definition e2 : Cluster := at_time (clockAt 30) e1.

Definition lastClients : gmap nat (Client * Time) :=
  <[0%nat := polled e1 (demoClient, clock e1)]> (<[0%nat := (demoClient, clock e1)]> ∅).

Example demo_deletion :
  ringOf demo e1 = mkRing 2 [] ∧ stores e2 = true ∧ stores (demoPass e2) = false ∧ hasPod (demoPass e2) 0 = true.
Proof. vm_compute. done. Qed.

Lemma e0_history : nsteps (step demo) 8 (mkSystem d0 ∅) (mkSystem e0 ∅).
Proof.
  apply (nsteps_trans 7 1) with (mkSystem d3 ∅); [apply demo_up|]. eapply nsteps_l; [|apply nsteps_O].
  apply step_delete; [apply demo_stored; vm_compute; reflexivity|vm_compute; reflexivity].
Qed.

Lemma e2_history : nsteps (step demo) 13 (mkSystem d0 ∅) (mkSystem e2 lastClients).
Proof.
  apply (nsteps_trans 8 5) with (mkSystem e0 ∅); [apply e0_history|].
  eapply nsteps_l; [apply demo_pass|].
  eapply nsteps_l; [apply (demo_tick (clockAt 12)); [vm_compute; done|by apply clockAt_sane]|].
  eapply nsteps_l; [apply (step_join demo _ _ 0 demoClient); done|].
  eapply nsteps_l; [apply (step_poll demo _ _ 0 (demoClient, clock e1)); apply lookup_insert_eq|].
  eapply nsteps_l; [apply (demo_tick (clockAt 30)); [vm_compute; done|by apply clockAt_sane]|]. apply nsteps_O.
Qed.

Lemma deletion_contract_witness :
  Members (ringOf demo (demoPass e2)) = [] ∧
  ∀ key, Lookup (polled e1 (demoClient, clock e1)).1 key ≠
    Some (inr (pod_Name (podIn (demoPass e2) 0) +:+ "." +:+
      cl_serviceFQDN (polled e1 (demoClient, clock e1)).1)).
Proof.
  destruct (deletion_contract demo (mkSystem d0 ∅) 13 e2 lastClients (demoCache e2) (demoPass e2)) as [Hm H].
  - exact demo_initial.
  - exact e2_history.
  - vm_compute. reflexivity.
  - apply demo_stored. vm_compute. reflexivity.
  - vm_compute. discriminate.
  - reflexivity.
  - vm_compute. reflexivity.
  - split; [exact Hm|]. intros key. destruct (H (podKey demo 0) (podIn (demoPass e2) 0)) as [_ Hc].
    + apply podIn_stored. vm_compute. reflexivity.
    + apply (Hc 0%nat _ (polled e1 (demoClient, clock e1)).2).
      * unfold lastClients. rewrite lookup_insert_eq. f_equal.
      * rewrite polled_time by reflexivity. vm_compute. discriminate.
Defined.

Lemma deletion_completes_witness :
  cacheAt demo (run (Reconcile (reqOf demo))
    (at_time (clockAt 30) (run (Reconcile (reqOf demo)) e0).1)).1 = None ∨
  (isCrossNamespaceChild demo = true ∧ terminating demo (run (Reconcile (reqOf demo))
    (at_time (clockAt 30) (run (Reconcile (reqOf demo)) e0).1)).1 = true).
Proof.
  apply (deletion_completes demo (mkSystem d0 ∅) 8 e0 ∅ (demoCache e0) (clockAt 30)).
  - exact demo_initial.
  - exact e0_history.
  - vm_compute. reflexivity.
  - apply demo_stored. vm_compute. reflexivity.
  - vm_compute. discriminate.
  - vm_compute. reflexivity.
  - left. vm_compute. reflexivity.
  - by apply clockAt_sane.
  - vm_compute. discriminate.
Defined.

(** ** Two caches *)

(** [honest] as a test. *)
Definition honestB (o : Op) : Resp o → bool :=
  match o return Resp o → bool with
  | OGet k key => λ r, match r with
      | inl _ => true
      | inr x => bool_decide (metaKey (obj_meta k x) = (nn_Namespace key, nn_Name key))
      end
  | OListPods ns sel => λ r, match r with
      | inl _ => true
      | inr pods => forallb (λ p : Pod, bool_decide (om_Namespace (pod_meta p) = ns) &&
                                        bool_decide (sel ⊆ om_Labels (pod_meta p))) pods
      end
  | _ => λ _, true
  end.

Lemma honestB_sound o r : honestB o r = true → honest (λ _, True) o r.
Proof.
  destruct o as [k key|ns sel|k x|d|k x|k x f|a b e|]; try done.
  - destruct r as [e|x]; [done|]. intros Hb y [= <-]. by apply bool_decide_eq_true in Hb.
  - destruct r as [e|pods]; [done|]. intros Hb ps [= <-] p Hp. cbn [honestB] in Hb.
    rewrite forallb_forall in Hb. apply list_elem_of_In in Hp. specialize (Hb p Hp).
    apply andb_true_iff in Hb as [H1%bool_decide_eq_true H2%bool_decide_eq_true]. done.
Qed.

Definition demoTrace : list event := (interp server (Reconcile (reqOf demo)) d4).1.2.

(** The drained pod of the scale-down is among what the pass writes. *)
Definition writesPod (e : event) : option ObjectMeta :=
  match Footprint.written (projT1 e) with Some (KPod, m) => Some m | _ => None end.

Definition podWriteAt (n : nat) : option string := demoTrace !! n ≫= λ e, om_Name <$> writesPod e.

Lemma honest_all (t : list event) :
  forallb (λ e, honestB (projT1 e) (projT2 e)) t = true →
  Forall (λ e : event, honest (λ _, True) (projT1 e) (projT2 e)) t.
Proof.
  rewrite forallb_forall. intros Hall. apply Forall_forall. intros e He. apply honestB_sound, Hall.
  by apply list_elem_of_In.
Qed.

Lemma demoTrace_honest : Forall (λ e : event, honest (λ _, True) (projT1 e) (projT2 e)) demoTrace.
Proof. apply honest_all. vm_compute. reflexivity. Qed.

Lemma reconcile_writes_only_own_witness :
  ∃ e m cache, e ∈ demoTrace ∧ Footprint.written (projT1 e) = Some (KPod, m) ∧
    om_Name m = "orders-cache-1" ∧ owned cache KPod m.
Proof.
  assert (podWriteAt 5 = Some "orders-cache-1") as Hn by (vm_compute; reflexivity).
  unfold podWriteAt in Hn. destruct (demoTrace !! 5%nat) as [e|] eqn:He; [|discriminate Hn]. cbn in Hn.
  unfold writesPod in Hn. destruct (Footprint.written (projT1 e)) as [[[] m]|] eqn:Hw; try discriminate Hn.
  injection Hn as Hn. apply list_elem_of_lookup_2 in He.
  destruct (reconcile_writes_only_own (reqOf demo) demoTrace
    (interp server (Reconcile (reqOf demo)) d4).2 (runs_interp _ _ _) demoTrace_honest e KPod m He Hw)
    as (cache & rest & _ & _ & Hown).
  exists e, m, cache. split_and!; [exact He|exact Hw|exact Hn|exact Hown].
Defined.

(** A second cache beside the first one. *)
Definition other : DistributedCache :=
  mkCache (newMeta "sessions" "default") (Spec demo) (Status demo).

Definition bothThere : Cluster := @put KDistributedCache other d4.

Lemma bothThere_keyed : keyed bothThere.
Proof.
  destruct d4_ready as [Hrd _]. unfold keyed.
  apply (keys_insert (k := KDistributedCache) (rd_keys _ _ Hrd) (keeps_put (k := KDistributedCache) other d4)
    (store_put (k := KDistributedCache) other d4) eq_refl).
Qed.

Lemma caches_do_not_interfere_witness :
  store (run (Reconcile (reqOf (demoCache d4))) bothThere).1 KDistributedCache !! ("default", "sessions") =
    Some other.
Proof.
  apply (caches_do_not_interfere (demoCache d4) other bothThere) with (k := KDistributedCache).
  - exact bothThere_keyed.
  - assert (store bothThere KDistributedCache !! (dc_Namespace demo, dc_Name demo) =
      store d4 KDistributedCache !! (dc_Namespace demo, dc_Name demo)) as Hs.
    { unfold bothThere. rewrite (store_put (k := KDistributedCache)). by apply lookup_insert_ne. }
    assert ((dc_Namespace (demoCache d4), dc_Name (demoCache d4)) = (dc_Namespace demo, dc_Name demo)) as ->
      by (vm_compute; reflexivity).
    refine (eq_trans Hs (demo_stored d4 _)). vm_compute. reflexivity.
  - vm_compute. discriminate.
  - vm_compute. discriminate.
  - exact eq_refl.
  - unfold bothThere. rewrite (store_put (k := KDistributedCache)).
    exact (lookup_insert_eq (store d4 KDistributedCache) ("default", "sessions") other).
Defined.

(** ** Watches *)

(** The builder's watches, executable. *)
Definition refEnqueue (c : Controller) (k : Kind) (o : obj k) : list NamespacedName :=
  let m := obj_meta k o in
  if bool_decide (k = ctl_For c) then [mkNN (om_Namespace m) (om_Name m)]
  else if bool_decide (k ∈ ctl_Owns c) then
    (λ r, mkNN (om_Namespace m) (or_Name r)) <$>
      filter (λ r, or_Controller r = true ∧ or_Group r = (resourceOf (ctl_For c)).1 ∧
        or_Kind r = kindName (ctl_For c)) (om_OwnerReferences m)
  else [].

#[refine] Definition refEvents : EventLib := {| enqueue := refEnqueue |}.
Proof.
  - intros c o. unfold refEnqueue. by rewrite bool_decide_true.
  - intros c k o req Hk Hne. unfold refEnqueue. rewrite bool_decide_false, bool_decide_true by done.
    rewrite list_elem_of_fmap. setoid_rewrite list_elem_of_filter. naive_solver.
  - intros c k o Hk Hne. unfold refEnqueue. by rewrite !bool_decide_false by done.
Defined.

Lemma owned_children_wake_cache_witness :
  reqOf demo ∈ refEnqueue SetupWithManager KService
    (mkService (om_set_Owners [ownerOf demo] (om_set_Labels (stampLabels demo "cache") (newMeta "orders-cache" "default")))
       (mkServiceSpec ClusterIPNone (podLabels demo) cacheServicePorts false)).
Proof.
  destruct (owned_children_wake_cache (EL := refEvents) demo) as [H _]; [reflexivity|].
  apply (H (mkService (newMeta "orders-cache" "default") (mkServiceSpec "" ∅ [] false))); reflexivity.
Defined.

Lemma ring_and_pods_unwatched_witness :
  refEnqueue SetupWithManager KConfigMap (mkConfigMap (newMeta "orders-cache-ring" "default") ∅) = [].
Proof. apply (ring_and_pods_unwatched (EL := refEvents)). Defined.

(** A cache in a cell, after its first pass. *)
Definition cellDemo : DistributedCache := finalized (sampleCache 2 true).

Lemma cells_are_polled_witness :
  ∃ c', run (Reconcile (reqOf cellDemo)) (@put KDistributedCache cellDemo (emptyCluster (clockAt 0))) =
    (c', (requeueAfter 10, None)).
Proof.
  destruct (cells_are_polled (EL := refEvents) cellDemo
    (@put KDistributedCache cellDemo (emptyCluster (clockAt 0)))) as (_ & _ & c' & Hr).
  - reflexivity.
  - apply ready_fresh.
  - intros key p Hl. discriminate Hl.
  - vm_compute. discriminate.
  - reflexivity.
  - apply (bool_decide_unpack _). vm_compute. exact I.
  - exists c'. rewrite Hr. reflexivity.
Defined.
