(* ===== verification/ConcurrentScenario.v ===== *)
(** * A concrete history with interleaving

    The scale-down and the deletion of [SystemScenario], with passes that crash, calls
    whose answers are lost and other writers between two calls: the witnesses of the
    claims of [Concurrent] and [RingRely]. *)

From S2P Require Import Prelude GoLib Json Api Kube KubeRef Names Ring Cell Workload Status.
From S2P Require Import RingPublish Drain Reconciler Stages Footprint Converge Interrupt Teardown Recover HashRing Client Setup.
From S2P Require Import System Contract Rely Interleave Concurrent RingRely Scenario SystemScenario.

#[local] Existing Instance refKube.
#[local] Existing Instance merge_SliceSort.
Local Open Scope Z_scope.

Abbreviation demoProg := (prog (Result * option goerror)).

(** The cluster and the rest of the program after [n] answered calls. *)
Fixpoint advance (n : nat) (p : demoProg) (c : Cluster) : Cluster * demoProg :=
  match n, p with
  | S n, Vis o k => advance n (k (server o c).2) (server o c).1
  | _, _ => (c, p)
  end.

Definition midPass (read : option DistributedCache) (w : Cluster * demoProg) : World :=
  mkWorld w.1 (Some (read, w.2)).

Section Moves.
Context {others : Cluster → Cluster → Prop}.

Lemma advance_moves n read p c :
  bsteps (move demo others) n (midPass read (c, p)) (midPass read (advance n p c)).
Proof.
  revert p c. induction n as [|n IH]; intros p c; [apply bsteps_refl|]. destruct p as [a|o k]; [apply bsteps_refl|].
  eapply bsteps_l; [apply move_call, answered|]. apply IH.
Qed.

(** The pass over the stored cache, up to its [n]-th call after the read. *)
Definition during (n : nat) (c : Cluster) : Cluster * demoProg := advance n (afterRead (inr (demoCache c))) c.

Lemma during_moves n c :
  stores c = true → bsteps (move demo others) (S n) (mkWorld c None) (midPass (Some (demoCache c)) (during n c)).
Proof.
  intros Hc. eapply bsteps_l; [|apply advance_moves].
  pose proof (move_begin demo others c c (inr (demoCache c))) as H. apply H.
  assert ((server (OGet KDistributedCache (reqOf demo)) c).2 = inr (demoCache c)) as <-.
  { exact (f_equal (λ x : option DistributedCache, match x with Some d => inr d | None => notFound end)
      (demo_stored c Hc)). }
  apply answered.
Qed.

(** The cluster when the next call has taken effect. *)
Definition afterCall (w : Cluster * demoProg) : Cluster :=
  match w.2 with Vis o _ => (server o w.1).1 | Ret _ => w.1 end.

Definition nextTag (w : Cluster * demoProg) : option tag :=
  match w.2 with Vis o _ => Some (op_tag o) | Ret _ => None end.

(** A call takes effect but its answer is lost. *)
Lemma lost_call w read :
  nextTag w ∉ [None; Some TEvent; Some TNow] →
  ∃ rest, move demo others (midPass read w) (midPass read (afterCall w, rest)).
Proof.
  destruct w as [c [a|o cont]]; unfold nextTag; cbn [snd]; [set_solver|]. intros Ho.
  destruct o; try (exfalso; cbn [op_tag] in Ho; set_solver);
    eexists; apply move_call, answer_lost; by exists (ApiError false "timeout").
Qed.

Lemma lost_and_crashed w read :
  nextTag w ∉ [None; Some TEvent; Some TNow] →
  bsteps (move demo others) 2 (midPass read w) (mkWorld (afterCall w) None).
Proof.
  intros Hw. destruct (lost_call w read Hw) as [rest Hm].
  eapply bsteps_l; [exact Hm|]. eapply bsteps_l; [apply move_crash|]. apply bsteps_refl.
Qed.

(** One move of the others. *)
Lemma others_move c c' p :
  env demo (wantedNow (mkWorld c p)) c c' → others c c' → bsteps (move demo others) 1 (mkWorld c p) (mkWorld c' p).
Proof. intros He Ho. eapply bsteps_l; [by apply move_others|apply bsteps_refl]. Qed.

End Moves.

Lemma demo_ok : okWorld demo (mkWorld d0 None).
Proof. apply initial_ok, demo_initial. Qed.

(** ** Scale-down

    The pass annotates the pod, the answer to that call is lost and the operator
    crashes. At the next pass the grace period is over; between its listing and its
    write to the StatefulSet the other pod goes away and comes back. *)

Definition f0 : Cluster * demoProg := during 4 d4.
Definition f1 : Cluster := afterCall f0.
Definition f2 : Cluster := at_time (clockAt 30) f1.
Definition f3 : Cluster * demoProg := during 4 f2.
Definition f4 : Cluster := @put KPod (freshPod demo 0) (remove KPod (podKey demo 0) f3.1).
Definition f5 : Cluster := (run f3.2 f4).1.

Example interleaved_run :
  pod_Annotations (podIn d4 1) !! drainAnnotation = None ∧
  pod_Annotations (podIn f1 1) !! drainAnnotation = Some "1000" ∧
  replicasOf demo f4 = Some 2 ∧ replicasOf demo f5 = Some 1 ∧ hasPod f5 1 = true.
Proof. vm_compute. done. Qed.

Lemma interleaved_history : rtc (move demo anything) (mkWorld d0 None) (mkWorld f5 None).
Proof.
  etransitivity; [apply (history_moves demo anything 8 (mkSystem d0 ∅) (mkSystem d4 ∅) (λ _ _, I) d4_history), demo_ok|].
  etransitivity; [apply (rtc_bsteps_2 5), (during_moves 4); vm_compute; reflexivity|].
  etransitivity; [apply (rtc_bsteps_2 2), lost_and_crashed; apply (bool_decide_unpack _); vm_compute; exact I|]. fold f0 f1.
  eapply rtc_l; [apply move_others; [|exact I]; apply (env_tick demo _ _ (clockAt 30)); [left; vm_compute; reflexivity|by apply clockAt_sane]|].
  etransitivity; [apply (rtc_bsteps_2 5), (during_moves 4); vm_compute; reflexivity|]. fold f2 f3.
  eapply rtc_l; [apply move_others; [apply (env_gone demo _ _ (podKey demo 0))|exact I]|].
  eapply rtc_l; [apply move_others; [apply (env_create demo _ _ 0 2)|exact I]|apply run_moves].
  - split; vm_compute; reflexivity.
  - vm_compute. reflexivity.
  - lia.
  - vm_compute. reflexivity.
Qed.

Lemma uncovered_pods_always_drained_witness :
  replicasOf demo f5 = Some 1 ∧ drained (graceOf demo) (clock f5) (podIn f5 1).
Proof.
  assert (replicasOf demo f5 = Some 1) as Hr by (vm_compute; reflexivity). split; [exact Hr|].
  apply (uncovered_pods_always_drained demo d0 (mkWorld f5 None) 1 1).
  - exact demo_initial.
  - exact interleaved_history.
  - exact Hr.
  - lia.
  - apply podIn_stored. vm_compute. reflexivity.
Defined.

(** What is excluded: a pod that the pass gives up comes back between the listing and
    the write. It is given up without having been drained. *)
Example doomed_pod_comes_back :
  hasPod (remove KPod (podKey demo 1) d4) 1 = false ∧
  (let w := during 4 (remove KPod (podKey demo 1) d4) in
   let c := @put KPod (freshPod demo 1) w.1 in
   replicasOf demo c = Some 2 ∧ replicasOf demo (run w.2 c).1 = Some 1 ∧ hasPod (run w.2 c).1 1 = true ∧
   pod_Annotations (podIn (run w.2 c).1 1) !! drainAnnotation = None).
Proof. vm_compute. done. Qed.

(** ** Deletion

    The pass that ends a deletion, at the call that takes the finalizer off. *)

Definition g0 : Cluster * demoProg := during 4 e2.
Definition g1 : Cluster := afterCall g0.

Lemma g0_history : rtc (move demo anything) (mkWorld d0 None) (midPass (Some (demoCache e2)) g0).
Proof.
  etransitivity; [apply (history_moves demo anything 13 (mkSystem d0 ∅) (mkSystem e2 lastClients) (λ _ _, I) e2_history), demo_ok|].
  apply (rtc_bsteps_2 5), (during_moves 4). vm_compute. reflexivity.
Qed.

Lemma lets_go_only_of_drained_pods_witness :
  letsGo demo g0.1 g1 = true ∧ hasPod g1 0 = true ∧ drained (graceOf demo) (clock g1) (podIn g1 0).
Proof.
  assert (letsGo demo g0.1 g1 = true) as Hgo by (vm_compute; reflexivity).
  assert (hasPod g1 0 = true) as Hpod by (vm_compute; reflexivity). split; [exact Hgo|]. split; [exact Hpod|].
  destruct (lost_call (others := anything) g0 (Some (demoCache e2))) as [rest Hm];
    [apply (bool_decide_unpack _); vm_compute; exact I|].
  apply (lets_go_only_of_drained_pods demo d0 (midPass (Some (demoCache e2)) g0) _) with (key := podKey demo 0) (3 := Hm).
  - exact demo_initial.
  - exact g0_history.
  - exact Hgo.
  - apply podIn_stored. exact Hpod.
Defined.

(** ** Ring versions

    The first pass that finds pods publishes the ring, its answer is lost and the
    operator crashes. The next pass finds the ring there and keeps its version. *)

Definition h1 : Cluster := (during 20 d0).1.
Definition h2 : Cluster := (during 20 h1).1.
Definition h3 : Cluster := runPod 0 (@put KPod (freshPod demo 0) h2).
Definition h4 : Cluster * demoProg := during 5 h3.
Definition h5 : Cluster := afterCall h4.
Definition h6 : Cluster := (during 20 h5).1.

Example lost_publication :
  nextTag h4 = Some (TCreateOrUpdate KConfigMap) ∧
  ringOf demo h2 = mkRing 0 [] ∧ ringOf demo h5 = mkRing 1 ["orders-cache-0"].
Proof. vm_compute. done. Qed.

(** A pass that runs to its end, then stops. *)
Lemma whole_pass others c :
  stores c = true → bsteps (move demo others) 22 (mkWorld c None) (mkWorld (during 20 c).1 None).
Proof.
  intros Hc. apply (bsteps_trans 21 1 _ (midPass (Some (demoCache c)) (during 20 c))); [by apply (during_moves 20)|].
  eapply bsteps_l; [apply move_crash|apply bsteps_refl].
Qed.

Lemma h3_history : bsteps (move demo (ringKept demo)) (22 + (22 + 2)) (mkWorld d0 None) (mkWorld h3 None).
Proof.
  eapply bsteps_trans; [apply whole_pass; vm_compute; reflexivity|].
  eapply bsteps_trans; [apply whole_pass; vm_compute; reflexivity|]. fold h1 h2.
  apply (bsteps_trans 1 1 _ (mkWorld (@put KPod (freshPod demo 0) h2) None)); apply others_move; try reflexivity.
  - apply (env_create demo _ _ 0 2); [exact I|vm_compute; reflexivity|lia|vm_compute; reflexivity].
  - apply (env_kubelet demo _ _ (podKey demo 0) (freshPod demo 0) PodRunning demoReady). vm_compute. reflexivity.
Qed.

Lemma h5_history : bsteps (move demo (ringKept demo)) (46 + (6 + 2)) (mkWorld d0 None) (mkWorld h5 None).
Proof.
  eapply bsteps_trans; [apply h3_history|].
  eapply bsteps_trans; [apply (during_moves 5); vm_compute; reflexivity|]. fold h4.
  apply lost_and_crashed. apply (bool_decide_unpack _). vm_compute. exact I.
Qed.

Lemma ring_versions_survive_interleaving_witness :
  Version (ringOf demo h5) = 1 ∧ Version (ringOf demo h6) = 1 ∧ Members (ringOf demo h6) = ["orders-cache-0"].
Proof.
  assert (ringOf demo h5 = mkRing 1 ["orders-cache-0"]) as H5 by (vm_compute; reflexivity).
  assert (Version (ringOf demo h6) = 1) as H6 by (vm_compute; reflexivity).
  destruct (proj1 (bsteps_nsteps _ _ _) h5_history) as (n & Hn & Hs).
  destruct (proj1 (bsteps_nsteps _ _ _) (during_moves 20 h5 (others := ringKept demo)
    ltac:(vm_compute; reflexivity))) as (m & Hm & Hs').
  split; [by rewrite H5|]. split; [exact H6|].
  destruct (ring_versions_survive_interleaving demo d0 n m (mkWorld h5 None) _ demo_initial Hs Hs') as [_ Hmem].
  - lia.
  - change (Version (ringOf demo h5) = Version (ringOf demo h6) →
      Members (ringOf demo h5) = Members (ringOf demo h6)) in Hmem.
    rewrite H6, H5 in Hmem. symmetry. by apply Hmem.
Defined.

(** ** A client

    It polls the ring whose publication was never answered, then a second pod comes
    up, a pass publishes the next ring, and the client polls again. *)

Lemma watched n w w' cl :
  bsteps (move demo (ringKept demo)) n w w' → bsteps (observed demo) n (w, cl) (w', cl).
Proof.
  induction 1 as [n w|n w1 w2 w3 Hm _ IH]; [apply bsteps_refl|].
  eapply bsteps_l; [by apply obs_move|exact IH].
Qed.

Definition k0 : Client := (run (pollOnce demoClient) h5).2.2.
Definition k1 : Cluster := runPod 1 (@put KPod (freshPod demo 1) h5).
Definition k2 : Cluster := (during 20 k1).1.

Lemma k1_history : bsteps (move demo (ringKept demo)) 2 (mkWorld h5 None) (mkWorld k1 None).
Proof.
  apply (bsteps_trans 1 1 _ (mkWorld (@put KPod (freshPod demo 1) h5) None)); apply others_move; try reflexivity.
  - apply (env_create demo _ _ 1 2); [exact I|vm_compute; reflexivity|lia|vm_compute; reflexivity].
  - apply (env_kubelet demo _ _ (podKey demo 1) (freshPod demo 1) PodRunning demoReady). vm_compute. reflexivity.
Qed.

Lemma client_history :
  bsteps (observed demo) (54 + (1 + (2 + 22))) (mkWorld d0 None, demoClient) (mkWorld k2 None, k0).
Proof.
  eapply bsteps_trans; [apply watched, h5_history|].
  eapply bsteps_trans; [eapply bsteps_l; [apply obs_poll|apply bsteps_refl]|]. cbn [at_server]. fold k0.
  eapply bsteps_trans; [apply watched, k1_history|]. apply watched, whole_pass. vm_compute. reflexivity.
Qed.

Definition ringMapOf (c : Cluster) : ConfigMap := default (mkConfigMap (newMeta "" "") ∅) (ringMap demo c).

Lemma ringMap_stored c :
  bool_decide (is_Some (ringMap demo c)) = true → store c KConfigMap !! ringKey demo = Some (ringMapOf c).
Proof. intros Hb%bool_decide_eq_true. unfold ringMapOf. destruct Hb as [cm Hcm]. by rewrite Hcm. Qed.

Lemma clients_follow_through_failures_witness :
  cl_ring k0 = Some (buildRing (mkRing 1 ["orders-cache-0"])) ∧
  cl_ring (run (pollOnce k0) k2).2.2 = Some (buildRing (mkRing 2 ["orders-cache-0"; "orders-cache-1"])).
Proof.
  assert (ringOf demo k2 = mkRing 2 ["orders-cache-0"; "orders-cache-1"]) as <- by (vm_compute; reflexivity).
  split; [vm_compute; reflexivity|].
  destruct (proj1 (bsteps_nsteps _ _ _) client_history) as (n & Hn & Hs).
  apply (clients_follow_through_failures demo d0 n (mkWorld k2 None)
    (mkConfig (mkNN "default" "orders-cache-ring") "orders-cache.default.svc.cluster.local" 0) k0 (ringMapOf k2)).
  - exact demo_initial.
  - reflexivity.
  - exact Hs.
  - lia.
  - apply ringMap_stored. vm_compute. reflexivity.
Defined.
